(* ===== verification/_CoqProject ===== *)
-Q . S2P
Prelude.v
KArray.v
Bitmap.v
Endian.v
CopyInOut.v
CString.v
LongLong.v
QDivRem.v
Uio.v
Threadlist.v
Spinlock.v
Thread.v
Sched.v
Synch.v
Lhd.v
Lock.v
BigLock.v
SfsTypes.v
SfsBlock.v
SfsBmap.v
SfsFile.v
SfsDir.v
