(* ===== verification/Prelude.v ===== *)
(** * A verification of parts of the OS/161 kernel

    ** The program

    The repository is OS/161, a teaching operating system: a kernel (src/kern)
    for a 32-bit MIPS machine with a bus of simple devices, a C library shared
    by kernel and user programs (src/common) and user programs
    (src/userland).  The parts that this library covers fit together as
    follows.  The simple file system SFS (src/kern/fs/sfs) stores directories,
    files and a free block map on a volume.  It moves data in requests
    ([struct uio], src/kern/lib/uio.c) that the disk driver
    (src/kern/dev/lamebus/lhd.c) serves one sector at a time, and it keeps its
    free blocks in a bitmap (src/kern/lib/bitmap.c).  Every entry to the file
    system holds the recursive lock [vfs_biglock] (src/kern/vfs/vfslist.c),
    made from a sleep lock (src/kern/thread/synch.c); the driver waits for its
    disk with semaphores of the same file.  Threads that wait sleep on wait
    channels, which are the scheduler's (src/kern/thread/thread.c): it moves
    threads between processors, run queues and channels.  These are doubly
    linked lists (src/kern/thread/threadlist.c) that are protected by spinlocks
    (src/kern/thread/spinlock.c), which rely on the interrupt levels of
    src/kern/thread/spl.c.  Below all of it are the string and memory
    functions of src/common/libc, the 64-bit arithmetic that the compiler calls
    (src/common/gcc-millicode), resizable arrays, byte order and copies between
    user and kernel memory.

    ** How code is modelled

    A C function becomes a Rocq function with the same name.  A value of an
    unsigned type is the [Z] it denotes and arithmetic is wrapped explicitly
    ([u8], [u16], [u32], [u64]); a function that can fail is a computation
    [M S A] on the state [S] it works on, which ends in [Ok], in [Err] with an
    error code and the state it leaves behind, or in [Crash] (a panic, undefined
    behaviour, or a loop that used up its fuel).  [wp] states what a
    computation does in each of these cases; the theorems rule the crashes out.

    ** Files

    - [Prelude]: machine integers, error codes, the computations and [wp], arrays
      as lists, masks of bits.
    - [KArray]: [struct array] of kern/lib/array.c and kern/include/array.h.
      Adding and removing refine operations on lists; the growth loop does not
      end for more than 2^31 elements.
    - [Bitmap]: kern/lib/bitmap.c.  Allocation returns the first free bit and
      changes nothing else.
    - [Endian]: kern/lib/bswap.c and kern/lib/time.c.
    - [CopyInOut]: kern/vm/copyinout.c; user memory is a partial map and a fault
      takes the code back to its [setjmp].
    - [CString]: the string functions of common/libc, [memcpy], [memmove],
      [memset], [bzero], [atoi]; the memory functions work on a map of bytes
      with the word accesses of the code.
    - [LongLong], [QDivRem]: common/gcc-millicode.  The functions on pairs of
      words compute in the ring of integers modulo 2^64; the division is
      Knuth's Algorithm D on arrays of digits.
    - [Uio]: [uiomove], [uiomovezeros] and [uio_kinit] of kern/lib/uio.c.
    - [Threadlist]: kern/thread/threadlist.c and the macros of
      kern/include/threadlist.h.  The nodes of all lists are in one memory;
      [tl_repr] relates it to a sequence of threads per list and the operations
      refine operations on sequences.
    - [Spinlock]: kern/thread/spl.c, kern/thread/spinlock.c and the MIPS
      test-and-set.  [step] interleaves the processors; the theorems are
      mutual exclusion, that the checks in the code are exact, that interrupts
      are off whenever a lock is held, and progress.
    - [Thread]: the state of the scheduler and the operations of
      kern/thread/thread.c on it: creating, switching, ending threads, wait
      channels, migration.  [kinv] is the invariant: every thread is on the
      processor or the list that its state names.
    - [Sched]: what the operations do, and a system of any number of processors
      that call them in any order ([run_op], [reach]).  No operation crashes,
      yielding goes round robin, channels are first in first out, forking and
      migration lose and invent no thread.
    - [Synch]: semaphores and locks of kern/thread/synch.c on top of [Sched], for
      any object of the class [Waitable].  Counts are conserved, no wakeup is
      lost, and locks exclude as long as only holders release them, which the
      code does not check.
    - [Lhd]: the disk driver kern/dev/lamebus/lhd.c.  The disk is a parameter,
      the class [DiskHw].  [lstep] interleaves any number of threads with the
      disk and its interrupt: one operation at a time, no completion lost.
    - [Lock]: the big lock as one thread sees it, which the file system files
      use; [BigLock]: [vfs_biglock] of kern/vfs/vfslist.c on top of [Synch], that
      [Lock] is a right view of it, and that it works in one thread only.
    - [SfsTypes]: the structures of kern/include/kern/sfs.h and their bytes.
    - [SfsBlock]: block I/O with retries and the block allocator (sfs_io.c,
      sfs_balloc.c).
    - [SfsBmap]: [sfs_bmap] and [sfs_itrunc] (sfs_bmap.c).
    - [SfsFile]: [sfs_partialio], [sfs_blockio], [sfs_io], [sfs_metaio]
      (sfs_io.c).  Reads and writes refine operations on the list of bytes that
      a file is.
    - [SfsDir]: sfs_dir.c.  A directory refines a finite map from names to inode
      numbers.

    ** Assumptions

    Two assumptions about the disk are named where they are used.
    [DiskAnswers]: every command ends with a status that lhd.c knows.
    [WorkingDisk]: commands on sectors that exist succeed.  The second excludes
    media errors, and all the theorems about what SFS operations do
    ([SfsBlock] to [SfsDir]) have it, except for the one that says that a
    failed write is reported as a success, which is about the other disks.
    Those theorems are also about a thread that holds the big lock, which the
    lock only believes of the thread that created it; about volumes of at most
    2^23 blocks where whole blocks are moved, as the code computes the place of
    a block on the disk in 32 bits; and about requests whose memory can be
    accessed.

    ** Interfaces

    The driver is proved against the interface [DiskHw] of the device,
    semaphores and locks against the class [Waitable], the block layer against what the driver promises, and each layer of the file
    system against the [_wp] lemmas of the layer below: [SfsBmap] uses
    [SfsBlock], [SfsFile] uses [SfsBmap] and [Uio], [SfsDir] uses [SfsFile] and
    [CString].

    ** Bounds and fuel

    Loops over arrays and blocks take their number of rounds from the code.
    The loops that are not bounded by the code have fuel: 34 rounds for the
    growth of an array (32 doublings reach every size), 16 for the
    normalisation and 3 for the quotient digit of the division, the length of
    the string for [strtok_r], more than the length of the list for the
    iteration over a thread list, 11 tries for a block that is read again
    after an I/O error, which is where the code gives up.  The theorems show
    that this fuel is enough.  The loops over thread lists in [Thread] have
    the number of threads as fuel.

    An operation of the scheduler is one step of [Sched]: other processors act
    between operations, not inside them.  This is coarser than the code for the
    operations with several critical sections (migration, [wchan_wakeall],
    [thread_fork], [thread_exit]).

    ** Not modelled

    Register contexts and stacks, traps and other machine-dependent code (assembly and
    registers); devices other than the disk, whose behaviour is not described
    in the sources; the VFS dispatch tables, SFS inode handling and mounting,
    the kernel allocator, processes and program loading; printf; the user
    programs, which call a kernel that implements almost none of their system
    calls; condition variables, reader-writer locks, address spaces and the
    synchronisation problems, which are stubs in this tree; test programs.
    Of the scheduler, start-up and shutdown.  Memory is sequentially consistent
    in the interleaving of processors. *)

From stdpp Require Export base numbers list option gmap tactics.
#[global] Open Scope Z_scope.

(** ** Machine integers

    The kernel runs on a 32-bit MIPS: [unsigned], [uint32_t], [size_t] and
    [daddr_t] are 32 bits wide, [off_t] is a signed 64-bit integer.  A value
    of an unsigned type is kept as the [Z] it denotes; an arithmetic result
    is put back in range by [u8], [u16], [u32] or [u64]. *)

Definition u8 (z : Z) : Z := z mod 256.
Definition u16 (z : Z) : Z := z mod 65536.
Definition u32 (z : Z) : Z := z mod 4294967296.
Definition u64 (z : Z) : Z := z mod 18446744073709551616.

Definition is_u8 (z : Z) : Prop := 0 ≤ z < 256.
Definition is_u16 (z : Z) : Prop := 0 ≤ z < 65536.
Definition is_u32 (z : Z) : Prop := 0 ≤ z < 4294967296.
Definition is_u64 (z : Z) : Prop := 0 ≤ z < 18446744073709551616.

(** [DIVROUNDUP(a,b)] on [unsigned] operands: the addition wraps. *)
Definition DIVROUNDUP (a b : Z) : Z := u32 (u32 (a + b) - 1) / b.

(** ** Error numbers: the [E*] constants of kern/errno.h. *)

Inductive errno :=
  | ENOSYS | ENOMEM | EAGAIN | EINTR | EFAULT | ENAMETOOLONG | EINVAL | EPERM
  | EACCES | EMPROC | ENPROC | ENOEXEC | E2BIG | ESRCH | ECHILD | ENOTDIR
  | EISDIR | ENOENT | ELOOP | ENOTEMPTY | EEXIST | EMLINK | EXDEV | ENODEV
  | ENXIO | EBUSY | EMFILE | ENFILE | EBADF | EIOCTL | EIO | ESPIPE | EPIPE
  | EROFS | ENOSPC | EDQUOT | EFBIG | EFTYPE | EDOM | ERANGE | EILSEQ
  | ENOTSOCK | EISSOCK | EISCONN | ENOTCONN | ESHUTDOWN | EPFNOSUPPORT
  | ESOCKTNOSUPPORT | EPROTONOSUPPORT | EPROTOTYPE | EAFNOSUPPORT
  | ENOPROTOOPT | EADDRINUSE | EADDRNOTAVAIL | ENETDOWN | ENETUNREACH
  | EHOSTDOWN | EHOSTUNREACH | ECONNREFUSED | ETIMEDOUT | ECONNRESET
  | EMSGSIZE | ENOTSUP.

#[global] Instance errno_eq_dec : EqDecision errno.
Proof. solve_decision. Defined.

(** ** Outcomes of kernel code

    A kernel function that returns an [int] error code is a computation
    [M S A] over the state [S] it reads and writes.  It ends in [Ok] (the C
    function returned 0, with its result), in [Err] (it returned an error
    code; the state is the one it left behind, which need not be the initial
    one), in [Crash CPanic] ([panic] was called or a [KASSERT] failed), in
    [Crash CUndef] (the C program has no defined behaviour: a null or wild
    pointer, an index out of range) or in [Crash CLoop] (a loop used up the
    fuel the model gives it). *)

Inductive crash := CPanic | CUndef | CLoop.

Inductive res (S A : Type) : Type :=
  | Ok (a : A) (s : S)
  | Err (e : errno) (s : S)
  | Crash (c : crash).
Arguments Ok {S A} a s.
Arguments Err {S A} e s.
Arguments Crash {S A} c.

Definition M (S A : Type) : Type := S → res S A.

Definition ret {S A} (a : A) : M S A := λ s, Ok a s.
Definition fail {S A} (e : errno) : M S A := λ s, Err e s.
Definition panic {S A} : M S A := λ _, Crash CPanic.
Definition undef {S A} : M S A := λ _, Crash CUndef.
Definition loops {S A} : M S A := λ _, Crash CLoop.
Definition get {S} : M S S := λ s, Ok s s.
Definition gets {S A} (f : S → A) : M S A := λ s, Ok (f s) s.
Definition put {S} (s' : S) : M S unit := λ _, Ok tt s'.
Definition modify {S} (f : S → S) : M S unit := λ s, Ok tt (f s).

(** [result = m; if (result) return result; ... k ...] *)
Definition bind {S A B} (m : M S A) (k : A → M S B) : M S B := λ s,
  match m s with
  | Ok a s' => k a s'
  | Err e s' => Err e s'
  | Crash c => Crash c
  end.

(** [result = m;] where the code goes on to inspect [result]. *)
Definition attempt {S A} (m : M S A) : M S (errno + A) := λ s,
  match m s with
  | Ok a s' => Ok (inr a) s'
  | Err e s' => Ok (inl e) s'
  | Crash c => Crash c
  end.

(** [KASSERT(b)] *)
Definition KASSERT {S} (b : bool) : M S unit := if b then ret tt else panic.

(** A read that has no defined result when the option is [None]. *)
Definition deref {S A} (o : option A) : M S A :=
  match o with Some a => ret a | None => undef end.

(** Runs a computation on a component of the state. *)
Definition zoom {S T A} (proj : S → T) (inj : T → S → S) (m : M T A) : M S A :=
  λ s, match m (proj s) with
       | Ok a t => Ok a (inj t s)
       | Err e t => Err e (inj t s)
       | Crash c => Crash c
       end.

Declare Scope os_scope.
Delimit Scope os_scope with os.
Notation "x <- m ;; k" := (bind m (λ x, k))
  (at level 100, m at next level, right associativity) : os_scope.
Notation "m ;;; k" := (bind m (λ _, k))
  (at level 100, right associativity) : os_scope.
Open Scope os_scope.

(** [for (i = lo; i < lo + n; i++) body(i)] *)
Fixpoint for_range {S} (n : nat) (lo : Z) (body : Z → M S unit) : M S unit :=
  match n with
  | O => ret tt
  | Datatypes.S n' => body lo ;;; for_range n' (lo + 1) body
  end.

(** ** Arrays of C as lists

    [splice l i xs] is [l] after [memcpy(l + i, xs, |xs|)]: the elements from
    index [i] on are overwritten by [xs]. *)
Definition splice {A} (l : list A) (i : nat) (xs : list A) : list A :=
  take i l ++ xs ++ drop (i + length xs) l.

(** The [n] elements of [l] that start at index [i]. *)
Definition slice {A} (l : list A) (i n : nat) : list A := take n (drop i l).

(** ** Automation *)

Create HintDb os.

(** Rewrites every [bind] of the goal and the hypotheses on the outcome of
    its first computation. *)
Ltac mstep :=
  repeat match goal with
  | H : context [bind ?m ?k ?s] |- _ =>
      unfold bind at 1 in H
  | |- context [bind ?m ?k ?s] => unfold bind at 1
  end.

(** Simplifies the trivial computations. *)
Ltac msimpl :=
  unfold ret, fail, panic, undef, get, gets, put, modify, KASSERT in *;
  cbn beta iota in *.

(** Case analysis on the integer comparisons a C condition becomes. *)
Ltac zcases :=
  repeat match goal with
  | |- context [?a <? ?b] => destruct (Z.ltb_spec a b)
  | |- context [?a <=? ?b] => destruct (Z.leb_spec a b)
  | |- context [?a =? ?b] => destruct (Z.eqb_spec a b)
  | H : context [?a <? ?b] |- _ => destruct (Z.ltb_spec a b)
  | H : context [?a <=? ?b] |- _ => destruct (Z.leb_spec a b)
  | H : context [?a =? ?b] |- _ => destruct (Z.eqb_spec a b)
  end.

(** ** Outcome predicates

    [wp C m Q E s]: started in [s], the computation [m] ends in [Ok] with [Q],
    in [Err] with [E], or in a crash that [C] allows. *)

Definition wp {S A} (C : crash → Prop) (m : M S A) (Q : A → S → Prop)
    (E : errno → S → Prop) (s : S) : Prop :=
  match m s with
  | Ok a s' => Q a s'
  | Err e s' => E e s'
  | Crash c => C c
  end.

Definition no_crash (c : crash) : Prop := False.
Definition no_loop (c : crash) : Prop := c ≠ CLoop.
Definition no_err {S} (e : errno) (s : S) : Prop := False.

Section wp.
Context {S : Type}.
Implicit Types (C : crash → Prop) (s : S).

Lemma wp_bind {A B} C (m : M S A) (k : A → M S B) Q E s :
  wp C m (λ a, wp C (k a) Q E) E s → wp C (bind m k) Q E s.
Proof. unfold wp, bind. by destruct (m s). Qed.

Lemma wp_unbind {A B} C (m : M S A) (k : A → M S B) Q E s :
  wp C (bind m k) Q E s → wp C m (λ a, wp C (k a) Q E) E s.
Proof. unfold wp, bind. by destruct (m s). Qed.

Lemma wp_mono {A} C C' (m : M S A) Q Q' E E' s :
  wp C m Q E s → (∀ a s', Q a s' → Q' a s') → (∀ e s', E e s' → E' e s') →
  (∀ c, C c → C' c) → wp C' m Q' E' s.
Proof. unfold wp. destruct (m s); auto. Qed.

Lemma wp_attempt {A} C (m : M S A) (Q : errno + A → S → Prop) E s :
  wp C m (λ a, Q (inr a)) (λ e, Q (inl e)) s → wp C (attempt m) Q E s.
Proof. unfold wp, attempt. by destruct (m s). Qed.

Lemma wp_zoom {T A} C (proj : S → T) inj (m : M T A) Q E s :
  wp C m (λ a t, Q a (inj t s)) (λ e t, E e (inj t s)) (proj s) →
  wp C (zoom proj inj m) Q E s.
Proof. unfold wp, zoom. by destruct (m (proj s)). Qed.

Lemma wp_KASSERT C b (Q : unit → S → Prop) E s :
  b = true → Q tt s → wp C (KASSERT b) Q E s.
Proof. by intros ->. Qed.

Lemma wp_deref {A} C (o : option A) (Q : A → S → Prop) E s a :
  o = Some a → Q a s → wp C (deref o) Q E s.
Proof. by intros ->. Qed.

(** A loop keeps what its body keeps. *)
Lemma wp_for_range C n lo body (I : S → Prop) (E : errno → S → Prop) s :
  (∀ i s, lo ≤ i < lo + Z.of_nat n → I s → wp C (body i) (λ _, I) E s) →
  I s → wp C (for_range n lo body) (λ _, I) E s.
Proof.
  revert lo s. induction n as [|n IH]; intros lo s Hb Hs; [done|].
  cbn [for_range]. apply wp_bind. eapply wp_mono; [apply Hb; [lia|done]| |done..].
  intros [] s' Hs'. apply IH; [|done]. intros i s'' Hi. apply Hb. lia.
Qed.

(** A computation that satisfies [wp] with no error and no crash has a
    result. *)
Lemma wp_ok {A} (m : M S A) Q s :
  wp no_crash m Q no_err s → ∃ a s', m s = Ok a s' ∧ Q a s'.
Proof. unfold wp. destruct (m s) as [a s'| |]; [by exists a, s'|done|done]. Qed.

Lemma wp_eq {A} C (m m' : M S A) Q E s :
  m s = m' s → wp C m' Q E s → wp C m Q E s.
Proof. unfold wp. by intros ->. Qed.

Lemma wp_of_ok {A} C (m : M S A) (Q : A → S → Prop) E s a s' :
  m s = Ok a s' → Q a s' → wp C m Q E s.
Proof. unfold wp. by intros ->. Qed.

End wp.

(** Walks through the steps of a computation up to the first call that needs
    a lemma of its own. *)
Ltac wp_step :=
  match goal with
  | |- wp _ (bind _ _) _ _ _ => apply wp_bind
  | |- wp _ (ret _) _ _ _ => unfold wp at 1, ret at 1
  | |- wp _ (fail _) _ _ _ => unfold wp at 1, fail at 1
  | |- wp _ get _ _ _ => unfold wp at 1, get at 1
  | |- wp _ (gets _) _ _ _ => unfold wp at 1, gets at 1
  | |- wp _ (put _) _ _ _ => unfold wp at 1, put at 1
  | |- wp _ (modify _) _ _ _ => unfold wp at 1, modify at 1
  | |- wp _ (attempt _) _ _ _ => apply wp_attempt
  | |- wp _ (zoom _ _ _) _ _ _ => apply wp_zoom
  end.
Ltac wps := repeat (wp_step; cbn beta).

(** Uses the lemma [H] for the call at hand; leaves what follows it. *)
Tactic Notation "wp_call" uconstr(H) :=
  eapply wp_mono; [eapply H| | |].

Lemma u32_small z : is_u32 z → u32 z = z.
Proof. intros H. apply Z.mod_small. exact H. Qed.

Lemma u32_range z : is_u32 (u32 z).
Proof. apply Z.mod_pos_bound. lia. Qed.

Lemma u8_small z : is_u8 z → u8 z = z.
Proof. intros H. apply Z.mod_small. exact H. Qed.

Lemma u8_range z : is_u8 (u8 z).
Proof. apply Z.mod_pos_bound. lia. Qed.

#[export] Hint Resolve u32_range u8_range : os.

(** ** Lemmas on [splice] and [slice] *)

Section splice.
Context {A : Type}.
Implicit Types (l xs ys : list A) (i j n : nat).

Lemma splice_length l i xs :
  (i + length xs ≤ length l)%nat → length (splice l i xs) = length l.
Proof.
  intros H. unfold splice. rewrite !length_app, length_take, length_drop. lia.
Qed.

Lemma slice_length l i n :
  (i + n ≤ length l)%nat → length (slice l i n) = n.
Proof. intros H. unfold slice. rewrite length_take, length_drop. lia. Qed.

Lemma lookup_splice l i xs j :
  (i + length xs ≤ length l)%nat →
  splice l i xs !! j =
  if decide (i ≤ j < i + length xs)%nat then xs !! (j - i)%nat else l !! j.
Proof.
  intros H. unfold splice.
  assert (Hi : length (take i l) = i) by (rewrite length_take; lia).
  case_decide as Hj.
  - rewrite lookup_app_r by lia. rewrite Hi, lookup_app_l by lia. done.
  - destruct (decide (j < i)%nat) as [Hlt|Hge].
    + rewrite lookup_app_l by lia. by rewrite lookup_take_lt by lia.
    + rewrite lookup_app_r by lia. rewrite Hi, lookup_app_r by lia.
      rewrite lookup_drop. f_equal. lia.
Qed.

Lemma lookup_slice l i n j :
  slice l i n !! j = if decide (j < n)%nat then l !! (i + j)%nat else None.
Proof.
  unfold slice. case_decide.
  - by rewrite lookup_take_lt, lookup_drop by lia.
  - by rewrite lookup_take_ge by lia.
Qed.

Lemma slice_splice_same l i xs :
  (i + length xs ≤ length l)%nat → slice (splice l i xs) i (length xs) = xs.
Proof.
  intros H. apply list_eq. intros j. rewrite lookup_slice.
  case_decide as Hj.
  - rewrite lookup_splice by done. rewrite decide_True by lia. f_equal. lia.
  - symmetry. apply lookup_ge_None_2. lia.
Qed.

Lemma slice_splice_disjoint l i xs j n :
  (i + length xs ≤ length l)%nat →
  (j + n ≤ i ∨ i + length xs ≤ j)%nat →
  slice (splice l i xs) j n = slice l j n.
Proof.
  intros H Hd. apply list_eq. intros k. rewrite !lookup_slice.
  case_decide; [|done]. rewrite lookup_splice by done.
  by rewrite decide_False by lia.
Qed.

Lemma splice_slice_id l i n :
  (i + n ≤ length l)%nat → splice l i (slice l i n) = l.
Proof.
  intros H. apply list_eq. intros j.
  rewrite lookup_splice by (rewrite slice_length; lia).
  rewrite slice_length by lia. case_decide; [|done].
  rewrite lookup_slice, decide_True by lia. f_equal. lia.
Qed.

Lemma splice_insert l i x :
  (i < length l)%nat → splice l i [x] = <[i:=x]> l.
Proof.
  intros H. apply list_eq. intros j. rewrite lookup_splice by (simpl; lia).
  simpl. destruct (decide (j = i)) as [->|Hne].
  - rewrite decide_True by lia. rewrite Nat.sub_diag.
    by rewrite list_lookup_insert_eq by lia.
  - rewrite decide_False by lia. by rewrite list_lookup_insert_ne by done.
Qed.

End splice.

#[export] Hint Resolve splice_length slice_length : os.

(** ** Single-bit masks *)

Lemma mask_spec k j : 0 ≤ k → Z.testbit (Z.shiftl 1 k) j = (j =? k).
Proof.
  intros Hk. destruct (Z.eqb_spec j k) as [->|Hne].
  - by rewrite Z.shiftl_spec, Z.sub_diag by lia.
  - destruct (decide (j < 0)) as [Hj|Hj]; [by apply Z.testbit_neg_r|].
    rewrite Z.shiftl_1_l. apply Z.pow2_bits_false. lia.
Qed.

Lemma mask_clear w k :
  0 ≤ k → (Z.land w (Z.shiftl 1 k) =? 0) = negb (Z.testbit w k).
Proof.
  intros Hk. destruct (Z.testbit w k) eqn:E; cbn.
  - apply Z.eqb_neq. intros H0. apply (f_equal (λ z, Z.testbit z k)) in H0.
    rewrite Z.land_spec, mask_spec, Z.eqb_refl, E, Z.bits_0 in H0 by done.
    done.
  - apply Z.eqb_eq. apply Z.bits_inj_0. intros j.
    rewrite Z.land_spec, mask_spec by done.
    destruct (Z.eqb_spec j k) as [->|]; [by rewrite E|].
    by rewrite andb_false_r.
Qed.

Lemma mask_set w k j :
  0 ≤ k → Z.testbit (Z.lor w (Z.shiftl 1 k)) j = Z.testbit w j || (j =? k).
Proof. intros Hk. by rewrite Z.lor_spec, mask_spec. Qed.

Lemma mask_unset w k j :
  0 ≤ k → 0 ≤ j →
  Z.testbit (Z.land w (Z.lnot (Z.shiftl 1 k))) j =
  Z.testbit w j && negb (j =? k).
Proof. intros Hk Hj. by rewrite Z.land_spec, Z.lnot_spec, mask_spec. Qed.

Lemma mask_u8 k : 0 ≤ k < 8 → u8 (Z.shiftl 1 k) = Z.shiftl 1 k.
Proof.
  intros Hk. apply u8_small. rewrite Z.shiftl_1_l. split; [lia|].
  change 256 with (2 ^ 8). apply Z.pow_lt_mono_r; lia.
Qed.

(** A non-negative number is below [2^n] when its bits from [n] on are 0. *)
Lemma bits_bound z n :
  0 ≤ n → 0 ≤ z → (∀ i, n ≤ i → Z.testbit z i = false) → z < 2 ^ n.
Proof.
  intros Hn Hz Hb. destruct (decide (z < 2 ^ n)) as [|Hge]; [done|].
  assert (Hpos : 0 < z) by lia.
  assert (Hl : n ≤ Z.log2 z) by (apply Z.log2_le_pow2; lia).
  specialize (Hb (Z.log2 z) Hl). rewrite Z.bit_log2 in Hb by done. done.
Qed.

Lemma bits_high z n i : 0 ≤ z < 2 ^ n → n ≤ i → Z.testbit z i = false.
Proof.
  intros Hz Hi. destruct (decide (z = 0)) as [->|Hz0]; [apply Z.bits_0|].
  apply Z.bits_above_log2; [lia|].
  apply Z.lt_le_trans with n; [|done]. apply Z.log2_lt_pow2; lia.
Qed.

Lemma u8_bits w : is_u8 w ↔ 0 ≤ w ∧ ∀ i, 8 ≤ i → Z.testbit w i = false.
Proof.
  unfold is_u8. change 256 with (2 ^ 8). split.
  - intros H. split; [lia|]. intros i Hi. by apply (bits_high w 8).
  - intros [H1 H2]. split; [done|]. apply bits_bound; [lia|done|done].
Qed.

(** Setting the low bits of a number whose low bits are 0. *)
Lemma lor_shiftl a n b : 0 ≤ n → 0 ≤ b < 2 ^ n → Z.lor (Z.shiftl a n) b = a * 2 ^ n + b.
Proof.
  intros Hn Hb. assert (Hland : Z.land (Z.shiftl a n) b = 0).
  { apply Z.bits_inj_0. intros j. rewrite Z.land_spec.
    destruct (decide (j < 0)) as [Hj|Hj]; [by rewrite Z.testbit_neg_r|].
    destruct (decide (j < n)) as [Hlt|Hge]; [by rewrite Z.shiftl_spec_low|].
    rewrite (bits_high b n) by lia. apply andb_false_r. }
  rewrite <-(Z.lxor_lor _ _ Hland), <-(Z.add_nocarry_lxor _ _ Hland).
  by rewrite Z.shiftl_mul_pow2 by lia.
Qed.

(** Division and remainder by constants as linear facts. *)
Ltac divmod := Z.to_euclidean_division_equations; lia.
