(* ===== verification/KArray.v ===== *)
(** * Resizable arrays

    kern/lib/array.c and the inline operations of kern/include/array.h: the
    resizable array of pointers that the typed arrays of the kernel
    ([vnodearray], [cpuarray], [threadarray], ...) are instances of.  The
    last part refines the operations to operations on a plain list. *)

From S2P Require Import Prelude.
Open Scope Z_scope.

(** ** The structure and its operations *)

Section array_ops.
Context {V : Type}.

(** [struct array].  The block [arr_v] points to is a list of slots; [None] is a
    slot that was never stored to, and [NULL] is the empty block. *)
Record array := Array {
  arr_v : list (option V);
  arr_num : Z;
  arr_max : Z;
}.

(** [sizeof( *a->v )]: a pointer. *)
Definition ptr_size : Z := 4.

(** The number of whole slots in [n*sizeof( *a->v )] bytes: the product is a
    [size_t] and wraps at 32 bits. *)
Definition slots_of (n : Z) : Z := u32 (n * ptr_size) / ptr_size.

Definition array_init : array := Array [] 0 0.

(** [array_create]: [mem] says whether [kmalloc] succeeds. *)
Definition array_create (mem : bool) : option array :=
  if mem then Some array_init else None.

Definition array_cleanup : M array unit :=
  a <- get ;; KASSERT (arr_num a =? 0) ;;; put (Array [] (arr_num a) (arr_max a)).

(** [array_destroy] cleans up and frees the structure itself. *)
Definition array_destroy : M array unit := array_cleanup.

Definition array_num : M array Z := gets arr_num.

Definition array_get (index : Z) : M array (option V) :=
  a <- get ;; KASSERT (index <? arr_num a) ;;; deref (arr_v a !! Z.to_nat index).

Definition array_set (index : Z) (val : V) : M array unit :=
  a <- get ;; KASSERT (index <? arr_num a) ;;;
  (if decide (Z.to_nat index < length (arr_v a))%nat
   then put (Array (<[Z.to_nat index := Some val]> (arr_v a)) (arr_num a) (arr_max a))
   else undef).

(** [while (num > newmax) newmax = newmax ? newmax*2 : 4;] *)
Fixpoint array_newmax (fuel : nat) (num newmax : Z) : option Z :=
  match fuel with
  | O => None
  | S fuel' =>
      if newmax <? num
      then array_newmax fuel' num
             (if negb (newmax =? 0) then u32 (newmax * 2) else 4)
      else Some newmax
  end.

Definition grow_fuel : nat := 34.

(** [array_preallocate]: [mem] says whether [kmalloc] succeeds.  A copy that
    does not fit in the new block, or runs past the old one, is undefined. *)
Definition array_preallocate (mem : bool) (n : Z) : M array unit :=
  a <- get ;;
  if arr_max a <? n then
    match array_newmax grow_fuel n (arr_max a) with
    | None => loops
    | Some newmax =>
        if mem then
          let size := slots_of newmax in
          let ncopy := slots_of (arr_num a) in
          let newptr := replicate (Z.to_nat size) None in
          if decide (ncopy ≤ size ∧ ncopy ≤ Z.of_nat (length (arr_v a)))
          then put (Array (splice newptr 0 (take (Z.to_nat ncopy) (arr_v a)))
                      (arr_num a) newmax)
          else undef
        else fail ENOMEM
    end
  else ret tt.

Definition array_setsize (mem : bool) (n : Z) : M array unit :=
  array_preallocate mem n ;;; modify (λ a, Array (arr_v a) n (arr_max a)).

Definition array_add (mem : bool) (val : V) : M array Z :=
  a <- get ;;
  let index := arr_num a in
  array_setsize mem (u32 (index + 1)) ;;;
  a' <- get ;;
  (if decide (Z.to_nat index < length (arr_v a'))%nat
   then put (Array (<[Z.to_nat index := Some val]> (arr_v a')) (arr_num a') (arr_max a')) ;;;
        ret index
   else undef).

Definition array_remove (index : Z) : M array unit :=
  a <- get ;;
  KASSERT (arr_num a <=? arr_max a) ;;;
  KASSERT (index <? arr_num a) ;;;
  let num_to_move := slots_of (u32 (arr_num a - u32 (index + 1))) in
  if decide (index + 1 + num_to_move ≤ Z.of_nat (length (arr_v a)))
  then put (Array (splice (arr_v a) (Z.to_nat index)
                     (slice (arr_v a) (Z.to_nat (index + 1)) (Z.to_nat num_to_move)))
              (u32 (arr_num a - 1)) (arr_max a))
  else undef.

End array_ops.
Arguments array : clear implicits.

(** ** Well-formed arrays

    The capacity is 0 or a power of two from 4 up to [2^29]; beyond that the
    byte size of the block no longer fits in a [size_t]. *)

Definition array_limit : Z := 2 ^ 29.

Definition good_max (m : Z) : Prop :=
  m = 0 ∨ ∃ k, 0 ≤ k ≤ 27 ∧ m = 2 ^ (k + 2).

Record array_wf {V} (a : array V) : Prop := ArrayWf {
  wf_num : 0 ≤ arr_num a ≤ arr_max a;
  wf_len : Z.of_nat (length (arr_v a)) = arr_max a;
  wf_max : good_max (arr_max a);
}.

(** The elements the array holds. *)
Definition contents {V} (a : array V) : list (option V) :=
  take (Z.to_nat (arr_num a)) (arr_v a).

(** ** The growth loop *)

Lemma good_max_bound m : good_max m → 0 ≤ m ≤ 2 ^ 29.
Proof.
  intros [->|(k & Hk & ->)]; [lia|].
  split; [lia|]. apply Z.pow_le_mono_r; lia.
Qed.

Lemma slots_of_small n : 0 ≤ n < 2 ^ 30 → slots_of n = n.
Proof.
  intros H. unfold slots_of, ptr_size. rewrite u32_small by (unfold is_u32; lia).
  apply Z.div_mul. lia.
Qed.

Lemma array_newmax_S fuel n m :
  array_newmax (S fuel) n m =
  if m <? n
  then array_newmax fuel n (if negb (m =? 0) then u32 (m * 2) else 4)
  else Some m.
Proof. done. Qed.

Lemma array_newmax_pow2 fuel n k :
  0 ≤ k ≤ 27 → n ≤ 2 ^ 29 → 28 - k ≤ Z.of_nat fuel →
  ∃ m, array_newmax fuel n (2 ^ (k + 2)) = Some m ∧ good_max m ∧ n ≤ m.
Proof.
  revert k. induction fuel as [|fuel IH]; intros k Hk Hn Hf; [lia|].
  rewrite array_newmax_S. destruct (Z.ltb_spec (2 ^ (k + 2)) n) as [Hlt|Hge].
  - assert (Hk' : k < 27).
    { destruct (decide (k = 27)) as [->|]; [|lia].
      change (27 + 2) with 29 in Hlt. lia. }
    assert (Hpow : 2 ^ (k + 2) * 2 = 2 ^ (k + 1 + 2)).
    { replace (k + 1 + 2) with (Z.succ (k + 2)) by lia.
      rewrite Z.pow_succ_r by lia. lia. }
    assert (Hpos : 0 < 2 ^ (k + 2)) by (apply Z.pow_pos_nonneg; lia).
    replace (2 ^ (k + 2) =? 0) with false by (symmetry; apply Z.eqb_neq; lia).
    cbn [negb]. rewrite u32_small.
    + rewrite Hpow. apply IH; lia.
    + split; [lia|]. rewrite Hpow.
      apply Z.lt_le_trans with (2 ^ 30); [|done].
      apply Z.pow_lt_mono_r; lia.
  - exists (2 ^ (k + 2)). split; [done|]. split; [|done].
    right. exists k. lia.
Qed.

(** The loop ends within the model's fuel for every size up to the limit. *)
Lemma array_newmax_total n m :
  good_max m → n ≤ 2 ^ 29 →
  ∃ m', array_newmax grow_fuel n m = Some m' ∧ good_max m' ∧ n ≤ m'.
Proof.
  intros [->|(k & Hk & ->)] Hn.
  - unfold grow_fuel. rewrite array_newmax_S.
    destruct (Z.ltb_spec 0 n) as [Hlt|Hge].
    + apply (array_newmax_pow2 33 n 0); lia.
    + exists 0. split; [done|]. split; [by left|lia].
  - apply array_newmax_pow2; unfold grow_fuel; lia.
Qed.

Lemma array_newmax_stuck fuel n m :
  2 ^ 31 < n →
  (m = 0 ∨ ∃ k, 0 ≤ k ≤ 29 ∧ m = 2 ^ (k + 2)) →
  array_newmax fuel n m = None.
Proof.
  intros Hn. revert m. induction fuel as [|fuel IH]; intros m Hm; [done|].
  rewrite array_newmax_S.
  assert (Hlt : m < n).
  { destruct Hm as [->|(k & Hk & ->)]; [lia|].
    assert (2 ^ (k + 2) ≤ 2 ^ 31) by (apply Z.pow_le_mono_r; lia). lia. }
  rewrite (proj2 (Z.ltb_lt _ _) Hlt). apply IH.
  destruct Hm as [->|(k & Hk & ->)].
  - cbn. right. exists 0. split; [lia|done].
  - assert (Hpow : 2 ^ (k + 2) * 2 = 2 ^ (k + 1 + 2)).
    { replace (k + 1 + 2) with (Z.succ (k + 2)) by lia.
      rewrite Z.pow_succ_r by lia. lia. }
    assert (Hpos : 0 < 2 ^ (k + 2)) by (apply Z.pow_pos_nonneg; lia).
    rewrite (proj2 (Z.eqb_neq _ _)) by lia. cbn [negb]. rewrite Hpow.
    destruct (decide (k = 29)) as [->|Hk29]; [by left|].
    right. exists (k + 1). split; [lia|]. apply u32_small. split; [lia|].
    apply Z.le_lt_trans with (2 ^ 31); [|done].
    apply Z.pow_le_mono_r; lia.
Qed.

(** ** The operations as operations on the list of elements *)

Section array_lemmas.
Context {V : Type}.
Implicit Types a : array V.

Lemma contents_length a :
  array_wf a → length (contents a) = Z.to_nat (arr_num a).
Proof. intros [??]. unfold contents. rewrite length_take. lia. Qed.

Lemma array_preallocate_spec mem n a :
  array_wf a → n ≤ array_limit →
  match array_preallocate mem n a with
  | Ok _ a' => array_wf a' ∧ contents a' = contents a ∧ arr_num a' = arr_num a ∧
               n ≤ arr_max a'
  | Err e a' => e = ENOMEM ∧ a' = a ∧ mem = false ∧ arr_max a < n
  | Crash _ => False
  end.
Proof.
  intros [Hnum Hlen Hmax] Hn. unfold array_preallocate, bind, get.
  destruct (Z.ltb_spec (arr_max a) n) as [Hlt|Hge]; [|repeat split; auto; lia].
  destruct (array_newmax_total n (arr_max a) Hmax Hn) as (m' & -> & Hm' & Hnm).
  destruct mem; [|by repeat split].
  apply good_max_bound in Hm' as Hb.
  apply good_max_bound in Hmax as Hb'. rewrite !slots_of_small by lia.
  rewrite decide_True by lia. cbn.
  assert (Hl : length (take (Z.to_nat (arr_num a)) (arr_v a)) = Z.to_nat (arr_num a))
    by (rewrite length_take; lia).
  repeat split; cbn; try lia.
  - rewrite splice_length; rewrite length_replicate; lia.
  - done.
  - unfold contents. cbn. apply list_eq. intros j.
    destruct (decide (j < Z.to_nat (arr_num a))%nat).
    + rewrite !lookup_take_lt by lia.
      rewrite lookup_splice by (rewrite length_replicate; lia).
      rewrite decide_True by lia. rewrite lookup_take_lt by lia.
      f_equal. lia.
    + by rewrite !lookup_take_ge by lia.
Qed.

Lemma array_setsize_spec mem n a :
  array_wf a → 0 ≤ n ≤ array_limit →
  match array_setsize mem n a with
  | Ok _ a' => array_wf a' ∧ arr_num a' = n ∧
               take (Nat.min (Z.to_nat n) (Z.to_nat (arr_num a))) (contents a') =
               take (Nat.min (Z.to_nat n) (Z.to_nat (arr_num a))) (contents a)
  | Err e a' => e = ENOMEM ∧ a' = a ∧ mem = false ∧ arr_max a < n
  | Crash _ => False
  end.
Proof.
  intros Hwf Hn. unfold array_setsize, bind, modify.
  pose proof (array_preallocate_spec mem n a Hwf ltac:(lia)) as Hp.
  destruct (array_preallocate mem n a) as [? a'|? a'|?]; [|done|done].
  destruct Hp as ([Hnum Hlen Hmax] & Hc & Hnm & Hmn). cbn.
  repeat split; cbn; [lia|lia|lia|done|].
  unfold contents in Hc |- *. cbn. rewrite Hnm in Hc.
  apply (f_equal (take (Z.to_nat n))) in Hc. revert Hc.
  rewrite !take_take. intros Hc.
  rewrite !Nat.min_comm with (n := Z.to_nat n) in *.
  rewrite <-!Nat.min_assoc, Nat.min_id.
  rewrite (Nat.min_comm _ (Z.to_nat (arr_num a))), Nat.min_assoc, Nat.min_id.
  by rewrite !(Nat.min_comm _ (Z.to_nat n)) in *.
Qed.

(** growing one slot and storing is appending. *)
Theorem array_add_correct mem x a :
  array_wf a → arr_num a < array_limit →
  match array_add mem x a with
  | Ok i a' => i = arr_num a ∧ array_wf a' ∧ contents a' = contents a ++ [Some x]
  | Err e a' => e = ENOMEM ∧ a' = a ∧ mem = false ∧ arr_num a = arr_max a
  | Crash _ => False
  end.
Proof.
  intros Hwf Hn. pose proof Hwf as [Hnum _ _]. unfold array_limit in *.
  unfold array_add, bind at 1, get at 1.
  assert (Hu : u32 (arr_num a + 1) = arr_num a + 1) by (apply u32_small; split; lia).
  rewrite Hu. unfold bind at 1.
  pose proof (array_setsize_spec mem (arr_num a + 1) a Hwf
                ltac:(unfold array_limit; lia)) as Hs.
  destruct (array_setsize mem (arr_num a + 1) a) as [? a'|e a'|?]; [| |done].
  - destruct Hs as ([Hnum' Hlen' Hmax'] & Hn' & Hc).
    unfold bind, get, put, ret. rewrite decide_True by lia.
    split; [done|]. split; [by split; cbn; rewrite ?length_insert|].
    unfold contents in *. cbn. rewrite Hn' in *.
    replace (Z.to_nat (arr_num a + 1)) with (S (Z.to_nat (arr_num a))) in * by lia.
    rewrite Nat.min_r in Hc by lia. rewrite !take_take in Hc.
    rewrite Nat.min_l, Nat.min_id in Hc by lia. rewrite <-Hc.
    erewrite take_S_r by (apply list_lookup_insert_eq; lia).
    by rewrite take_insert_ge by lia.
  - destruct Hs as (-> & -> & -> & ?). repeat split. lia.
Qed.

(** C34: removing slides the following elements down by one. *)
Theorem array_remove_correct index a :
  array_wf a → 0 ≤ index < arr_num a →
  ∃ a', array_remove index a = Ok tt a' ∧ array_wf a' ∧
        contents a' = delete (Z.to_nat index) (contents a).
Proof.
  intros [Hnum Hlen Hmax] Hi. apply good_max_bound in Hmax as Hb.
  unfold array_remove, bind, get, put, KASSERT, ret.
  rewrite (proj2 (Z.leb_le _ _)), (proj2 (Z.ltb_lt index _)) by lia.
  rewrite !u32_small by (unfold is_u32; rewrite ?u32_small; unfold is_u32; lia).
  rewrite slots_of_small, decide_True by lia.
  eexists. split; [reflexivity|].
  assert (Hsl : length (slice (arr_v a) (Z.to_nat (index + 1))
            (Z.to_nat (arr_num a - (index + 1)))) = Z.to_nat (arr_num a - (index + 1)))
    by (apply slice_length; lia).
  split; [split; cbn; rewrite ?splice_length by lia; lia || done|].
  unfold contents. cbn. apply list_eq. intros j.
  destruct (decide (j < Z.to_nat (arr_num a - 1))%nat) as [Hj|Hj].
  - rewrite lookup_take_lt by lia. rewrite lookup_splice by lia. rewrite Hsl.
    destruct (decide (j < Z.to_nat index)%nat).
    + rewrite decide_False by lia.
      rewrite list_lookup_delete_lt by lia. by rewrite lookup_take_lt by lia.
    + rewrite decide_True by lia. rewrite lookup_slice, decide_True by lia.
      rewrite list_lookup_delete_ge by lia. rewrite lookup_take_lt by lia.
      f_equal. lia.
  - rewrite lookup_take_ge by lia. symmetry. apply lookup_ge_None_2.
    rewrite length_delete; [rewrite length_take; lia|].
    apply lookup_lt_is_Some_2. rewrite length_take. lia.
Qed.

End array_lemmas.

(** C39: growing any well-formed array to more than 2^31 elements never leaves
    the loop of [array_preallocate]: the doubled capacity wraps to 0 and starts
    over, so no number of rounds reaches the size that was asked for. *)
Theorem array_preallocate_diverges {V} (a : array V) mem n :
  array_wf a → 2 ^ 31 < n →
  (∀ fuel, array_newmax fuel n (arr_max a) = None) ∧
  array_preallocate mem n a = Crash CLoop.
Proof.
  intros [_ _ Hm] Hn.
  assert (Hs : ∀ fuel, array_newmax fuel n (arr_max a) = None).
  { intros fuel. apply array_newmax_stuck; [done|].
    destruct Hm as [->|(k & Hk & ->)]; [by left|]. right. exists k. split; [lia|done]. }
  split; [done|]. pose proof (good_max_bound _ Hm). unfold array_preallocate, bind, get.
  rewrite (proj2 (Z.ltb_lt _ _)) by lia. by rewrite Hs.
Qed.

(** The theorems at work on an array of capacity 4 holding two numbers. *)
Definition two_array : array Z := Array [Some 10; Some 20; None; None] 2 4.

Lemma two_array_wf : array_wf two_array.
Proof. split; cbn; [lia|done|]. right. by exists 0. Qed.

Lemma array_add_correct_witness :
  match array_add false 30 two_array with
  | Ok i a' => i = 2 ∧ array_wf a' ∧ contents a' = contents two_array ++ [Some 30]
  | Err e a' => e = ENOMEM ∧ a' = two_array ∧ false = false ∧ 2 = 4
  | Crash _ => False
  end.
Proof. apply (array_add_correct false 30 two_array); [exact two_array_wf|done]. Defined.

Lemma array_remove_correct_witness :
  ∃ a', array_remove 0 two_array = Ok tt a' ∧ array_wf a' ∧ contents a' = [Some 20].
Proof. apply (array_remove_correct 0 two_array); [exact two_array_wf|cbn; lia]. Defined.

Lemma array_preallocate_diverges_witness :
  array_newmax 100 (2 ^ 31 + 1) 4 = None ∧
  array_preallocate true (2 ^ 31 + 1) two_array = Crash CLoop.
Proof.
  destruct (array_preallocate_diverges two_array true (2 ^ 31 + 1) two_array_wf ltac:(lia)) as [Hs Hp].
  split; [exact (Hs 100%nat)|exact Hp].
Defined.
