(* ===== verification/Bitmap.v ===== *)
(** * Bitmaps

    kern/lib/bitmap.c: the fixed-size array of bits that records which blocks
    of a volume are in use.  The bits are kept in bytes, so that the in-memory
    form is also the on-disk form. *)

From S2P Require Import Prelude.
Open Scope Z_scope.

Definition BITS_PER_WORD : Z := 8.
Definition WORD_ALLBITS : Z := 255.

Record bitmap := Bitmap { nbits : Z; bm_v : list Z }.

(** Stores to [b->v[ix]]; out of range is undefined. *)
Definition bm_store (ix w : Z) : M bitmap unit :=
  b <- get ;;
  if decide (Z.to_nat ix < length (bm_v b))%nat
  then put (Bitmap (nbits b) (<[Z.to_nat ix := w]> (bm_v b)))
  else undef.

(** Loads [b->v[ix]]. *)
Definition bm_load (ix : Z) : M bitmap Z :=
  b <- get ;; deref (bm_v b !! Z.to_nat ix).

(** [for (j=overbits; j<BITS_PER_WORD; j++) b->v[ix] |= ((WORD_TYPE)1 << j);] *)
Definition bitmap_mark_over (ix overbits : Z) : M bitmap unit :=
  for_range (Z.to_nat (BITS_PER_WORD - overbits)) overbits (λ j,
    w <- bm_load ix ;; bm_store ix (u8 (Z.lor w (u8 (Z.shiftl 1 j))))).

(** The part of [bitmap_create] that runs once both blocks are allocated. *)
Definition bitmap_setup (n : Z) : M bitmap unit :=
  let words := DIVROUNDUP n BITS_PER_WORD in
  put (Bitmap n (replicate (Z.to_nat words) 0)) ;;;
  if n / BITS_PER_WORD <? words then
    let ix := u32 (words - 1) in
    let overbits := u32 (n - u32 (ix * BITS_PER_WORD)) in
    KASSERT (n / BITS_PER_WORD =? u32 (words - 1)) ;;;
    KASSERT ((0 <? overbits) && (overbits <? BITS_PER_WORD)) ;;;
    bitmap_mark_over ix overbits
  else ret tt.

(** [bitmap_create]: [mem1] and [mem2] say whether the two calls of [kmalloc]
    succeed; [None] is the null pointer. *)
Definition bitmap_create (mem1 mem2 : bool) (n : Z) : res unit (option bitmap) :=
  if mem1 && mem2 then
    match bitmap_setup n (Bitmap 0 []) with
    | Ok _ b => Ok (Some b) tt
    | Err e _ => Err e tt
    | Crash c => Crash c
    end
  else Ok None tt.

Definition bitmap_getdata (b : bitmap) : list Z := bm_v b.

(** The inner loop of [bitmap_alloc]: the offset of the first clear bit. *)
Fixpoint bitmap_alloc_bit (n : nat) (offset w : Z) : option Z :=
  match n with
  | O => None
  | S n' =>
      if Z.land w (u8 (Z.shiftl 1 offset)) =? 0 then Some offset
      else bitmap_alloc_bit n' (offset + 1) w
  end.

(** The outer loop of [bitmap_alloc], from word [ix] with [n] words to go. *)
Fixpoint bitmap_alloc_from (n : nat) (ix : Z) : M bitmap Z :=
  match n with
  | O => fail ENOSPC
  | S n' =>
      w <- bm_load ix ;;
      if negb (w =? WORD_ALLBITS) then
        match bitmap_alloc_bit 8 0 w with
        | Some offset =>
            bm_store ix (u8 (Z.lor w (u8 (Z.shiftl 1 offset)))) ;;;
            let index := u32 (u32 (ix * BITS_PER_WORD) + offset) in
            b <- get ;;
            KASSERT (index <? nbits b) ;;; ret index
        | None => panic
        end
      else bitmap_alloc_from n' (ix + 1)
  end.

Definition bitmap_alloc : M bitmap Z :=
  b <- get ;;
  bitmap_alloc_from (Z.to_nat (DIVROUNDUP (nbits b) BITS_PER_WORD)) 0.

Definition bitmap_translate (bitno : Z) : Z * Z :=
  (bitno / BITS_PER_WORD, u8 (Z.shiftl 1 (bitno mod BITS_PER_WORD))).

Definition bitmap_mark (index : Z) : M bitmap unit :=
  b <- get ;;
  KASSERT (index <? nbits b) ;;;
  let '(ix, mask) := bitmap_translate index in
  w <- bm_load ix ;;
  KASSERT (Z.land w mask =? 0) ;;;
  bm_store ix (u8 (Z.lor w mask)).

Definition bitmap_unmark (index : Z) : M bitmap unit :=
  b <- get ;;
  KASSERT (index <? nbits b) ;;;
  let '(ix, mask) := bitmap_translate index in
  w <- bm_load ix ;;
  KASSERT (negb (Z.land w mask =? 0)) ;;;
  bm_store ix (u8 (Z.land w (Z.lnot mask))).

(** The C function returns the masked word; it is used as a truth value. *)
Definition bitmap_isset (index : Z) : M bitmap bool :=
  let '(ix, mask) := bitmap_translate index in
  w <- bm_load ix ;; ret (negb (Z.land w mask =? 0)).

(** ** The bits a bitmap stands for *)

Definition bit (b : bitmap) (i : Z) : bool :=
  Z.testbit (default 0 (bm_v b !! Z.to_nat (i / 8))) (i mod 8).

(** A bitmap as [bitmap_create] makes it: the bytes cover [nbits] bits and
    the bits left over in the last byte are set. *)
Record bm_wf (b : bitmap) : Prop := BmWf {
  bm_range : 0 ≤ nbits b ≤ 4294967288;
  bm_len : Z.of_nat (length (bm_v b)) = (nbits b + 7) / 8;
  bm_bytes : Forall is_u8 (bm_v b);
  bm_over : ∀ i, nbits b ≤ i < 8 * Z.of_nat (length (bm_v b)) → bit b i = true;
}.

Lemma divroundup_8 n : 0 ≤ n ≤ 4294967288 → DIVROUNDUP n 8 = (n + 7) / 8.
Proof.
  intros H. unfold DIVROUNDUP.
  destruct (decide (n = 4294967288)) as [->|]; [done|].
  rewrite (u32_small (n + 8)) by (unfold is_u32; lia).
  rewrite u32_small by (unfold is_u32; lia). f_equal. lia.
Qed.

Lemma bm_index_lt b i :
  bm_wf b → 0 ≤ i < nbits b → (Z.to_nat (i / 8) < length (bm_v b))%nat.
Proof.
  intros [? Hl _ _] Hi. apply Nat2Z.inj_lt. rewrite Hl, Z2Nat.id.
  - apply Z.div_lt_upper_bound; [lia|].
    pose proof (Z.div_mod (nbits b + 7) 8 ltac:(lia)).
    pose proof (Z.mod_pos_bound (nbits b + 7) 8 ltac:(lia)). lia.
  - apply Z.div_pos; lia.
Qed.

(** What replacing one byte does to the bits. *)
Lemma bit_store b n ix w j :
  (Z.to_nat ix < length (bm_v b))%nat → 0 ≤ ix → 0 ≤ j →
  bit (Bitmap n (<[Z.to_nat ix := w]> (bm_v b))) j =
  if j / 8 =? ix then Z.testbit w (j mod 8) else bit b j.
Proof.
  intros Hlt Hix Hj. unfold bit. cbn.
  assert (0 ≤ j / 8) by (apply Z.div_pos; lia).
  destruct (Z.eqb_spec (j / 8) ix) as [<-|Hne].
  - by rewrite list_lookup_insert_eq.
  - rewrite list_lookup_insert_ne; [done|]. intros He.
    apply Z2Nat.inj in He; lia.
Qed.

Lemma same_bit i j :
  (j / 8 =? i / 8) && (j mod 8 =? i mod 8) = (j =? i).
Proof.
  destruct (Z.eqb_spec j i) as [->|Hne]; [by rewrite !Z.eqb_refl|].
  destruct (Z.eqb_spec (j / 8) (i / 8)) as [Hd|]; [|done].
  destruct (Z.eqb_spec (j mod 8) (i mod 8)) as [Hm|]; [|done].
  pose proof (Z.div_mod i 8 ltac:(lia)). pose proof (Z.div_mod j 8 ltac:(lia)).
  lia.
Qed.

Lemma mod8 i : 0 ≤ i mod 8 < 8.
Proof. apply Z.mod_pos_bound. lia. Qed.

Lemma u8_set w k : is_u8 w → 0 ≤ k < 8 → is_u8 (Z.lor w (Z.shiftl 1 k)).
Proof.
  rewrite !u8_bits. intros [Hw Hb] Hk. split.
  - apply Z.lor_nonneg. split; [done|]. apply Z.shiftl_nonneg. lia.
  - intros i Hi. rewrite mask_set by lia. rewrite Hb by done.
    apply Z.eqb_neq. lia.
Qed.

Lemma u8_unset w k :
  is_u8 w → 0 ≤ k → is_u8 (Z.land w (Z.lnot (Z.shiftl 1 k))).
Proof.
  rewrite !u8_bits. intros [Hw Hb] Hk. split.
  - apply Z.land_nonneg. by left.
  - intros i Hi. rewrite mask_unset by lia. by rewrite Hb.
Qed.

(** Setting and clearing one bit of a well-formed bitmap. *)
Definition bm_set (b : bitmap) (i : Z) : bitmap :=
  Bitmap (nbits b) (<[Z.to_nat (i / 8) :=
    Z.lor (default 0 (bm_v b !! Z.to_nat (i / 8))) (Z.shiftl 1 (i mod 8))]> (bm_v b)).

Definition bm_clear (b : bitmap) (i : Z) : bitmap :=
  Bitmap (nbits b) (<[Z.to_nat (i / 8) :=
    Z.land (default 0 (bm_v b !! Z.to_nat (i / 8)))
      (Z.lnot (Z.shiftl 1 (i mod 8)))]> (bm_v b)).

Section bm_lemmas.
Context (b : bitmap) (Hwf : bm_wf b).

Lemma bm_word_u8 n : is_u8 (default 0 (bm_v b !! n)).
Proof.
  destruct (bm_v b !! n) as [w|] eqn:E; cbn; [|by split].
  exact (proj1 (Forall_lookup _ _) (bm_bytes b Hwf) n w E).
Qed.

Lemma bit_set i j :
  0 ≤ i < nbits b → 0 ≤ j → bit (bm_set b i) j = bit b j || (j =? i).
Proof.
  intros Hi Hj. assert (0 ≤ i / 8) by (apply Z.div_pos; lia).
  unfold bm_set. rewrite bit_store by (try apply bm_index_lt; auto).
  pose proof (mod8 i). rewrite mask_set by lia. rewrite <-(same_bit i j).
  destruct (Z.eqb_spec (j / 8) (i / 8)) as [<-|]; [done|].
  by rewrite orb_false_r.
Qed.

Lemma bit_clear i j :
  0 ≤ i < nbits b → 0 ≤ j → bit (bm_clear b i) j = bit b j && negb (j =? i).
Proof.
  intros Hi Hj. assert (0 ≤ i / 8) by (apply Z.div_pos; lia).
  unfold bm_clear. rewrite bit_store by (try apply bm_index_lt; auto).
  pose proof (mod8 i). pose proof (mod8 j).
  rewrite mask_unset by lia. rewrite <-(same_bit i j).
  destruct (Z.eqb_spec (j / 8) (i / 8)) as [<-|]; [done|].
  by rewrite andb_true_r.
Qed.

Lemma bm_set_wf i : 0 ≤ i < nbits b → bm_wf (bm_set b i).
Proof.
  intros Hi. pose proof Hwf as [? Hl Hb Ho]. split; cbn.
  - done.
  - by rewrite length_insert.
  - apply Forall_insert; [done|]. apply u8_set; [apply bm_word_u8|apply mod8].
  - rewrite length_insert. intros j Hj. rewrite bit_set by lia.
    by rewrite Ho by done.
Qed.

Lemma bm_clear_wf i : 0 ≤ i < nbits b → bm_wf (bm_clear b i).
Proof.
  intros Hi. pose proof Hwf as [? Hl Hb Ho]. pose proof (mod8 i). split; cbn.
  - done.
  - by rewrite length_insert.
  - apply Forall_insert; [done|]. apply u8_unset; [apply bm_word_u8|lia].
  - rewrite length_insert. intros j Hj. rewrite bit_clear by lia.
    rewrite Ho by done. cbn. apply negb_true_iff, Z.eqb_neq. lia.
Qed.

(** Clearing a bit that was clear and has been set gives the map back. *)
Lemma bm_clear_set i :
  0 ≤ i < nbits b → bit b i = false → bm_clear (bm_set b i) i = b.
Proof.
  intros Hi Hbit. pose proof (bm_index_lt b i Hwf Hi) as Hlt.
  unfold bm_clear, bm_set. cbn. rewrite list_lookup_insert_eq by done. cbn.
  rewrite list_insert_insert_eq. unfold bit in Hbit.
  destruct (lookup_lt_is_Some_2 _ _ Hlt) as [w Hw]. rewrite Hw in *. cbn in *.
  pose proof (mod8 i).
  replace (Z.land _ _) with w; [by rewrite list_insert_id; destruct b|].
  apply Z.bits_inj'. intros j Hj. rewrite mask_unset, mask_set by lia.
  destruct (Z.eqb_spec j (i mod 8)) as [->|].
  - by rewrite Hbit.
  - by rewrite orb_false_r, andb_true_r.
Qed.

End bm_lemmas.

(** ** The operations *)

Section bm_ops.
Context (b : bitmap) (Hwf : bm_wf b).

Lemma bm_load_spec ix :
  (Z.to_nat ix < length (bm_v b))%nat →
  bm_load ix b = Ok (default 0 (bm_v b !! Z.to_nat ix)) b.
Proof.
  intros Hlt. destruct (lookup_lt_is_Some_2 _ _ Hlt) as [w Hw].
  unfold bm_load, bind, get, deref. rewrite Hw. done.
Qed.

Lemma bm_store_spec ix w :
  (Z.to_nat ix < length (bm_v b))%nat →
  bm_store ix w b = Ok tt (Bitmap (nbits b) (<[Z.to_nat ix := w]> (bm_v b))).
Proof.
  intros Hlt. unfold bm_store, bind, get, put. by rewrite decide_True.
Qed.

Lemma bitmap_isset_spec i :
  0 ≤ i < nbits b → bitmap_isset i b = Ok (bit b i) b.
Proof.
  intros Hi. unfold bitmap_isset, bitmap_translate, bind, BITS_PER_WORD.
  rewrite bm_load_spec by (by apply bm_index_lt). unfold ret.
  pose proof (mod8 i). rewrite mask_u8, mask_clear by lia.
  by rewrite negb_involutive.
Qed.

Lemma bitmap_mark_spec i :
  0 ≤ i < nbits b →
  bitmap_mark i b = if bit b i then Crash CPanic else Ok tt (bm_set b i).
Proof.
  intros Hi. unfold bitmap_mark, bitmap_translate, bind, get, KASSERT, BITS_PER_WORD.
  rewrite (proj2 (Z.ltb_lt _ _)) by lia. unfold ret at 1.
  pose proof (bm_index_lt b i Hwf Hi). rewrite bm_load_spec by done.
  pose proof (mod8 i). rewrite mask_u8, mask_clear by lia.
  fold (bit b i). destruct (bit b i); cbn [negb]; [done|].
  unfold ret. rewrite bm_store_spec by done.
  rewrite u8_small; [done|]. apply u8_set; [by apply bm_word_u8|lia].
Qed.

Lemma bitmap_unmark_spec i :
  0 ≤ i < nbits b →
  bitmap_unmark i b = if bit b i then Ok tt (bm_clear b i) else Crash CPanic.
Proof.
  intros Hi. unfold bitmap_unmark, bitmap_translate, bind, get, KASSERT, BITS_PER_WORD.
  rewrite (proj2 (Z.ltb_lt _ _)) by lia. unfold ret at 1.
  pose proof (bm_index_lt b i Hwf Hi). rewrite bm_load_spec by done.
  pose proof (mod8 i). rewrite mask_u8, mask_clear by lia.
  fold (bit b i). destruct (bit b i); cbn [negb]; [|done].
  unfold ret. rewrite bm_store_spec by done.
  rewrite u8_small; [done|]. apply u8_unset; [by apply bm_word_u8|lia].
Qed.

End bm_ops.

(** The inner loop finds the lowest clear bit of a byte. *)
Lemma bitmap_alloc_bit_spec n k w :
  0 ≤ k → k + Z.of_nat n = 8 → (∀ j, 0 ≤ j < k → Z.testbit w j = true) →
  match bitmap_alloc_bit n k w with
  | Some o => k ≤ o < 8 ∧ Z.testbit w o = false ∧
              ∀ j, 0 ≤ j < o → Z.testbit w j = true
  | None => ∀ j, 0 ≤ j < 8 → Z.testbit w j = true
  end.
Proof.
  revert k. induction n as [|n IH]; intros k Hk Hn Hlow; cbn [bitmap_alloc_bit].
  { intros j Hj. apply Hlow. lia. }
  rewrite mask_u8, mask_clear by lia. destruct (Z.testbit w k) eqn:E; cbn [negb].
  - specialize (IH (k + 1) ltac:(lia) ltac:(lia)).
    destruct (bitmap_alloc_bit n (k + 1) w) as [o|].
    + destruct IH as (? & ? & ?); [|repeat split; auto; lia].
      intros j Hj. destruct (decide (j = k)) as [->|]; [done|apply Hlow; lia].
    + apply IH. intros j Hj.
      destruct (decide (j = k)) as [->|]; [done|apply Hlow; lia].
  - repeat split; auto; lia.
Qed.

Lemma u8_allbits w :
  is_u8 w → (∀ j, 0 ≤ j < 8 → Z.testbit w j = true) → w = WORD_ALLBITS.
Proof.
  intros [Hw Hb]%u8_bits Hall. apply Z.bits_inj'. intros j Hj.
  change WORD_ALLBITS with (Z.ones 8).
  destruct (decide (j < 8)) as [Hlt|Hge].
  - by rewrite Hall, Z.ones_spec_low by lia.
  - by rewrite Hb, Z.ones_spec_high by lia.
Qed.

Lemma allbits_bit j : 0 ≤ j < 8 → Z.testbit WORD_ALLBITS j = true.
Proof. intros Hj. change WORD_ALLBITS with (Z.ones 8). apply Z.ones_spec_low. lia. Qed.

(** What [bitmap_alloc] may do, from the first bit not yet looked at. *)
Definition alloc_post (b : bitmap) (r : res bitmap Z) : Prop :=
  match r with
  | Ok i b' => 0 ≤ i < nbits b ∧ bit b i = false ∧
               (∀ j, 0 ≤ j < i → bit b j = true) ∧ b' = bm_set b i
  | Err e b' => e = ENOSPC ∧ b' = b ∧ ∀ j, 0 ≤ j < nbits b → bit b j = true
  | Crash _ => False
  end.

Lemma bitmap_alloc_from_spec b n ix :
  bm_wf b → 0 ≤ ix → ix + Z.of_nat n = Z.of_nat (length (bm_v b)) →
  (∀ j, 0 ≤ j < 8 * ix → bit b j = true) →
  alloc_post b (bitmap_alloc_from n ix b).
Proof.
  intros Hwf. revert ix. induction n as [|n IH]; intros ix Hix Hn Hlow.
  { cbn. split; [done|]. split; [done|]. intros j Hj. apply Hlow.
    pose proof (bm_index_lt b j Hwf Hj). pose proof (Z.div_mod j 8 ltac:(lia)).
    pose proof (mod8 j). lia. }
  cbn [bitmap_alloc_from]. unfold bind at 1.
  rewrite bm_load_spec by lia. set (w := default 0 _).
  assert (Hw : is_u8 w) by (by apply bm_word_u8).
  assert (Hbit : ∀ o, 0 ≤ o < 8 → bit b (8 * ix + o) = Z.testbit w o).
  { intros o Ho. unfold bit, w. replace (8 * ix + o) with (o + ix * 8) by lia.
    rewrite Z.div_add, Z.mod_add, Z.div_small, Z.mod_small by lia. done. }
  destruct (Z.eqb_spec w WORD_ALLBITS) as [Hall|Hnot]; cbn [negb].
  - apply IH; [lia|lia|]. intros j Hj.
    destruct (decide (j < 8 * ix)) as [|Hge]; [apply Hlow; lia|].
    replace j with (8 * ix + (j - 8 * ix)) by lia.
    rewrite Hbit, Hall by lia. apply allbits_bit. lia.
  - pose proof (bitmap_alloc_bit_spec 8 0 w ltac:(lia) eq_refl ltac:(lia)) as Ho.
    destruct (bitmap_alloc_bit 8 0 w) as [o|];
      [|by apply u8_allbits in Ho].
    destruct Ho as (Ho & Hof & Hol). rewrite <-Hbit in Hof by lia.
    set (i := 8 * ix + o) in *.
    assert (Hi : i < nbits b).
    { destruct (decide (i < nbits b)) as [|Hge]; [done|].
      rewrite (bm_over b Hwf) in Hof; [done|lia]. }
    assert (Hd : i / 8 = ix ∧ i mod 8 = o).
    { unfold i. replace (8 * ix + o) with (o + ix * 8) by lia.
      by rewrite Z.div_add, Z.mod_add, Z.div_small, Z.mod_small by lia. }
    destruct Hd as [Hd Hm]. pose proof (bm_range b Hwf).
    unfold bind at 1. rewrite mask_u8 by lia. rewrite bm_store_spec by lia.
    unfold bind, get, KASSERT, ret, BITS_PER_WORD.
    rewrite (u32_small (ix * 8)) by (unfold is_u32; lia).
    rewrite u32_small by (unfold is_u32; lia).
    cbn [nbits]. rewrite (proj2 (Z.ltb_lt _ _)) by lia.
    replace (ix * 8 + o) with i by lia.
    rewrite u8_small by (by apply u8_set).
    split; [lia|]. split; [done|]. split.
    + intros j Hj. destruct (decide (j < 8 * ix)) as [|Hge]; [apply Hlow; lia|].
      replace j with (8 * ix + (j - 8 * ix)) by lia.
      rewrite Hbit by lia. apply Hol. lia.
    + unfold bm_set. by rewrite Hd, Hm.
Qed.

Lemma bitmap_alloc_spec b : bm_wf b → alloc_post b (bitmap_alloc b).
Proof.
  intros Hwf. pose proof Hwf as [Hr Hl _ _].
  unfold bitmap_alloc, bind, get, BITS_PER_WORD. rewrite divroundup_8 by done.
  rewrite <-Hl, Nat2Z.id. apply bitmap_alloc_from_spec; auto; lia.
Qed.

(** C28: [bitmap_alloc] hands out the lowest clear bit and sets it, or reports
    that every bit is set; it neither panics nor touches another bit. *)
Theorem bitmap_alloc_correct b :
  bm_wf b →
  match bitmap_alloc b with
  | Ok i b' => 0 ≤ i < nbits b ∧ bit b i = false ∧
               (∀ j, 0 ≤ j < i → bit b j = true) ∧
               bm_wf b' ∧ nbits b' = nbits b ∧
               (∀ j, 0 ≤ j → bit b' j = bit b j || (j =? i))
  | Err e b' => e = ENOSPC ∧ b' = b ∧ ∀ j, 0 ≤ j < nbits b → bit b j = true
  | Crash _ => False
  end.
Proof.
  intros Hwf. pose proof (bitmap_alloc_spec b Hwf) as Hs. revert Hs.
  unfold alloc_post. destruct (bitmap_alloc b); [|done|done].
  intros (Hi & Hb & Hlow & ->).
  split; [done|]. split; [done|]. split; [done|].
  split; [by apply bm_set_wf|]. split; [done|]. intros j Hj. by apply bit_set.
Qed.

(** The loop that marks the bits left over in the last byte. *)
Lemma mark_over_loop n lo ix nb v w :
  0 ≤ lo → lo + Z.of_nat n = 8 → v !! Z.to_nat ix = Some w → is_u8 w →
  ∃ w', for_range n lo (λ j,
          w <- bm_load ix ;; bm_store ix (u8 (Z.lor w (u8 (Z.shiftl 1 j)))))
          (Bitmap nb v) = Ok tt (Bitmap nb (<[Z.to_nat ix := w']> v)) ∧
        is_u8 w' ∧
        ∀ k, 0 ≤ k < 8 → Z.testbit w' k = Z.testbit w k || (lo <=? k).
Proof.
  revert lo v w. induction n as [|n IH]; intros lo v w Hlo Hn Hv Hw.
  - exists w. cbn. split; [by rewrite list_insert_id|]. split; [done|].
    intros k Hk. rewrite (proj2 (Z.leb_gt _ _)) by lia. by rewrite orb_false_r.
  - cbn [for_range]. apply lookup_lt_Some in Hv as Hlt.
    assert (Hw' : is_u8 (Z.lor w (Z.shiftl 1 lo))) by (apply u8_set; [done|lia]).
    destruct (IH (lo + 1) (<[Z.to_nat ix := Z.lor w (Z.shiftl 1 lo)]> v)
                (Z.lor w (Z.shiftl 1 lo))) as (w' & He & Hu & Hk);
      [lia|lia|by rewrite list_lookup_insert_eq|done|].
    exists w'. split; [|split; [done|]].
    + unfold bind at 1. unfold bind at 1.
      rewrite bm_load_spec by done. cbn [bm_v]. rewrite Hv. cbn [default].
      rewrite bm_store_spec by done. rewrite mask_u8 by lia.
      rewrite u8_small by done. cbn [bm_v nbits]. unfold id. rewrite He.
      by rewrite list_insert_insert_eq.
    + intros k Hk8. rewrite Hk, mask_set by lia. rewrite <-orb_assoc. f_equal.
      destruct (Z.eqb_spec k lo), (Z.leb_spec (lo + 1) k), (Z.leb_spec lo k);
        cbn; try lia; done.
Qed.

Lemma zeros_bit nb n i : bit (Bitmap nb (replicate n 0)) i = false.
Proof.
  unfold bit. cbn. destruct (replicate n 0 !! _) as [w|] eqn:E; cbn.
  - apply lookup_replicate in E as [-> _]. apply Z.bits_0.
  - apply Z.bits_0.
Qed.

Lemma bitmap_setup_spec n b0 :
  0 ≤ n ≤ 4294967288 →
  ∃ b, bitmap_setup n b0 = Ok tt b ∧ bm_wf b ∧ nbits b = n ∧
       ∀ i, 0 ≤ i < n → bit b i = false.
Proof.
  intros Hn. unfold bitmap_setup, BITS_PER_WORD. rewrite divroundup_8 by done.
  unfold bind at 1, put. set (words := (n + 7) / 8).
  pose proof (Z.div_mod n 8 ltac:(lia)). pose proof (mod8 n).
  pose proof (Z.div_mod (n + 7) 8 ltac:(lia)) as Hw. pose proof (mod8 (n + 7)).
  fold words in Hw. assert (0 ≤ words) by (apply Z.div_pos; lia).
  assert (Hz : Forall is_u8 (replicate (Z.to_nat words) 0))
    by (apply Forall_replicate; by split).
  destruct (Z.ltb_spec (n / 8) words) as [Hlt|Hge].
  - rewrite (u32_small (words - 1)) by (unfold is_u32; lia).
    rewrite (u32_small ((words - 1) * 8)) by (unfold is_u32; lia).
    rewrite u32_small by (unfold is_u32; lia). unfold bind, KASSERT, ret.
    rewrite (proj2 (Z.eqb_eq _ _)) by lia.
    rewrite (proj2 (Z.ltb_lt 0 _)), (proj2 (Z.ltb_lt _ 8)) by lia.
    cbn [andb]. unfold bitmap_mark_over, BITS_PER_WORD.
    assert (Hlk : replicate (Z.to_nat words) 0 !! Z.to_nat (words - 1) = Some 0)
      by (apply lookup_replicate_2; lia).
    destruct (mark_over_loop (Z.to_nat (8 - (n - (words - 1) * 8)))
                (n - (words - 1) * 8) (words - 1) n _ 0 ltac:(lia) ltac:(lia)
                Hlk ltac:(by split)) as (w' & -> & Hu & Hk).
    eexists. split; [done|].
    assert (Hbit : ∀ i, 0 ≤ i < 8 * words →
      bit (Bitmap n (<[Z.to_nat (words - 1) := w']>
                       (replicate (Z.to_nat words) 0))) i = (n <=? i)).
    { intros i Hi. pose proof (Z.div_mod i 8 ltac:(lia)). pose proof (mod8 i).
      rewrite (bit_store (Bitmap n (replicate (Z.to_nat words) 0)))
        by (cbn; rewrite ?length_replicate; lia).
      destruct (Z.eqb_spec (i / 8) (words - 1)) as [He|Hne].
      - rewrite Hk, Z.bits_0 by lia. cbn.
        destruct (Z.leb_spec (n - (words - 1) * 8) (i mod 8)), (Z.leb_spec n i);
          try lia; done.
      - rewrite zeros_bit. symmetry. apply Z.leb_gt. lia. }
    split; [split; cbn|split; [done|]].
    + done.
    + rewrite length_insert, length_replicate. lia.
    + by apply Forall_insert.
    + rewrite length_insert, length_replicate. intros i Hi.
      rewrite Hbit by lia. apply Z.leb_le. lia.
    + intros i Hi. rewrite Hbit by lia. apply Z.leb_gt. lia.
  - eexists. split; [done|]. split; [split; cbn|split; [done|]].
    + done.
    + rewrite length_replicate. lia.
    + done.
    + rewrite length_replicate. lia.
    + intros i Hi. apply zeros_bit.
Qed.

(** a new bitmap is well formed and has every one of its bits clear. *)
Theorem bitmap_create_correct n :
  0 ≤ n ≤ 4294967288 →
  ∃ b, bitmap_create true true n = Ok (Some b) tt ∧ bm_wf b ∧ nbits b = n ∧
       ∀ i, 0 ≤ i < n → bit b i = false.
Proof.
  intros Hn. destruct (bitmap_setup_spec n (Bitmap 0 []) Hn) as (b & He & Hb).
  exists b. unfold bitmap_create. cbn [andb]. rewrite He. done.
Qed.

(** marking and unmarking a block that was free gives the map back. *)
Theorem bitmap_mark_unmark b i :
  bm_wf b → 0 ≤ i < nbits b → bit b i = false →
  (bitmap_mark i ;;; bitmap_unmark i) b = Ok tt b.
Proof.
  intros Hwf Hi Hb. unfold bind. rewrite bitmap_mark_spec, Hb by done.
  rewrite bitmap_unmark_spec by (try apply bm_set_wf; done).
  rewrite bit_set, Hb, Z.eqb_refl by (auto; lia). cbn [orb].
  by rewrite bm_clear_set.
Qed.

(** A map of twelve bits of which three are set. *)
Definition twelve_bits : bitmap := Bitmap 12 [7; 0xf0].

Lemma twelve_bits_wf : bm_wf twelve_bits.
Proof.
  split; [done|done|repeat constructor; lia|].
  cbn. intros i Hi. assert (Hc : i = 12 ∨ i = 13 ∨ i = 14 ∨ i = 15) by lia.
  by destruct Hc as [->|[->|[->| ->]]].
Qed.

Lemma bitmap_alloc_correct_witness :
  match bitmap_alloc twelve_bits with
  | Ok i b' => 0 ≤ i < 12 ∧ bit twelve_bits i = false ∧
               (∀ j, 0 ≤ j < i → bit twelve_bits j = true) ∧
               bm_wf b' ∧ nbits b' = 12 ∧
               (∀ j, 0 ≤ j → bit b' j = bit twelve_bits j || (j =? i))
  | Err e b' => e = ENOSPC ∧ b' = twelve_bits ∧ ∀ j, 0 ≤ j < 12 → bit twelve_bits j = true
  | Crash _ => False
  end.
Proof. apply (bitmap_alloc_correct twelve_bits), twelve_bits_wf. Defined.

Lemma bitmap_create_correct_witness :
  ∃ b, bitmap_create true true 12 = Ok (Some b) tt ∧ bm_wf b ∧ nbits b = 12 ∧
       ∀ i, 0 ≤ i < 12 → bit b i = false.
Proof. apply (bitmap_create_correct 12). lia. Defined.

Lemma bitmap_mark_unmark_witness :
  (bitmap_mark 5 ;;; bitmap_unmark 5) twelve_bits = Ok tt twelve_bits.
Proof. apply (bitmap_mark_unmark twelve_bits 5); [exact twelve_bits_wf|cbn; lia|done]. Defined.
