(* ===== verification/Endian.v ===== *)
(** * Byte order

    kern/lib/bswap.c (byte swapping, network byte order, joining and
    splitting 64-bit values), kern/lib/time.c (arithmetic on [timespec]), and
    the big-endian layout of integers in memory.  The MIPS the kernel runs on
    is big-endian, so this is the layout of the C structures SFS reads from
    and writes to disk. *)

From S2P Require Import Prelude.
Open Scope Z_scope.

(** ** bswap.c *)

Definition bswap16 (val : Z) : Z :=
  u16 (Z.lor (Z.shiftl (Z.land val 0x00ff) 8)
             (Z.shiftr (Z.land val 0xff00) 8)).

Definition bswap32 (val : Z) : Z :=
  Z.lor (Z.lor (Z.lor
    (u32 (Z.shiftl (Z.land val 0x000000ff) 24))
    (u32 (Z.shiftl (Z.land val 0x0000ff00) 8)))
    (Z.shiftr (Z.land val 0x00ff0000) 8))
    (Z.shiftr (Z.land val 0xff000000) 24).

Definition bswap64 (val : Z) : Z :=
  Z.lor (Z.lor (Z.lor (Z.lor (Z.lor (Z.lor (Z.lor
    (u64 (Z.shiftl (Z.land val 0x00000000000000ff) 56))
    (u64 (Z.shiftl (Z.land val 0x000000000000ff00) 40)))
    (u64 (Z.shiftl (Z.land val 0x0000000000ff0000) 24)))
    (u64 (Z.shiftl (Z.land val 0x00000000ff000000) 8)))
    (u64 (Z.shiftl (Z.land val 0x000000ff00000000) 8)))
    (u64 (Z.shiftl (Z.land val 0x0000ff0000000000) 24)))
    (Z.shiftr (Z.land val 0x00ff000000000000) 40))
    (Z.shiftr (Z.land val 0xff00000000000000) 56).

(** The [TO] macro on a big-endian machine. *)
Definition ntohs (val : Z) : Z := val.
Definition htons (val : Z) : Z := val.
Definition ntohl (val : Z) : Z := val.
Definition htonl (val : Z) : Z := val.
Definition ntohll (val : Z) : Z := val.
Definition htonll (val : Z) : Z := val.

Definition join32to64 (x1 x2 : Z) : Z := Z.lor (u64 (Z.shiftl x1 32)) x2.

Definition split64to32 (x : Z) : Z * Z :=
  (u32 (Z.shiftr x 32), u32 (Z.land x 0xffffffff)).

(** ** time.c

    [tv_sec] is a signed 64-bit [time_t], [tv_nsec] a signed 32-bit integer.
    The additions are the mathematical ones: overflow of a signed integer is
    undefined in C, and the theorems state the ranges in which there is
    none. *)

Record timespec := Timespec { tv_sec : Z; tv_nsec : Z }.

Definition timespec_add (ts1 ts2 : timespec) : timespec :=
  let nsec := tv_nsec ts1 + tv_nsec ts2 in
  let sec := tv_sec ts1 + tv_sec ts2 in
  if 1000000000 <=? nsec
  then Timespec (sec + 1) (nsec - 1000000000)
  else Timespec sec nsec.

Definition timespec_sub (ts1 ts2 : timespec) : timespec :=
  let r := if tv_nsec ts1 <? tv_nsec ts2
           then Timespec (tv_sec ts1 - 1) (tv_nsec ts1 + 1000000000)
           else ts1 in
  Timespec (tv_sec r - tv_sec ts2) (tv_nsec r - tv_nsec ts2).

(** ** Integers in memory *)

Fixpoint be_encode (n : nat) (z : Z) : list Z :=
  match n with
  | O => []
  | S n' => be_encode n' (z / 256) ++ [z mod 256]
  end.

Definition be_decode (l : list Z) : Z := foldl (λ acc b, acc * 256 + b) 0 l.

(** An array of [uint32_t]. *)
Definition encode_u32s (l : list Z) : list Z := mjoin (be_encode 4 <$> l).

Fixpoint decode_u32s (n : nat) (l : list Z) : list Z :=
  match n with
  | O => []
  | S n' => be_decode (take 4 l) :: decode_u32s n' (drop 4 l)
  end.

(** ** Byte swapping *)

Lemma u16_bits z i : 0 ≤ i < 16 → Z.testbit (u16 z) i = Z.testbit z i.
Proof. intros Hi. apply (Z.mod_pow2_bits_low z 16). lia. Qed.

Lemma u32_bits z i : 0 ≤ i < 32 → Z.testbit (u32 z) i = Z.testbit z i.
Proof. intros Hi. apply (Z.mod_pow2_bits_low z 32). lia. Qed.

Lemma u32_bits_high z i : 32 ≤ i → Z.testbit (u32 z) i = false.
Proof. intros Hi. apply (Z.mod_pow2_bits_high z 32). lia. Qed.

Lemma enum_lt (P : Z → Prop) (n : nat) :
  Forall P (seqZ 0 (Z.of_nat n)) → ∀ i, 0 ≤ i < Z.of_nat n → P i.
Proof.
  intros H i Hi. eapply List.Forall_forall; [exact H|].
  apply list_elem_of_In, elem_of_seqZ. lia.
Qed.

(** [bswap_bit i] is the bit of the argument that ends up at bit [i] when the
    bytes of a [w]-bit number are reversed. *)
Definition bswap_bit (w i : Z) : Z := 8 * (w / 8 - 1 - i / 8) + i mod 8.

(** Proves a statement about every bit below a concrete width, bit by bit. *)
Ltac each_bit tac :=
  match goal with
  | |- Forall _ ?l =>
      let l' := eval vm_compute in l in change l with l'
  end;
  repeat (apply List.Forall_cons; [cbv beta; tac|]); apply List.Forall_nil.

Ltac bswap_bits :=
  rewrite ?Z.lor_spec, ?u32_bits, ?u16_bits by lia;
  rewrite ?Z.shiftl_spec, ?Z.shiftr_spec, ?Z.lor_spec, ?Z.land_spec by lia;
  rewrite ?Z.shiftl_spec, ?Z.shiftr_spec, ?Z.land_spec by lia;
  cbn; rewrite ?andb_true_r, ?andb_false_r, ?orb_false_r; reflexivity.

Lemma bswap32_bit v i :
  0 ≤ i < 32 → Z.testbit (bswap32 v) i = Z.testbit v (bswap_bit 32 i).
Proof.
  revert i. apply (enum_lt (λ i, Z.testbit (bswap32 v) i =
                                 Z.testbit v (bswap_bit 32 i)) 32).
  unfold bswap32. each_bit bswap_bits.
Qed.

Lemma bswap16_bit v i :
  0 ≤ i < 16 → Z.testbit (bswap16 v) i = Z.testbit v (bswap_bit 16 i).
Proof.
  revert i. apply (enum_lt (λ i, Z.testbit (bswap16 v) i =
                                 Z.testbit v (bswap_bit 16 i)) 16).
  unfold bswap16. each_bit bswap_bits.
Qed.

(** ** Big-endian integers *)

Lemma be_decode_snoc l b : be_decode (l ++ [b]) = be_decode l * 256 + b.
Proof. unfold be_decode. by rewrite foldl_app. Qed.

Lemma be_encode_length n z : length (be_encode n z) = n.
Proof.
  revert z. induction n as [|n IH]; intros z; [done|].
  cbn. rewrite length_app, IH. cbn. lia.
Qed.

Lemma be_encode_bytes n z : Forall is_u8 (be_encode n z).
Proof.
  revert z. induction n as [|n IH]; intros z; cbn; [constructor|].
  apply Forall_app. split; [apply IH|]. repeat constructor; apply u8_range.
Qed.

Lemma be_decode_encode n z : be_decode (be_encode n z) = z mod 256 ^ Z.of_nat n.
Proof.
  revert z. induction n as [|n IH]; intros z; cbn [be_encode].
  - by rewrite Z.mod_1_r.
  - rewrite be_decode_snoc, IH. rewrite Nat2Z.inj_succ, Z.pow_succ_r by lia.
    rewrite Z.rem_mul_r by (try apply Z.pow_nonzero; lia). lia.
Qed.

Lemma be_encode_decode l :
  Forall is_u8 l → be_encode (length l) (be_decode l) = l.
Proof.
  induction l as [|b l IH] using rev_ind; intros Hl; [done|].
  apply Forall_app in Hl as [Hl Hb]. apply Forall_inv in Hb. unfold is_u8 in Hb.
  rewrite length_app, Nat.add_comm. cbn [length Nat.add be_encode].
  rewrite be_decode_snoc.
  replace (be_decode l * 256 + b) with (b + be_decode l * 256) by lia.
  rewrite Z.div_add, Z.mod_add, Z.div_small, Z.mod_small by lia.
  rewrite Z.add_0_l, IH by done. done.
Qed.

Lemma be_decode_range l :
  Forall is_u8 l → 0 ≤ be_decode l < 256 ^ Z.of_nat (length l).
Proof.
  intros Hl. rewrite <-(be_encode_decode l Hl) at 1 2. rewrite be_decode_encode.
  apply Z.mod_pos_bound, Z.pow_pos_nonneg; lia.
Qed.

Lemma snoc_byte_lor x b : is_u8 b → x * 256 + b = Z.lor (Z.shiftl x 8) b.
Proof. intros Hb. by rewrite (lor_shiftl x 8 b). Qed.

Lemma be_decode_bit l i :
  Forall is_u8 l → 0 ≤ i < 8 * Z.of_nat (length l) →
  Z.testbit (be_decode l) i =
  Z.testbit (default 0 (rev l !! Z.to_nat (i / 8))) (i mod 8).
Proof.
  revert i. induction l as [|b l IH] using rev_ind; intros i Hl Hi; [cbn in Hi; lia|].
  apply Forall_app in Hl as [Hl Hb]. apply Forall_inv in Hb. unfold is_u8 in Hb.
  rewrite length_app in Hi. cbn [length] in Hi.
  rewrite be_decode_snoc, rev_app_distr. cbn [rev app].
  pose proof (Z.mod_pos_bound i 8 ltac:(lia)).
  pose proof (Z.div_mod i 8 ltac:(lia)).
  pose proof (snoc_byte_lor (be_decode l) b Hb) as Hor.
  rewrite Hor, Z.lor_spec. destruct (decide (i < 8)) as [Hlt|Hge].
  - rewrite Z.shiftl_spec_low by lia. rewrite Z.div_small, Z.mod_small by lia.
    done.
  - rewrite (bits_high b 8) by lia. rewrite orb_false_r.
    rewrite Z.shiftl_spec by lia. rewrite IH by (auto; lia).
    replace (Z.to_nat (i / 8)) with (S (Z.to_nat ((i - 8) / 8))).
    + cbn. f_equal. replace (i - 8) with (i + (-1) * 8) by lia.
      by rewrite Z.mod_add by lia.
    + replace (i - 8) with (i + (-1) * 8) by lia. rewrite Z.div_add by lia. lia.
Qed.

Lemma bswap32_range v : is_u32 (bswap32 v).
Proof.
  assert (Hpos : ∀ m k, 0 ≤ m → 0 ≤ Z.shiftr (Z.land v m) k).
  { intros m k Hm. apply Z.shiftr_nonneg, Z.land_nonneg. by right. }
  assert (Hu : ∀ z, 0 ≤ u32 z) by (intros z; apply u32_range).
  split.
  - unfold bswap32. rewrite !Z.lor_nonneg. auto using Hpos with lia.
  - apply (bits_bound _ 32); [lia| |].
    + unfold bswap32. rewrite !Z.lor_nonneg. auto using Hpos with lia.
    + intros i Hi. unfold bswap32.
      rewrite !Z.lor_spec, !u32_bits_high, !Z.shiftr_spec, !Z.land_spec by lia.
      rewrite (bits_high 16711680 32), (bits_high 4278190080 32) by lia.
      by rewrite !andb_false_r.
Qed.

(** [bswap32] reverses the bytes of the number in memory. *)
Theorem bswap32_reverses l :
  length l = 4%nat → Forall is_u8 l → bswap32 (be_decode l) = be_decode (rev l).
Proof.
  intros Hlen Hl. assert (Hr : Forall is_u8 (rev l)) by (by apply Forall_rev).
  apply Z.bits_inj'. intros i Hi. destruct (decide (i < 32)) as [Hlt|Hge].
  - rewrite bswap32_bit, (be_decode_bit (rev l)) by (rewrite ?length_rev; auto; lia).
    pose proof (Z.mod_pos_bound i 8 ltac:(lia)).
    pose proof (Z.div_mod i 8 ltac:(lia)).
    assert (Hb : bswap_bit 32 i / 8 = 3 - i / 8 ∧ bswap_bit 32 i mod 8 = i mod 8).
    { unfold bswap_bit. change (32 / 8) with 4.
      replace (8 * (4 - 1 - i / 8) + i mod 8) with (i mod 8 + (3 - i / 8) * 8) by lia.
      rewrite Z.div_add, Z.mod_add, Z.div_small, Z.mod_small by lia. lia. }
    rewrite be_decode_bit by (auto; unfold bswap_bit; change (32 / 8) with 4; lia).
    destruct Hb as [-> ->]. f_equal. f_equal. rewrite rev_involutive.
    destruct l as [|a [|b [|c [|d [|]]]]]; try discriminate.
    assert (Hc : i / 8 = 0 ∨ i / 8 = 1 ∨ i / 8 = 2 ∨ i / 8 = 3) by lia.
    destruct Hc as [Hc|[Hc|[Hc|Hc]]]; rewrite Hc; reflexivity.
  - rewrite (bits_high _ 32); [|apply bswap32_range|lia].
    rewrite (bits_high _ 32); [done| |lia].
    apply be_decode_range in Hr. by rewrite length_rev, Hlen in Hr.
Qed.

(** splitting a 64-bit value and joining the halves gives it back. *)
Theorem split_join_64 x :
  is_u64 x → join32to64 (split64to32 x).1 (split64to32 x).2 = x.
Proof.
  intros Hx. unfold join32to64, split64to32. cbn [fst snd].
  change 0xffffffff with (Z.ones 32). rewrite Z.land_ones by lia.
  rewrite (u32_small (x mod 2 ^ 32)) by (apply Z.mod_pos_bound; lia).
  apply Z.bits_inj'. intros i Hi. rewrite Z.lor_spec.
  destruct (decide (i < 32)) as [H32|H32].
  - rewrite Z.mod_pow2_bits_low by lia. unfold u64.
    rewrite (Z.mod_pow2_bits_low _ 64) by lia.
    by rewrite Z.shiftl_spec_low by lia.
  - rewrite (Z.mod_pow2_bits_high x 32), orb_false_r by lia.
    destruct (decide (i < 64)) as [H64|H64].
    + unfold u64. rewrite (Z.mod_pow2_bits_low _ 64), Z.shiftl_spec by lia.
      rewrite u32_bits, Z.shiftr_spec by lia. f_equal. lia.
    + unfold u64. rewrite (Z.mod_pow2_bits_high _ 64) by lia.
      symmetry. apply (bits_high x 64); [exact Hx|lia].
Qed.

Lemma u64_bits z i : 0 ≤ i < 64 → Z.testbit (u64 z) i = Z.testbit z i.
Proof. intros Hi. apply (Z.mod_pow2_bits_low z 64). lia. Qed.

Lemma u64_bits_high z i : 64 ≤ i → Z.testbit (u64 z) i = false.
Proof. intros Hi. apply (Z.mod_pow2_bits_high z 64). lia. Qed.

Ltac bswap64_bits :=
  rewrite ?Z.lor_spec, ?u64_bits by lia;
  rewrite ?Z.shiftl_spec, ?Z.shiftr_spec, ?Z.land_spec by lia;
  cbn; rewrite ?andb_true_r, ?andb_false_r, ?orb_false_r; reflexivity.

(** The bits of the argument that end up at bit [i]: in the third byte from the
    top two bytes meet, and the fourth and third byte from below get none. *)
Definition bswap64_at (v i : Z) : bool :=
  if i / 8 =? 5 then Z.testbit v (i - 24) || Z.testbit v (i - 8)
  else if (i / 8 =? 2) || (i / 8 =? 3) then false
  else Z.testbit v (bswap_bit 64 i).

Lemma bswap64_bit v i : 0 ≤ i < 64 → Z.testbit (bswap64 v) i = bswap64_at v i.
Proof.
  revert i. apply (enum_lt (λ i, Z.testbit (bswap64 v) i = bswap64_at v i) 64).
  unfold bswap64, bswap64_at. each_bit bswap64_bits.
Qed.

Lemma bswap64_high v i : 64 ≤ i → Z.testbit (bswap64 v) i = false.
Proof.
  intros Hi. unfold bswap64.
  rewrite !Z.lor_spec, !u64_bits_high, !Z.shiftr_spec, !Z.land_spec by lia.
  rewrite (bits_high 0x00ff000000000000 64), (bits_high 0xff00000000000000 64) by lia.
  by rewrite !andb_false_r.
Qed.

Lemma be_decode_high l i :
  Forall is_u8 l → 8 * Z.of_nat (length l) ≤ i → Z.testbit (be_decode l) i = false.
Proof.
  intros Hl Hi. pose proof (be_decode_range l Hl) as Hr.
  apply (bits_high _ (8 * Z.of_nat (length l))); [|lia].
  rewrite Z.pow_mul_r by lia. exact Hr.
Qed.

Lemma u8_lor x y : is_u8 x → is_u8 y → is_u8 (Z.lor x y).
Proof.
  intros Hx Hy. assert (Hn : 0 ≤ Z.lor x y) by (apply Z.lor_nonneg; split; [apply Hx|apply Hy]).
  split; [done|]. apply (bits_bound _ 8); [lia|done|].
  intros i Hi. by rewrite Z.lor_spec, (bits_high x 8), (bits_high y 8) by (done || lia).
Qed.

Lemma be_decode_inj l1 l2 :
  Forall is_u8 l1 → Forall is_u8 l2 → length l1 = length l2 → be_decode l1 = be_decode l2 → l1 = l2.
Proof.
  intros H1 H2 Hl He. rewrite <-(be_encode_decode l1 H1), <-(be_encode_decode l2 H2). by rewrite Hl, He.
Qed.

Lemma bswap64_result_bytes b0 b1 b2 b3 b4 b5 b6 b7 :
  Forall is_u8 [b0; b1; b2; b3; b4; b5; b6; b7] →
  Forall is_u8 [b7; b6; Z.lor b5 b3; b4; 0; 0; b1; b0].
Proof.
  rewrite !Forall_cons_iff. intros (H0 & H1 & _ & H3 & H4 & H5 & H6 & H7 & H8).
  split_and!; try done. by apply u8_lor.
Qed.

(** The bytes of [bswap64] of the number with the bytes [b0] to [b7]. *)
Lemma bswap64_bytes b0 b1 b2 b3 b4 b5 b6 b7 :
  Forall is_u8 [b0; b1; b2; b3; b4; b5; b6; b7] →
  bswap64 (be_decode [b0; b1; b2; b3; b4; b5; b6; b7]) =
  be_decode [b7; b6; Z.lor b5 b3; b4; 0; 0; b1; b0].
Proof.
  intros Hl. pose proof (bswap64_result_bytes _ _ _ _ _ _ _ _ Hl) as Hr.
  set (l := [b0; b1; b2; b3; b4; b5; b6; b7]) in *.
  set (r := [b7; b6; Z.lor b5 b3; b4; 0; 0; b1; b0]) in *.
  pose proof (λ i, be_decode_bit l i Hl) as Bl. pose proof (λ i, be_decode_bit r i Hr) as Br.
  apply Z.bits_inj'. intros i Hi. destruct (decide (i < 64)) as [Hlt|Hge].
  - rewrite bswap64_bit by lia. generalize dependent (be_decode l). intros vl Bl.
    generalize dependent (be_decode r). intros vr Br. subst l r.
    cbn [length] in Bl, Br.
    apply (enum_lt (λ i, bswap64_at vl i = Z.testbit vr i) 64); [|lia]. clear i Hi Hlt.
    unfold bswap64_at.
    each_bit ltac:(cbv -[Z.testbit Z.lor orb]; rewrite ?Bl, ?Br by lia;
      cbv -[Z.testbit Z.lor orb]; rewrite ?Z.lor_spec, ?Z.bits_0; reflexivity).
  - rewrite bswap64_high, be_decode_high by (done || (cbn; lia)). done.
Qed.

(** C40: what [bswap64] does to the bytes of a number, written from the top: the
    fourth byte is put on top of the sixth where it should go to the fifth
    place, the third byte is lost, and the others change places as in a
    reversal.  So it reverses the bytes exactly of the numbers whose third and
    fourth byte are 0. *)
Theorem bswap64_exact b0 b1 b2 b3 b4 b5 b6 b7 :
  Forall is_u8 [b0; b1; b2; b3; b4; b5; b6; b7] →
  let l := [b0; b1; b2; b3; b4; b5; b6; b7] in
  bswap64 (be_decode l) = be_decode [b7; b6; Z.lor b5 b3; b4; 0; 0; b1; b0] ∧
  (bswap64 (be_decode l) = be_decode (rev l) ↔ b2 = 0 ∧ b3 = 0).
Proof.
  intros Hl l. split; [by apply bswap64_bytes|]. unfold l. rewrite bswap64_bytes by done. split.
  - intros He%be_decode_inj; [|exact (bswap64_result_bytes _ _ _ _ _ _ _ _ Hl)|by apply Forall_rev|done].
    cbn in He. by injection He.
  - intros [-> ->]. by rewrite Z.lor_0_r.
Qed.

Lemma bswap64_exact_witness :
  bswap64 (be_decode [1; 2; 3; 4; 5; 6; 7; 8]) = be_decode [8; 7; 6; 5; 0; 0; 2; 1] ∧
  bswap64 (be_decode [1; 2; 3; 4; 5; 6; 7; 8]) ≠ be_decode [8; 7; 6; 5; 4; 3; 2; 1].
Proof.
  assert (Hb : Forall is_u8 [1; 2; 3; 4; 5; 6; 7; 8]) by (by repeat constructor).
  destruct (bswap64_exact 1 2 3 4 5 6 7 8 Hb) as [He Hr]. split; [exact He|].
  intros H. destruct (proj1 Hr H) as [H3 _]. discriminate H3.
Defined.

(** ** Time *)

Definition nanoseconds (ts : timespec) : Z :=
  tv_sec ts * 1000000000 + tv_nsec ts.

Definition ts_norm (ts : timespec) : Prop := 0 ≤ tv_nsec ts < 1000000000.

Lemma ts_eq ts1 ts2 :
  ts_norm ts1 → ts_norm ts2 → nanoseconds ts1 = nanoseconds ts2 → ts1 = ts2.
Proof.
  destruct ts1, ts2. unfold ts_norm, nanoseconds. cbn. intros. f_equal; lia.
Qed.

Lemma timespec_add_norm ts1 ts2 :
  ts_norm ts1 → ts_norm ts2 →
  ts_norm (timespec_add ts1 ts2) ∧
  nanoseconds (timespec_add ts1 ts2) = nanoseconds ts1 + nanoseconds ts2.
Proof.
  unfold ts_norm, nanoseconds, timespec_add. intros H1 H2.
  destruct (Z.leb_spec 1000000000 (tv_nsec ts1 + tv_nsec ts2)); cbn; lia.
Qed.

Lemma timespec_sub_norm ts1 ts2 :
  ts_norm ts1 → ts_norm ts2 →
  ts_norm (timespec_sub ts1 ts2) ∧
  nanoseconds (timespec_sub ts1 ts2) = nanoseconds ts1 - nanoseconds ts2.
Proof.
  unfold ts_norm, nanoseconds, timespec_sub. intros H1 H2.
  destruct (Z.ltb_spec (tv_nsec ts1) (tv_nsec ts2)); cbn; lia.
Qed.

(** on normalized times, addition and subtraction are exact on the number
    of nanoseconds, keep times normalized, and undo each other. *)
Theorem timespec_arith ts1 ts2 :
  ts_norm ts1 → ts_norm ts2 →
  nanoseconds (timespec_add ts1 ts2) = nanoseconds ts1 + nanoseconds ts2 ∧
  nanoseconds (timespec_sub ts1 ts2) = nanoseconds ts1 - nanoseconds ts2 ∧
  ts_norm (timespec_add ts1 ts2) ∧ ts_norm (timespec_sub ts1 ts2) ∧
  timespec_sub (timespec_add ts1 ts2) ts2 = ts1.
Proof.
  intros H1 H2. destruct (timespec_add_norm ts1 ts2 H1 H2) as [Ha1 Ha2].
  destruct (timespec_sub_norm ts1 ts2 H1 H2) as [Hs1 Hs2].
  destruct (timespec_sub_norm (timespec_add ts1 ts2) ts2 Ha1 H2) as [Hr1 Hr2].
  repeat split; try assumption; try apply Ha1; try apply Hs1.
  apply ts_eq; [done|done|lia].
Qed.

Lemma bswap32_reverses_witness :
  bswap32 (be_decode [1; 2; 3; 4]) = be_decode [4; 3; 2; 1].
Proof. apply (bswap32_reverses [1; 2; 3; 4]); [done|repeat constructor; lia]. Defined.

Lemma split_join_64_witness :
  join32to64 (split64to32 0x123456789).1 (split64to32 0x123456789).2 = 0x123456789.
Proof. apply (split_join_64 0x123456789). by split. Defined.

Lemma timespec_arith_witness :
  let a := Timespec 1 700000000 in let b := Timespec 2 600000000 in
  nanoseconds (timespec_add a b) = nanoseconds a + nanoseconds b ∧
  nanoseconds (timespec_sub a b) = nanoseconds a - nanoseconds b ∧
  ts_norm (timespec_add a b) ∧ ts_norm (timespec_sub a b) ∧
  timespec_sub (timespec_add a b) b = a.
Proof. apply timespec_arith; by split. Defined.
