(* ===== verification/CopyInOut.v ===== *)
(** * Copying between user and kernel memory

    kern/vm/copyinout.c.  User memory is a finite map from the addresses that
    are mapped to the bytes stored there; touching any other address faults.
    A fault inside one of the copy functions is recovered by [copyfail]
    (installed as [tm_badfaultfunc]), which makes the [setjmp] return again
    and the function return [EFAULT]; a fault with no recovery function
    installed panics (kern/arch/mips/locore/trap.c). *)

From S2P Require Import Prelude.
Open Scope Z_scope.

(** The memory the current thread sees, and its recovery function. *)
Record vmstate := VmState {
  kmem : gmap Z Z;              (* kernel memory *)
  umem : gmap Z Z;              (* the mapped part of the user address space *)
  tm_badfaultfunc : bool;       (* copyfail is installed *)
}.

(** The bytes of a memory at [a], [a+1], ...: all of them or nothing. *)

Fixpoint read_bytes (m : gmap Z Z) (a : Z) (n : nat) : option (list Z) :=
  match n with
  | O => Some []
  | S n' => match m !! a, read_bytes m (a + 1) n' with
            | Some b, Some l => Some (b :: l)
            | _, _ => None
            end
  end.

(** The memory after storing bytes at [a], [a+1], ... *)
Fixpoint write_bytes (m : gmap Z Z) (a : Z) (l : list Z) : gmap Z Z :=
  match l with
  | [] => m
  | b :: l' => write_bytes (<[a := b]> m) (a + 1) l'
  end.

Definition USERSPACETOP : Z := 0x80000000.

Definition set_badfault (b : bool) : M vmstate unit :=
  modify (λ s, VmState (kmem s) (umem s) b).

(** A page fault that cannot be resolved. *)
Definition bad_fault {A} : M vmstate A :=
  s <- get ;; if tm_badfaultfunc s then fail EFAULT else panic.

Definition user_load (a : Z) : M vmstate Z :=
  s <- get ;;
  match umem s !! a with Some b => ret b | None => bad_fault end.

Definition user_store (a b : Z) : M vmstate unit :=
  s <- get ;;
  match umem s !! a with
  | Some _ => put (VmState (kmem s) (<[a := b]> (umem s)) (tm_badfaultfunc s))
  | None => bad_fault
  end.

(** [memcpy] out of and into user memory, byte by byte. *)
Fixpoint memcpy_from_user (n : nat) (a : Z) : M vmstate (list Z) :=
  match n with
  | O => ret []
  | S n' => b <- user_load a ;; l <- memcpy_from_user n' (a + 1) ;; ret (b :: l)
  end.

Fixpoint memcpy_to_user (a : Z) (src : list Z) : M vmstate unit :=
  match src with
  | [] => ret tt
  | b :: l => user_store a b ;;; memcpy_to_user (a + 1) l
  end.

(** [copycheck]: the length that may be copied, or [EFAULT]. *)
Definition copycheck (userptr len : Z) : errno + Z :=
  let bot := userptr in
  let top := u32 (u32 (bot + len) - 1) in
  if top <? bot then inl EFAULT
  else if USERSPACETOP <=? bot then inl EFAULT
  else if USERSPACETOP <=? top then inr (USERSPACETOP - bot)
  else inr len.

(** The shape all four functions share: install the recovery function, set
    the return point, copy, and take the recovery function out again. *)
Definition protected {A} (copy : M vmstate A) : M vmstate A :=
  set_badfault true ;;;
  r <- attempt copy ;;
  match r with
  | inl _ => set_badfault false ;;; fail EFAULT
  | inr a => set_badfault false ;;; ret a
  end.

(** [copyin(usersrc, dest, len)]; the result is what [dest] receives. *)
Definition copyin (usersrc len : Z) : M vmstate (list Z) :=
  match copycheck usersrc len with
  | inl e => fail e
  | inr stoplen =>
      if negb (stoplen =? len) then fail EFAULT
      else protected (memcpy_from_user (Z.to_nat len) usersrc)
  end.

(** [copyout(src, userdest, len)] with [len] the length of [src]. *)
Definition copyout (src : list Z) (userdest : Z) : M vmstate unit :=
  let len := Z.of_nat (length src) in
  match copycheck userdest len with
  | inl e => fail e
  | inr stoplen =>
      if negb (stoplen =? len) then fail EFAULT
      else protected (memcpy_to_user userdest src)
  end.

(** [copystr], with [load i] for [src[i]] and [store i c] for
    [dest[i] = c].  The value is the string copied, its terminator included;
    [gotlen] is its length.  The errors it returns itself are values, so that
    they are not confused with the fault that leaves it through [copyfail]. *)
Fixpoint copystr_loop (load : Z → M vmstate Z) (store : Z → Z → M vmstate unit)
    (n : nat) (i : Z) : M vmstate (option (list Z)) :=
  match n with
  | O => ret None
  | S n' =>
      c <- load i ;;
      store i c ;;;
      if c =? 0 then ret (Some [c])
      else r <- copystr_loop load store n' (i + 1) ;;
           ret (match r with Some l => Some (c :: l) | None => None end)
  end.

Definition copystr (load : Z → M vmstate Z) (store : Z → Z → M vmstate unit)
    (maxlen stoplen : Z) : M vmstate (errno + list Z) :=
  r <- copystr_loop load store (Z.to_nat (Z.min maxlen stoplen)) 0 ;;
  ret (match r with
       | Some l => inr l
       | None => if stoplen <? maxlen then inl EFAULT else inl ENAMETOOLONG
       end).

(** The tail of [copyinstr] and [copyoutstr]. *)
Definition copystr_result (r : errno + list Z) : M vmstate (list Z) :=
  match r with inl e => fail e | inr l => ret l end.

Definition copyinstr (usersrc len : Z) : M vmstate (list Z) :=
  match copycheck usersrc len with
  | inl e => fail e
  | inr stoplen =>
      r <- protected (copystr (λ i, user_load (usersrc + i)) (λ _ _, ret tt)
                        len stoplen) ;;
      copystr_result r
  end.

(** [src] is the kernel string; reading past its block is undefined. *)
Definition copyoutstr (src : list Z) (userdest len : Z) : M vmstate (list Z) :=
  match copycheck userdest len with
  | inl e => fail e
  | inr stoplen =>
      r <- protected (copystr (λ i, deref (src !! Z.to_nat i))
                        (λ i c, user_store (userdest + i) c) len stoplen) ;;
      copystr_result r
  end.

(** ** What the copies do to user memory *)

Definition mapped (m : gmap Z Z) (a : Z) (n : nat) : Prop :=
  ∀ x, a ≤ x < a + Z.of_nat n → is_Some (m !! x).

(** The state a copy leaves: the given user memory, no recovery function. *)
Definition copied (s : vmstate) (m : gmap Z Z) : vmstate :=
  VmState (kmem s) m false.

Lemma read_bytes_mapped m a n : is_Some (read_bytes m a n) ↔ mapped m a n.
Proof.
  revert a. induction n as [|n IH]; intros a; cbn.
  - split; [|by eauto]. intros _ x Hx. lia.
  - specialize (IH (a + 1)). split.
    + intros [l Hl]. destruct (m !! a) as [b|] eqn:Ea; [|done].
      destruct (read_bytes m (a + 1) n) as [l'|] eqn:El; [|done].
      intros x Hx. destruct (decide (x = a)) as [->|]; [by eauto|].
      apply IH; [by eauto|lia].
    + intros Hm. destruct (Hm a ltac:(lia)) as [b ->].
      destruct (proj2 IH) as [l ->]; [intros x Hx; apply Hm; lia|by eauto].
Qed.

Lemma read_bytes_length m a n l : read_bytes m a n = Some l → length l = n.
Proof.
  revert a l. induction n as [|n IH]; intros a l Hl; cbn in Hl; [by simplify_eq|].
  destruct (m !! a); [|done].
  destruct (read_bytes m (a + 1) n) as [l'|] eqn:El; [|done].
  simplify_eq. cbn. f_equal. by eapply IH.
Qed.

Lemma read_bytes_lookup m a n l i :
  read_bytes m a n = Some l → (i < n)%nat → l !! i = m !! (a + Z.of_nat i).
Proof.
  revert a l i. induction n as [|n IH]; intros a l i Hl Hi; [lia|]. cbn in Hl.
  destruct (m !! a) as [b|] eqn:Ea; [|done].
  destruct (read_bytes m (a + 1) n) as [l'|] eqn:El; [|done].
  simplify_eq. destruct i as [|i]; [by rewrite Z.add_0_r|].
  cbn. rewrite (IH _ _ _ El) by lia. f_equal. lia.
Qed.

Lemma memcpy_from_user_spec n a s :
  memcpy_from_user n a s =
  match read_bytes (umem s) a n with
  | Some l => Ok l s
  | None => if tm_badfaultfunc s then Err EFAULT s else Crash CPanic
  end.
Proof.
  revert a. induction n as [|n IH]; intros a; [done|].
  cbn. unfold bind at 1, user_load. unfold bind at 1, get at 1.
  destruct (umem s !! a) as [b|] eqn:E.
  - unfold ret at 1, bind. rewrite IH. destruct (read_bytes _ _ _); [done|].
    by destruct (tm_badfaultfunc s).
  - unfold bad_fault, bind, get, fail, panic. by destruct (tm_badfaultfunc s).
Qed.

Lemma memcpy_to_user_ok l a s :
  mapped (umem s) a (length l) →
  memcpy_to_user a l s =
  Ok tt (VmState (kmem s) (write_bytes (umem s) a l) (tm_badfaultfunc s)).
Proof.
  revert a s. induction l as [|b l IH]; intros a s Hm; [by destruct s|].
  cbn in *. destruct (Hm a ltac:(lia)) as [c Hc].
  unfold bind at 1, user_store, bind at 1, get. rewrite Hc. unfold put.
  rewrite IH; [done|]. cbn. intros x Hx. destruct (decide (x = a)) as [->|].
  - rewrite lookup_insert_eq. by eauto.
  - rewrite lookup_insert_ne by done. apply Hm. lia.
Qed.

(** A copy that hits an unmapped byte stops there. *)
Lemma memcpy_to_user_fault l a s :
  tm_badfaultfunc s = true → ¬ mapped (umem s) a (length l) →
  ∃ m, memcpy_to_user a l s = Err EFAULT (VmState (kmem s) m true) ∧
       dom m = dom (umem s).
Proof.
  revert a s. induction l as [|b l IH]; intros a s Hb Hm.
  { exfalso. apply Hm. intros x Hx. cbn in Hx. lia. }
  cbn in *. unfold bind at 1, user_store, bind at 1, get, put.
  destruct (umem s !! a) as [c|] eqn:Hc.
  - destruct (IH (a + 1) (VmState (kmem s) (<[a := b]> (umem s)) (tm_badfaultfunc s)))
      as (m & He & Hd); [done| |].
    + cbn. intros Hm'. apply Hm. intros x Hx.
      destruct (decide (x = a)) as [->|]; [by eauto|].
      destruct (Hm' x ltac:(lia)) as [y Hy].
      rewrite lookup_insert_ne in Hy by done. by eauto.
    + cbn in *. exists m. rewrite He. split; [done|]. rewrite Hd.
      rewrite dom_insert_L. assert (a ∈ dom (umem s)) by (apply elem_of_dom; by eauto).
      rewrite subseteq_union_1_L; [done|]. by apply singleton_subseteq_l.
  - exists (umem s). unfold bad_fault, bind, get, fail. rewrite Hb.
    split; [|done]. destruct s; cbn in *; by subst.
Qed.

Lemma write_bytes_lookup m a l x :
  write_bytes m a l !! x =
  if decide (a ≤ x < a + Z.of_nat (length l))
  then l !! Z.to_nat (x - a) else m !! x.
Proof.
  revert m a. induction l as [|b l IH]; intros m a; cbn [write_bytes].
  - cbn. by rewrite decide_False by lia.
  - rewrite IH. cbn [length].
    destruct (decide (x = a)) as [->|Hne].
    + rewrite decide_False, decide_True by lia. rewrite lookup_insert_eq.
      by replace (Z.to_nat (a - a)) with O by lia.
    + rewrite lookup_insert_ne by done.
      destruct (decide (a + 1 ≤ x < a + 1 + Z.of_nat (length l))).
      * rewrite decide_True by lia.
        by replace (Z.to_nat (x - a)) with (S (Z.to_nat (x - (a + 1)))) by lia.
      * by rewrite decide_False by lia.
Qed.

(** ** The region check *)

Lemma copycheck_spec a len :
  is_u32 a → is_u32 len →
  copycheck a len =
  if decide (0 < len ∧ a < USERSPACETOP ∧ a + len ≤ 4294967296)
  then inr (Z.min len (USERSPACETOP - a))
  else if decide (a = 0 ∧ len = 0) then inr USERSPACETOP else inl EFAULT.
Proof.
  unfold is_u32, copycheck, USERSPACETOP, u32. intros Ha Hl.
  assert (Htop : ((a + len) mod 4294967296 - 1) mod 4294967296 =
                 (a + len - 1) mod 4294967296) by (apply Zminus_mod_idemp_l).
  rewrite Htop. clear Htop.
  destruct (decide (len = 0)) as [->|Hl0].
  - rewrite decide_False by lia. destruct (decide (a = 0)) as [->|].
    + by rewrite decide_True.
    + rewrite decide_False by lia. rewrite Z.mod_small by lia.
      by rewrite (proj2 (Z.ltb_lt _ _)) by lia.
  - destruct (decide (a + len ≤ 4294967296)).
    + rewrite Z.mod_small by lia. rewrite (proj2 (Z.ltb_ge _ _)) by lia.
      destruct (Z.leb_spec 2147483648 a).
      * by rewrite !decide_False by lia.
      * rewrite decide_True by lia.
        destruct (Z.leb_spec 2147483648 (a + len - 1)); f_equal; lia.
    + rewrite !decide_False by lia.
      replace (a + len - 1) with (a + len - 1 - 4294967296 + 1 * 4294967296) by lia.
      rewrite Z.mod_add, Z.mod_small by lia.
      by rewrite (proj2 (Z.ltb_lt _ _)) by lia.
Qed.

Lemma copycheck_block a len :
  is_u32 a → 0 < len < 4294967296 →
  (∃ stop, copycheck a len = inr stop ∧ (stop = len ↔ a + len ≤ USERSPACETOP)) ∨
  (copycheck a len = inl EFAULT ∧ USERSPACETOP < a + len).
Proof.
  intros Ha Hl. rewrite copycheck_spec by (unfold is_u32 in *; lia).
  unfold is_u32, USERSPACETOP in *. case_decide as Hd.
  - left. eexists. split; [done|]. lia.
  - right. rewrite decide_False by lia. split; [done|lia].
Qed.

(** [copyin] delivers exactly the bytes of the user block when the block
    lies below [USERSPACETOP] and is mapped, and returns [EFAULT] otherwise;
    it never panics and never leaves the recovery function installed. *)
Lemma copyin_spec a len s :
  is_u32 a → 0 < len < 4294967296 →
  copyin a len s =
  if decide (a + len ≤ USERSPACETOP) then
    match read_bytes (umem s) a (Z.to_nat len) with
    | Some l => Ok l (copied s (umem s))
    | None => Err EFAULT (copied s (umem s))
    end
  else Err EFAULT s.
Proof.
  intros Ha Hl. unfold copyin.
  destruct (copycheck_block a len Ha Hl) as [(stop & -> & Hs)|[-> Hs]].
  - case_decide as Hd.
    + rewrite (proj2 (Z.eqb_eq _ _)) by tauto. cbn [negb].
      unfold protected, bind, set_badfault, modify, attempt.
      rewrite memcpy_from_user_spec. cbn [umem tm_badfaultfunc].
      by destruct (read_bytes _ _ _).
    + rewrite (proj2 (Z.eqb_neq _ _)) by tauto. done.
  - by rewrite decide_False by lia.
Qed.

(** [copyout] writes the whole buffer, and nothing else, when the block
    lies below [USERSPACETOP] and is mapped; otherwise it returns [EFAULT]
    and maps or unmaps nothing; it never panics. *)
Lemma copyout_spec a l s :
  is_u32 a → 0 < Z.of_nat (length l) < 4294967296 →
  match copyout l a s with
  | Ok _ s' => a + Z.of_nat (length l) ≤ USERSPACETOP ∧
               mapped (umem s) a (length l) ∧
               s' = copied s (write_bytes (umem s) a l)
  | Err e s' => e = EFAULT ∧
                ¬ (a + Z.of_nat (length l) ≤ USERSPACETOP ∧
                   mapped (umem s) a (length l)) ∧
                kmem s' = kmem s ∧ dom (umem s') = dom (umem s) ∧
                (tm_badfaultfunc s = false → tm_badfaultfunc s' = false)
  | Crash _ => False
  end.
Proof.
  intros Ha Hl. unfold copyout. set (len := Z.of_nat (length l)) in *.
  destruct (copycheck_block a len Ha Hl) as [(stop & -> & Hs)|[-> Hs]];
    [|by repeat split; auto; lia].
  destruct (Z.eqb_spec stop len) as [He|Hne]; cbn [negb];
    [|by repeat split; auto; tauto].
  unfold protected, bind, set_badfault, modify, attempt.
  set (s1 := VmState (kmem s) (umem s) true).
  destruct (decide (is_Some (read_bytes (umem s) a (length l)))) as [Hr|Hr];
    rewrite read_bytes_mapped in Hr.
  - rewrite (memcpy_to_user_ok l a s1) by done. by repeat split; auto; tauto.
  - destruct (memcpy_to_user_fault l a s1 eq_refl Hr) as (m & -> & Hd).
    cbn. repeat split; auto. tauto.
Qed.

Lemma write_bytes_read m a l :
  read_bytes (write_bytes m a l) a (length l) = Some l.
Proof.
  assert (Hm : mapped (write_bytes m a l) a (length l)).
  { intros x Hx. rewrite write_bytes_lookup, decide_True by lia.
    apply lookup_lt_is_Some_2. lia. }
  apply read_bytes_mapped in Hm as [l' Hl']. rewrite Hl'. f_equal.
  revert Hl'. generalize (write_bytes_lookup m a l).
  generalize (write_bytes m a l). intros m' Hlook Hl'.
  apply list_eq. intros i.
  destruct (decide (i < length l)%nat) as [Hi|Hi].
  - pose proof (read_bytes_lookup m' a (length l) l' i Hl' Hi) as ->.
    rewrite Hlook, decide_True by lia. f_equal. lia.
  - apply read_bytes_length in Hl'. rewrite !lookup_ge_None_2 by lia. done.
Qed.

(** C33: what [copyout] stored at a user address, [copyin] fetches from it: a
    buffer sent to a mapped user block comes back unchanged. *)
Theorem copyout_copyin_roundtrip a l s :
  is_u32 a → 0 < Z.of_nat (length l) < 4294967296 →
  a + Z.of_nat (length l) ≤ USERSPACETOP → mapped (umem s) a (length l) →
  ∃ s', (copyout l a ;;; copyin a (Z.of_nat (length l))) s = Ok l s'.
Proof.
  intros Ha Hl Htop Hmap. pose proof (copyout_spec a l s Ha Hl) as Hc.
  unfold bind. destruct (copyout l a s) as [? s1|? s1|?]; [|tauto|done].
  destruct Hc as (_ & _ & ->). rewrite copyin_spec, decide_True by done.
  cbn [umem copied]. rewrite Nat2Z.id, write_bytes_read. by eexists.
Qed.

(** a block of length 0 is always refused, even at a mapped address. *)
Theorem copyin_zero_length a s :
  is_u32 a → copyin a 0 s = Err EFAULT s.
Proof.
  intros Ha. unfold copyin. rewrite copycheck_spec by (unfold is_u32 in *; lia).
  rewrite decide_False by lia. case_decide; done.
Qed.

Lemma copystr_loop_user n a i str s :
  0 ∉ str →
  read_bytes (umem s) (a + i) (S (length str)) = Some (str ++ [0]) →
  copystr_loop (λ i, user_load (a + i)) (λ _ _, ret tt) n i s =
  Ok (if decide (length str < n)%nat then Some (str ++ [0]) else None) s.
Proof.
  revert n i. induction str as [|c str IH]; intros n i Hz Hr;
    cbn [length] in Hr; cbn [read_bytes] in Hr;
    (destruct (umem s !! (a + i)) as [b|] eqn:Eb; [|done]).
  - destruct n as [|n]; [done|]. cbn [copystr_loop]. simplify_eq/=.
    unfold bind, user_load, bind, get, ret. rewrite Eb. cbn. done.
  - destruct n as [|n]; [done|]. cbn [copystr_loop].
    destruct (umem s !! (a + i + 1)) eqn:Eb1; [|done].
    destruct (read_bytes (umem s) (a + i + 1 + 1) (length str)) eqn:Er; [|done].
    cbn in Hr. simplify_eq.
    unfold bind at 1, user_load at 1, bind at 1, get, ret at 1. rewrite Eb.
    unfold bind at 1, ret at 1. rewrite (proj2 (Z.eqb_neq _ _)) by set_solver.
    unfold bind. rewrite (IH n (i + 1)).
    + unfold ret. cbn [length]. destruct (decide (length str < n)%nat).
      * by rewrite decide_True by lia.
      * by rewrite decide_False by lia.
    + set_solver.
    + cbn [read_bytes]. replace (a + (i + 1)) with (a + i + 1) by lia.
      rewrite Eb1, Er. congruence.
Qed.

(** C32: [copyinstr] delivers a user string with its terminator when it fits in
    the buffer and returns [ENAMETOOLONG] when it does not. *)
Theorem copyinstr_correct a len str s :
  is_u32 a → 0 < len < 4294967296 → a + len ≤ 4294967296 → 0 ∉ str →
  read_bytes (umem s) a (S (length str)) = Some (str ++ [0]) →
  a + Z.of_nat (length str) < USERSPACETOP →
  copyinstr a len s =
  if decide (Z.of_nat (length str) < len) then Ok (str ++ [0]) (copied s (umem s))
  else Err ENAMETOOLONG (copied s (umem s)).
Proof.
  intros Ha Hl Hal Hz Hr Htop. unfold copyinstr.
  rewrite copycheck_spec by (unfold is_u32 in *; lia).
  rewrite decide_True by (unfold is_u32 in *; lia).
  unfold bind, protected, bind, set_badfault, modify, attempt, copystr, bind.
  set (s1 := VmState (kmem s) (umem s) true).
  rewrite (copystr_loop_user _ a 0 str s1)
    by (try done; by rewrite Z.add_0_r).
  unfold ret at 1. destruct (decide (Z.of_nat (length str) < len)).
  - by rewrite decide_True by lia.
  - rewrite decide_False by lia. rewrite (proj2 (Z.ltb_ge _ _)) by lia. done.
Qed.

(** A process with three bytes of memory. *)
Definition small_vm : vmstate := VmState ∅ {[ 4096 := 104; 4097 := 105; 4098 := 0 ]} false.

Lemma copyout_copyin_roundtrip_witness :
  ∃ s', (copyout [1; 2] 4096 ;;; copyin 4096 2) small_vm = Ok [1; 2] s'.
Proof.
  apply (copyout_copyin_roundtrip 4096 [1; 2] small_vm); [by split|done|done|].
  cbn. intros x Hx. assert (Hc : x = 4096 ∨ x = 4097) by lia. by destruct Hc as [->| ->].
Defined.

Lemma copyin_zero_length_witness : copyin 4096 0 small_vm = Err EFAULT small_vm.
Proof. apply (copyin_zero_length 4096 small_vm). by split. Defined.

Lemma copyinstr_correct_witness :
  copyinstr 4096 10 small_vm =
  if decide (2 < 10) then Ok [104; 105; 0] (copied small_vm (umem small_vm))
  else Err ENAMETOOLONG (copied small_vm (umem small_vm)).
Proof.
  apply (copyinstr_correct 4096 10 [104; 105] small_vm); [by split|lia|lia| |reflexivity|done].
  rewrite !not_elem_of_cons. repeat split; try lia. apply not_elem_of_nil.
Defined.
