(* ===== verification/CString.v ===== *)
(** * Strings and memory blocks

    common/libc/string and atoi of common/libc/stdlib, the library that the
    kernel and the programs share.  A pointer into a string is the list of the
    bytes from there to the end of the object; reading past it is undefined
    ([None]).  [memcpy] and [memmove] work on a memory, because their blocks
    may overlap. *)

From S2P Require Import Prelude CopyInOut.
Open Scope Z_scope.

(** ** Strings *)

(** [while (str[ret]) ret++;] *)
Fixpoint strlen (str : list Z) : option nat :=
  match str with
  | [] => None
  | c :: rest => if c =? 0 then Some 0%nat else S <$> strlen rest
  end.

(** The loop of [strcmp] and the comparison where it stops. *)
Fixpoint strcmp (a b : list Z) : option Z :=
  match a, b with
  | x :: a', y :: b' =>
      if negb (x =? 0) && (x =? y) then strcmp a' b'
      else Some (if y <? x then 1 else if x =? y then 0 else -1)
  | _, _ => None
  end.

(** [strcpy(dest, src)]: [dest] afterwards. *)
Fixpoint strcpy (dest src : list Z) : option (list Z) :=
  match src, dest with
  | c :: src', _ :: dest' =>
      if c =? 0 then Some (0 :: dest') else cons c <$> strcpy dest' src'
  | _, _ => None
  end.

Definition strcat (dest src : list Z) : option (list Z) :=
  offset ← strlen dest;
  d ← strcpy (drop offset dest) src;
  Some (take offset dest ++ d).

(** [strchr(s, ch)]: the index of the character found, or [Some None]. *)
Fixpoint strchr (s : list Z) (ch : Z) : option (option nat) :=
  match s with
  | [] => None
  | c :: rest =>
      if c =? 0 then Some (if c =? ch then Some 0%nat else None)
      else if c =? ch then Some (Some 0%nat)
      else (λ r : option nat, S <$> r) <$> strchr rest ch
  end.

(** The loop of [strrchr]: characters [0 .. i-1] are left to look at. *)
Fixpoint strrchr_loop (s : list Z) (ch : Z) (i : nat) : option (option nat) :=
  match i with
  | O => Some None
  | S i' =>
      c ← s !! i';
      if c =? ch then Some (Some i') else strrchr_loop s ch i'
  end.

Definition strrchr (s : list Z) (ch : Z) : option (option nat) :=
  n ← strlen s; strrchr_loop s ch (n + 1).

(** The loops of [strtok_r] that skip separators ([want] is true) or anything
    else: how far they get. *)
Fixpoint strtok_skip (seps : list Z) (want : bool) (s : list Z) : option nat :=
  match s with
  | [] => None
  | c :: rest =>
      if c =? 0 then Some 0%nat
      else
        r ← strchr seps c;
        if bool_decide (is_Some r) then
          if want then S <$> strtok_skip seps want rest else Some 0%nat
        else
          if want then Some 0%nat else S <$> strtok_skip seps want rest
  end.

(** [strtok_r]: [buf] is the string it works on and [context] the saved
    position; the result is the position of the word, the string and the
    position to save. *)
Definition strtok_r (buf : list Z) (string : option nat) (seps : list Z)
    (context : option nat) : option (option nat * list Z * option nat) :=
  let context := match string with Some p => Some p | None => context end in
  match context with
  | None => Some (None, buf, None)
  | Some head =>
      n ← strtok_skip seps true (drop head buf);
      let head := (head + n)%nat in
      c ← buf !! head;
      if c =? 0 then Some (None, buf, None)
      else
        m ← strtok_skip seps false (drop head buf);
        let tail := (head + m)%nat in
        d ← buf !! tail;
        if d =? 0 then Some (Some head, buf, None)
        else Some (Some head, <[tail := 0]> buf, Some (tail + 1)%nat)
  end.

(** ** [atoi] *)

Definition digits : list Z := [48; 49; 50; 51; 52; 53; 54; 55; 56; 57; 0].

Fixpoint atoi_skip (s : list Z) : option (list Z) :=
  match s with
  | [] => None
  | c :: rest => if (c =? 32) || (c =? 9) then atoi_skip rest else Some s
  end.

Fixpoint atoi_digits (s : list Z) (val : Z) : option Z :=
  match s with
  | [] => None
  | c :: rest =>
      if c =? 0 then Some val
      else
        where_ ← strchr digits c;
        match where_ with
        | None => Some val
        | Some digit => atoi_digits rest (u32 (u32 (val * 10) + Z.of_nat digit))
        end
  end.

(** A 32-bit pattern as an [int]. *)
Definition to_int (v : Z) : Z := if v <? 2147483648 then v else v - 4294967296.

Definition atoi (s : list Z) : option Z :=
  s ← atoi_skip s;
  c ← head s;
  let neg := c =? 45 in
  let s := if neg || (c =? 43) then tail s else s in
  val ← atoi_digits s 0;
  Some (to_int (if neg then u32 (- val) else val)).

(** ** Memory blocks *)

(** [d[i] = s[i]] for elements of [w] bytes. *)
Definition copy_elem (w : nat) (dst src : Z) (i : Z) (m : gmap Z Z) : option (gmap Z Z) :=
  l ← read_bytes m (src + i * Z.of_nat w) w;
  _ ← read_bytes m (dst + i * Z.of_nat w) w;
  Some (write_bytes m (dst + i * Z.of_nat w) l).

(** [for (i=lo; i<lo+n; i++) d[i] = s[i];] *)
Fixpoint copy_up (w n : nat) (lo dst src : Z) (m : gmap Z Z) : option (gmap Z Z) :=
  match n with
  | O => Some m
  | S n' => m' ← copy_elem w dst src lo m; copy_up w n' (lo + 1) dst src m'
  end.

(** [for (i=n; i>0; i--) d[i-1] = s[i-1];] *)
Fixpoint copy_down (w n : nat) (dst src : Z) (m : gmap Z Z) : option (gmap Z Z) :=
  match n with
  | O => Some m
  | S n' => m' ← copy_elem w dst src (Z.of_nat n') m; copy_down w n' dst src m'
  end.

Definition word_aligned (dst src len : Z) : bool :=
  (dst mod 4 =? 0) && (src mod 4 =? 0) && (len mod 4 =? 0).

Definition memcpy (dst src len : Z) (m : gmap Z Z) : option (gmap Z Z) :=
  if word_aligned dst src len then copy_up 4 (Z.to_nat (len / 4)) 0 dst src m
  else copy_up 1 (Z.to_nat len) 0 dst src m.

Definition memmove (dst src len : Z) (m : gmap Z Z) : option (gmap Z Z) :=
  if dst <? src then memcpy dst src len m
  else if word_aligned dst src len then copy_down 4 (Z.to_nat (len / 4)) dst src m
  else copy_down 1 (Z.to_nat len) dst src m.

(** [for (i=lo; i<lo+n; i++) p[i] = v;] for elements of [w] bytes, each [b]. *)
Fixpoint fill_up (w n : nat) (lo p b : Z) (m : gmap Z Z) : option (gmap Z Z) :=
  match n with
  | O => Some m
  | S n' =>
      _ ← read_bytes m (p + lo * Z.of_nat w) w;
      fill_up w n' (lo + 1) p b (write_bytes m (p + lo * Z.of_nat w) (replicate w b))
  end.

Definition memset (p ch len : Z) (m : gmap Z Z) : option (gmap Z Z) :=
  fill_up 1 (Z.to_nat len) 0 p (u8 ch) m.

Definition bzero (p len : Z) (m : gmap Z Z) : option (gmap Z Z) :=
  if (p mod 4 =? 0) && (len mod 4 =? 0) then fill_up 4 (Z.to_nat (len / 4)) 0 p 0 m
  else fill_up 1 (Z.to_nat len) 0 p 0 m.

(** ** What a pointer to a string stands for *)

(** The string [s] starts at [l]. *)
Definition is_cstr (l s : list Z) : Prop := (0 ∉ s) ∧ (∃ rest, l = s ++ 0 :: rest).

Lemma cstr_intro s rest : bool_decide (0 ∈ s) = false → is_cstr (s ++ 0 :: rest) s.
Proof. intros H. split; [by apply bool_decide_eq_false in H|by exists rest]. Qed.

Lemma strlen_spec l s : is_cstr l s → strlen l = Some (length s).
Proof.
  intros [Hs (rest & ->)]. induction s as [|c s IH]; [done|].
  apply not_elem_of_cons in Hs as [Hc Hs]. cbn.
  rewrite (proj2 (Z.eqb_neq c 0)) by done. cbn in IH. by rewrite IH.
Qed.

(** The order of strings as lists of unsigned characters. *)
Fixpoint lexcmp (s t : list Z) : Z :=
  match s, t with
  | [], [] => 0
  | [], _ :: _ => -1
  | _ :: _, [] => 1
  | x :: s', y :: t' => if x <? y then -1 else if y <? x then 1 else lexcmp s' t'
  end.

Lemma strcmp_spec a b s t :
  is_cstr a s → is_cstr b t → Forall is_u8 s → Forall is_u8 t →
  strcmp a b = Some (lexcmp s t).
Proof.
  intros [Hs (ra & ->)] [Ht (rb & ->)] Hus Hut. revert t Ht Hut.
  induction s as [|x s IH]; intros [|y t] Ht Hut; cbn [app strcmp lexcmp].
  - done.
  - apply not_elem_of_cons in Ht as [Hy _]. apply Forall_inv in Hut as [? _].
    rewrite (proj2 (Z.ltb_ge y 0)), (proj2 (Z.eqb_neq 0 y)) by lia. done.
  - apply not_elem_of_cons in Hs as [Hx _]. apply Forall_inv in Hus as [? _].
    rewrite (proj2 (Z.eqb_neq x 0)), (proj2 (Z.ltb_lt 0 x)) by lia. done.
  - apply not_elem_of_cons in Hs as [Hx Hs]. apply not_elem_of_cons in Ht as [Hy Ht].
    apply Forall_cons_iff in Hus as [_ Hus]. apply Forall_cons_iff in Hut as [_ Hut].
    rewrite (proj2 (Z.eqb_neq x 0)) by done. cbn [negb andb].
    destruct (Z.eqb_spec x y) as [->|Hne].
    + rewrite Z.ltb_irrefl. by apply IH.
    + destruct (Z.ltb_spec x y), (Z.ltb_spec y x); try lia; done.
Qed.

Lemma lexcmp_eq s t : lexcmp s t = 0 ↔ s = t.
Proof.
  revert t. induction s as [|x s IH]; intros [|y t]; cbn; try (by split).
  destruct (Z.ltb_spec x y), (Z.ltb_spec y x); try lia.
  - split; [done|]. intros. simplify_eq. lia.
  - split; [done|]. intros. simplify_eq. lia.
  - assert (x = y) as -> by lia. rewrite IH. split; [by intros ->|by intros ?; simplify_eq].
Qed.

Lemma strcpy_spec dest src s :
  is_cstr src s → (length s < length dest)%nat →
  strcpy dest src = Some (s ++ 0 :: drop (S (length s)) dest).
Proof.
  intros [Hs (r & ->)]. revert dest. induction s as [|c s IH]; intros dest Hl.
  - destruct dest as [|d dest]; [cbn in Hl; lia|]. done.
  - apply not_elem_of_cons in Hs as [Hc Hs].
    destruct dest as [|d dest]; [cbn in Hl; lia|]. cbn [app strcpy].
    rewrite (proj2 (Z.eqb_neq c 0)) by done. rewrite IH by (done || (cbn in Hl; lia)). done.
Qed.

(** copying, appending and measuring strings do what they say, within the
    room there is. *)
Theorem strcat_correct dest src s t :
  is_cstr dest s → is_cstr src t → (length s + length t < length dest)%nat →
  ∃ d, strcat dest src = Some d ∧ is_cstr d (s ++ t) ∧ length d = length dest ∧
    strlen d = Some (length s + length t)%nat.
Proof.
  intros Hd Ht Hl. unfold strcat. rewrite (strlen_spec dest s) by done. cbn [mbind option_bind].
  rewrite (strcpy_spec _ src t) by (done || (rewrite length_drop; lia)). cbn [mbind option_bind].
  assert (Htk : take (length s) dest = s) by (destruct Hd as [_ (r & ->)]; apply take_app_length).
  rewrite Htk. eexists. split; [done|].
  assert (Hc : is_cstr (s ++ t ++ 0 :: drop (S (length t)) (drop (length s) dest)) (s ++ t)).
  { destruct Hd as [Hs _], Ht as [Ht _]. split; [rewrite elem_of_app; tauto|].
    eexists. by rewrite <-app_assoc. }
  split; [done|]. split.
  - rewrite !length_app. cbn [length]. rewrite !length_drop. lia.
  - rewrite (strlen_spec _ _ Hc), length_app. done.
Qed.

Lemma strcat_correct_witness :
  ∃ d, strcat [104; 105; 0; 7; 7; 7] [33; 33; 0] = Some d ∧ is_cstr d ([104; 105] ++ [33; 33]) ∧
    length d = 6%nat ∧ strlen d = Some 4%nat.
Proof.
  apply (strcat_correct [104; 105; 0; 7; 7; 7] [33; 33; 0] [104; 105] [33; 33]);
    [apply (cstr_intro [104; 105] [7; 7; 7]); reflexivity
    |apply (cstr_intro [33; 33] []); reflexivity|cbn; lia].
Defined.

(** [strcmp] orders strings as lists of unsigned characters; in particular
    it returns 0 exactly on equal strings. *)
Theorem strcmp_correct a b s t :
  is_cstr a s → is_cstr b t → Forall is_u8 s → Forall is_u8 t →
  strcmp a b = Some (lexcmp s t) ∧ (strcmp a b = Some 0 ↔ s = t).
Proof.
  intros Ha Hb Hs Ht. rewrite (strcmp_spec a b s t) by done. split; [done|].
  rewrite <-lexcmp_eq. split; [by intros ?; simplify_eq|by intros ->].
Qed.

Lemma strcmp_correct_witness :
  strcmp [97; 98; 0] [97; 99; 0] = Some (lexcmp [97; 98] [97; 99]) ∧
  (strcmp [97; 98; 0] [97; 99; 0] = Some 0 ↔ [97; 98] = [97; 99]).
Proof.
  apply strcmp_correct; [apply (cstr_intro [97; 98] []); reflexivity
    |apply (cstr_intro [97; 99] []); reflexivity| |]; repeat constructor; lia.
Defined.

(** ** Searching *)

Lemma strchr_spec l s c :
  is_cstr l s → c ≠ 0 → strchr l c = Some (fst <$> list_find (λ x, x = c) s).
Proof.
  intros [Hs (r & ->)] Hc. induction s as [|x s IH]; cbn [app strchr list_find].
  - by rewrite Z.eqb_refl, (proj2 (Z.eqb_neq 0 c)) by done.
  - apply not_elem_of_cons in Hs as [Hx Hs]. rewrite (proj2 (Z.eqb_neq x 0)) by done.
    destruct (Z.eqb_spec x c) as [->|Hne].
    + by rewrite decide_True.
    + rewrite decide_False by done. rewrite IH by done. cbn.
      by destruct (list_find (λ x, x = c) s) as [[]|].
Qed.

(** Whether a character is one of the separators. *)
Lemma strchr_is_sep l s c :
  is_cstr l s → c ≠ 0 → ∃ r, strchr l c = Some r ∧ (is_Some r ↔ c ∈ s).
Proof.
  intros Hl Hc. rewrite (strchr_spec l s c) by done. eexists. split; [done|].
  rewrite fmap_is_Some. split.
  - intros [[i x] Hf]. apply list_find_Some in Hf as (Hx & -> & _).
    by apply list_elem_of_lookup_2 in Hx.
  - intros Hin. by apply (list_find_elem_of (λ x, x = c) s c).
Qed.

Lemma strrchr_loop_spec l ch i :
  (i ≤ length l)%nat →
  match strrchr_loop l ch i with
  | Some (Some j) => (j < i)%nat ∧ l !! j = Some ch ∧ ∀ k, (j < k < i)%nat → l !! k ≠ Some ch
  | Some None => ∀ k, (k < i)%nat → l !! k ≠ Some ch
  | None => False
  end.
Proof.
  induction i as [|i IH]; intros Hi; cbn [strrchr_loop]; [intros; lia|].
  destruct (lookup_lt_is_Some_2 l i) as [c Hc]; [lia|]. rewrite Hc. cbn.
  destruct (Z.eqb_spec c ch) as [->|Hne].
  - split; [lia|]. split; [done|]. intros; lia.
  - specialize (IH ltac:(lia)). destruct (strrchr_loop l ch i) as [[j|]|]; [| |done].
    + destruct IH as (Hj & Hl & Hk). split; [lia|]. split; [done|].
      intros k Hk'. destruct (decide (k = i)) as [->|]; [congruence|]. apply Hk. lia.
    + intros k Hk'. destruct (decide (k = i)) as [->|]; [congruence|]. apply IH. lia.
Qed.

(** [strrchr] finds the last occurrence of a character, the terminator
    included. *)
Theorem strrchr_correct l s ch :
  is_cstr l s →
  match strrchr l ch with
  | Some (Some j) => (s ++ [0]) !! j = Some ch ∧
                     ∀ k, (j < k)%nat → (s ++ [0]) !! k ≠ Some ch
  | Some None => ch ∉ s ++ [0]
  | None => False
  end.
Proof.
  intros Hl. unfold strrchr. rewrite (strlen_spec l s Hl). cbn [mbind option_bind].
  destruct Hl as [Hs (r & ->)].
  assert (Hlk : ∀ k, (k < length s + 1)%nat → (s ++ 0 :: r) !! k = (s ++ [0]) !! k).
  { intros k Hk. change (0 :: r) with ([0] ++ r). rewrite app_assoc.
    apply lookup_app_l. rewrite length_app. cbn. lia. }
  assert (Hge : ∀ k, (length s + 1 ≤ k)%nat → (s ++ [0]) !! k = None).
  { intros k Hk. apply lookup_ge_None_2. rewrite length_app. cbn. lia. }
  pose proof (strrchr_loop_spec (s ++ 0 :: r) ch (length s + 1)) as H.
  rewrite length_app in H. specialize (H ltac:(cbn; lia)).
  destruct (strrchr_loop _ _ _) as [[j|]|]; [| |done].
  - destruct H as (Hj & Hx & Hk). rewrite <-Hlk by done. split; [done|].
    intros k Hjk. destruct (decide (k < length s + 1)%nat).
    + rewrite <-Hlk by done. apply Hk. lia.
    + by rewrite Hge by lia.
  - intros [k Hk]%list_elem_of_lookup. destruct (decide (k < length s + 1)%nat).
    + rewrite <-Hlk in Hk by done. by apply (H k).
    + by rewrite Hge in Hk by lia.
Qed.

Lemma strrchr_correct_witness :
  match strrchr [47; 97; 47; 98; 0] 47 with
  | Some (Some j) => ([47; 97; 47; 98] ++ [0]) !! j = Some 47 ∧
                     ∀ k, (j < k)%nat → ([47; 97; 47; 98] ++ [0]) !! k ≠ Some 47
  | Some None => 47 ∉ [47; 97; 47; 98] ++ [0]
  | None => False
  end.
Proof. apply strrchr_correct. apply (cstr_intro [47; 97; 47; 98] []); reflexivity. Defined.

(** ** Words *)

(** The words of [s]: the maximal pieces without separators, in order. *)
Fixpoint tokens (sep : Z → bool) (cur s : list Z) : list (list Z) :=
  match s with
  | [] => if decide (cur = []) then [] else [cur]
  | c :: r =>
      if sep c then
        if decide (cur = []) then tokens sep [] r else cur :: tokens sep [] r
      else tokens sep (cur ++ [c]) r
  end.

Lemma tokens_seps sep pre s :
  Forall (λ c, sep c = true) pre → tokens sep [] (pre ++ s) = tokens sep [] s.
Proof. induction 1 as [|c pre Hc _ IH]; [done|]. cbn. by rewrite Hc. Qed.

Lemma tokens_word sep cur w s :
  Forall (λ c, sep c = false) w → tokens sep cur (w ++ s) = tokens sep (cur ++ w) s.
Proof.
  intros H. revert cur. induction H as [|c w Hc _ IH]; intros cur; cbn.
  - by rewrite app_nil_r.
  - rewrite Hc, IH. by rewrite <-app_assoc.
Qed.

(** A string that stops at the first place where [sep] is not [want]. *)
Lemma strtok_skip_spec seps sl want l s :
  is_cstr seps sl → is_cstr l s →
  ∃ pre rest, s = pre ++ rest ∧ strtok_skip seps want l = Some (length pre) ∧
    Forall (λ c, bool_decide (c ∈ sl) = want) pre ∧
    match rest with [] => True | c :: _ => bool_decide (c ∈ sl) = negb want end.
Proof.
  intros Hsl [Hs (r & ->)]. induction s as [|c s IH].
  - exists [], []. by repeat split.
  - apply not_elem_of_cons in Hs as [Hc Hs].
    destruct (IH Hs) as (pre & rest & -> & Hskip & Hpre & Hrest).
    destruct (strchr_is_sep seps sl c Hsl) as (x & Hx & Hin); [done|].
    assert (Hb : bool_decide (is_Some x) = bool_decide (c ∈ sl)) by (by apply bool_decide_ext).
    cbn [app strtok_skip]. rewrite (proj2 (Z.eqb_neq c 0)) by done. rewrite Hx.
    cbn [mbind option_bind]. rewrite Hb.
    destruct (decide (bool_decide (c ∈ sl) = want)) as [Hw|Hw].
    + exists (c :: pre), rest. split; [done|]. rewrite Hskip. rewrite Hw.
      split; [by destruct want|]. by split; [constructor|].
    + exists [], (c :: pre ++ rest). split; [done|].
      assert (Hw' : bool_decide (c ∈ sl) = negb want) by (by destruct (bool_decide _), want).
      rewrite Hw'. split; [by destruct want|]. by split; [constructor|].
Qed.

Lemma cstr_suffix buf p pre s :
  is_cstr (drop p buf) (pre ++ s) → is_cstr (drop (p + length pre) buf) s.
Proof.
  intros [Hs (r & He)]. rewrite elem_of_app in Hs. split; [tauto|]. exists r.
  rewrite <-drop_drop, He, <-app_assoc. apply drop_app_length.
Qed.

Lemma cstr_lookup buf p s :
  is_cstr (drop p buf) s → buf !! p = Some (match s with [] => 0 | c :: _ => c end).
Proof.
  intros [_ (r & He)]. rewrite <-(Nat.add_0_r p), <-lookup_drop, He. by destruct s.
Qed.

(** One call: the next word of the string that starts at the saved position. *)
Lemma strtok_r_step seps sl buf p s :
  is_cstr seps sl → is_cstr (drop p buf) s →
  let sep := λ c, bool_decide (c ∈ sl) in
  match strtok_r buf None seps (Some p) with
  | Some (None, buf', None) => tokens sep [] s = []
  | Some (Some h, buf', ctx) => ∃ w,
      is_cstr (drop h buf') w ∧
      match ctx with
      | None => tokens sep [] s = [w]
      | Some q => ∃ s', (length s' < length s)%nat ∧ is_cstr (drop q buf') s' ∧
                  tokens sep [] s = w :: tokens sep [] s'
      end
  | _ => False
  end.
Proof.
  intros Hsl Hs sep. unfold strtok_r.
  destruct (strtok_skip_spec seps sl true _ s Hsl Hs) as (pre & s1 & -> & -> & Hpre & H1).
  cbn [mbind option_bind]. pose proof (cstr_suffix _ _ _ _ Hs) as Hs1.
  rewrite (cstr_lookup _ _ _ Hs1). cbn [mbind option_bind].
  rewrite (tokens_seps sep) by done. destruct s1 as [|c1 s1]; [done|].
  destruct Hs1 as [Hs0 Hr]. pose proof Hs0 as [Hc1 _]%not_elem_of_cons.
  rewrite (proj2 (Z.eqb_neq c1 0)) by done.
  destruct (strtok_skip_spec seps sl false _ (c1 :: s1) Hsl (conj Hs0 Hr))
    as (w & s2 & Hw & -> & Hwf & H2). cbn [mbind option_bind]. rewrite Hw in *.
  pose proof (cstr_suffix _ _ _ _ (conj Hs0 Hr)) as Hs2.
  rewrite (cstr_lookup _ _ _ Hs2). cbn [mbind option_bind].
  assert (Hwne : w ≠ []) by (intros ->; cbn in Hw; by rewrite <-Hw in H2; rewrite H1 in H2).
  rewrite (tokens_word sep) by done. cbn [app].
  destruct s2 as [|c2 s2].
  - cbn. exists w. rewrite app_nil_r in Hs0, Hr. split; [done|]. by rewrite decide_False.
  - rewrite elem_of_app, elem_of_cons in Hs0.
    rewrite (proj2 (Z.eqb_neq c2 0)) by (intros ->; tauto).
    destruct Hr as (r & Hr). rewrite <-app_assoc in Hr.
    set (h := (p + length pre)%nat) in *. set (t := (h + length w)%nat).
    assert (Hht : drop h (<[t := 0]> buf) = w ++ 0 :: s2 ++ 0 :: r).
    { rewrite drop_insert_ge by (unfold t; lia). rewrite Hr.
      replace (t - h)%nat with (length w + 0)%nat by (unfold t; lia).
      by rewrite insert_app_r. }
    exists w. split; [split; [tauto|by eexists]|]. exists s2. split; [rewrite !length_app; cbn; lia|].
    split.
    + replace (t + 1)%nat with (h + (length w + 1))%nat by (unfold t; lia).
      split; [tauto|]. exists r. rewrite <-drop_drop, Hht, <-drop_drop, drop_app_length. done.
    + cbn. change (sep c2) with (bool_decide (c2 ∈ sl)). rewrite H2. cbn.
      by rewrite decide_False.
Qed.

(** Calling [strtok_r] until it finds nothing; the words found. *)
Fixpoint strtok_all (fuel : nat) (buf seps : list Z) (context : option nat) :
    option (list (list Z)) :=
  match strtok_r buf None seps context with
  | Some (None, _, _) => Some []
  | Some (Some h, buf', context') =>
      n ← strlen (drop h buf');
      match fuel with
      | O => None
      | S fuel' => cons (slice buf' h n) <$> strtok_all fuel' buf' seps context'
      end
  | None => None
  end.

Lemma slice_cstr buf h w : is_cstr (drop h buf) w → slice buf h (length w) = w.
Proof. intros [_ (r & He)]. unfold slice. rewrite He. apply take_app_length. Qed.

(** C30: calling [strtok_r] over and over yields the words of the string, in
    order, and ends. *)
Theorem strtok_r_correct fuel seps sl buf p s :
  is_cstr seps sl → is_cstr (drop p buf) s → (length s < fuel)%nat →
  strtok_all fuel buf seps (Some p) = Some (tokens (λ c, bool_decide (c ∈ sl)) [] s).
Proof.
  intros Hsl. revert buf p s. induction fuel as [|fuel IH]; intros buf p s Hs Hf; [lia|].
  pose proof (strtok_r_step seps sl buf p s Hsl Hs) as H. cbn [strtok_all].
  destruct (strtok_r _ _ _ _) as [[[[h|] buf'] ctx]|]; [| |done].
  - destruct H as (w & Hw & H). rewrite (strlen_spec _ _ Hw). cbn [mbind option_bind].
    rewrite (slice_cstr _ _ _ Hw). destruct ctx as [q|].
    + destruct H as (s' & Hl & Hs' & ->). by rewrite (IH _ _ s') by (done || lia).
    + rewrite H. destruct fuel; [cbn in Hf|done].
      destruct s; [done|cbn in Hf; lia].
  - by destruct ctx; [|rewrite H].
Qed.

Lemma strtok_r_correct_witness :
  strtok_all 8 [32; 97; 98; 32; 32; 99; 0] [32; 0] (Some 0%nat) =
  Some (tokens (λ c, bool_decide (c ∈ [32])) [] [32; 97; 98; 32; 32; 99]).
Proof.
  apply (strtok_r_correct 8 [32; 0] [32]);
    [apply (cstr_intro [32] []); reflexivity
    |apply (cstr_intro [32; 97; 98; 32; 32; 99] []); reflexivity|cbn; lia].
Defined.

(** ** Numbers *)

(** The value of a string of decimal digits. *)
Definition decimal (ds : list Z) : Z := foldl (λ v d, v * 10 + (d - 48)) 0 ds.

Definition is_digit (c : Z) : Prop := 48 ≤ c ≤ 57.

Lemma strchr_digits c :
  c ≠ 0 → strchr digits c = Some (if decide (is_digit c) then Some (Z.to_nat (c - 48)) else None).
Proof.
  intros Hc. rewrite (strchr_spec digits (seqZ 48 10) c); [|by apply (cstr_intro (seqZ 48 10) [])|done].
  f_equal. unfold is_digit. case_decide as Hd.
  - assert (Hi : ∃ i : nat, c = 48 + Z.of_nat i ∧ (i < 10)%nat)
      by (exists (Z.to_nat (c - 48)); lia).
    destruct Hi as (i & -> & Hi). replace (Z.to_nat (48 + Z.of_nat i - 48)) with i by lia.
    do 10 (destruct i as [|i]; [done|]). lia.
  - rewrite (proj2 (list_find_None _ _)); [done|]. apply Forall_forall.
    intros x Hx%list_elem_of_In%elem_of_seqZ ->. lia.
Qed.

Lemma decimal_app v ds : foldl (λ v d, v * 10 + (d - 48)) v ds = v * 10 ^ Z.of_nat (length ds) + decimal ds.
Proof.
  unfold decimal. revert v. induction ds as [|d ds IH] using rev_ind; intros v; [cbn; lia|].
  rewrite !foldl_app. cbn [foldl]. rewrite IH, length_app. cbn [length].
  rewrite Nat2Z.inj_add, Z.pow_add_r by lia. cbn. lia.
Qed.

Lemma atoi_digits_spec ds rest l val :
  Forall is_digit ds → is_cstr l (ds ++ rest) →
  match rest with [] => True | c :: _ => ¬ is_digit c end → is_u32 val →
  atoi_digits l val = Some (u32 (val * 10 ^ Z.of_nat (length ds) + decimal ds)).
Proof.
  intros Hds [Hs (r & ->)] Hrest. revert val. induction Hds as [|d ds Hd Hds IH]; intros val Hv.
  - cbn [app length decimal foldl]. rewrite Z.pow_0_r, Z.mul_1_r, Z.add_0_r.
    rewrite u32_small by done. destruct rest as [|c rest]; [done|]. cbn [app atoi_digits].
    apply not_elem_of_cons in Hs as [Hc _]. rewrite (proj2 (Z.eqb_neq c 0)) by done.
    rewrite strchr_digits by done. by rewrite decide_False.
  - cbn [app] in *. apply not_elem_of_cons in Hs as [Hc Hs].
    cbn [atoi_digits]. rewrite (proj2 (Z.eqb_neq d 0)) by done.
    rewrite strchr_digits, decide_True by done. cbn [mbind option_bind].
    rewrite IH by (done || apply u32_range). f_equal. unfold is_digit in Hd.
    rewrite Z2Nat.id by lia. cbn [length]. rewrite Nat2Z.inj_succ, Z.pow_succ_r by lia.
    change (decimal (d :: ds)) with (foldl (λ v d, v * 10 + (d - 48)) (0 * 10 + (d - 48)) ds).
    rewrite decimal_app. unfold u32. rewrite Zplus_mod_idemp_l.
    rewrite <-(Zplus_mod_idemp_l (_ mod _ * _)), Zmult_mod_idemp_l, Zplus_mod_idemp_l.
    f_equal. lia.
Qed.

Lemma atoi_skip_spec ws l :
  Forall (λ c, c = 32 ∨ c = 9) ws → atoi_skip (ws ++ l) = atoi_skip l.
Proof.
  induction 1 as [|c ws Hc _ IH]; [done|]. cbn. by destruct Hc as [->| ->].
Qed.

(** [atoi] returns the number a string starts with, after white space and
    an optional sign, when it fits an [int]. *)
Theorem atoi_correct ws (sign : list Z) ds rest l :
  Forall (λ c, c = 32 ∨ c = 9) ws → sign = [] ∨ sign = [43] ∨ sign = [45] →
  Forall is_digit ds → ds ≠ [] →
  match rest with [] => True | c :: _ => ¬ is_digit c end →
  is_cstr l (ws ++ sign ++ ds ++ rest) → decimal ds < 2147483648 →
  atoi l = Some (if decide (sign = [45]) then - decimal ds else decimal ds).
Proof.
  intros Hws Hsg Hds Hne Hrest [Hs (r & ->)] Hb. rewrite !elem_of_app in Hs.
  assert (Hd0 : 0 ≤ decimal ds).
  { clear -Hds. induction ds as [|d ds IH] using rev_ind; [done|].
    apply Forall_app in Hds as [Hds Hd]. apply Forall_inv in Hd. specialize (IH Hds).
    unfold decimal, is_digit in *. rewrite foldl_app. cbn. lia. }
  assert (Hgo : atoi_digits (ds ++ rest ++ 0 :: r) 0 = Some (decimal ds)).
  { rewrite (atoi_digits_spec ds rest); try done.
    - f_equal. rewrite Z.mul_0_l, Z.add_0_l. apply u32_small. unfold is_u32. lia.
    - split; [rewrite elem_of_app; tauto|]. exists r. by rewrite <-app_assoc. }
  unfold atoi. rewrite <-!app_assoc, atoi_skip_spec by done.
  assert (Hpos : to_int (decimal ds) = decimal ds)
    by (unfold to_int; by rewrite (proj2 (Z.ltb_lt _ _))).
  destruct Hsg as [->|[->| ->]].
  - destruct ds as [|d ds]; [done|]. pose proof (Forall_inv Hds) as Hd. unfold is_digit in Hd.
    cbn [app atoi_skip]. rewrite !(proj2 (Z.eqb_neq d _)) by lia. cbn [orb mbind option_bind head].
    rewrite !(proj2 (Z.eqb_neq d _)) by lia. cbn [orb]. cbn [app] in Hgo. rewrite Hgo.
    cbn [mbind option_bind]. by rewrite Hpos.
  - cbn [app atoi_skip Z.eqb Pos.eqb orb mbind option_bind head tail]. rewrite Hgo.
    cbn [mbind option_bind]. by rewrite Hpos.
  - cbn [app atoi_skip Z.eqb Pos.eqb orb mbind option_bind head tail]. rewrite Hgo.
    cbn [mbind option_bind]. rewrite decide_True by done. f_equal. unfold to_int, u32.
    destruct (decide (decimal ds = 0)) as [->|]; [done|].
    rewrite Z.mod_opp_l_nz by (rewrite ?Z.mod_small by lia; lia). rewrite Z.mod_small by lia.
    rewrite (proj2 (Z.ltb_ge _ _)) by lia. lia.
Qed.

Lemma atoi_correct_witness :
  atoi [32; 45; 49; 50; 120; 0] = Some (if decide ([45] = [45]) then - decimal [49; 50] else decimal [49; 50]).
Proof.
  apply (atoi_correct [32] [45] [49; 50] [120]);
    [by repeat constructor; auto|by right; right|repeat constructor; lia|done|unfold is_digit; lia
    |apply (cstr_intro [32; 45; 49; 50; 120] []); reflexivity|reflexivity].
Defined.

(** ** Copying *)

Lemma copy_elem_spec w dst src i m :
  mapped m (src + i * Z.of_nat w) w → mapped m (dst + i * Z.of_nat w) w →
  ∃ m', copy_elem w dst src i m = Some m' ∧
    ∀ x, m' !! x = if decide (dst + i * Z.of_nat w ≤ x < dst + i * Z.of_nat w + Z.of_nat w)
                   then m !! (x - dst + src) else m !! x.
Proof.
  intros Hs Hd. unfold copy_elem.
  destruct (proj2 (read_bytes_mapped _ _ _) Hs) as [l Hl].
  destruct (proj2 (read_bytes_mapped _ _ _) Hd) as [l' Hl']. rewrite Hl, Hl'.
  cbn [mbind option_bind]. eexists. split; [done|]. intros x. rewrite write_bytes_lookup.
  pose proof (read_bytes_length _ _ _ _ Hl) as Hlen. rewrite Hlen.
  case_decide as Hx; [|done]. rewrite (read_bytes_lookup _ _ _ _ _ Hl) by lia.
  f_equal. lia.
Qed.

(** The result of copying a block of [n] bytes. *)
Definition block_copied (dst src n : Z) (m m' : gmap Z Z) : Prop :=
  ∀ x, m' !! x = if decide (dst ≤ x < dst + n) then m !! (x - dst + src) else m !! x.

Definition mapped_block (m : gmap Z Z) (a n : Z) : Prop :=
  ∀ x, a ≤ x < a + n → is_Some (m !! x).

Lemma copied_mapped dst src n m m' :
  block_copied dst src n m m' → mapped_block m src n →
  ∀ x, is_Some (m !! x) → is_Some (m' !! x).
Proof.
  intros Hc Hs x Hx. rewrite Hc. case_decide; [|done]. apply Hs. lia.
Qed.

Lemma copy_up_spec w n : ∀ lo dst src m,
  let W := Z.of_nat w in
  mapped_block m (src + lo * W) (Z.of_nat n * W) →
  mapped_block m (dst + lo * W) (Z.of_nat n * W) → 0 ≤ lo →
  dst ≤ src ∨ src + (lo + Z.of_nat n) * W ≤ dst + lo * W →
  ∃ m', copy_up w n lo dst src m = Some m' ∧
    block_copied (dst + lo * W) (src + lo * W) (Z.of_nat n * W) m m'.
Proof.
  induction n as [|n IH]; intros lo dst src m W Hs Hd Hlo Hov; cbn [copy_up].
  - eexists. split; [done|]. intros x. rewrite decide_False by lia. done.
  - assert (0 ≤ W) by (unfold W; lia).
    destruct (copy_elem_spec w dst src lo m) as (m1 & -> & H1).
    { intros x Hx. apply Hs. fold W in Hx. nia. }
    { intros x Hx. apply Hd. fold W in Hx. nia. }
    cbn [mbind option_bind]. fold W in H1.
    assert (Hm : ∀ x, is_Some (m !! x) → is_Some (m1 !! x)).
    { intros x Hx. rewrite H1. case_decide; [|done]. apply Hs. nia. }
    destruct (IH (lo + 1) dst src m1) as (m2 & -> & H2).
    { intros x Hx. apply Hm, Hs. fold W in Hx. nia. }
    { intros x Hx. apply Hm, Hd. fold W in Hx. nia. }
    { lia. }
    { fold W. destruct Hov; [by left|right; nia]. }
    exists m2. split; [done|]. fold W in H2. intros x. rewrite H2.
    case_decide as Hx.
    + rewrite decide_True by nia. rewrite H1.
      replace (x - (dst + (lo + 1) * W) + (src + (lo + 1) * W)) with (x - dst + src) by lia.
      rewrite decide_False by (destruct Hov; nia). f_equal. lia.
    + rewrite H1. case_decide as Hx'.
      * rewrite decide_True by nia. f_equal. lia.
      * rewrite decide_False by nia. done.
Qed.

Lemma copy_down_spec w n : ∀ dst src m,
  let W := Z.of_nat w in
  mapped_block m src (Z.of_nat n * W) → mapped_block m dst (Z.of_nat n * W) → src ≤ dst →
  ∃ m', copy_down w n dst src m = Some m' ∧ block_copied dst src (Z.of_nat n * W) m m'.
Proof.
  induction n as [|n IH]; intros dst src m W Hs Hd Hov; cbn [copy_down].
  - eexists. split; [done|]. intros x. rewrite decide_False by lia. done.
  - assert (0 ≤ W) by (unfold W; lia).
    destruct (copy_elem_spec w dst src (Z.of_nat n) m) as (m1 & -> & H1).
    { intros x Hx. apply Hs. fold W in Hx. nia. }
    { intros x Hx. apply Hd. fold W in Hx. nia. }
    cbn [mbind option_bind]. fold W in H1.
    assert (Hm : ∀ x, is_Some (m !! x) → is_Some (m1 !! x)).
    { intros x Hx. rewrite H1. case_decide; [|done]. apply Hs. nia. }
    destruct (IH dst src m1) as (m2 & -> & H2).
    { intros x Hx. apply Hm, Hs. fold W in Hx. nia. }
    { intros x Hx. apply Hm, Hd. fold W in Hx. nia. }
    { done. }
    exists m2. split; [done|]. fold W in H2. intros x. rewrite H2.
    case_decide as Hx.
    + rewrite decide_True by nia. rewrite H1. rewrite decide_False by nia. done.
    + rewrite H1. case_decide as Hx'.
      * rewrite decide_True by nia. done.
      * rewrite decide_False by nia. done.
Qed.

Lemma word_blocks dst src len :
  word_aligned dst src len = true → 0 ≤ len → Z.of_nat (Z.to_nat (len / 4)) * 4 = len.
Proof.
  unfold word_aligned. rewrite !andb_true_iff, !Z.eqb_eq. intros [[_ _] H] Hl.
  assert (0 ≤ len / 4) by (apply Z.div_pos; lia). rewrite Z2Nat.id by done.
  pose proof (Z.div_mod len 4 ltac:(lia)). lia.
Qed.

Lemma memcpy_spec dst src len m :
  0 ≤ len → mapped_block m src len → mapped_block m dst len →
  dst ≤ src ∨ src + len ≤ dst →
  ∃ m', memcpy dst src len m = Some m' ∧ block_copied dst src len m m'.
Proof.
  intros Hl Hs Hd Hov. unfold memcpy. destruct (word_aligned dst src len) eqn:Hw.
  - pose proof (word_blocks _ _ _ Hw Hl) as Hb.
    pose proof (copy_up_spec 4 (Z.to_nat (len / 4)) 0 dst src m) as H. cbn zeta in H.
    change (Z.of_nat 4) with 4 in H. rewrite Z.mul_0_l, !Z.add_0_r, Z.add_0_l, Hb in H.
    by apply H.
  - pose proof (copy_up_spec 1 (Z.to_nat len) 0 dst src m) as H. cbn zeta in H.
    change (Z.of_nat 1) with 1 in H. rewrite Z.mul_0_l, !Z.add_0_r, Z.add_0_l, Z.mul_1_r, Z2Nat.id in H by done.
    by apply H.
Qed.

(** C31: [memmove] copies a block whatever the overlap, word by word or byte by
    byte: every byte of the destination is what the source held before, and
    nothing else changes. *)
Theorem memmove_correct dst src len m :
  0 ≤ len → mapped_block m src len → mapped_block m dst len →
  ∃ m', memmove dst src len m = Some m' ∧ block_copied dst src len m m'.
Proof.
  intros Hl Hs Hd. unfold memmove. destruct (Z.ltb_spec dst src) as [Hlt|Hge].
  { apply memcpy_spec; auto. left. lia. }
  destruct (word_aligned dst src len) eqn:Hw.
  - pose proof (word_blocks _ _ _ Hw Hl) as Hb.
    pose proof (copy_down_spec 4 (Z.to_nat (len / 4)) dst src m) as H. cbn zeta in H.
    change (Z.of_nat 4) with 4 in H. rewrite Hb in H. by apply H.
  - pose proof (copy_down_spec 1 (Z.to_nat len) dst src m) as H. cbn zeta in H.
    change (Z.of_nat 1) with 1 in H. rewrite Z.mul_1_r, Z2Nat.id in H by done. by apply H.
Qed.

Lemma memmove_correct_witness :
  ∃ m', memmove 1 0 2 (write_bytes ∅ 0 [1; 2; 3]) = Some m' ∧
    block_copied 1 0 2 (write_bytes ∅ 0 [1; 2; 3]) m'.
Proof.
  apply memmove_correct; [lia| |]; intros x Hx; rewrite write_bytes_lookup, decide_True
    by (cbn; lia); apply lookup_lt_is_Some_2; cbn; lia.
Defined.

Lemma fill_up_spec w n : ∀ lo p b m,
  let W := Z.of_nat w in
  mapped_block m (p + lo * W) (Z.of_nat n * W) → 0 ≤ lo →
  ∃ m', fill_up w n lo p b m = Some m' ∧
    ∀ x, m' !! x = if decide (p + lo * W ≤ x < p + lo * W + Z.of_nat n * W)
                   then Some b else m !! x.
Proof.
  induction n as [|n IH]; intros lo p b m W Hm Hlo; cbn [fill_up].
  - eexists. split; [done|]. intros x. rewrite decide_False by lia. done.
  - assert (0 ≤ W) by (unfold W; lia). fold W.
    assert (Hmp : mapped m (p + lo * W) w) by (intros x Hx; apply Hm; fold W in Hx; nia).
    destruct (proj2 (read_bytes_mapped _ _ _) Hmp) as [l Hl]. rewrite Hl.
    cbn [mbind option_bind]. set (m1 := write_bytes _ _ _).
    assert (H1 : ∀ x, m1 !! x = if decide (p + lo * W ≤ x < p + lo * W + W) then Some b else m !! x).
    { intros x. unfold m1. rewrite write_bytes_lookup, length_replicate. fold W.
      case_decide; [|done]. apply lookup_replicate. split; [done|]. unfold W in *. lia. }
    destruct (IH (lo + 1) p b m1) as (m2 & -> & H2).
    { intros x Hx. rewrite H1. case_decide; [done|]. apply Hm. fold W in Hx. nia. }
    { lia. }
    exists m2. split; [done|]. fold W in H2. intros x. rewrite H2, H1.
    repeat case_decide; try done; nia.
Qed.

(** [memset] and [bzero] fill the block and touch nothing else. *)
Theorem bzero_correct p len m :
  0 ≤ len → mapped_block m p len →
  (∃ m', bzero p len m = Some m' ∧
     ∀ x, m' !! x = if decide (p ≤ x < p + len) then Some 0 else m !! x) ∧
  ∀ ch, ∃ m', memset p ch len m = Some m' ∧
     ∀ x, m' !! x = if decide (p ≤ x < p + len) then Some (u8 ch) else m !! x.
Proof.
  intros Hl Hm.
  assert (Hset : ∀ b, ∃ m', fill_up 1 (Z.to_nat len) 0 p b m = Some m' ∧
     ∀ x, m' !! x = if decide (p ≤ x < p + len) then Some b else m !! x).
  { intros b. pose proof (fill_up_spec 1 (Z.to_nat len) 0 p b m) as H. cbn zeta in H.
    change (Z.of_nat 1) with 1 in H.
    rewrite Z.mul_0_l, !Z.add_0_r, Z.mul_1_r, Z2Nat.id in H by done. by apply H. }
  split; [|by intros ch; apply Hset]. unfold bzero.
  destruct ((p mod 4 =? 0) && (len mod 4 =? 0)) eqn:Hw; [|apply Hset].
  assert (Hb : Z.of_nat (Z.to_nat (len / 4)) * 4 = len).
  { apply (word_blocks p p); [|done]. unfold word_aligned. by rewrite <-andb_assoc, Hw, andb_diag
      || (apply andb_true_iff in Hw as [-> ->]). }
  pose proof (fill_up_spec 4 (Z.to_nat (len / 4)) 0 p 0 m) as H. cbn zeta in H.
  change (Z.of_nat 4) with 4 in H. rewrite Z.mul_0_l, !Z.add_0_r, Hb in H. by apply H.
Qed.

Lemma bzero_correct_witness :
  (∃ m', bzero 0 2 (write_bytes ∅ 0 [1; 2; 3]) = Some m' ∧
     ∀ x, m' !! x = if decide (0 ≤ x < 0 + 2) then Some 0
                    else write_bytes ∅ 0 [1; 2; 3] !! x) ∧
  ∀ ch, ∃ m', memset 0 ch 2 (write_bytes ∅ 0 [1; 2; 3]) = Some m' ∧
     ∀ x, m' !! x = if decide (0 ≤ x < 0 + 2) then Some (u8 ch)
                    else write_bytes ∅ 0 [1; 2; 3] !! x.
Proof.
  apply bzero_correct; [lia|]. intros x Hx. rewrite write_bytes_lookup, decide_True by (cbn; lia).
  apply lookup_lt_is_Some_2; cbn; lia.
Defined.
