(* ===== verification/LongLong.v ===== *)
(** * 64-bit arithmetic on a 32-bit machine

    common/gcc-millicode: the functions gcc calls for [long long] arithmetic.
    A [long long] is its 64-bit pattern, a [Z] between 0 and 2^64; [s64] reads
    a pattern as a signed number.  The theorems say that each function is the
    operation on 64-bit numbers that it stands for. *)

From S2P Require Import Prelude.
Open Scope Z_scope.

(** ** longlong.h *)

(** [union uu] *)
Definition ui_H (x : Z) : Z := x / 4294967296.
Definition ui_L (x : Z) : Z := x mod 4294967296.
Definition uu (h l : Z) : Z := h * 4294967296 + l.

Definition s32 (x : Z) : Z := if x <? 2147483648 then x else x - 4294967296.
Definition s64 (x : Z) : Z :=
  if x <? 9223372036854775808 then x else x - 18446744073709551616.

Definition INT_BITS : Z := 32.
Definition HALF_BITS : Z := 16.

Definition HHALF (x : Z) : Z := Z.shiftr x HALF_BITS.
Definition LHALF (x : Z) : Z := Z.land x 0xffff.
Definition LHUP (x : Z) : Z := u32 (Z.shiftl x HALF_BITS).

(** ** Addition, subtraction, logic *)

Definition __adddi3 (a b : Z) : Z :=
  let l := u32 (ui_L a + ui_L b) in
  let h := u32 (ui_H a + ui_H b + Z.b2z (l <? ui_L b)) in
  uu h l.

Definition __subdi3 (a b : Z) : Z :=
  let l := u32 (ui_L a - ui_L b) in
  let h := u32 (ui_H a - ui_H b - Z.b2z (ui_L a <? l)) in
  uu h l.

Definition __negdi2 (a : Z) : Z :=
  let l := u32 (- ui_L a) in
  let h := u32 (u32 (- ui_H a) - Z.b2z (0 <? l)) in
  uu h l.

Definition __anddi3 (a b : Z) : Z :=
  uu (Z.land (ui_H a) (ui_H b)) (Z.land (ui_L a) (ui_L b)).
Definition __iordi3 (a b : Z) : Z :=
  uu (Z.lor (ui_H a) (ui_H b)) (Z.lor (ui_L a) (ui_L b)).
Definition __xordi3 (a b : Z) : Z :=
  uu (Z.lxor (ui_H a) (ui_H b)) (Z.lxor (ui_L a) (ui_L b)).
Definition __one_cmpldi2 (a : Z) : Z :=
  uu (u32 (Z.lnot (ui_H a))) (u32 (Z.lnot (ui_L a))).

(** ** Comparison: 0, 1 or 2 *)

Definition __cmpdi2 (a b : Z) : Z :=
  if s32 (ui_H a) <? s32 (ui_H b) then 0
  else if s32 (ui_H b) <? s32 (ui_H a) then 2
  else if ui_L a <? ui_L b then 0
  else if ui_L b <? ui_L a then 2 else 1.

Definition __ucmpdi2 (a b : Z) : Z :=
  if ui_H a <? ui_H b then 0
  else if ui_H b <? ui_H a then 2
  else if ui_L a <? ui_L b then 0
  else if ui_L b <? ui_L a then 2 else 1.

(** ** Shifts *)

Definition __ashldi3 (a shift : Z) : Z :=
  if shift =? 0 then a
  else if INT_BITS <=? shift then
    uu (u32 (Z.shiftl (ui_L a) (shift - INT_BITS))) 0
  else
    uu (Z.lor (u32 (Z.shiftl (ui_H a) shift)) (Z.shiftr (ui_L a) (INT_BITS - shift)))
       (u32 (Z.shiftl (ui_L a) shift)).

Definition __lshldi3 (a shift : Z) : Z :=
  if shift =? 0 then a
  else if INT_BITS <=? shift then
    uu (u32 (Z.shiftl (ui_L a) (shift - INT_BITS))) 0
  else
    uu (Z.lor (u32 (Z.shiftl (ui_H a) shift)) (Z.shiftr (ui_L a) (INT_BITS - shift)))
       (u32 (Z.shiftl (ui_L a) shift)).

Definition __lshrdi3 (a shift : Z) : Z :=
  if shift =? 0 then a
  else if INT_BITS <=? shift then
    uu 0 (Z.shiftr (ui_H a) (shift - INT_BITS))
  else
    uu (Z.shiftr (ui_H a) shift)
       (Z.lor (Z.shiftr (ui_L a) shift) (u32 (Z.shiftl (ui_H a) (INT_BITS - shift)))).

(** The right shift of a negative [int] extends the sign. *)
Definition __ashrdi3 (a shift : Z) : Z :=
  if shift =? 0 then a
  else if INT_BITS <=? shift then
    let s := Z.shiftr (Z.shiftr (s32 (ui_H a)) (INT_BITS - 1)) 1 in
    uu (u32 s) (u32 (Z.shiftr (s32 (ui_H a)) (shift - INT_BITS)))
  else
    uu (u32 (Z.shiftr (s32 (ui_H a)) shift))
       (Z.lor (Z.shiftr (ui_L a) shift) (u32 (Z.shiftl (ui_H a) (INT_BITS - shift)))).

(** ** Multiplication *)

(** [if (x >= y) diff = x - y, neg = 0; else diff = y - x, neg = 1;] *)
Definition absdiff (x y : Z) : Z * bool :=
  if y <=? x then (x - y, false) else (y - x, true).

Definition __lmulq (u v : Z) : Z :=
  let u1 := HHALF u in let u0 := LHALF u in
  let v1 := HHALF v in let v0 := LHALF v in
  let low := u32 (u0 * v0) in
  if (u1 =? 0) && (v1 =? 0) then low
  else
    let '(udiff, nu) := absdiff u1 u0 in
    let '(vdiff, nv) := absdiff v0 v1 in
    let neg := xorb nu nv in
    let mid := u32 (udiff * vdiff) in
    let high := u32 (u1 * v1) in
    let prodh := u32 (high + HHALF high) in
    let prodl := LHUP high in
    let '(prodh, prodl) :=
      if neg then
        let was := prodl in
        let prodl := u32 (prodl - LHUP mid) in
        (u32 (prodh - (HHALF mid + Z.b2z (was <? prodl))), prodl)
      else
        let was := prodl in
        let prodl := u32 (prodl + LHUP mid) in
        (u32 (prodh + (HHALF mid + Z.b2z (prodl <? was))), prodl) in
    let was := prodl in
    let prodl := u32 (prodl + LHUP low) in
    let prodh := u32 (prodh + (HHALF low + Z.b2z (prodl <? was))) in
    let prodl := u32 (prodl + low) in
    let prodh := if prodl <? low then u32 (prodh + 1) else prodh in
    uu prodh prodl.

Definition __muldi3 (a b : Z) : Z :=
  let '(u, nu) := if s64 a <? 0 then (u64 (- a), true) else (a, false) in
  let '(v, nv) := if s64 b <? 0 then (u64 (- b), true) else (b, false) in
  let negall := xorb nu nv in
  let u1 := ui_H u in let u0 := ui_L u in
  let v1 := ui_H v in let v0 := ui_L v in
  let prod :=
    if (u1 =? 0) && (v1 =? 0) then __lmulq u0 v0
    else
      let low := __lmulq u0 v0 in
      let '(udiff, nu) := absdiff u1 u0 in
      let '(vdiff, nv) := absdiff v0 v1 in
      let negmid := xorb nu nv in
      let mid := u32 (udiff * vdiff) in
      let high := u32 (u1 * v1) in
      uu (u32 (high + (if negmid then u32 (- mid) else mid) + ui_L low + ui_H low))
         (ui_L low) in
  if negall then u64 (- prod) else prod.

(** ** Words and halves *)

Lemma uu_split x : uu (ui_H x) (ui_L x) = x.
Proof. unfold uu, ui_H, ui_L. divmod. Qed.

Lemma ui_range x : is_u64 x → is_u32 (ui_H x) ∧ is_u32 (ui_L x).
Proof. unfold is_u64, is_u32, ui_H, ui_L. intros. split; divmod. Qed.

Lemma uu_parts h l : is_u32 h → is_u32 l → ui_H (uu h l) = h ∧ ui_L (uu h l) = l.
Proof. unfold is_u32, uu, ui_H, ui_L. intros. split; divmod. Qed.

Lemma uu_range h l : is_u32 h → is_u32 l → is_u64 (uu h l).
Proof. unfold is_u32, is_u64, uu. lia. Qed.

Lemma HHALF_div x : HHALF x = x / 65536.
Proof. unfold HHALF, HALF_BITS. by rewrite Z.shiftr_div_pow2. Qed.

Lemma LHALF_mod x : LHALF x = x mod 65536.
Proof. unfold LHALF. change 0xffff with (Z.ones 16). by rewrite Z.land_ones. Qed.

Lemma LHUP_mul x : LHUP x = u32 (x * 65536).
Proof. unfold LHUP, HALF_BITS. by rewrite Z.shiftl_mul_pow2. Qed.

Lemma u64_small z : is_u64 z → u64 z = z.
Proof. intros H. by apply Z.mod_small. Qed.

Lemma u64_range z : is_u64 (u64 z).
Proof. apply Z.mod_pos_bound. lia. Qed.

(** Two numbers that agree modulo 2^64. *)
Lemma u64_cong x y k : x = y + k * 18446744073709551616 → u64 x = u64 y.
Proof. intros ->. unfold u64. by rewrite Z.mod_add by lia. Qed.

(** ** Addition and subtraction *)

Lemma adddi3_spec a b : is_u64 a → is_u64 b → __adddi3 a b = u64 (a + b).
Proof.
  intros Ha Hb. unfold __adddi3, uu, ui_H, ui_L, u32, u64, is_u64 in *.
  destruct (Z.ltb_spec ((a mod 4294967296 + b mod 4294967296) mod 4294967296) (b mod 4294967296));
    cbn [Z.b2z]; divmod.
Qed.

Lemma subdi3_spec a b : is_u64 a → is_u64 b → __subdi3 a b = u64 (a - b).
Proof.
  intros Ha Hb. unfold __subdi3, uu, ui_H, ui_L, u32, u64, is_u64 in *.
  destruct (Z.ltb_spec (a mod 4294967296) ((a mod 4294967296 - b mod 4294967296) mod 4294967296));
    cbn [Z.b2z]; divmod.
Qed.

Lemma negdi2_spec a : is_u64 a → __negdi2 a = u64 (- a).
Proof.
  intros Ha. unfold __negdi2, uu, ui_H, ui_L, u32, u64, is_u64 in *.
  destruct (Z.ltb_spec 0 ((- (a mod 4294967296)) mod 4294967296)); cbn [Z.b2z]; divmod.
Qed.

(** ** Bits of the words *)

Lemma uu_bit h l i :
  is_u32 l → 0 ≤ i → Z.testbit (uu h l) i =
  if decide (i < 32) then Z.testbit l i else Z.testbit h (i - 32).
Proof.
  intros Hl Hi. unfold uu. change 4294967296 with (2 ^ 32).
  rewrite <-(lor_shiftl h 32 l) by (done || lia). rewrite Z.lor_spec. case_decide as Hc.
  - by rewrite Z.shiftl_spec_low.
  - rewrite Z.shiftl_spec, (bits_high l 32) by (done || lia). apply orb_false_r.
Qed.

Lemma ui_H_bit x i : 0 ≤ i → Z.testbit (ui_H x) i = Z.testbit x (i + 32).
Proof.
  intros Hi. unfold ui_H. change 4294967296 with (2 ^ 32).
  by rewrite <-Z.shiftr_div_pow2, Z.shiftr_spec by lia.
Qed.

Lemma ui_L_bit x i : 0 ≤ i → Z.testbit (ui_L x) i = (i <? 32) && Z.testbit x i.
Proof.
  intros Hi. unfold ui_L. destruct (Z.ltb_spec i 32); cbn.
  - by apply (Z.mod_pow2_bits_low x 32).
  - by apply (Z.mod_pow2_bits_high x 32).
Qed.

Lemma u32_bit x i : 0 ≤ i → Z.testbit (u32 x) i = (i <? 32) && Z.testbit x i.
Proof. apply (ui_L_bit x). Qed.

Lemma u64_bit x i : 0 ≤ i → Z.testbit (u64 x) i = (i <? 64) && Z.testbit x i.
Proof.
  intros Hi. unfold u64. destruct (Z.ltb_spec i 64); cbn.
  - by apply (Z.mod_pow2_bits_low x 64).
  - by apply (Z.mod_pow2_bits_high x 64).
Qed.

Lemma u64_bit_high x i : is_u64 x → 64 ≤ i → Z.testbit x i = false.
Proof. intros Hx Hi. by apply (bits_high x 64). Qed.

Lemma word_land x y : is_u32 x → 0 ≤ y → is_u32 (Z.land x y).
Proof.
  intros [H0 H1] Hy. split; [apply Z.land_nonneg; by left|].
  apply (bits_bound _ 32); [lia|apply Z.land_nonneg; by left|]. intros i Hi.
  by rewrite Z.land_spec, (bits_high x 32) by done.
Qed.

Lemma word_lor x y : is_u32 x → is_u32 y → is_u32 (Z.lor x y).
Proof.
  intros [H0 H1] [H2 H3]. assert (Hn : 0 ≤ Z.lor x y) by by rewrite Z.lor_nonneg.
  split; [done|]. apply (bits_bound _ 32); [lia|done|]. intros i Hi.
  by rewrite Z.lor_spec, (bits_high x 32), (bits_high y 32) by done.
Qed.

Lemma word_lxor x y : is_u32 x → is_u32 y → is_u32 (Z.lxor x y).
Proof.
  intros [H0 H1] [H2 H3]. assert (Hn : 0 ≤ Z.lxor x y) by (rewrite Z.lxor_nonneg; lia).
  split; [done|]. apply (bits_bound _ 32); [lia|done|]. intros i Hi.
  by rewrite Z.lxor_spec, (bits_high x 32), (bits_high y 32) by done.
Qed.

Lemma word_shiftr x n : is_u32 x → 0 ≤ n → is_u32 (Z.shiftr x n).
Proof.
  intros [H0 H1] Hn. split; [by apply Z.shiftr_nonneg|]. rewrite Z.shiftr_div_pow2 by done.
  pose proof (Z.pow_pos_nonneg 2 n ltac:(lia) Hn).
  apply Z.le_lt_trans with x; [|done]. apply Z.div_le_upper_bound; [lia|nia].
Qed.

Lemma word_zero : is_u32 0.
Proof. by split. Qed.

Create HintDb word.
#[local] Hint Resolve word_land word_lor word_lxor word_shiftr word_zero u32_range : word.
#[local] Hint Extern 1 (_ ≤ _) => lia : word.

(** Compares two numbers bit by bit; leaves the two halves. *)
Ltac by_halves i Hi :=
  apply Z.bits_inj'; intros i Hi;
  rewrite uu_bit by auto with word; destruct (decide (i < 32)).

Lemma anddi3_spec a b : is_u64 a → is_u64 b → __anddi3 a b = Z.land a b.
Proof.
  intros Ha Hb. destruct (ui_range a Ha) as [? ?], (ui_range b Hb) as [? [? ?]].
  unfold __anddi3. by_halves i Hi.
  - by rewrite !Z.land_spec, !ui_L_bit, (proj2 (Z.ltb_lt i 32)) by lia.
  - rewrite !Z.land_spec, !ui_H_bit by lia. by rewrite Z.sub_add.
Qed.

Lemma iordi3_spec a b : is_u64 a → is_u64 b → __iordi3 a b = Z.lor a b.
Proof.
  intros Ha Hb. destruct (ui_range a Ha) as [? ?], (ui_range b Hb) as [? ?].
  unfold __iordi3. by_halves i Hi.
  - by rewrite !Z.lor_spec, !ui_L_bit, (proj2 (Z.ltb_lt i 32)) by lia.
  - rewrite !Z.lor_spec, !ui_H_bit by lia. by rewrite Z.sub_add.
Qed.

Lemma xordi3_spec a b : is_u64 a → is_u64 b → __xordi3 a b = Z.lxor a b.
Proof.
  intros Ha Hb. destruct (ui_range a Ha) as [? ?], (ui_range b Hb) as [? ?].
  unfold __xordi3. by_halves i Hi.
  - by rewrite !Z.lxor_spec, !ui_L_bit, (proj2 (Z.ltb_lt i 32)) by lia.
  - rewrite !Z.lxor_spec, !ui_H_bit by lia. by rewrite Z.sub_add.
Qed.

Lemma notdi2_spec a : is_u64 a → __one_cmpldi2 a = u64 (Z.lnot a).
Proof.
  intros Ha. unfold __one_cmpldi2, Z.lnot, uu, u32, u64, ui_H, ui_L, is_u64 in *. divmod.
Qed.

(** ** Comparison *)

Definition cmp3 (x y : Z) : Z := if x <? y then 0 else if y <? x then 2 else 1.

Lemma cmpdi2_spec a b : is_u64 a → is_u64 b → __cmpdi2 a b = cmp3 (s64 a) (s64 b).
Proof.
  intros Ha Hb. unfold __cmpdi2, cmp3, s64, s32, ui_H, ui_L, is_u64 in *.
  repeat case_match; try done; rewrite ?Z.ltb_lt, ?Z.ltb_ge in *; divmod.
Qed.

Lemma ucmpdi2_spec a b : is_u64 a → is_u64 b → __ucmpdi2 a b = cmp3 a b.
Proof.
  intros Ha Hb. unfold __ucmpdi2, cmp3, ui_H, ui_L, is_u64 in *.
  repeat case_match; try done; rewrite ?Z.ltb_lt, ?Z.ltb_ge in *; divmod.
Qed.

(** ** Shifts *)

Lemma ashldi3_spec a n : is_u64 a → 0 ≤ n < 64 → __ashldi3 a n = u64 (Z.shiftl a n).
Proof.
  intros Ha Hn. destruct (ui_range a Ha) as [Hh Hl]. unfold __ashldi3, INT_BITS.
  destruct (Z.eqb_spec n 0) as [->|Hn0]; [by rewrite Z.shiftl_0_r, u64_small|].
  destruct (Z.leb_spec 32 n); by_halves i Hi.
  - rewrite u64_bit, Z.shiftl_spec_low, Z.bits_0 by lia. by rewrite andb_false_r.
  - rewrite u32_bit, u64_bit, !Z.shiftl_spec by lia.
    replace (i - 32 <? 32) with (i <? 64) by (destruct (Z.ltb_spec i 64), (Z.ltb_spec (i - 32) 32); lia).
    destruct (Z.ltb_spec i 64); [|done]. replace (i - 32 - (n - 32)) with (i - n) by lia. cbn.
    destruct (decide (i < n)); [by rewrite !Z.testbit_neg_r by lia|].
    by rewrite ui_L_bit, (proj2 (Z.ltb_lt (i - n) 32)) by lia.
  - rewrite u32_bit, u64_bit, !Z.shiftl_spec by lia.
    rewrite (proj2 (Z.ltb_lt i 32)), (proj2 (Z.ltb_lt i 64)) by lia. cbn.
    destruct (decide (i < n)); [by rewrite !Z.testbit_neg_r by lia|].
    by rewrite ui_L_bit, (proj2 (Z.ltb_lt (i - n) 32)) by lia.
  - rewrite Z.lor_spec, u32_bit, u64_bit, !Z.shiftl_spec, Z.shiftr_spec by lia.
    replace (i - 32 <? 32) with (i <? 64) by (destruct (Z.ltb_spec i 64), (Z.ltb_spec (i - 32) 32); lia).
    rewrite ui_L_bit by lia. replace (i - 32 + (32 - n)) with (i - n) by lia.
    destruct (Z.ltb_spec (i - n) 32); cbn.
    + rewrite (Z.testbit_neg_r (ui_H a)) by lia. rewrite andb_false_r, (proj2 (Z.ltb_lt i 64)) by lia.
      done.
    + rewrite orb_false_r, ui_H_bit by lia. f_equal. f_equal. lia.
Qed.

Lemma lshrdi3_spec a n : is_u64 a → 0 ≤ n < 64 → __lshrdi3 a n = Z.shiftr a n.
Proof.
  intros Ha Hn. destruct (ui_range a Ha) as [Hh Hl]. unfold __lshrdi3, INT_BITS.
  destruct (Z.eqb_spec n 0) as [->|Hn0]; [by rewrite Z.shiftr_0_r|].
  destruct (Z.leb_spec 32 n); by_halves i Hi.
  - rewrite !Z.shiftr_spec, ui_H_bit by lia. f_equal. lia.
  - rewrite Z.bits_0, Z.shiftr_spec by lia. symmetry. apply u64_bit_high; [done|lia].
  - rewrite Z.lor_spec, !Z.shiftr_spec, ui_L_bit, u32_bit, Z.shiftl_spec by lia.
    rewrite (proj2 (Z.ltb_lt i 32)) by lia. cbn.
    destruct (Z.ltb_spec (i + n) 32); cbn.
    + rewrite (Z.testbit_neg_r (ui_H a)) by lia. apply orb_false_r.
    + rewrite ui_H_bit by lia. f_equal. lia.
  - rewrite !Z.shiftr_spec, ui_H_bit by lia. f_equal. lia.
Qed.

(** The bits of a negative number from its sign bit on. *)
Lemma neg_bit x w i : 0 ≤ w ≤ i → - 2 ^ w ≤ x < 0 → Z.testbit x i = true.
Proof.
  intros Hw Hx. assert (Hp : 2 ^ w ≤ 2 ^ i) by (apply Z.pow_le_mono_r; lia).
  rewrite <-(Z.add_0_l i), <-Z.shiftr_spec by lia.
  replace (Z.shiftr x i) with (-1); [done|]. rewrite Z.shiftr_div_pow2 by lia.
  apply (Z.div_unique_pos x (2 ^ i) (-1) (x + 2 ^ i)); lia.
Qed.

Lemma signed_bit (w : Z) x i :
  0 < w → 0 ≤ x < 2 ^ w → 0 ≤ i →
  Z.testbit (if x <? 2 ^ (w - 1) then x else x - 2 ^ w) i = Z.testbit x (Z.min i (w - 1)).
Proof.
  intros Hw Hx Hi. assert (Hpw : 2 ^ w = 2 * 2 ^ (w - 1)).
  { rewrite <-Z.pow_succ_r by lia. f_equal. lia. }
  destruct (Z.ltb_spec x (2 ^ (w - 1))).
  - destruct (Z.min_spec i (w - 1)) as [[_ ->]|[? ->]]; [done|].
    by rewrite !(bits_high x (w - 1)) by lia.
  - assert (Hlow : ∀ j, 0 ≤ j < w → Z.testbit (x - 2 ^ w) j = Z.testbit x j).
    { intros j Hj. rewrite <-(Z.mod_pow2_bits_low (x - 2 ^ w) w j) by lia.
      replace (x - 2 ^ w) with (x + (-1) * 2 ^ w) by lia.
      rewrite Z.mod_add by lia. by rewrite Z.mod_pow2_bits_low by lia. }
    destruct (Z.min_spec i (w - 1)) as [[? ->]|[? ->]]; [apply Hlow; lia|].
    rewrite <-Hlow by lia. rewrite !(neg_bit (x - 2 ^ w) (w - 1)); [done|lia..].
Qed.

Lemma s32_bit x i : is_u32 x → 0 ≤ i → Z.testbit (s32 x) i = Z.testbit x (Z.min i 31).
Proof. intros Hx. by apply (signed_bit 32). Qed.

Lemma s64_bit x i : is_u64 x → 0 ≤ i → Z.testbit (s64 x) i = Z.testbit x (Z.min i 63).
Proof. intros Hx. by apply (signed_bit 64). Qed.

Lemma u64_s64 x : is_u64 x → u64 (s64 x) = x.
Proof. unfold u64, s64, is_u64. intros Hx. destruct (x <? _); divmod. Qed.

Lemma ashrdi3_spec a n : is_u64 a → 0 ≤ n < 64 → __ashrdi3 a n = u64 (Z.shiftr (s64 a) n).
Proof.
  intros Ha Hn. destruct (ui_range a Ha) as [Hh Hl]. unfold __ashrdi3, INT_BITS.
  destruct (Z.eqb_spec n 0) as [->|Hn0]; [by rewrite Z.shiftr_0_r, u64_s64|].
  destruct (Z.leb_spec 32 n); by_halves i Hi;
    rewrite ?Z.lor_spec, ?u64_bit, ?u32_bit, ?Z.shiftr_spec, ?s64_bit, ?s32_bit by (done || lia).
  - rewrite (proj2 (Z.ltb_lt i 32)), (proj2 (Z.ltb_lt i 64)), ui_H_bit by lia. cbn.
    f_equal. lia.
  - replace (i - 32 <? 32) with (i <? 64) by (destruct (Z.ltb_spec i 64), (Z.ltb_spec (i - 32) 32); lia).
    rewrite ui_H_bit by lia. f_equal. f_equal. lia.
  - rewrite ui_L_bit, Z.shiftl_spec by lia.
    rewrite (proj2 (Z.ltb_lt i 32)), (proj2 (Z.ltb_lt i 64)) by lia. cbn.
    destruct (Z.ltb_spec (i + n) 32); cbn.
    + rewrite (Z.testbit_neg_r (ui_H a)) by lia. rewrite orb_false_r. f_equal. lia.
    + rewrite ui_H_bit by lia. f_equal. lia.
  - replace (i - 32 <? 32) with (i <? 64) by (destruct (Z.ltb_spec i 64), (Z.ltb_spec (i - 32) 32); lia).
    rewrite ui_H_bit by lia. f_equal. f_equal. lia.
Qed.

(** ** Multiplication *)

Lemma absdiff_spec x y : let '(d, n) := absdiff x y in 0 ≤ d ∧ x - y = if n then - d else d.
Proof. unfold absdiff. destruct (Z.leb_spec y x); lia. Qed.

(** Adding or subtracting [x << 16] to a pair of words. *)
Lemma add_shifted h l x :
  is_u32 l → is_u32 x →
  let l' := u32 (l + LHUP x) in
  ∃ k, uu (u32 (h + (HHALF x + Z.b2z (l' <? l)))) l' =
       uu h l + x * 65536 + k * 18446744073709551616.
Proof.
  intros Hl Hx. rewrite HHALF_div, LHUP_mul. unfold uu, u32, is_u32 in *. cbn.
  set (l' := (l + (x * 65536) mod 4294967296) mod 4294967296).
  set (h' := h + (x / 65536 + Z.b2z (l' <? l))).
  exists (- (h' / 4294967296)).
  assert (Hc : Z.b2z (l' <? l) = (l + (x * 65536) mod 4294967296) / 4294967296).
  { unfold l'. destruct (Z.ltb_spec ((l + (x * 65536) mod 4294967296) mod 4294967296) l); cbn; divmod. }
  unfold h'. rewrite Hc. unfold l'. divmod.
Qed.

Lemma sub_shifted h l x :
  is_u32 l → is_u32 x →
  let l' := u32 (l - LHUP x) in
  ∃ k, uu (u32 (h - (HHALF x + Z.b2z (l <? l')))) l' =
       uu h l - x * 65536 + k * 18446744073709551616.
Proof.
  intros Hl Hx. rewrite HHALF_div, LHUP_mul. unfold uu, u32, is_u32 in *. cbn.
  set (l' := (l - (x * 65536) mod 4294967296) mod 4294967296).
  set (h' := h - (x / 65536 + Z.b2z (l <? l'))).
  exists (- (h' / 4294967296)).
  assert (Hc : Z.b2z (l <? l') = - ((l - (x * 65536) mod 4294967296) / 4294967296)).
  { unfold l'. destruct (Z.ltb_spec l ((l - (x * 65536) mod 4294967296) mod 4294967296)); cbn; divmod. }
  unfold h'. rewrite Hc. unfold l'. divmod.
Qed.

Lemma add_word h l x :
  is_u32 h → is_u32 l → is_u32 x →
  let l' := u32 (l + x) in
  ∃ k, uu (if l' <? x then u32 (h + 1) else h) l' = uu h l + x + k * 18446744073709551616.
Proof.
  intros Hh Hl Hx. unfold uu, u32, is_u32 in *. cbn.
  destruct (Z.ltb_spec ((l + x) mod 4294967296) x).
  - exists (- ((h + 1) / 4294967296)). divmod.
  - exists 0. divmod.
Qed.

(** The products of the halves. *)
Lemma half_range u : is_u32 u → is_u16 (HHALF u) ∧ is_u16 (LHALF u) ∧ u = HHALF u * 65536 + LHALF u.
Proof. intros Hu. rewrite HHALF_div, LHALF_mod. unfold is_u32, is_u16 in *. repeat split; divmod. Qed.

Lemma half_mul x y : is_u16 x → is_u16 y → is_u32 (x * y).
Proof. unfold is_u16, is_u32. nia. Qed.

Lemma lmulq_spec u v : is_u32 u → is_u32 v → __lmulq u v = u * v.
Proof.
  intros Hu Hv. destruct (half_range u Hu) as (Hu1 & Hu0 & Eu), (half_range v Hv) as (Hv1 & Hv0 & Ev).
  unfold __lmulq. set (u1 := HHALF u) in *. set (u0 := LHALF u) in *.
  set (v1 := HHALF v) in *. set (v0 := LHALF v) in *.
  rewrite (u32_small (u0 * v0)), (u32_small (u1 * v1)) by by apply half_mul.
  destruct ((u1 =? 0) && (v1 =? 0)) eqn:E0.
  { apply andb_true_iff in E0 as [H1%Z.eqb_eq H2%Z.eqb_eq]. rewrite Eu, Ev, H1, H2. f_equal; lia. }
  pose proof (absdiff_spec u1 u0) as Hdu. pose proof (absdiff_spec v0 v1) as Hdv.
  destruct (absdiff u1 u0) as [ud nu], (absdiff v0 v1) as [vd nv].
  destruct Hdu as [Hud Eud], Hdv as [Hvd Evd].
  assert (Hmid : is_u32 (ud * vd)).
  { apply half_mul; unfold is_u16 in *; destruct nu, nv; lia. }
  rewrite (u32_small (ud * vd)) by done.
  assert (Emid : (if xorb nu nv then - (ud * vd) else ud * vd) = (u1 - u0) * (v0 - v1)).
  { rewrite Eud, Evd. destruct nu, nv; cbn; lia. }
  pose proof (half_mul u1 v1 Hu1 Hv1) as Hhigh. pose proof (half_mul u0 v0 Hu0 Hv0) as Hlow.
  set (high := u1 * v1) in *. set (low := u0 * v0) in *. set (mid := ud * vd) in *.
  assert (H1 : ∃ k, uu (u32 (high + HHALF high)) (LHUP high) =
                    high * 4294967296 + high * 65536 + k * 18446744073709551616).
  { rewrite HHALF_div, LHUP_mul. unfold uu, u32, is_u32 in *.
    exists (- ((high + high / 65536) / 4294967296)). divmod. }
  destruct H1 as [k1 H1].
  set (p := if xorb nu nv then _ else _).
  assert (H2 : ∃ k, uu p.1 p.2 = uu (u32 (high + HHALF high)) (LHUP high) +
     (u1 - u0) * (v0 - v1) * 65536 + k * 18446744073709551616 ∧ is_u32 p.1 ∧ is_u32 p.2).
  { unfold p. rewrite <-Emid. destruct (xorb nu nv); cbn [fst snd].
    - destruct (sub_shifted (u32 (high + HHALF high)) (LHUP high) mid) as [k ->];
        [apply u32_range|done|]. exists k. split; [lia|split; apply u32_range].
    - destruct (add_shifted (u32 (high + HHALF high)) (LHUP high) mid) as [k ->];
        [apply u32_range|done|]. exists k. split; [lia|split; apply u32_range]. }
  destruct H2 as (k2 & H2 & Hp1 & Hp2). clearbody p. destruct p as [ph pl]. cbn [fst snd] in *.
  destruct (add_shifted ph pl low Hp2 Hlow) as [k3 H3].
  set (pl3 := u32 (pl + LHUP low)) in *.
  set (ph3 := u32 (ph + (HHALF low + Z.b2z (pl3 <? pl)))) in *.
  destruct (add_word ph3 pl3 low ltac:(apply u32_range) ltac:(apply u32_range) Hlow) as [k4 H4].
  set (pl4 := u32 (pl3 + low)) in *. set (ph4 := if pl4 <? low then u32 (ph3 + 1) else ph3) in *.
  assert (Hr : is_u64 (uu ph4 pl4)).
  { apply uu_range; [|apply u32_range]. unfold ph4. destruct (pl4 <? low); apply u32_range. }
  assert (Huv : is_u64 (u * v)) by (unfold is_u64, is_u32 in *; nia).
  assert (Htot : uu ph4 pl4 = u * v + (k1 + k2 + k3 + k4) * 18446744073709551616).
  { rewrite H4, H3, H2, H1, Eu, Ev. unfold high, low. ring. }
  unfold is_u64 in *. lia.
Qed.

Lemma muldi3_spec a b : is_u64 a → is_u64 b → __muldi3 a b = u64 (a * b).
Proof.
  intros Ha Hb. unfold __muldi3.
  set (pu := if s64 a <? 0 then _ else _). set (pv := if s64 b <? 0 then _ else _).
  assert (Hu : is_u64 pu.1 ∧ ∃ k, pu.1 = (if pu.2 then - a else a) + k * 18446744073709551616).
  { unfold pu. destruct (s64 a <? 0); cbn [fst snd]; [|split; [done|exists 0; lia]].
    split; [apply u64_range|]. exists (- (- a / 18446744073709551616)). unfold u64. divmod. }
  assert (Hv : is_u64 pv.1 ∧ ∃ k, pv.1 = (if pv.2 then - b else b) + k * 18446744073709551616).
  { unfold pv. destruct (s64 b <? 0); cbn [fst snd]; [|split; [done|exists 0; lia]].
    split; [apply u64_range|]. exists (- (- b / 18446744073709551616)). unfold u64. divmod. }
  clearbody pu pv. destruct pu as [u nu], pv as [v nv]. cbn [fst snd] in *.
  destruct Hu as [Hu [ku Eu]], Hv as [Hv [kv Ev]].
  destruct (ui_range u Hu) as [Hu1 Hu0], (ui_range v Hv) as [Hv1 Hv0].
  pose proof (uu_split u) as Su. pose proof (uu_split v) as Sv. unfold uu in Su, Sv.
  set (u1 := ui_H u) in *. set (u0 := ui_L u) in *. set (v1 := ui_H v) in *. set (v0 := ui_L v) in *.
  rewrite (lmulq_spec u0 v0) by done.
  assert (Hlow : is_u64 (u0 * v0)) by (unfold is_u64, is_u32 in *; nia).
  set (prod := if _ && _ then _ else _).
  assert (Hp : is_u64 prod ∧ ∃ k, prod = u * v + k * 18446744073709551616).
  { unfold prod. destruct ((u1 =? 0) && (v1 =? 0)) eqn:E0.
    - apply andb_true_iff in E0 as [H1%Z.eqb_eq H2%Z.eqb_eq]. split; [done|]. exists 0. nia.
    - pose proof (absdiff_spec u1 u0) as Hdu. pose proof (absdiff_spec v0 v1) as Hdv.
      destruct (absdiff u1 u0) as [ud xu], (absdiff v0 v1) as [vd xv].
      destruct Hdu as [_ Eud], Hdv as [_ Evd]. destruct (ui_range _ Hlow) as [Hlh Hll].
      split; [apply uu_range; [apply u32_range|done]|].
      set (mid := if xorb xu xv then _ else _).
      assert (Emid : ∃ k, mid = (u1 - u0) * (v0 - v1) + k * 4294967296).
      { unfold mid. rewrite Eud, Evd. unfold u32. destruct xu, xv; cbn.
        - exists (- (ud * vd / 4294967296)). divmod.
        - exists (- (- ((ud * vd) mod 4294967296) / 4294967296) + ud * vd / 4294967296). divmod.
        - exists (- (- ((ud * vd) mod 4294967296) / 4294967296) + ud * vd / 4294967296). divmod.
        - exists (- (ud * vd / 4294967296)). divmod. }
      destruct Emid as [km Emid].
      assert (Ehigh : ∃ k, u32 (u1 * v1) = u1 * v1 + k * 4294967296).
      { exists (- (u1 * v1 / 4294967296)). unfold u32. divmod. }
      destruct Ehigh as [kh Ehigh]. pose proof (uu_split (u0 * v0)) as Sl.
      set (lo := ui_L (u0 * v0)) in *. set (hi := ui_H (u0 * v0)) in *. unfold uu in *.
      set (s := u32 (u1 * v1) + mid + lo + hi).
      exists (kh + km - s / 4294967296 - u1 * v1 - hi).
      assert (Es : u32 s = s - s / 4294967296 * 4294967296) by (unfold u32; divmod).
      rewrite Es. unfold s at 1. rewrite Emid, Ehigh, <-Su, <-Sv.
      replace lo with (u0 * v0 - hi * 4294967296) by lia. ring. }
  destruct Hp as [Hp [kp Ep]]. clearbody prod.
  set (T := 18446744073709551616) in *. rewrite <-(u64_small prod Hp).
  destruct nu, nv; cbn [xorb]; [|rewrite (u64_small prod Hp)..|].
  - apply (u64_cong _ _ (kp - a * kv - b * ku + ku * kv * T)). rewrite Ep, Eu, Ev. fold T. ring.
  - apply (u64_cong _ _ (- kp + a * kv - b * ku - ku * kv * T)). rewrite Ep, Eu, Ev. fold T. ring.
  - apply (u64_cong _ _ (- kp - a * kv + b * ku - ku * kv * T)). rewrite Ep, Eu, Ev. fold T. ring.
  - apply (u64_cong _ _ (kp + a * kv + b * ku + ku * kv * T)). rewrite Ep, Eu, Ev. fold T. ring.
Qed.

(** C18: on every pair of arguments the additions, subtractions, negations and
    multiplications that gcc calls for [long long] are those of the integers
    modulo 2^64. *)
Theorem longlong_ring a b :
  is_u64 a → is_u64 b →
  __adddi3 a b = u64 (a + b) ∧ __subdi3 a b = u64 (a - b) ∧ __negdi2 a = u64 (- a) ∧
  __muldi3 a b = u64 (a * b).
Proof. auto using adddi3_spec, subdi3_spec, negdi2_spec, muldi3_spec. Qed.

Lemma longlong_ring_witness :
  __adddi3 0x1ffffffff 3 = u64 (0x1ffffffff + 3) ∧
  __subdi3 0x1ffffffff 3 = u64 (0x1ffffffff - 3) ∧ __negdi2 0x1ffffffff = u64 (- 0x1ffffffff) ∧
  __muldi3 0x1ffffffff 3 = u64 (0x1ffffffff * 3).
Proof. apply longlong_ring; by split. Defined.

(** C19: the bitwise operations, the shifts by less than 64 and the comparisons
    are those of 64-bit numbers; the arithmetic right shift and the signed
    comparison read them as signed. *)
Theorem longlong_bits a b n :
  is_u64 a → is_u64 b → 0 ≤ n < 64 →
  (__anddi3 a b = Z.land a b ∧ __iordi3 a b = Z.lor a b ∧ __xordi3 a b = Z.lxor a b ∧
   __one_cmpldi2 a = u64 (Z.lnot a)) ∧
  (__ashldi3 a n = u64 (Z.shiftl a n) ∧ __lshldi3 a n = u64 (Z.shiftl a n) ∧
   __lshrdi3 a n = Z.shiftr a n ∧ __ashrdi3 a n = u64 (Z.shiftr (s64 a) n)) ∧
  __cmpdi2 a b = cmp3 (s64 a) (s64 b) ∧ __ucmpdi2 a b = cmp3 a b.
Proof.
  intros Ha Hb Hn. change (__lshldi3 a n) with (__ashldi3 a n). repeat split;
    auto using anddi3_spec, iordi3_spec, xordi3_spec, notdi2_spec, ashldi3_spec, lshrdi3_spec,
      ashrdi3_spec, cmpdi2_spec, ucmpdi2_spec.
Qed.

Lemma longlong_bits_witness :
  (__anddi3 (2 ^ 63) 5 = Z.land (2 ^ 63) 5 ∧ __iordi3 (2 ^ 63) 5 = Z.lor (2 ^ 63) 5 ∧
   __xordi3 (2 ^ 63) 5 = Z.lxor (2 ^ 63) 5 ∧ __one_cmpldi2 (2 ^ 63) = u64 (Z.lnot (2 ^ 63))) ∧
  (__ashldi3 (2 ^ 63) 40 = u64 (Z.shiftl (2 ^ 63) 40) ∧
   __lshldi3 (2 ^ 63) 40 = u64 (Z.shiftl (2 ^ 63) 40) ∧
   __lshrdi3 (2 ^ 63) 40 = Z.shiftr (2 ^ 63) 40 ∧
   __ashrdi3 (2 ^ 63) 40 = u64 (Z.shiftr (s64 (2 ^ 63)) 40)) ∧
  __cmpdi2 (2 ^ 63) 5 = cmp3 (s64 (2 ^ 63)) (s64 5) ∧ __ucmpdi2 (2 ^ 63) 5 = cmp3 (2 ^ 63) 5.
Proof. apply longlong_bits; [by split|by split|lia]. Defined.
