(* ===== verification/QDivRem.v ===== *)
(** * 64-bit division

    common/gcc-millicode/qdivrem.c: Knuth's Algorithm D on digits of 16 bits,
    and the four functions gcc calls, which use it.  The theorem says that it
    computes quotient and remainder. *)

From S2P Require Import Prelude LongLong.
Open Scope Z_scope.

(** ** qdivrem.c

    A [digit *] is an array and an offset.  Accesses outside of an array and
    divisions by zero give [None].  What the arrays hold before they are
    written is the argument [stack]. *)

Definition B : Z := 65536.

Definition COMBINE (a b : Z) : Z := Z.lor (u32 (Z.shiftl a HALF_BITS)) b.

Definition digit (x : Z) : Z := u16 x.

Definition wr (p : list Z) (i : nat) (x : Z) : option (list Z) :=
  if decide (i < length p)%nat then Some (<[i := x]> p) else None.

(** [shl(p + o, len, sh)]: the loop from [i] with [k] iterations to go, and
    the last digit. *)
Fixpoint shl (p : list Z) (o : nat) (k : nat) (sh : Z) : option (list Z) :=
  x ← p !! o;
  match k with
  | O => wr p o (digit (LHALF (u32 (Z.shiftl x sh))))
  | S k' =>
      y ← p !! S o;
      p ← wr p o (digit (Z.lor (LHALF (u32 (Z.shiftl x sh))) (Z.shiftr y (HALF_BITS - sh))));
      shl p (S o) k' sh
  end.

(** [tmp.ull = x; p[1] = HHALF(tmp.ui[H]); ...] *)
Definition to_digits (first x : Z) : list Z :=
  [first; digit (HHALF (ui_H x)); digit (LHALF (ui_H x));
          digit (HHALF (ui_L x)); digit (LHALF (ui_L x))].

(** [tmp.ui[H] = COMBINE(p[1], p[2]); tmp.ui[L] = COMBINE(p[3], p[4]);] *)
Definition from_digits (p : list Z) : option Z :=
  p1 ← p !! 1%nat; p2 ← p !! 2%nat; p3 ← p !! 3%nat; p4 ← p !! 4%nat;
  Some (uu (COMBINE p1 p2) (COMBINE p3 p4)).

(** A division of unsigned numbers. *)
Definition udiv (x y : Z) : option Z := if y =? 0 then None else Some (x / y).
Definition umod (x y : Z) : option Z := if y =? 0 then None else Some (x mod y).

(** The division by one digit [t]. *)
Definition short_div (u : list Z) (t : Z) : option (Z * Z) :=
  u1 ← u !! 1%nat; u2 ← u !! 2%nat; u3 ← u !! 3%nat; u4 ← u !! 4%nat;
  q1 ← udiv u1 t; r1 ← umod u1 t;
  let rbj := COMBINE r1 u2 in
  q2 ← udiv rbj t; r2 ← umod rbj t;
  let rbj := COMBINE r2 u3 in
  q3 ← udiv rbj t; r3 ← umod rbj t;
  let rbj := COMBINE r3 u4 in
  q4 ← udiv rbj t; r4 ← umod rbj t;
  Some (uu (COMBINE (digit q1) (digit q2)) (COMBINE (digit q3) (digit q4)), r4).

(** D1: how often [t] is to be shifted. *)
Fixpoint norm_shift (fuel : nat) (t : Z) : option Z :=
  if t <? B / 2 then
    match fuel with
    | O => None
    | S fuel' => d ← norm_shift fuel' (u32 (Z.shiftl t 1)); Some (d + 1)
    end
  else Some 0.

(** D3: the loop, entered at its head or, with [too_big], at the label
    [qhat_too_big]. *)
Fixpoint qhat_loop (fuel : nat) (too_big : bool) (v1 v2 uj2 qhat rhat : Z) : option Z :=
  if too_big || (COMBINE rhat uj2 <? u32 (v2 * qhat)) then
    match fuel with
    | O => None
    | S fuel' =>
        let qhat := u32 (qhat - 1) in
        let rhat := u32 (rhat + v1) in
        if B <=? rhat then Some qhat
        else qhat_loop fuel' false v1 v2 uj2 qhat rhat
    end
  else Some qhat.

Definition get_qhat (uj0 uj1 uj2 v1 v2 : Z) : option Z :=
  if uj0 =? v1 then qhat_loop 4 true v1 v2 uj2 B uj1
  else
    let nn := COMBINE uj0 uj1 in
    qhat ← udiv nn v1;
    rhat ← umod nn v1;
    qhat_loop 4 false v1 v2 uj2 qhat rhat.

(** D4: the loop over [i], from [i] down to 1; the digits and the last [t]. *)
Fixpoint mulsub (i : nat) (u : list Z) (uo : nat) (v : list Z) (vo : nat) (qhat t : Z) :
    option (list Z * Z) :=
  match i with
  | O => Some (u, t)
  | S i' =>
      x ← u !! (uo + i)%nat;
      y ← v !! (vo + i)%nat;
      let t := u32 (x - y * qhat - t) in
      u ← wr u (uo + i) (digit (LHALF t));
      mulsub i' u uo v vo qhat (Z.land (u32 (B - HHALF t)) (B - 1))
  end.

(** D6: the loop that adds back. *)
Fixpoint addback (i : nat) (u : list Z) (uo : nat) (v : list Z) (vo : nat) (t : Z) :
    option (list Z * Z) :=
  match i with
  | O => Some (u, t)
  | S i' =>
      x ← u !! (uo + i)%nat;
      y ← v !! (vo + i)%nat;
      let t := u32 (t + (x + y)) in
      u ← wr u (uo + i) (digit (LHALF t));
      addback i' u uo v vo (HHALF t)
  end.

(** An iteration of the loop of Program D, for the digits from [u + o] on: the
    digits after it and the digit of the quotient. *)
Definition d_step (n : nat) (v : list Z) (vo : nat) (v1 v2 : Z) (u : list Z) (o : nat) :
    option (list Z * Z) :=
  uj0 ← u !! o; uj1 ← u !! (o + 1)%nat; uj2 ← u !! (o + 2)%nat;
  qhat ← get_qhat uj0 uj1 uj2 v1 v2;
  '(u, t) ← mulsub n u o v vo qhat 0;
  uj ← u !! o;
  let t := u32 (uj - t) in
  u ← wr u o (digit (LHALF t));
  if HHALF t =? 0 then Some (u, digit qhat)
  else
    '(u, t) ← addback n u o v vo 0;
    uj ← u !! o;
    u ← wr u o (digit (LHALF (u32 (uj + t))));
    Some (u, digit (u32 (qhat - 1))).

(** The loop on [j]: [k] iterations to go, [o] and [qo] point to [u[j]] and
    [q[j]]. *)
Fixpoint d_loop (k : nat) (n : nat) (v : list Z) (vo : nat) (v1 v2 : Z)
    (u : list Z) (o : nat) (q : list Z) (qo : nat) : option (list Z * list Z) :=
  match k with
  | O => Some (u, q)
  | S k' =>
      '(u, d) ← d_step n v vo v1 v2 u o;
      q ← wr q qo d;
      d_loop k' n v vo v1 v2 u (S o) q (S qo)
  end.

(** The remainder shifted back: the loop from [i] down to [m + 1]; [k] is
    [i - m] and [o] points to [u[m]]. *)
Fixpoint unshift (k : nat) (u : list Z) (o : nat) (d : Z) : option (list Z) :=
  match k with
  | O => wr u o 0
  | S k' =>
      x ← u !! (o + k)%nat;
      y ← u !! (o + k')%nat;
      u ← wr u (o + k) (digit (Z.lor (Z.shiftr x d)
             (LHALF (u32 (Z.shiftl y (HALF_BITS - d))))));
      unshift k' u o d
  end.

(** [q[i] = 0] for [i] below [k]. *)
Fixpoint clear_q (k : nat) (q : list Z) : option (list Z) :=
  match k with
  | O => Some q
  | S k' => q ← wr q k' 0; clear_q k' q
  end.

(** The leading zeros of the dividend: [m] and the offset of [u]. *)
Fixpoint skip_u (m : nat) (u : list Z) (uo : nat) : option (nat * nat) :=
  u1 ← u !! (uo + 1)%nat;
  if u1 =? 0 then
    match m with
    | O => None
    | S m' => skip_u m' u (uo + 1)
    end
  else Some (m, uo).

Definition program_d (stack : Z) (u v : list Z) (n vo : nat) : option (Z * Z) :=
  '(m, uo) ← skip_u (4 - n) u 0;
  q ← clear_q (4 - m) (replicate 5 stack);
  v1 ← v !! (vo + 1)%nat;
  d ← norm_shift 16 v1;
  u ← (if 0 <? d then shl u uo (m + n) d else Some u);
  v ← (if 0 <? d then shl v (vo + 1) (n - 1) d else Some v);
  v1 ← v !! (vo + 1)%nat;
  v2 ← v !! (vo + 2)%nat;
  '(u, q) ← d_loop (m + 1) n v vo v1 v2 u uo q (4 - m);
  u ← (if d =? 0 then Some u else unshift n u (uo + m) d);
  rem ← from_digits u;
  quo ← from_digits q;
  Some (quo, rem).

(** The leading zeros of the divisor. *)
Fixpoint skip_v (stack : Z) (n : nat) (u v : list Z) (vo : nat) : option (Z * Z) :=
  v1 ← v !! (vo + 1)%nat;
  if v1 =? 0 then
    match n with
    | O => None
    | S n' =>
        if (n' =? 1)%nat then t ← v !! (vo + 2)%nat; short_div u t
        else skip_v stack n' u v (vo + 1)
    end
  else program_d stack u v n vo.

(** [__qdivrem(ull, vll, arq)]: the quotient and what is stored in [*arq]. *)
Definition __qdivrem (stack ull vll : Z) : option (Z * Z) :=
  if vll =? 0 then None
  else if ull <? vll then Some (0, ull)
  else skip_v stack 4 (to_digits 0 ull) (to_digits stack vll) 0.

(** ** divdi3.c, moddi3.c, udivdi3.c, umoddi3.c *)

Definition __udivdi3 (stack a b : Z) : option Z := p ← __qdivrem stack a b; Some p.1.
Definition __umoddi3 (stack a b : Z) : option Z := p ← __qdivrem stack a b; Some p.2.

Definition __divdi3 (stack a b : Z) : option Z :=
  let '(ua, na) := if s64 a <? 0 then (u64 (- a), true) else (a, false) in
  let '(ub, nb) := if s64 b <? 0 then (u64 (- b), true) else (b, false) in
  p ← __qdivrem stack ua ub;
  Some (if xorb na nb then u64 (- p.1) else p.1).

Definition __moddi3 (stack a b : Z) : option Z :=
  let '(ua, na) := if s64 a <? 0 then (u64 (- a), true) else (a, false) in
  let ub := if s64 b <? 0 then u64 (- b) else b in
  p ← __qdivrem stack ua ub;
  Some (if (na : bool) then u64 (- p.2) else p.2).

(** ** Numbers and digits *)

Definition dval (l : list Z) : Z := foldl (λ acc x, acc * B + x) 0 l.

Abbreviation digits := (Forall is_u16).

Lemma dval_snoc l x : dval (l ++ [x]) = dval l * B + x.
Proof. unfold dval. by rewrite foldl_app. Qed.

Lemma dval_app l1 l2 : dval (l1 ++ l2) = dval l1 * B ^ Z.of_nat (length l2) + dval l2.
Proof.
  induction l2 as [|x l2 IH] using rev_ind.
  - rewrite app_nil_r. cbn. lia.
  - rewrite app_assoc, !dval_snoc, IH, length_app. cbn [length].
    rewrite Nat2Z.inj_add, Z.pow_add_r by lia. cbn. lia.
Qed.

Lemma dval_cons x l : dval (x :: l) = x * B ^ Z.of_nat (length l) + dval l.
Proof. change (x :: l) with ([x] ++ l). rewrite dval_app. done. Qed.

Lemma dval_zeros n l : dval (replicate n 0 ++ l) = dval l.
Proof.
  rewrite dval_app. assert (H : dval (replicate n 0) = 0); [|lia].
  induction n as [|n IH]; [done|]. cbn [replicate]. rewrite dval_cons, IH. lia.
Qed.

Lemma dval_range l : digits l → 0 ≤ dval l < B ^ Z.of_nat (length l).
Proof.
  induction l as [|x l IH] using rev_ind; intros Hl; [done|].
  apply Forall_app in Hl as [Hl Hx]. apply Forall_inv in Hx. specialize (IH Hl).
  rewrite dval_snoc, length_app. cbn [length]. rewrite Nat2Z.inj_add, Z.pow_add_r by lia.
  unfold is_u16, B in *. change (Z.of_nat 1) with 1. rewrite Z.pow_1_r. nia.
Qed.

Lemma pow_B_pos n : 0 < B ^ Z.of_nat n.
Proof. apply Z.pow_pos_nonneg; unfold B; lia. Qed.

Lemma pow_B_succ n : B ^ Z.of_nat (S n) = B * B ^ Z.of_nat n.
Proof. rewrite Nat2Z.inj_succ, Z.pow_succ_r; lia. Qed.

Lemma digit_small x : is_u16 x → digit x = x.
Proof. intros H. by apply Z.mod_small. Qed.

Lemma digit_LHALF x : digit (LHALF x) = x mod 65536 ∧ is_u16 (digit (LHALF x)).
Proof.
  rewrite LHALF_mod. unfold digit, u16. rewrite Zmod_mod.
  split; [done|]. apply Z.mod_pos_bound. lia.
Qed.

Lemma COMBINE_val a b : is_u16 a → is_u16 b → COMBINE a b = a * B + b.
Proof.
  intros Ha Hb. unfold COMBINE, HALF_BITS. rewrite u32_small.
  - by rewrite (lor_shiftl a 16 b).
  - rewrite Z.shiftl_mul_pow2 by lia. unfold is_u16, is_u32 in *. lia.
Qed.

Lemma lookup_mid {A} (pre post : list A) x i :
  i = length pre → (pre ++ x :: post) !! i = Some x.
Proof. intros ->. by apply list_lookup_middle. Qed.

Lemma lookup_next {A} (pre post : list A) x y i :
  i = S (length pre) → (pre ++ x :: y :: post) !! i = Some y.
Proof. intros ->. rewrite lookup_app_r by lia. by replace (S (length pre) - length pre)%nat with 1%nat by lia. Qed.

Lemma wr_mid (pre post : list Z) x y i :
  i = length pre → wr (pre ++ x :: post) i y = Some (pre ++ y :: post).
Proof.
  intros ->. unfold wr. rewrite decide_True by (rewrite length_app; cbn; lia).
  f_equal. by rewrite insert_app_r_alt, Nat.sub_diag by lia.
Qed.

Lemma to_digits_val first x :
  is_u64 x → digits (tail (to_digits first x)) ∧ dval (tail (to_digits first x)) = x.
Proof.
  intros Hx. destruct (ui_range x Hx) as [Hh Hl].
  destruct (half_range _ Hh) as (H1 & H2 & H3), (half_range _ Hl) as (H4 & H5 & H6).
  unfold to_digits. rewrite !digit_small by done. cbn [tail]. split; [by do 4 (constructor; [done|]); constructor|].
  pose proof (uu_split x) as Hs. unfold dval, uu, B in *. cbn [foldl]. lia.
Qed.

Lemma from_digits_val p :
  length p = 5%nat → digits p → head p = Some 0 → from_digits p = Some (dval p).
Proof.
  intros Hl Hd H0. destruct p as [|p0 [|p1 [|p2 [|p3 [|p4 [|]]]]]]; try discriminate.
  cbn in H0. simplify_eq. repeat (apply Forall_cons_iff in Hd as [? Hd]).
  unfold from_digits. cbn. rewrite !COMBINE_val by done. f_equal. unfold uu, dval, B. cbn. lia.
Qed.

(** ** Shifting *)

Lemma half_shift x sh :
  is_u16 x → 0 < sh < 16 →
  LHALF (u32 (Z.shiftl x sh)) = (x * 2 ^ sh) mod 65536 ∧ 0 ≤ (x * 2 ^ sh) / 65536 < 2 ^ sh.
Proof.
  intros Hx Hs. rewrite LHALF_mod, Z.shiftl_mul_pow2 by lia.
  assert (Hp : 0 < 2 ^ sh < 65536).
  { split; [lia|]. change 65536 with (2 ^ 16). apply Z.pow_lt_mono_r; lia. }
  unfold is_u16 in Hx. rewrite u32_small by (unfold is_u32; nia). split; [done|].
  split; [apply Z.div_pos; nia|apply Z.div_lt_upper_bound; nia].
Qed.

(** Half a digit from each of two. *)
Lemma shl_digit x y sh :
  is_u16 x → is_u16 y → 0 < sh < 16 →
  let d := digit (Z.lor (LHALF (u32 (Z.shiftl x sh))) (Z.shiftr y (HALF_BITS - sh))) in
  is_u16 d ∧ d = (x * 2 ^ sh) mod 65536 + (y * 2 ^ sh) / 65536.
Proof.
  intros Hx Hy Hs d. destruct (half_shift x sh Hx Hs) as [Hl _].
  destruct (half_shift y sh Hy Hs) as [_ Hr].
  assert (H16 : 65536 = 2 ^ (16 - sh) * 2 ^ sh).
  { rewrite <-Z.pow_add_r by lia. by replace (16 - sh + sh) with 16 by lia. }
  assert (Hpos : 0 < 2 ^ sh) by lia. assert (Hpos' : 0 < 2 ^ (16 - sh)) by lia.
  assert (Ey : Z.shiftr y (HALF_BITS - sh) = (y * 2 ^ sh) / 65536).
  { unfold HALF_BITS. rewrite Z.shiftr_div_pow2 by lia. rewrite H16.
    by rewrite Z.div_mul_cancel_r by lia. }
  assert (Ex : (x * 2 ^ sh) mod 65536 = Z.shiftl (x mod 2 ^ (16 - sh)) sh).
  { rewrite Z.shiftl_mul_pow2, H16 by lia. by rewrite Z.mul_mod_distr_r by lia. }
  assert (Hm : 0 ≤ (x * 2 ^ sh) mod 65536 ≤ 65536 - 2 ^ sh).
  { rewrite Ex, Z.shiftl_mul_pow2, H16 by lia.
    pose proof (Z.mod_pos_bound x (2 ^ (16 - sh)) Hpos'). nia. }
  assert (Hd : Z.lor (LHALF (u32 (Z.shiftl x sh))) (Z.shiftr y (HALF_BITS - sh)) =
               (x * 2 ^ sh) mod 65536 + (y * 2 ^ sh) / 65536).
  { rewrite Hl, Ey, Ex, lor_shiftl by lia. by rewrite Z.shiftl_mul_pow2 by lia. }
  unfold d. rewrite Hd. unfold digit, u16, is_u16. rewrite Z.mod_small by lia. lia.
Qed.

Lemma shl_spec k : ∀ pre w post o sh,
  length pre = o → length w = S k → digits w → 0 < sh < 16 →
  ∃ w', shl (pre ++ w ++ post) o k sh = Some (pre ++ w' ++ post) ∧ length w' = S k ∧ digits w' ∧
    dval w' + default 0 (head w) * 2 ^ sh / B * B ^ Z.of_nat (S k) = dval w * 2 ^ sh.
Proof.
  induction k as [|k IH]; intros pre w post o sh Ho Hw Hd Hs;
    (destruct w as [|x w]; [done|]); apply Forall_cons_iff in Hd as [Hx Hd];
    cbn [app shl]; rewrite (lookup_mid pre _ x o) by lia; cbn [mbind option_bind].
  - destruct w; [|done]. rewrite wr_mid by lia. eexists [_]. split; [reflexivity|]. split; [done|].
    destruct (digit_LHALF (u32 (Z.shiftl x sh))) as [Hv Hr]. split; [by repeat constructor; apply Hr|].
    rewrite Hv. destruct (half_shift x sh Hx Hs) as [Hl _]. rewrite LHALF_mod in Hl. rewrite Hl.
    unfold dval, B. cbn. divmod.
  - destruct w as [|y w]; [done|]. apply Forall_cons_iff in Hd as [Hy Hd].
    cbn [app]. rewrite (lookup_next pre _ x y (S o)) by lia. cbn [mbind option_bind].
    rewrite wr_mid by lia.
    cbn [mbind option_bind]. destruct (shl_digit x y sh Hx Hy Hs) as [Hdr Hdv].
    set (d := digit (Z.lor _ _)) in *.
    destruct (IH (pre ++ [d]) (y :: w) post (S o) sh) as (w' & He & Hl & Hd' & Hv).
    { rewrite length_app. cbn. lia. } { cbn in *. lia. } { by constructor. } { done. }
    exists (d :: w'). rewrite <-!app_assoc in He. cbn [app] in He.
    split; [exact He|]. split; [cbn; lia|]. split; [by constructor|].
    cbn [head default from_option id] in *. rewrite !dval_cons in *. rewrite Hl.
    cbn [length] in *. rewrite (pow_B_succ (S k)). replace (length w) with k in * by lia.
    rewrite Hdv. pose proof (Z.div_mod (x * 2 ^ sh) 65536 ltac:(lia)). unfold B in *. nia.
Qed.

Lemma norm_shift_spec fuel t :
  0 < t < B → B / 2 ≤ t * 2 ^ Z.of_nat fuel →
  ∃ d, norm_shift fuel t = Some d ∧ 0 ≤ d ≤ Z.of_nat fuel ∧ B / 2 ≤ t * 2 ^ d < B.
Proof.
  revert t. induction fuel as [|fuel IH]; intros t Ht Hb; cbn [norm_shift]; unfold B in *;
    change (65536 / 2) with 32768 in *; destruct (Z.ltb_spec t 32768).
  - cbn in Hb. lia.
  - exists 0. rewrite Z.pow_0_r. auto with lia.
  - rewrite Z.shiftl_mul_pow2, u32_small by (unfold is_u32; lia). change (2 ^ 1) with 2.
    destruct (IH (t * 2)) as (d & -> & Hd & Hr).
    + lia.
    + rewrite Nat2Z.inj_succ, Z.pow_succ_r in Hb by lia. lia.
    + exists (d + 1). cbn. split; [done|]. rewrite Z.pow_add_r by lia. change (2 ^ 1) with 2. lia.
  - exists 0. rewrite Z.pow_0_r. auto with lia.
Qed.

(** The remainder shifted back. *)
Lemma unshift_digit x y d :
  is_u16 x → is_u16 y → 0 < d < 16 →
  let z := digit (Z.lor (Z.shiftr x d) (LHALF (u32 (Z.shiftl y (HALF_BITS - d))))) in
  is_u16 z ∧ z = (y mod 2 ^ d) * 2 ^ (16 - d) + x / 2 ^ d.
Proof.
  intros Hx Hy Hd. rewrite Z.lor_comm. cbn zeta.
  destruct (shl_digit y x (16 - d) Hy Hx ltac:(lia)) as [H1 H2].
  replace (HALF_BITS - (16 - d)) with d in * by (unfold HALF_BITS; lia).
  replace (HALF_BITS - d) with (16 - d) by done.
  split; [exact H1|]. rewrite H2.
  assert (H16 : 65536 = 2 ^ d * 2 ^ (16 - d)).
  { rewrite <-Z.pow_add_r by lia. by replace (d + (16 - d)) with 16 by lia. }
  rewrite H16, Z.mul_mod_distr_r, Z.div_mul_cancel_r by lia. done.
Qed.

Lemma unshift_spec k : ∀ pre y w post o d,
  length pre = o → length w = k → is_u16 y → digits w → 0 < d < 16 →
  ∃ w', unshift k (pre ++ y :: w ++ post) o d = Some (pre ++ 0 :: w' ++ post) ∧
    length w' = k ∧ digits w' ∧
    dval w' + y / 2 ^ d * B ^ Z.of_nat k = dval (y :: w) / 2 ^ d.
Proof.
  induction k as [|k IH]; intros pre y w post o d Ho Hw Hy Hd Hs; cbn [unshift].
  - destruct w; [|done]. cbn [app]. rewrite wr_mid by lia. exists []. repeat split; [constructor|].
    change (dval [y]) with y. change (dval []) with 0. rewrite Z.pow_0_r. lia.
  - destruct w as [|x w _] using rev_ind; [done|]. rewrite length_app in Hw. cbn in Hw.
    apply Forall_app in Hd as [Hd Hx%Forall_inv].
    assert (Hk : length w = k) by lia.
    assert (Hlast : ∃ pre' z, y :: w = pre' ++ [z] ∧ is_u16 z ∧ length pre' = k).
    { destruct w as [|z w _] using rev_ind; [by exists [], y; cbn in *; subst|].
      apply Forall_app in Hd as [_ Hz%Forall_inv]. exists (y :: w), z.
      rewrite length_app in Hk. cbn [length] in *. split; [done|]. split; [done|lia]. }
    destruct Hlast as (pre' & z & Hz & Hzr & Hpl).
    assert (Hu : pre ++ y :: (w ++ [x]) ++ post = (pre ++ y :: w) ++ x :: post).
    { by rewrite <-!app_assoc. }
    rewrite Hu, (lookup_mid _ _ x (o + S k)) by (rewrite length_app; cbn; lia).
    cbn [mbind option_bind].
    assert (Hlz : ((pre ++ y :: w) ++ x :: post) !! (o + k)%nat = Some z).
    { rewrite Hz, app_assoc, <-app_assoc. apply lookup_mid. rewrite length_app. lia. }
    rewrite Hlz. cbn [mbind option_bind].
    rewrite wr_mid by (rewrite length_app; cbn; lia). cbn [mbind option_bind].
    destruct (unshift_digit x z d Hx Hzr Hs) as [Hnr Hnv]. set (nd := digit (Z.lor _ _)) in *.
    destruct (IH pre y w (nd :: post) o d Ho Hk Hy Hd Hs) as (w' & He & Hl & Hd' & Hv).
    exists (w' ++ [nd]). rewrite <-!app_assoc. cbn [app].
    split; [exact He|]. split; [rewrite length_app; cbn; lia|].
    split; [apply Forall_app; split; [done|by repeat constructor; apply Hnr]|].
    change (y :: w ++ [x]) with ((y :: w) ++ [x]). rewrite !dval_snoc, Nat2Z.inj_succ, Z.pow_succ_r by lia.
    assert (HY : dval (y :: w) mod 2 ^ d = z mod 2 ^ d).
    { rewrite Hz, dval_snoc. unfold B.
      replace 65536 with (2 ^ (16 - d) * 2 ^ d)
        by (rewrite <-Z.pow_add_r by lia; by replace (16 - d + d) with 16 by lia).
      rewrite Z.mul_assoc, Z.add_comm, Z.mod_add by lia. done. }
    assert (H16 : B = 2 ^ (16 - d) * 2 ^ d)
      by (rewrite <-Z.pow_add_r by lia; by replace (16 - d + d) with 16 by lia).
    assert (Hdiv : (dval (y :: w) * B + x) / 2 ^ d = dval (y :: w) / 2 ^ d * B + nd).
    { rewrite Hnv, <-HY. set (Y := dval (y :: w)).
      pose proof (Z.div_mod Y (2 ^ d) ltac:(lia)) as HYd.
      replace (Y * B + x) with (x + (Y / 2 ^ d * B + Y mod 2 ^ d * 2 ^ (16 - d)) * 2 ^ d)
        by (rewrite H16; nia).
      rewrite Z.div_add by lia. lia. }
    rewrite Hdiv, <-Hv. lia.
Qed.

(** ** D3: the trial quotient

    It is the quotient of the three leading digits [W3] of the dividend by the
    two leading digits of the divisor, or [B - 1] if that is smaller. *)

Section qhat.
Variables (v1 v2 uj0 uj1 uj2 : Z).
Hypotheses (Hv1 : is_u16 v1) (Hv2 : is_u16 v2) (Hnorm : B / 2 ≤ v1).
Hypotheses (Hu0 : is_u16 uj0) (Hu1 : is_u16 uj1) (Hu2 : is_u16 uj2) (Hle : uj0 ≤ v1).

Definition qtrial : Z :=
  Z.min (B - 1) (((uj0 * B + uj1) * B + uj2) / (v1 * B + v2)).

(** The estimate is too big, or right. *)
Lemma qtrial_cmp qhat rhat :
  uj0 * B + uj1 = qhat * v1 + rhat → 0 ≤ qhat ≤ B - 1 →
  (rhat * B + uj2 < v2 * qhat → qtrial < qhat) ∧ (v2 * qhat ≤ rhat * B + uj2 → qhat ≤ qtrial).
Proof.
  unfold qtrial, is_u16, B in *. change (65536 / 2) with 32768 in *. intros He Hq.
  set (W := (uj0 * 65536 + uj1) * 65536 + uj2). set (V := v1 * 65536 + v2).
  assert (HV : 0 < V) by (unfold V; lia). split; intros H.
  - assert (W / V < qhat); [|lia]. apply Z.div_lt_upper_bound; [done|]. unfold W, V. nia.
  - apply Z.min_glb; [lia|]. apply Z.div_le_lower_bound; [done|]. unfold W, V. nia.
Qed.

Lemma qhat_loop_spec fuel too_big qhat rhat :
  uj0 * B + uj1 = qhat * v1 + rhat → 0 ≤ rhat < B → qtrial ≤ qhat →
  (if too_big : bool then 1 ≤ qhat ≤ B ∧ qtrial < qhat else 0 ≤ qhat ≤ B - 1) →
  B ≤ rhat + Z.of_nat fuel * (B / 2) →
  qhat_loop fuel too_big v1 v2 uj2 qhat rhat = Some qtrial.
Proof.
  revert too_big qhat rhat. induction fuel as [|fuel IH]; intros too_big qhat rhat He Hr Hq Hb Hf;
    [lia|]. cbn [qhat_loop]. unfold is_u16, B in *. change (65536 / 2) with 32768 in *.
  rewrite COMBINE_val by (unfold is_u16; lia). unfold B in *.
  assert (Hdec : qtrial < qhat → 1 ≤ qhat ≤ 65536 →
    (if 65536 <=? u32 (rhat + v1) then Some (u32 (qhat - 1))
     else qhat_loop fuel false v1 v2 uj2 (u32 (qhat - 1)) (u32 (rhat + v1))) = Some qtrial).
  { intros Hlt Hq1. rewrite !u32_small by (unfold is_u32; lia).
    destruct (Z.leb_spec 65536 (rhat + v1)) as [Hge|Hlt'].
    - f_equal. destruct (qtrial_cmp (qhat - 1) (rhat + v1)) as [_ Hc]; unfold B in *; [lia|lia|].
      specialize (Hc ltac:(nia)). lia.
    - apply IH; [lia|lia|lia|lia|lia]. }
  destruct too_big; cbn [orb]; [apply Hdec; apply Hb|].
  rewrite u32_small by (unfold is_u32; nia).
  destruct (qtrial_cmp qhat rhat) as [H1 H2]; unfold B in *; [done|done|].
  destruct (Z.ltb_spec (rhat * 65536 + uj2) (v2 * qhat)) as [Hlt|Hge].
  - specialize (H1 Hlt). apply Hdec; [done|]. split; [|lia]. unfold qtrial, B in *.
    assert (0 ≤ ((uj0 * 65536 + uj1) * 65536 + uj2) / (v1 * 65536 + v2)) by (apply Z.div_pos; lia).
    lia.
  - f_equal. specialize (H2 Hge). lia.
Qed.

Lemma get_qhat_spec : get_qhat uj0 uj1 uj2 v1 v2 = Some qtrial.
Proof.
  assert (Hqt : qtrial ≤ B - 1) by (unfold qtrial; lia).
  unfold get_qhat. unfold is_u16, B in *. change (65536 / 2) with 32768 in *.
  destruct (Z.eqb_spec uj0 v1) as [Heq|Hne].
  - apply qhat_loop_spec; unfold B; change (65536 / 2) with 32768; lia.
  - rewrite COMBINE_val by (unfold is_u16; lia). unfold udiv, umod, B.
    rewrite (proj2 (Z.eqb_neq v1 0)) by lia. cbn [mbind option_bind].
    set (nn := uj0 * 65536 + uj1). pose proof (Z.div_mod nn v1 ltac:(lia)) as Hdm.
    pose proof (Z.mod_pos_bound nn v1 ltac:(lia)) as Hmr.
    assert (Hq : 0 ≤ nn / v1 ≤ 65535).
    { split; [apply Z.div_pos; unfold nn; lia|].
      assert (nn / v1 < 65536); [|lia]. apply Z.div_lt_upper_bound; unfold nn; nia. }
    apply qhat_loop_spec; unfold B in *; change (65536 / 2) with 32768; [lia|lia| |lia|lia].
    unfold qtrial, B. apply Z.min_le_iff. right. apply Z.div_le_lower_bound; [lia|].
    pose proof (Z.div_mod ((uj0 * 65536 + uj1) * 65536 + uj2) (v1 * 65536 + v2) ltac:(lia)) as Hdm2.
    set (q := ((uj0 * 65536 + uj1) * 65536 + uj2) / (v1 * 65536 + v2)) in *.
    pose proof (Z.mod_pos_bound ((uj0 * 65536 + uj1) * 65536 + uj2) (v1 * 65536 + v2) ltac:(lia))
      as Hmod.
    assert (Hq0 : 0 ≤ q) by (apply Z.div_pos; lia). fold nn in Hdm2, Hmod.
    assert (Hvq : 0 ≤ v2 * q) by (apply Z.mul_nonneg_nonneg; lia).
    rewrite Z.mul_add_distr_r in Hdm2. set (p := v1 * q) in *. set (p2 := v2 * q) in *.
    replace (v1 * 65536 * q) with (p * 65536) in Hdm2 by (unfold p; lia). lia.
Qed.

End qhat.

(** ** D4 and D6 *)

(** One digit of [u - v * qhat], with the borrow. *)
Lemma mulsub_digit x y qhat t :
  is_u16 x → is_u16 y → 0 ≤ qhat ≤ B - 1 → is_u16 t →
  let w := u32 (x - y * qhat - t) in
  let t' := Z.land (u32 (B - HHALF w)) (B - 1) in
  is_u16 t' ∧ digit (LHALF w) - t' * B = x - y * qhat - t.
Proof.
  intros Hx Hy Hq Ht w t'. destruct (digit_LHALF w) as [-> _].
  unfold t'. rewrite HHALF_div. change (B - 1) with (Z.ones 16). rewrite Z.land_ones by lia.
  change (2 ^ 16) with 65536. unfold w, u32, is_u16, B in *.
  assert (H1 : 0 ≤ y * qhat ≤ 65535 * 65535) by nia. set (yq := y * qhat) in *. clearbody yq.
  split; divmod.
Qed.

Lemma mulsub_spec i : ∀ pre w post vpre vd vpost uo vo qhat t,
  length pre = S uo → length vpre = S vo → length w = i → length vd = i →
  digits w → digits vd → 0 ≤ qhat ≤ B - 1 → is_u16 t →
  ∃ w' t', mulsub i (pre ++ w ++ post) uo (vpre ++ vd ++ vpost) vo qhat t =
             Some (pre ++ w' ++ post, t') ∧ length w' = i ∧ digits w' ∧ is_u16 t' ∧
    dval w' - t' * B ^ Z.of_nat i = dval w - dval vd * qhat - t.
Proof.
  induction i as [|i IH]; intros pre w post vpre vd vpost uo vo qhat t Hp Hvp Hw Hv Hdw Hdv Hq Ht;
    cbn [mulsub].
  - destruct w, vd; try done. exists [], t. repeat split; try done; try apply Ht.
    unfold dval. cbn. lia.
  - destruct w as [|x w _] using rev_ind; [done|]. destruct vd as [|y vd _] using rev_ind; [done|].
    rewrite length_app in Hw, Hv. cbn [length] in Hw, Hv.
    apply Forall_app in Hdw as [Hdw Hx%Forall_inv]. apply Forall_app in Hdv as [Hdv Hy%Forall_inv].
    replace (pre ++ (w ++ [x]) ++ post) with ((pre ++ w) ++ x :: post) by by rewrite <-!app_assoc.
    replace (vpre ++ (vd ++ [y]) ++ vpost) with ((vpre ++ vd) ++ y :: vpost) by by rewrite <-!app_assoc.
    rewrite !lookup_mid by (rewrite length_app; lia). cbn [mbind option_bind].
    rewrite wr_mid by (rewrite length_app; lia). cbn [mbind option_bind].
    destruct (mulsub_digit x y qhat t Hx Hy Hq Ht) as [Ht' He].
    set (nw := u32 (x - y * qhat - t)) in *. destruct (digit_LHALF nw) as [_ Hdig].
    rewrite <-!app_assoc.
    destruct (IH pre w (digit (LHALF nw) :: post) vpre vd (y :: vpost) uo vo qhat
                (Z.land (u32 (B - HHALF nw)) (B - 1))) as (w' & t' & Hm & Hl & Hd & Ht2 & Hval);
      [done|done|lia|lia|done|done|done|done|].
    exists (w' ++ [digit (LHALF nw)]), t'. rewrite <-app_assoc. split; [exact Hm|].
    split; [rewrite length_app; cbn; lia|].
    split; [apply Forall_app; split; [done|by repeat constructor; apply Hdig]|]. split; [done|].
    rewrite !dval_snoc, Nat2Z.inj_succ, Z.pow_succ_r by lia. nia.
Qed.

Lemma addback_digit x y t :
  is_u16 x → is_u16 y → 0 ≤ t ≤ 1 →
  let w := u32 (t + (x + y)) in
  0 ≤ HHALF w ≤ 1 ∧ digit (LHALF w) + HHALF w * B = x + y + t.
Proof.
  intros Hx Hy Ht w. destruct (digit_LHALF w) as [-> _]. rewrite HHALF_div.
  unfold w, u32, is_u16, B in *. split; divmod.
Qed.

Lemma addback_spec i : ∀ pre w post vpre vd vpost uo vo t,
  length pre = S uo → length vpre = S vo → length w = i → length vd = i →
  digits w → digits vd → 0 ≤ t ≤ 1 →
  ∃ w' t', addback i (pre ++ w ++ post) uo (vpre ++ vd ++ vpost) vo t =
             Some (pre ++ w' ++ post, t') ∧ length w' = i ∧ digits w' ∧ 0 ≤ t' ≤ 1 ∧
    dval w' + t' * B ^ Z.of_nat i = dval w + dval vd + t.
Proof.
  induction i as [|i IH]; intros pre w post vpre vd vpost uo vo t Hp Hvp Hw Hv Hdw Hdv Ht;
    cbn [addback].
  - destruct w, vd; try done. exists [], t. repeat split; try done; try apply Ht.
    unfold dval. cbn. lia.
  - destruct w as [|x w _] using rev_ind; [done|]. destruct vd as [|y vd _] using rev_ind; [done|].
    rewrite length_app in Hw, Hv. cbn [length] in Hw, Hv.
    apply Forall_app in Hdw as [Hdw Hx%Forall_inv]. apply Forall_app in Hdv as [Hdv Hy%Forall_inv].
    replace (pre ++ (w ++ [x]) ++ post) with ((pre ++ w) ++ x :: post) by by rewrite <-!app_assoc.
    replace (vpre ++ (vd ++ [y]) ++ vpost) with ((vpre ++ vd) ++ y :: vpost) by by rewrite <-!app_assoc.
    rewrite !lookup_mid by (rewrite length_app; lia). cbn [mbind option_bind].
    rewrite wr_mid by (rewrite length_app; lia). cbn [mbind option_bind].
    destruct (addback_digit x y t Hx Hy Ht) as [Ht' He].
    set (nw := u32 (t + (x + y))) in *. destruct (digit_LHALF nw) as [_ Hdig].
    rewrite <-!app_assoc.
    destruct (IH pre w (digit (LHALF nw) :: post) vpre vd (y :: vpost) uo vo (HHALF nw))
      as (w' & t' & Hm & Hl & Hd & Ht2 & Hval); [done|done|lia|lia|done|done|done|].
    exists (w' ++ [digit (LHALF nw)]), t'. rewrite <-app_assoc. split; [exact Hm|].
    split; [rewrite length_app; cbn; lia|].
    split; [apply Forall_app; split; [done|by repeat constructor; apply Hdig]|]. split; [done|].
    rewrite !dval_snoc, Nat2Z.inj_succ, Z.pow_succ_r by lia. nia.
Qed.

(** ** One digit of the quotient *)

(** The trial quotient is right or one too big (Knuth, 4.3.1, Theorem B). *)
Lemma qtrial_bounds v1 v2 vr u0 u1 u2 wr :
  digits (v1 :: v2 :: vr) → digits (u0 :: u1 :: u2 :: wr) → length vr = length wr →
  B / 2 ≤ v1 → dval (u0 :: u1 :: u2 :: wr) < dval (v1 :: v2 :: vr) * B →
  let Q := dval (u0 :: u1 :: u2 :: wr) / dval (v1 :: v2 :: vr) in
  u0 ≤ v1 ∧ 0 ≤ Q ≤ B - 1 ∧ Q ≤ qtrial v1 v2 u0 u1 u2 ≤ Q + 1 ∧ qtrial v1 v2 u0 u1 u2 ≤ B - 1.
Proof.
  intros Hv Hu Hlen Hn HW Q.
  pose proof (dval_range _ (proj2 (proj1 (Forall_app _ [v1; v2] vr) Hv))) as Hvr.
  pose proof (dval_range _ (proj2 (proj1 (Forall_app _ [u0; u1; u2] wr) Hu))) as Hwr.
  assert (EV : dval (v1 :: v2 :: vr) = (v1 * B + v2) * B ^ Z.of_nat (length vr) + dval vr).
  { change (v1 :: v2 :: vr) with ([v1; v2] ++ vr). rewrite dval_app. done. }
  assert (EW : dval (u0 :: u1 :: u2 :: wr) =
               ((u0 * B + u1) * B + u2) * B ^ Z.of_nat (length vr) + dval wr).
  { change (u0 :: u1 :: u2 :: wr) with ([u0; u1; u2] ++ wr). rewrite dval_app, Hlen. done. }
  rewrite Hlen in Hvr, EV, EW. pose proof (pow_B_pos (length wr)) as HP.
  set (P := B ^ Z.of_nat (length wr)) in *. set (V := dval (v1 :: v2 :: vr)) in *.
  set (W := dval (u0 :: u1 :: u2 :: wr)) in *.
  repeat (apply Forall_cons_iff in Hv as [? Hv]). repeat (apply Forall_cons_iff in Hu as [? Hu]).
  unfold is_u16, B in *. change (65536 / 2) with 32768 in *.
  set (V2 := v1 * 65536 + v2) in *. set (W3 := (u0 * 65536 + u1) * 65536 + u2) in *.
  assert (HV2 : 0 < V2) by (unfold V2; lia).
  assert (Hv1P : 1 * P ≤ v1 * P) by (apply Z.mul_le_mono_nonneg_r; lia).
  assert (Hv2P : 0 ≤ v2 * P ≤ 65535 * P) by (split; [lia|apply Z.mul_le_mono_nonneg_r; lia]).
  assert (HVB : 65536 * P ≤ V) by (unfold V2 in EV; lia). assert (HVpos : 0 < V) by lia.
  assert (HWpos : 0 ≤ W) by (unfold W3 in EW; lia).
  pose proof (Z.div_mod W V ltac:(lia)) as Hdm. pose proof (Z.mod_pos_bound W V HVpos) as Hmr.
  fold Q in Hdm. assert (HQ0 : 0 ≤ Q) by (apply Z.div_pos; lia).
  assert (HQB : Q ≤ 65535) by (assert (Q < 65536); [apply Z.div_lt_upper_bound; lia|lia]).
  assert (HmulV : ∀ x, x * V = x * V2 * P + x * dval vr) by (intros x; rewrite EV; ring).
  assert (HQ2 : Q * V2 ≤ W3).
  { assert (Hlt : Q * V2 * P < (W3 + 1) * P); [|apply Z.mul_lt_mono_pos_r in Hlt; lia].
    pose proof (HmulV Q). assert (0 ≤ Q * dval vr) by (apply Z.mul_nonneg_nonneg; lia). lia. }
  assert (Hu0 : u0 ≤ v1).
  { destruct (decide (u0 ≤ v1)) as [|Hgt]; [done|]. exfalso.
    assert ((v1 + 1) * P ≤ u0 * P) by (apply Z.mul_le_mono_nonneg_r; lia).
    assert (0 ≤ u1 * P) by (apply Z.mul_nonneg_nonneg; lia).
    assert (0 ≤ u2 * P) by (apply Z.mul_nonneg_nonneg; lia). unfold V2, W3 in *. lia. }
  set (q := qtrial v1 v2 u0 u1 u2). assert (Hq : q = Z.min 65535 (W3 / V2)) by done.
  assert (HQq : Q ≤ q).
  { rewrite Hq. apply Z.min_glb; [done|]. apply Z.div_le_lower_bound; lia. }
  assert (Hqv : q * V2 ≤ W3).
  { apply Z.le_trans with (W3 / V2 * V2).
    - apply Z.mul_le_mono_nonneg_r; lia.
    - rewrite Z.mul_comm. by apply Z.mul_div_le. }
  split; [done|]. split; [lia|]. split; [|lia]. split; [done|].
  assert (Hlt : q * V < (Q + 2) * V); [|apply Z.mul_lt_mono_pos_r in Hlt; lia].
  pose proof (HmulV q). assert (q * V2 * P ≤ W3 * P) by (apply Z.mul_le_mono_nonneg_r; lia).
  assert (q * dval vr ≤ 65535 * P) by (apply Z.mul_le_mono_nonneg; lia). lia.
Qed.

Lemma d_step_spec n pre u0 w post vpre v1 v2 vr vpost vo :
  length w = n → length (v1 :: v2 :: vr) = n → length vpre = S vo →
  digits (u0 :: w) → digits (v1 :: v2 :: vr) → B / 2 ≤ v1 →
  dval (u0 :: w) < dval (v1 :: v2 :: vr) * B →
  ∃ w', d_step n (vpre ++ (v1 :: v2 :: vr) ++ vpost) vo v1 v2 (pre ++ u0 :: w ++ post) (length pre) =
          Some (pre ++ 0 :: w' ++ post, dval (u0 :: w) / dval (v1 :: v2 :: vr)) ∧
    length w' = n ∧ digits w' ∧ is_u16 (dval (u0 :: w) / dval (v1 :: v2 :: vr)) ∧
    dval w' = dval (u0 :: w) mod dval (v1 :: v2 :: vr).
Proof.
  intros Hw Hv Hvp Hdu Hdv Hnorm HW. destruct w as [|u1 [|u2 wr]]; [cbn in *; lia..|].
  destruct (qtrial_bounds v1 v2 vr u0 u1 u2 wr Hdv Hdu) as (Hu0 & HQr & Hq & HqB);
    [cbn in *; lia|done|done|].
  pose proof (dval_range _ Hdv) as HVr. pose proof Hdu as Hdu'. pose proof Hdv as Hdv'.
  repeat (apply Forall_cons_iff in Hdu' as [? Hdu']). repeat (apply Forall_cons_iff in Hdv' as [? Hdv']).
  unfold d_step. rewrite (lookup_mid pre _ u0 (length pre)) by done. cbn [mbind option_bind app].
  rewrite (lookup_next pre _ u0 u1 (length pre + 1)) by lia. cbn [mbind option_bind].
  replace (pre ++ u0 :: u1 :: u2 :: wr ++ post) with ((pre ++ [u0]) ++ u1 :: u2 :: wr ++ post)
    by by rewrite <-app_assoc.
  rewrite (lookup_next (pre ++ [u0]) _ u1 u2 (length pre + 2)) by (rewrite length_app; cbn; lia).
  cbn [mbind option_bind]. rewrite get_qhat_spec by done. cbn [mbind option_bind].
  set (w := u1 :: u2 :: wr) in *. set (vd := v1 :: v2 :: vr) in *. set (q := qtrial v1 v2 u0 u1 u2) in *.
  apply Forall_cons_iff in Hdu as [Hu0r Hdw].
  destruct (mulsub_spec n (pre ++ [u0]) w post vpre vd vpost (length pre) vo q 0)
    as (w' & t' & Hm & Hl' & Hd' & Ht' & Hval);
    [rewrite length_app; cbn; lia|done|done|done|done|done|lia|by split|].
  change (u1 :: u2 :: wr ++ post) with (w ++ post).
  change (vpre ++ v1 :: v2 :: vr ++ vpost) with (vpre ++ vd ++ vpost).
  rewrite Hm. cbn [mbind option_bind]. rewrite <-!app_assoc. cbn [app].
  rewrite (lookup_mid pre _ u0 (length pre)) by done. cbn [mbind option_bind].
  rewrite wr_mid by done. cbn [mbind option_bind].
  pose proof (dval_range _ Hd') as Hwr'. rewrite Hl' in Hwr'. rewrite Hv in HVr.
  pose proof (dval_cons u0 w) as EW. rewrite Hw in EW.
  set (W := dval (u0 :: w)) in *. set (V := dval vd) in *. set (P := B ^ Z.of_nat n) in *.
  assert (HVpos : 0 < V).
  { destruct (decide (V = 0)) as [E|]; [|lia]. rewrite E in HW.
    pose proof (dval_range (u0 :: w) ltac:(by constructor)) as HWr. fold W in HWr. lia. }
  pose proof (Z.div_mod W V ltac:(lia)) as Hdm. pose proof (Z.mod_pos_bound W V HVpos) as Hmr.
  assert (HQ16 : is_u16 (W / V)) by (unfold is_u16, B in *; lia).
  destruct (decide (q = W / V)) as [Heq|Hne].
  - assert (Hb : u0 - t' = 0) by nia. rewrite Hb. change (u32 0) with 0.
    change (HHALF 0 =? 0) with true. cbv iota. change (digit (LHALF 0)) with 0.
    exists w'. rewrite Heq, digit_small by done. split; [done|]. split; [done|]. split; [done|].
    split; [done|]. nia.
  - assert (Heq : q = W / V + 1) by lia. assert (Hb : u0 - t' = -1) by nia. rewrite Hb.
    change (HHALF (u32 (-1)) =? 0) with false. cbv iota. change (digit (LHALF (u32 (-1)))) with 65535.
    replace (pre ++ 65535 :: w' ++ post) with ((pre ++ [65535]) ++ w' ++ post) by by rewrite <-app_assoc.
    destruct (addback_spec n (pre ++ [65535]) w' post vpre vd vpost (length pre) vo 0)
      as (w2 & t2 & Ha & Hl2 & Hd2 & Ht2 & Hv2);
      [rewrite length_app; cbn; lia|done|done|done|done|done|lia|].
    rewrite Ha. cbn [mbind option_bind]. rewrite <-!app_assoc. cbn [app].
    rewrite (lookup_mid pre _ 65535) by done. cbn [mbind option_bind]. rewrite wr_mid by done.
    cbn [mbind option_bind]. pose proof (dval_range _ Hd2) as Hwr2. rewrite Hl2 in Hwr2. fold P in Hv2, Hwr2.
    assert (Ht2' : t2 = 1) by nia. rewrite Ht2'. change (digit (LHALF (u32 (65535 + 1)))) with 0.
    exists w2. rewrite Heq. rewrite u32_small by (unfold is_u32, is_u16 in *; lia).
    replace (W / V + 1 - 1) with (W / V) by lia. rewrite digit_small by done.
    split; [done|]. split; [done|]. split; [done|]. split; [done|]. nia.
Qed.

(** ** Program D *)

Lemma d_loop_spec k : ∀ n pre r ds post vpre v1 v2 vr vpost vo qpre qold qpost,
  length r = n → length ds = k → length (v1 :: v2 :: vr) = n → length vpre = S vo →
  digits r → digits ds → digits (v1 :: v2 :: vr) → B / 2 ≤ v1 →
  dval r < dval (v1 :: v2 :: vr) → length qold = k →
  ∃ r' qs, d_loop k n (vpre ++ (v1 :: v2 :: vr) ++ vpost) vo v1 v2
             (pre ++ r ++ ds ++ post) (length pre) (qpre ++ qold ++ qpost) (length qpre) =
             Some (pre ++ replicate k 0 ++ r' ++ post, qpre ++ qs ++ qpost) ∧
    length r' = n ∧ length qs = k ∧ digits r' ∧ digits qs ∧ dval r' < dval (v1 :: v2 :: vr) ∧
    dval (r ++ ds) = dval qs * dval (v1 :: v2 :: vr) + dval r'.
Proof.
  induction k as [|k IH]; intros n pre r ds post vpre v1 v2 vr vpost vo qpre qold qpost
    Hr Hds Hv Hvp Hdr Hdd Hdv Hnorm Hlt Hq; cbn [d_loop].
  - destruct ds, qold; try done. exists r, []. rewrite !app_nil_r. by repeat split.
  - destruct ds as [|d ds]; [done|]. destruct qold as [|q0 qold]; [done|].
    destruct r as [|u0 w]; [cbn in *; lia|]. apply Forall_cons_iff in Hdd as [Hd Hdd].
    destruct (d_step_spec n pre u0 (w ++ [d]) (ds ++ post) vpre v1 v2 vr vpost vo)
      as (w' & Hs & Hlw & Hdw & HQ & Hwv); [|done|done| |done|done| |].
    { rewrite length_app. cbn in *. lia. }
    { apply Forall_cons_iff in Hdr as [? Hdr]. constructor; [done|]. apply Forall_app.
      split; [done|]. constructor; [done|constructor]. }
    { change (u0 :: w ++ [d]) with ((u0 :: w) ++ [d]). rewrite dval_snoc. unfold is_u16, B in *. lia. }
    change (u0 :: w ++ [d]) with ((u0 :: w) ++ [d]) in *.
    replace (pre ++ (u0 :: w) ++ (d :: ds) ++ post) with (pre ++ u0 :: (w ++ [d]) ++ ds ++ post)
      by (cbn; by rewrite <-app_assoc).
    rewrite Hs. cbn [mbind option_bind app]. rewrite wr_mid by done. cbn [mbind option_bind].
    set (Q := dval _ / dval _) in *. set (vd := v1 :: v2 :: vr) in *.
    assert (HVpos : 0 < dval vd).
    { pose proof (dval_range _ Hdr). lia. }
    destruct (IH n (pre ++ [0]) w' ds post vpre v1 v2 vr vpost vo (qpre ++ [Q]) qold qpost)
      as (r' & qs & Hl & Hlr & Hlq & Hdr' & Hdq & Hlt' & Hval);
      [done|by injection Hds|done|done|done|done|done|done| |by injection Hq|].
    { fold vd. rewrite Hwv. by apply Z.mod_pos_bound. }
    fold vd in Hl, Hlt', Hval. rewrite !length_app in Hl. cbn [length] in Hl. rewrite !Nat.add_1_r, <-!app_assoc in Hl.
    cbn [app] in Hl. exists r', (Q :: qs). cbn [replicate app]. split; [exact Hl|].
    split; [done|]. split; [cbn; lia|]. split; [done|]. split; [by constructor|]. split; [done|].
    replace (u0 :: w ++ d :: ds) with (((u0 :: w) ++ [d]) ++ ds) by by rewrite <-app_assoc.
    rewrite dval_app.
    rewrite dval_app in Hval. rewrite dval_cons, Hlq.
    replace (length ds) with k in * by (cbn in Hds; lia).
    rewrite Hwv in Hval. pose proof (Z.div_mod (dval ((u0 :: w) ++ [d])) (dval vd) ltac:(lia)) as Hdm.
    fold Q in Hdm. nia.
Qed.

Lemma clear_q_spec k q : (k ≤ length q)%nat → clear_q k q = Some (replicate k 0 ++ drop k q).
Proof.
  revert q. induction k as [|k IH]; intros q Hk; cbn [clear_q]; [done|].
  unfold wr. rewrite decide_True by lia. cbn [mbind option_bind].
  rewrite IH by (rewrite length_insert; lia). f_equal.
  destruct (lookup_lt_is_Some_2 q k Hk) as [x Hx].
  rewrite (drop_S _ 0 k) by (apply list_lookup_insert_eq; lia).
  rewrite drop_insert_lt by lia. change (0 :: drop (S k) q) with ([0] ++ drop (S k) q).
  rewrite app_assoc. by rewrite <-replicate_S_end.
Qed.

(** The dividend is not smaller than the divisor, so its leading zeros leave
    at least [n] digits. *)
Lemma skip_u_spec m : ∀ uo us,
  length us = S m → dval us ≠ 0 → digits us →
  ∃ k x us', (k ≤ m)%nat ∧ us = replicate k 0 ++ x :: us' ∧ x ≠ 0 ∧
    ∀ pre post, length pre = S uo →
      skip_u m (pre ++ us ++ post) uo = Some ((m - k)%nat, (uo + k)%nat).
Proof.
  induction m as [|m IH]; intros uo us Hl Hv Hd; (destruct us as [|x us]; [done|]).
  - destruct us; [|done]. exists 0%nat, x, []. split; [lia|]. split; [done|].
    assert (Hx : x ≠ 0) by (intros ->; by apply Hv). split; [done|].
    intros pre post Hp. cbn [skip_u app]. rewrite lookup_mid by lia. cbn [mbind option_bind].
    rewrite (proj2 (Z.eqb_neq x 0)) by done. f_equal. f_equal; lia.
  - destruct (decide (x = 0)) as [->|Hx].
    + apply Forall_cons_iff in Hd as [_ Hd].
      destruct (IH (uo + 1)%nat us) as (k & y & us' & Hk & -> & Hy & Hs);
        [by injection Hl|by rewrite dval_cons, Z.mul_0_l in Hv|done|].
      exists (S k), y, us'. split; [lia|]. split; [done|]. split; [done|].
      intros pre post Hp. cbn [skip_u]. cbn [app]. rewrite lookup_mid by lia.
      cbn [mbind option_bind Z.eqb]. specialize (Hs (pre ++ [0]) post).
      rewrite <-app_assoc in Hs. cbn [app] in Hs. rewrite Hs by (rewrite length_app; cbn; lia).
      f_equal. f_equal; lia.
    + exists 0%nat, x, us. split; [lia|]. split; [done|]. split; [done|].
      intros pre post Hp. cbn [skip_u app]. rewrite lookup_mid by lia. cbn [mbind option_bind].
      rewrite (proj2 (Z.eqb_neq x 0)) by done. f_equal. f_equal; lia.
Qed.

(** The shifts that normalize, when nothing falls out on the left. *)
Lemma shl_maybe pre w post o k d :
  length pre = o → length w = S k → digits w → 0 ≤ d < 16 →
  default 0 (head w) * 2 ^ d < B →
  ∃ w', (if 0 <? d then shl (pre ++ w ++ post) o k d else Some (pre ++ w ++ post)) =
          Some (pre ++ w' ++ post) ∧ length w' = S k ∧ digits w' ∧ dval w' = dval w * 2 ^ d.
Proof.
  intros Ho Hw Hd Hs Hh. destruct (Z.ltb_spec 0 d) as [Hpos|Hz].
  - destruct (shl_spec k pre w post o d Ho Hw Hd ltac:(lia)) as (w' & He & Hl & Hd' & Hv).
    exists w'. split; [done|]. split; [done|]. split; [done|].
    destruct w as [|x w]; [done|]. apply Forall_cons_iff in Hd as [Hx _].
    cbn [head default from_option id] in *. unfold is_u16 in Hx.
    rewrite Z.div_small in Hv by (split; [|done]; apply Z.mul_nonneg_nonneg; lia). lia.
  - assert (d = 0) as -> by lia. exists w. rewrite Z.pow_0_r, Z.mul_1_r. done.
Qed.

Lemma unshift_maybe n pre r post o d :
  length pre = o → length r = n → digits r → 0 ≤ d < 16 →
  ∃ r', (if d =? 0 then Some (pre ++ 0 :: r ++ post) else unshift n (pre ++ 0 :: r ++ post) o d) =
          Some (pre ++ 0 :: r' ++ post) ∧ length r' = n ∧ digits r' ∧ dval r' = dval r / 2 ^ d.
Proof.
  intros Ho Hr Hd Hs. destruct (Z.eqb_spec d 0) as [->|Hne].
  - exists r. by rewrite Z.pow_0_r, Z.div_1_r.
  - destruct (unshift_spec n pre 0 r post o d) as (r' & He & Hl & Hd' & Hv);
      [done|done|by split|done|lia|]. exists r'. split; [done|]. split; [done|]. split; [done|].
    rewrite Z.div_0_l, dval_cons, !Z.mul_0_l, Z.add_0_l, Z.add_0_r in Hv by lia. done.
Qed.

Lemma scaled_lt T V P P' p : 0 < p → 0 < P → T < P * P' → P' ≤ V → T * p < V * p * P.
Proof.
  intros Hp HP HT HV. assert (P * P' ≤ P * V) by (apply Z.mul_le_mono_nonneg_l; lia).
  assert (T * p < P * V * p) by (apply Z.mul_lt_mono_pos_r; lia). lia.
Qed.

Lemma zeros_digits n : digits (replicate n 0).
Proof. apply Forall_replicate. by split. Qed.

Lemma head_zeros n (l : list Z) : head (replicate n 0 ++ 0 :: l) = Some 0.
Proof. by destruct n. Qed.

(** The dividend without its leading zeros. *)
Lemma leading_zeros n us :
  (2 ≤ n ≤ 4)%nat → length us = 4%nat → digits us → B ^ Z.of_nat (n - 1) ≤ dval us →
  ∃ k m T, (k + m + n = 4)%nat ∧ 0 :: us = replicate k 0 ++ 0 :: T ∧ length T = (m + n)%nat ∧
    digits T ∧ dval T = dval us ∧ skip_u (4 - n) (0 :: us) 0 = Some (m, k).
Proof.
  intros Hn Hl Hd Hlow. rewrite <-(take_drop (S (4 - n)) us) in Hd, Hlow.
  set (us1 := take (S (4 - n)) us) in *. set (us2 := drop (S (4 - n)) us) in *.
  apply Forall_app in Hd as [Hd1 Hd2].
  assert (Hl2 : length us2 = (n - 1)%nat) by (unfold us2; rewrite length_drop; lia).
  pose proof (dval_range us2 Hd2) as Hr2. rewrite Hl2 in Hr2.
  destruct (skip_u_spec (4 - n) 0 us1) as (k & x & us' & Hk & Hus1 & _ & Hskip);
    [unfold us1; rewrite length_take; lia| |done|].
  { intros H0. rewrite dval_app, H0, Z.mul_0_l in Hlow. lia. }
  assert (Hus : us = replicate k 0 ++ x :: us' ++ us2).
  { rewrite <-(take_drop (S (4 - n)) us). fold us1 us2. by rewrite Hus1, <-app_assoc. }
  exists k, (4 - n - k)%nat, (x :: us' ++ us2). split; [lia|].
  split; [rewrite Hus; change (0 :: replicate k 0 ++ x :: us' ++ us2)
            with (replicate (S k) 0 ++ x :: us' ++ us2); by rewrite replicate_S_end, <-app_assoc|].
  split; [apply (f_equal length) in Hus; rewrite length_app, length_replicate in Hus; lia|].
  split; [change (digits ((x :: us') ++ us2)); apply Forall_app; split; [|done];
          rewrite Hus1 in Hd1; by apply Forall_app in Hd1 as [_ Hd1]|].
  split; [rewrite Hus; symmetry; apply dval_zeros|].
  specialize (Hskip [0] us2 eq_refl). unfold us1, us2 in Hskip. by rewrite take_drop in Hskip.
Qed.

Lemma normalized_head x t v1 t' d :
  length t' = length t → digits (x :: t) → digits (v1 :: t') → 0 ≤ d →
  dval (v1 :: t') = dval (x :: t) * 2 ^ d → B / 2 ≤ x * 2 ^ d → B / 2 ≤ v1.
Proof.
  intros Hl Hd Hd' Hdn He Hx. rewrite !dval_cons, Hl in He.
  apply Forall_cons_iff in Hd as [_ Hd]. apply Forall_cons_iff in Hd' as [_ Hd'].
  pose proof (dval_range _ Hd). pose proof (dval_range _ Hd') as Hr'. rewrite Hl in Hr'.
  assert (Hp : 0 < 2 ^ d) by lia. pose proof (pow_B_pos (length t)) as HP.
  set (P := B ^ Z.of_nat (length t)) in *. change (B / 2) with 32768 in *.
  assert (0 ≤ dval t * 2 ^ d) by (apply Z.mul_nonneg_nonneg; lia).
  assert (Hlt : 32768 * P < (v1 + 1) * P); [|apply Z.mul_lt_mono_pos_r in Hlt; lia].
  assert (32768 * P ≤ x * 2 ^ d * P) by (apply Z.mul_le_mono_nonneg_r; lia). lia.
Qed.

(** The loop and what follows it, on normalized digits. *)
Lemma d_run stack k m n w vpre v1 v2 vr vo d :
  let vd := v1 :: v2 :: vr in
  (k + m + n = 4)%nat → length w = S (m + n) → digits w → length vd = n → digits vd →
  length vpre = S vo → B / 2 ≤ v1 → 0 ≤ d < 16 → dval w < dval vd * B ^ Z.of_nat (m + 1) →
  ('(u, q) ← d_loop (m + 1) n (vpre ++ vd) vo v1 v2 (replicate k 0 ++ w) k
               (replicate (4 - m) 0 ++ drop (4 - m) (replicate 5 stack)) (4 - m);
   u ← (if d =? 0 then Some u else unshift n u (k + m) d);
   rem ← from_digits u; quo ← from_digits q; Some (quo, rem)) =
  Some (dval w / dval vd, (dval w mod dval vd) / 2 ^ d).
Proof.
  intros vd Hk Hwl Hwd Hvl Hvd Hvp Hnorm Hd Hlt. rewrite <-(take_drop n w) in Hwd, Hlt |- *.
  set (r := take n w) in *. set (ds := drop n w) in *.
  assert (Hrl : length r = n) by (unfold r; rewrite length_take; lia).
  assert (Hdsl : length ds = (m + 1)%nat) by (unfold ds; rewrite length_drop; lia).
  apply Forall_app in Hwd as [Hrd Hdsd]. clearbody r ds. clear w Hwl.
  assert (Hrv : dval r < dval vd).
  { rewrite dval_app, Hdsl in Hlt. pose proof (dval_range _ Hdsd).
    apply (Z.mul_lt_mono_pos_r (B ^ Z.of_nat (m + 1))); [apply pow_B_pos|lia]. }
  destruct (d_loop_spec (m + 1) n (replicate k 0) r ds [] vpre v1 v2 vr [] vo (replicate (4 - m) 0)
    (drop (4 - m) (replicate 5 stack)) []) as (r' & qs & Hloop & Hr'l & Hql & Hr'd & Hqd & Hlt' & Hval);
    [done..|rewrite length_drop, length_replicate; lia|].
  rewrite !length_replicate, !app_nil_r in Hloop. fold vd in Hloop, Hlt', Hval.
  rewrite Hloop. cbn [mbind option_bind].
  replace (replicate k 0 ++ replicate (m + 1) 0 ++ r') with (replicate (k + m) 0 ++ 0 :: r' ++ [])
    by (by rewrite app_nil_r, replicate_add, Nat.add_1_r, replicate_S_end, <-!app_assoc).
  destruct (unshift_maybe n (replicate (k + m) 0) r' [] (k + m) d) as (r2 & -> & Hr2l & Hr2d & Hr2v);
    [apply length_replicate|done|done|done|]. cbn [mbind option_bind]. rewrite app_nil_r.
  pose proof (dval_range _ Hr'd) as Hr'r.
  rewrite (from_digits_val (replicate (k + m) 0 ++ 0 :: r2)), (from_digits_val (replicate (4 - m) 0 ++ qs)).
  - cbn [mbind option_bind]. change (0 :: r2) with (replicate 1 0 ++ r2).
    rewrite !dval_zeros, Hr2v. f_equal. f_equal.
    + apply (Z.div_unique_pos _ _ _ (dval r')); lia.
    + f_equal. apply (Z.mod_unique_pos _ _ (dval qs)); lia.
  - rewrite length_app, length_replicate. lia.
  - apply Forall_app. split; [apply zeros_digits|done].
  - destruct (4 - m)%nat eqn:Hm; [cbn in Hvl; lia|done].
  - rewrite length_app, length_replicate. cbn [length]. lia.
  - apply Forall_app. split; [apply zeros_digits|]. constructor; [by split|done].
  - apply head_zeros.
Qed.

Lemma scaled_div U V p :
  0 < p → 0 < V → (U * p) / (V * p) = U / V ∧ ((U * p) mod (V * p)) / p = U mod V.
Proof.
  intros Hp HV. split; [apply Z.div_mul_cancel_r; lia|].
  rewrite Z.mul_mod_distr_r by lia. by rewrite Z.div_mul by lia.
Qed.

Lemma program_d_spec stack us vpre x y vr vo :
  let vd := x :: y :: vr in
  length us = 4%nat → digits us → (vo + length vd = 4)%nat → length vpre = S vo → digits vd →
  x ≠ 0 → dval vd ≤ dval us →
  program_d stack (0 :: us) (vpre ++ vd) (length vd) vo = Some (dval us / dval vd, dval us mod dval vd).
Proof.
  intros vd Hus Hdu Hn Hvp Hdv Hx Hle. remember (length vd) as n eqn:Evd.
  assert (Hn2 : (2 ≤ n)%nat) by (rewrite Evd; cbn; lia).
  assert (Hxr : 1 ≤ x < B) by (apply Forall_cons_iff in Hdv as [[? ?] _]; unfold B; lia).
  assert (HVlow : B ^ Z.of_nat (n - 1) ≤ dval vd).
  { unfold vd. rewrite dval_cons. pose proof Hdv as Hdv'. apply Forall_cons_iff in Hdv' as [_ Hdv'].
    pose proof (dval_range _ Hdv') as Hr. cbn in Evd. cbn [length] in *.
    replace (n - 1)%nat with (S (length vr)) by lia. pose proof (pow_B_pos (S (length vr))). nia. }
  destruct (leading_zeros n us) as (k & m & T & Hk & HT & HTl & HTd & HTv & Hskip);
    [lia|done|done|lia|].
  unfold program_d. rewrite Hskip. cbn [mbind option_bind].
  rewrite clear_q_spec by (rewrite length_replicate; lia). cbn [mbind option_bind].
  assert (Hvx : (vpre ++ vd) !! (vo + 1)%nat = Some x) by (apply lookup_mid; lia).
  rewrite Hvx. cbn [mbind option_bind].
  destruct (norm_shift_spec 16 x) as (d & -> & Hdr & Hdn); [lia| |].
  { change (B / 2) with 32768. change (2 ^ Z.of_nat 16) with 65536. lia. }
  cbn [mbind option_bind].
  assert (Hd16 : 0 ≤ d < 16).
  { split; [lia|]. destruct (decide (d = 16)) as [->|]; [|lia]. unfold B in *. lia. }
  rewrite HT, <-(app_nil_r (0 :: T)), <-(app_nil_r vd).
  destruct (shl_maybe (replicate k 0) (0 :: T) [] k (m + n) d) as (w & -> & Hwl & Hwd & Hwv);
    [apply length_replicate|cbn; lia|constructor; [by split|done]|done|done|].
  cbn [mbind option_bind].
  destruct (shl_maybe vpre vd [] (vo + 1) (n - 1) d) as (vd' & -> & Hvl & Hvd & Hvv);
    [lia|lia|done|done|cbn; lia|].
  cbn [mbind option_bind]. rewrite !app_nil_r in *. destruct vd' as [|v1 [|v2 vr']]; [cbn in Hvl; lia..|].
  set (vd' := v1 :: v2 :: vr') in *.
  assert (Hvx1 : (vpre ++ vd') !! (vo + 1)%nat = Some v1) by (apply lookup_mid; lia).
  assert (Hvx2 : (vpre ++ vd') !! (vo + 2)%nat = Some v2) by (apply lookup_next; lia).
  rewrite Hvx1. cbn [mbind option_bind]. rewrite Hvx2. cbn [mbind option_bind].
  assert (Hp : 0 < 2 ^ d) by lia.
  rewrite dval_cons, Z.mul_0_l, Z.add_0_l, HTv in Hwv.
  etransitivity; [apply (d_run stack k m n w vpre v1 v2 vr' vo d)|]; fold vd'; try done; try lia.
  - apply (normalized_head x (y :: vr) v1 (v2 :: vr') d); [cbn in *; lia|done|done|lia|done|lia].
  - rewrite Hwv, Hvv. pose proof (dval_range _ HTd) as Hr. rewrite HTl, HTv in Hr.
    replace (m + n)%nat with (m + 1 + (n - 1))%nat in Hr by lia.
    rewrite Nat2Z.inj_add, Z.pow_add_r in Hr by lia.
    apply (scaled_lt _ _ _ (B ^ Z.of_nat (n - 1))); [done|apply pow_B_pos|apply Hr|done].
  - rewrite Hwv, Hvv. pose proof (pow_B_pos (n - 1)).
    destruct (scaled_div (dval us) (dval vd) (2 ^ d)) as [-> ->]; [done|lia|done].
Qed.

(** ** Dividing by one digit *)

Lemma short_digit r x t :
  is_u16 t → t ≠ 0 → 0 ≤ r < t → is_u16 x →
  ∃ q r', udiv (COMBINE r x) t = Some q ∧ umod (COMBINE r x) t = Some r' ∧ is_u16 q ∧ 0 ≤ r' < t ∧
    r * B + x = q * t + r'.
Proof.
  intros Ht Hn Hr Hx. unfold is_u16 in *. rewrite COMBINE_val by (unfold is_u16; lia).
  unfold udiv, umod. rewrite (proj2 (Z.eqb_neq t 0)) by done. eexists _, _. split; [done|].
  split; [done|]. pose proof (Z.div_mod (r * B + x) t Hn) as Hd.
  pose proof (Z.mod_pos_bound (r * B + x) t ltac:(lia)) as Hm. unfold B in *.
  split; [|split; [done|lia]]. split; [apply Z.div_pos; lia|apply Z.div_lt_upper_bound; nia].
Qed.

Lemma short_div_spec u0 us t :
  length us = 4%nat → digits us → is_u16 t → t ≠ 0 →
  short_div (u0 :: us) t = Some (dval us / t, dval us mod t).
Proof.
  intros Hl Hd Ht Hn. destruct us as [|u1 [|u2 [|u3 [|u4 [|]]]]]; try discriminate.
  repeat (apply Forall_cons_iff in Hd as [? Hd]). unfold short_div. cbn [lookup list_lookup mbind option_bind].
  destruct (short_digit 0 u1 t Ht Hn) as (q1 & r1 & E1 & E1' & Hq1 & Hr1 & D1); [unfold is_u16 in *; lia|done|].
  replace (COMBINE 0 u1) with u1 in E1, E1' by (rewrite COMBINE_val; [lia|by split|done]).
  rewrite E1, E1'. cbn [mbind option_bind].
  destruct (short_digit r1 u2 t Ht Hn Hr1) as (q2 & r2 & -> & -> & Hq2 & Hr2 & D2); [done|]. cbn [mbind option_bind].
  destruct (short_digit r2 u3 t Ht Hn Hr2) as (q3 & r3 & -> & -> & Hq3 & Hr3 & D3); [done|]. cbn [mbind option_bind].
  destruct (short_digit r3 u4 t Ht Hn Hr3) as (q4 & r4 & -> & -> & Hq4 & Hr4 & D4); [done|]. cbn [mbind option_bind].
  rewrite !digit_small, !COMBINE_val by done. unfold uu.
  assert (He : dval [u1; u2; u3; u4] = ((q1 * B + q2) * 4294967296 + (q3 * B + q4)) * t + r4).
  { unfold dval, B in *. cbn. lia. }
  f_equal. f_equal.
  - apply (Z.div_unique_pos _ _ _ r4); lia.
  - apply (Z.mod_unique_pos _ _ ((q1 * B + q2) * 4294967296 + (q3 * B + q4))); lia.
Qed.

Lemma skip_v_spec stack us vs :
  length us = 4%nat → digits us → length vs = 4%nat → digits vs → dval vs ≠ 0 → dval vs ≤ dval us →
  skip_v stack 4 (0 :: us) (stack :: vs) 0 = Some (dval us / dval vs, dval us mod dval vs).
Proof.
  intros Hu Hdu Hv Hdv Hn Hle. destruct vs as [|v1 [|v2 [|v3 [|v4 [|]]]]]; try discriminate.
  assert (Hdrop : ∀ l, dval (0 :: l) = dval l) by (intros l; apply (dval_zeros 1)).
  cbn [skip_v lookup list_lookup mbind option_bind Nat.add Nat.eqb].
  destruct (Z.eqb_spec v1 0) as [->|H1].
  2: { apply (program_d_spec stack us [stack] v1 v2 [v3; v4] 0); try done. }
  rewrite Hdrop in *. apply Forall_cons_iff in Hdv as [_ Hdv].
  destruct (Z.eqb_spec v2 0) as [->|H2].
  2: { apply (program_d_spec stack us [stack; 0] v2 v3 [v4] 1); try done. }
  rewrite Hdrop in *. apply Forall_cons_iff in Hdv as [_ Hdv].
  destruct (Z.eqb_spec v3 0) as [->|H3].
  2: { apply (program_d_spec stack us [stack; 0; 0] v3 v4 [] 2); try done. }
  rewrite Hdrop in *. apply Forall_cons_iff in Hdv as [_ Hdv]. apply Forall_cons_iff in Hdv as [Hv4 _].
  change (dval [v4]) with v4 in *. by apply short_div_spec.
Qed.

Lemma qdivrem_spec stack a b :
  is_u64 a → is_u64 b → b ≠ 0 → __qdivrem stack a b = Some (a / b, a mod b).
Proof.
  intros Ha Hb Hn. unfold __qdivrem. rewrite (proj2 (Z.eqb_neq b 0)) by done.
  destruct (Z.ltb_spec a b) as [Hlt|Hge].
  { unfold is_u64 in *. by rewrite Z.div_small, Z.mod_small by lia. }
  destruct (to_digits_val 0 a Ha) as [Hda Hva], (to_digits_val stack b Hb) as [Hdb Hvb].
  pose proof (skip_v_spec stack (tail (to_digits 0 a)) (tail (to_digits stack b))) as Hs.
  rewrite Hva, Hvb in Hs. by apply Hs.
Qed.

(** ** Signed division *)

Lemma s64_abs a :
  is_u64 a →
  (if s64 a <? 0 then (u64 (- a), true) else (a, false)) = (Z.abs (s64 a), s64 a <? 0) ∧
  is_u64 (Z.abs (s64 a)) ∧ (a = 0 ↔ s64 a = 0).
Proof.
  unfold is_u64, s64, u64. intros Ha. destruct (Z.ltb_spec a 9223372036854775808).
  - rewrite (proj2 (Z.ltb_ge a 0)) by lia. split; [f_equal; lia|lia].
  - rewrite (proj2 (Z.ltb_lt _ 0)) by lia. split; [f_equal; divmod|lia].
Qed.

Lemma divdi3_spec stack a b :
  is_u64 a → is_u64 b → b ≠ 0 → __divdi3 stack a b = Some (u64 (Z.quot (s64 a) (s64 b))).
Proof.
  intros Ha Hb Hn. destruct (s64_abs a Ha) as (Ea & Ra & _), (s64_abs b Hb) as (Eb & Rb & Zb).
  unfold __divdi3. rewrite Ea, Eb, qdivrem_spec by (done || lia). cbn [mbind option_bind fst].
  assert (Hq : is_u64 (Z.abs (s64 a) / Z.abs (s64 b))).
  { unfold is_u64 in *. split; [apply Z.div_pos; lia|]. apply Z.div_lt_upper_bound; nia. }
  rewrite Z.quot_div by lia. f_equal.
  destruct (Z.ltb_spec (s64 a) 0), (Z.ltb_spec (s64 b) 0); cbn [xorb];
    rewrite ?(Z.sgn_neg (s64 a)), ?(Z.sgn_neg (s64 b)), ?(Z.sgn_pos (s64 b)) by lia.
  - rewrite <-(u64_small _ Hq) at 1. f_equal. lia.
  - f_equal.
  - destruct (decide (s64 a = 0)) as [->|]; [by rewrite Z.div_0_l by lia|].
    rewrite Z.sgn_pos by lia. done.
  - destruct (decide (s64 a = 0)) as [->|]; [by rewrite Z.div_0_l by lia|].
    rewrite Z.sgn_pos, !Z.mul_1_l by lia. by rewrite u64_small.
Qed.

Lemma moddi3_spec stack a b :
  is_u64 a → is_u64 b → b ≠ 0 → __moddi3 stack a b = Some (u64 (Z.rem (s64 a) (s64 b))).
Proof.
  intros Ha Hb Hn. destruct (s64_abs a Ha) as (Ea & Ra & _), (s64_abs b Hb) as (Eb & Rb & Zb).
  unfold __moddi3. rewrite Ea.
  replace (if s64 b <? 0 then u64 (- b) else b) with (Z.abs (s64 b))
    by (destruct (s64 b <? 0); congruence).
  rewrite qdivrem_spec by (done || lia). cbn [mbind option_bind snd].
  pose proof (Z.mod_pos_bound (Z.abs (s64 a)) (Z.abs (s64 b)) ltac:(lia)) as Hm.
  assert (Hq : is_u64 (Z.abs (s64 a) mod Z.abs (s64 b))) by (unfold is_u64 in *; lia).
  rewrite Z.rem_mod by lia. f_equal. destruct (Z.ltb_spec (s64 a) 0).
  - rewrite Z.sgn_neg by lia. done.
  - destruct (decide (s64 a = 0)) as [->|]; [by rewrite Z.mod_0_l by lia|].
    rewrite Z.sgn_pos, Z.mul_1_l by lia. by rewrite u64_small.
Qed.

(** C16: Knuth's Algorithm D as the code runs it, with its loops, its pointers
    into arrays of digits, and the correction of a trial quotient that was one
    too big, returns quotient and remainder for every dividend and every
    divisor other than 0: no access is out of bounds and no loop runs out of
    iterations. *)
Theorem qdivrem_correct stack a b :
  is_u64 a → is_u64 b → b ≠ 0 → __qdivrem stack a b = Some (a / b, a mod b).
Proof. apply qdivrem_spec. Qed.

(** The second division needs the step that adds back. *)
Lemma qdivrem_correct_witness :
  __qdivrem 7 0xfedcba9876543210 0x123456789 =
    Some (0xfedcba9876543210 / 0x123456789, 0xfedcba9876543210 mod 0x123456789) ∧
  __qdivrem 7 0x7fff800000000000 0x800000000001 =
    Some (0x7fff800000000000 / 0x800000000001, 0x7fff800000000000 mod 0x800000000001).
Proof. split; apply qdivrem_correct; done. Defined.

(** C17: the divisions that gcc calls for [long long]: unsigned division and
    remainder, and signed division and remainder, which round towards 0 as C
    requires and wrap for the one quotient that does not fit. *)
Theorem longlong_division stack a b :
  is_u64 a → is_u64 b → b ≠ 0 →
  __udivdi3 stack a b = Some (a / b) ∧ __umoddi3 stack a b = Some (a mod b) ∧
  __divdi3 stack a b = Some (u64 (Z.quot (s64 a) (s64 b))) ∧
  __moddi3 stack a b = Some (u64 (Z.rem (s64 a) (s64 b))).
Proof.
  intros Ha Hb Hn. unfold __udivdi3, __umoddi3. rewrite qdivrem_spec by done.
  auto using divdi3_spec, moddi3_spec.
Qed.

Lemma longlong_division_witness :
  let a := u64 (-7) in
  __udivdi3 0 a 2 = Some (a / 2) ∧ __umoddi3 0 a 2 = Some (a mod 2) ∧
  __divdi3 0 a 2 = Some (u64 (Z.quot (s64 a) (s64 2))) ∧
  __moddi3 0 a 2 = Some (u64 (Z.rem (s64 a) (s64 2))).
Proof. apply longlong_division; done. Defined.
