(* ===== verification/Uio.v ===== *)
(** * I/O requests

    kern/lib/uio.c and struct uio of kern/include/uio.h.  A kernel buffer that
    C passes by address ([ptr]) is passed by value here and handed back
    changed: it is always an object of its own, apart from the memory the
    [uio] describes.  That memory (the blocks [uio_iov] points into) is the
    shared one of [vmstate]. *)

From S2P Require Import Prelude CopyInOut.
Open Scope Z_scope.

Inductive uio_rw_t := UIO_READ | UIO_WRITE.
Inductive uio_seg := UIO_USERISPACE | UIO_USERSPACE | UIO_SYSSPACE.

#[global] Instance uio_rw_eq_dec : EqDecision uio_rw_t.
Proof. solve_decision. Defined.
#[global] Instance uio_seg_eq_dec : EqDecision uio_seg.
Proof. solve_decision. Defined.

(** [struct iovec]; [iov_base] is [iov_kbase] or [iov_ubase]. *)
Record iovec := Iovec { iov_base : Z; iov_len : Z }.

(** [struct uio]; [uio_iov] is the array from the current element on, and
    [uio_space] is 0 for the null address space. *)
Record uio := Uio {
  uio_iov : list iovec;
  uio_iovcnt : Z;
  uio_offset : Z;
  uio_resid : Z;
  uio_segflg : uio_seg;
  uio_rw : uio_rw_t;
  uio_space : Z;
}.

(** The request, the memory, and the current address space
    ([proc_getas()]). *)
Record uiost := UioSt { us_uio : uio; us_vm : vmstate; us_as : Z }.

Definition set_uio (u : uio) (s : uiost) : uiost := UioSt u (us_vm s) (us_as s).

Definition on_vm {A} (m : M vmstate A) : M uiost A :=
  zoom us_vm (λ vm s, UioSt (us_uio s) vm (us_as s)) m.

(** [memmove] from and to kernel memory; an address that is no kernel memory
    is undefined. *)
Definition kmem_read (a n : Z) : M vmstate (list Z) :=
  s <- get ;; deref (read_bytes (kmem s) a (Z.to_nat n)).

Definition kmem_write (a : Z) (l : list Z) : M vmstate unit :=
  s <- get ;;
  match read_bytes (kmem s) a (length l) with
  | Some _ => put (VmState (write_bytes (kmem s) a l) (umem s) (tm_badfaultfunc s))
  | None => undef
  end.

(** The [switch] of [uiomove]: moves a piece of the kernel buffer to or from
    the block at [base]; the value is the piece after the move. *)
Definition uio_transfer (seg : uio_seg) (rw : uio_rw_t) (base : Z)
    (piece : list Z) : M vmstate (list Z) :=
  match seg with
  | UIO_SYSSPACE =>
      match rw with
      | UIO_READ => kmem_write base piece ;;; ret piece
      | UIO_WRITE => kmem_read base (Z.of_nat (length piece))
      end
  | UIO_USERSPACE | UIO_USERISPACE =>
      match rw with
      | UIO_READ => copyout piece base ;;; ret piece
      | UIO_WRITE => copyin base (Z.of_nat (length piece))
      end
  end.

(** The bookkeeping at the end of an iteration that moved [size] bytes. *)
Definition uio_advance (size : Z) (u : uio) : uio :=
  Uio (match uio_iov u with
       | iov :: rest => Iovec (iov_base iov + size) (iov_len iov - size) :: rest
       | [] => []
       end)
    (uio_iovcnt u) (uio_offset u + size) (u32 (uio_resid u - size))
    (uio_segflg u) (uio_rw u) (uio_space u).

(** [uio->uio_iov++; uio->uio_iovcnt--;] *)
Definition uio_next_iov (u : uio) : uio :=
  Uio (tail (uio_iov u)) (u32 (uio_iovcnt u - 1)) (uio_offset u) (uio_resid u)
    (uio_segflg u) (uio_rw u) (uio_space u).

(** The loop of [uiomove]; [buf] is what is left of the kernel buffer. *)
Fixpoint uiomove_loop (fuel : nat) (buf : list Z) : M uiost (list Z) :=
  s <- get ;;
  let u := us_uio s in
  let n := Z.of_nat (length buf) in
  if (0 <? n) && (0 <? uio_resid u) then
    match fuel with
    | O => loops
    | S fuel' =>
        iov <- deref (head (uio_iov u)) ;;
        let size := if n <? iov_len iov then n else iov_len iov in
        if size =? 0 then
          let u' := uio_next_iov u in
          if uio_iovcnt u' =? 0 then panic
          else modify (set_uio u') ;;; uiomove_loop fuel' buf
        else
          piece <- on_vm (uio_transfer (uio_segflg u) (uio_rw u) (iov_base iov)
                            (take (Z.to_nat size) buf)) ;;
          modify (λ s, set_uio (uio_advance size (us_uio s)) s) ;;;
          rest <- uiomove_loop fuel' (drop (Z.to_nat size) buf) ;;
          ret (piece ++ rest)
    end
  else ret buf.

(** [uiomove(ptr, n, uio)], [n] the length of [buf].  Every iteration uses up
    a byte of the buffer or an element of [uio_iov]. *)
Definition uiomove (buf : list Z) : M uiost (list Z) :=
  s <- get ;;
  let u := us_uio s in
  KASSERT (if decide (uio_segflg u = UIO_SYSSPACE) then uio_space u =? 0
           else uio_space u =? us_as s) ;;;
  uiomove_loop (length buf + length (uio_iov u)) buf.

(** The loop of [uiomovezeros], with its 16-byte static buffer. *)
Fixpoint uiomovezeros_loop (fuel : nat) (n : Z) : M uiost unit :=
  if 0 <? n then
    match fuel with
    | O => loops
    | S fuel' =>
        let amt := if n <? 16 then n else 16 in
        uiomove (replicate (Z.to_nat amt) 0) ;;;
        uiomovezeros_loop fuel' (n - amt)
    end
  else ret tt.

Definition uiomovezeros (n : Z) : M uiost unit :=
  s <- get ;;
  KASSERT (bool_decide (uio_rw (us_uio s) = UIO_READ)) ;;;
  uiomovezeros_loop (Z.to_nat n) n.

(** [uio_kinit(iov, u, kbuf, len, pos, rw)] *)
Definition uio_kinit (kbuf len pos : Z) (rw : uio_rw_t) : uio :=
  Uio [Iovec kbuf len] 1 pos len UIO_SYSSPACE rw 0.

(** ** A request as a queue of byte addresses *)

Definition iov_addrs (iov : iovec) : list Z := seqZ (iov_base iov) (iov_len iov).

(** The addresses the request will go through, in order. *)
Definition addrs (u : uio) : list Z := mjoin (iov_addrs <$> uio_iov u).

Record uio_ok (u : uio) : Prop := UioOk {
  uio_lens : Forall (λ v, 0 ≤ iov_len v) (uio_iov u);
  uio_cnt : uio_iovcnt u = Z.of_nat (length (uio_iov u));
  uio_cnt32 : is_u32 (uio_iovcnt u);
  uio_res32 : is_u32 (uio_resid u);
}.

(** The memory a segment flag selects. *)
Definition seg_mem (seg : uio_seg) (vm : vmstate) : gmap Z Z :=
  match seg with UIO_SYSSPACE => kmem vm | _ => umem vm end.

Definition set_seg_mem (seg : uio_seg) (m : gmap Z Z) (vm : vmstate) : vmstate :=
  match seg with
  | UIO_SYSSPACE => VmState m (umem vm) (tm_badfaultfunc vm)
  | _ => VmState (kmem vm) m (tm_badfaultfunc vm)
  end.

(** An address the segment may be accessed at without a fault. *)
Definition accessible (seg : uio_seg) (m : gmap Z Z) (a : Z) : Prop :=
  is_Some (m !! a) ∧ (seg ≠ UIO_SYSSPACE → 0 ≤ a < USERSPACETOP).

(** Storing bytes one after the other. *)
Definition store_at (m : gmap Z Z) (l bytes : list Z) : gmap Z Z :=
  foldl (λ m p, <[p.1 := p.2]> m) m (zip l bytes).

(** [buf] is what the memory holds at the addresses [l]. *)
Definition holds (m : gmap Z Z) (l buf : list Z) : Prop :=
  Forall2 (λ a b, m !! a = Some b) l buf.

(** [u'] is [u] after [k] bytes went through it. *)
Record moved (k : Z) (u u' : uio) : Prop := Moved {
  mv_ok : uio_ok u';
  mv_addrs : addrs u' = drop (Z.to_nat k) (addrs u);
  mv_off : uio_offset u' = uio_offset u + k;
  mv_resid : uio_resid u' = uio_resid u - k;
  mv_seg : uio_segflg u' = uio_segflg u;
  mv_rw : uio_rw u' = uio_rw u;
  mv_space : uio_space u' = uio_space u;
}.

(** What a transfer of the whole of [buf] does: [buf'] is the buffer after
    it, [vm'] the memory. *)
Definition transferred (u : uio) (vm : vmstate) (buf buf' : list Z)
    (vm' : vmstate) : Prop :=
  let m := seg_mem (uio_segflg u) vm in
  let l := take (length buf) (addrs u) in
  match uio_rw u with
  | UIO_READ => buf' = buf ∧ vm' = set_seg_mem (uio_segflg u) (store_at m l buf) vm
  | UIO_WRITE => vm' = vm ∧ holds m l buf'
  end.

(** ** Memory lemmas *)

Lemma seg_mem_set seg m vm : seg_mem seg (set_seg_mem seg m vm) = m.
Proof. by destruct seg. Qed.

Lemma set_seg_mem_id seg vm : set_seg_mem seg (seg_mem seg vm) vm = vm.
Proof. by destruct seg, vm. Qed.

Lemma set_seg_mem_twice seg m m' vm :
  set_seg_mem seg m (set_seg_mem seg m' vm) = set_seg_mem seg m vm.
Proof. by destruct seg. Qed.

Lemma set_seg_mem_badfault seg m vm :
  tm_badfaultfunc (set_seg_mem seg m vm) = tm_badfaultfunc vm.
Proof. by destruct seg. Qed.

Lemma store_at_app m l1 l2 b1 b2 :
  length l1 = length b1 →
  store_at m (l1 ++ l2) (b1 ++ b2) = store_at (store_at m l1 b1) l2 b2.
Proof.
  intros Hl. unfold store_at. rewrite zip_with_app by done. apply foldl_app.
Qed.

Lemma store_at_seqZ m a l :
  store_at m (seqZ a (Z.of_nat (length l))) l = write_bytes m a l.
Proof.
  revert m a. induction l as [|b l IH]; intros m a; [done|].
  cbn [length]. rewrite seqZ_cons by lia. cbn.
  replace (Z.pred _) with (Z.of_nat (length l)) by lia. apply IH.
Qed.

Lemma store_at_is_Some m l bytes a :
  is_Some (m !! a) → is_Some (store_at m l bytes !! a).
Proof.
  unfold store_at. revert m. induction (zip l bytes) as [|[x y] z IH]; [done|].
  intros m Hm. cbn. apply IH. destruct (decide (x = a)) as [->|].
  - rewrite lookup_insert_eq. by eauto.
  - by rewrite lookup_insert_ne.
Qed.

Lemma read_bytes_holds m a n l :
  read_bytes m a n = Some l → holds m (seqZ a (Z.of_nat n)) l.
Proof.
  revert a l. induction n as [|n IH]; intros a l Hl; cbn in Hl.
  - simplify_eq. constructor.
  - destruct (m !! a) as [b|] eqn:Ea; [|done].
    destruct (read_bytes m (a + 1) n) as [l'|] eqn:El; [|done]. simplify_eq.
    rewrite seqZ_cons by lia. constructor; [done|].
    replace (Z.pred _) with (Z.of_nat n) by lia. by apply IH.
Qed.

Lemma mapped_accessible seg m a n :
  (∀ x, a ≤ x < a + Z.of_nat n → accessible seg m x) → mapped m a n.
Proof. intros H x Hx. by apply H. Qed.

(** ** One piece *)

Lemma uio_transfer_ok seg rw base piece vm :
  let m := seg_mem seg vm in
  let n := Z.of_nat (length piece) in
  0 < n < 4294967296 → tm_badfaultfunc vm = false →
  (∀ a, base ≤ a < base + n → accessible seg m a) →
  ∃ piece', uio_transfer seg rw base piece vm =
    Ok piece' (match rw with
               | UIO_READ => set_seg_mem seg (write_bytes m base piece) vm
               | UIO_WRITE => vm end) ∧
    match rw with
    | UIO_READ => piece' = piece
    | UIO_WRITE => holds m (seqZ base n) piece'
    end.
Proof.
  intros m n Hn Hbf Hacc.
  pose proof (mapped_accessible seg m base (length piece) Hacc) as Hmap.
  destruct (proj2 (read_bytes_mapped m base (length piece)) Hmap) as [bs Hbs].
  destruct (decide (seg = UIO_SYSSPACE)) as [->|Huser].
  - destruct rw; unfold uio_transfer, kmem_write, kmem_read, bind, get, put.
    + cbn in m. subst m. rewrite Hbs. exists piece. done.
    + rewrite Nat2Z.id. cbn in m. subst m. rewrite Hbs. exists bs.
      split; [done|]. by apply read_bytes_holds.
  - assert (Hm : m = umem vm) by (unfold m; by destruct seg).
    assert (Hb : 0 ≤ base ∧ base + n ≤ USERSPACETOP).
    { pose proof (proj2 (Hacc base ltac:(lia)) Huser).
      pose proof (proj2 (Hacc (base + n - 1) ltac:(lia)) Huser). lia. }
    assert (Hu32 : is_u32 base) by (unfold is_u32, USERSPACETOP in *; lia).
    assert (Hvm : copied vm (umem vm) = vm)
      by (unfold copied; rewrite <-Hbf; by destruct vm).
    destruct rw.
    + assert (Ht : uio_transfer seg UIO_READ base piece =
                   (copyout piece base ;;; ret piece)) by (by destruct seg).
      rewrite Ht. unfold bind, ret.
      pose proof (copyout_spec base piece vm Hu32 Hn) as Hc.
      destruct (copyout piece base vm) as [? vm'|? vm'|?]; [| |done].
      * destruct Hc as (_ & _ & ->). exists piece. split; [|done].
        rewrite Hm. destruct seg; [| |done]; unfold copied, set_seg_mem; by rewrite Hbf.
      * rewrite Hm in Hmap. tauto.
    + assert (Ht : uio_transfer seg UIO_WRITE base piece = copyin base n)
        by (by destruct seg).
      rewrite Ht, copyin_spec by done. rewrite decide_True by lia.
      unfold n. rewrite Nat2Z.id, <-Hm, Hbs, Hm, Hvm. exists bs.
      split; [done|]. rewrite <-Hm. by apply read_bytes_holds.
Qed.

(** ** The loop *)

Lemma addrs_advance u iov rest size :
  uio_iov u = iov :: rest → 0 ≤ size ≤ iov_len iov →
  addrs u = seqZ (iov_base iov) size ++ addrs (uio_advance size u).
Proof.
  intros Hu Hs. unfold addrs, uio_advance. rewrite Hu. cbn.
  rewrite app_assoc. f_equal. unfold iov_addrs. cbn.
  rewrite <-seqZ_app by lia. f_equal. lia.
Qed.

Lemma uio_advance_ok u iov rest size :
  uio_ok u → uio_iov u = iov :: rest → 0 ≤ size ≤ iov_len iov →
  uio_ok (uio_advance size u).
Proof.
  intros [Hl Hc H32 Hr] Hu Hs. unfold uio_advance. rewrite Hu in *.
  apply Forall_cons_iff in Hl as [Hl1 Hl2]. split; cbn.
  - constructor; [cbn; lia|done].
  - done.
  - done.
  - apply u32_range.
Qed.

Lemma moved_trans j k u u1 u2 :
  0 ≤ j → 0 ≤ k → moved j u u1 → moved k u1 u2 → moved (j + k) u u2.
Proof.
  intros Hj Hk [] []. split; try congruence; try lia; try done.
  rewrite mv_addrs1, mv_addrs0, drop_drop. f_equal. lia.
Qed.

Lemma transferred_app u vm size piece piece' rest rest' vm1 vm2 u1 :
  (length piece = Z.to_nat size) → 0 ≤ size →
  addrs u = take (Z.to_nat size) (addrs u) ++ addrs u1 →
  (Z.to_nat size ≤ length (addrs u))%nat →
  uio_segflg u1 = uio_segflg u → uio_rw u1 = uio_rw u →
  transferred u vm piece piece' vm1 →
  transferred u1 vm1 rest rest' vm2 →
  transferred u vm (piece ++ rest) (piece' ++ rest') vm2.
Proof.
  intros Hp Hs Ha Hle Hseg Hrw. unfold transferred. rewrite Hseg, Hrw, Hp.
  rewrite length_app, Hp.
  assert (Htk : take (Z.to_nat size + length rest) (addrs u) =
                take (Z.to_nat size) (addrs u) ++ take (length rest) (addrs u1)).
  { rewrite Ha at 1. rewrite take_app, take_take.
    rewrite length_take, Nat.min_r by lia. f_equal. f_equal. lia. }
  rewrite Htk. destruct (uio_rw u).
  - intros [-> ->] [-> ->]. split; [done|].
    rewrite seg_mem_set, set_seg_mem_twice. f_equal. symmetry.
    apply store_at_app. rewrite length_take. lia.
  - intros [-> H1] [-> H2]. split; [done|]. by apply Forall2_app.
Qed.

(** When the whole of [buf] can be moved, and what moving it amounts to. *)
Record move_pre (buf : list Z) (u : uio) (vm : vmstate) : Prop := MovePre {
  mp_ok : uio_ok u;
  mp_bf : tm_badfaultfunc vm = false;
  mp_resid : Z.of_nat (length buf) ≤ uio_resid u;
  mp_addrs : (length buf ≤ length (addrs u))%nat;
  mp_acc : ∀ a, a ∈ take (length buf) (addrs u) →
           accessible (uio_segflg u) (seg_mem (uio_segflg u) vm) a;
}.

Definition move_post (buf : list Z) (u : uio) (vm : vmstate) (sp : Z)
    (r : res uiost (list Z)) : Prop :=
  ∃ buf' u' vm', r = Ok buf' (UioSt u' vm' sp) ∧
    moved (Z.of_nat (length buf)) u u' ∧ transferred u vm buf buf' vm' ∧
    length buf' = length buf ∧ tm_badfaultfunc vm' = false.

Lemma move_nil u vm sp :
  uio_ok u → tm_badfaultfunc vm = false → move_post [] u vm sp (Ok [] (UioSt u vm sp)).
Proof.
  intros Hok Hbf. exists [], u, vm. split; [done|]. split; [|split; [|done]].
  - split; auto; cbn; lia.
  - unfold transferred. cbn. destruct (uio_rw u).
    + split; [done|]. symmetry. exact (set_seg_mem_id (uio_segflg u) vm).
    + split; [done|constructor].
Qed.

(** An exhausted block is passed over, and it is not the last one. *)
Lemma move_skip buf u vm iov rest :
  move_pre buf u vm → buf ≠ [] → uio_iov u = iov :: rest → iov_len iov = 0 →
  uio_iovcnt (uio_next_iov u) ≠ 0 ∧ addrs (uio_next_iov u) = addrs u ∧
  move_pre buf (uio_next_iov u) vm.
Proof.
  intros [[Hls Hcnt Hc32 Hr32] Hbf Hres Hlen Hacc] Hne Hiov Hl0.
  assert (Hadd : addrs (uio_next_iov u) = addrs u).
  { unfold addrs, uio_next_iov. cbn [uio_iov]. rewrite Hiov. cbn.
    unfold iov_addrs at 2. by rewrite Hl0. }
  assert (Hc : rest ≠ []).
  { intros ->. rewrite <-Hadd in Hlen. unfold addrs, uio_next_iov in Hlen.
    cbn [uio_iov] in Hlen. rewrite Hiov in Hlen. destruct buf; cbn in *; [done|lia]. }
  rewrite Hiov in Hls, Hcnt. apply Forall_cons_iff in Hls as [_ Hls].
  unfold is_u32 in *. destruct rest as [|iov2 rest]; [done|]. cbn in Hcnt.
  assert (Hu : u32 (uio_iovcnt u - 1) = uio_iovcnt u - 1)
    by (apply u32_small; unfold is_u32; lia).
  split; [cbn; lia|]. split; [done|].
  split; [split| | |by rewrite Hadd|by rewrite Hadd]; cbn [uio_next_iov uio_iov
    uio_iovcnt uio_resid]; rewrite ?Hiov, ?Hu; cbn [tail length];
    unfold is_u32; auto; lia.
Qed.

(** A piece that ends within the current block. *)
Lemma move_piece buf u vm iov rest size :
  move_pre buf u vm → uio_iov u = iov :: rest →
  0 < size ≤ iov_len iov → size ≤ Z.of_nat (length buf) →
  ∃ piece' vm1,
    uio_transfer (uio_segflg u) (uio_rw u) (iov_base iov)
      (take (Z.to_nat size) buf) vm = Ok piece' vm1 ∧
    transferred u vm (take (Z.to_nat size) buf) piece' vm1 ∧
    length piece' = Z.to_nat size ∧
    moved size u (uio_advance size u) ∧
    move_pre (drop (Z.to_nat size) buf) (uio_advance size u) vm1.
Proof.
  intros [Hok Hbf Hres Hlen Hacc] Hiov Hs1 Hs2.
  pose proof (uio_res32 u Hok) as Hr32. unfold is_u32 in Hr32.
  assert (Hbuf : length (take (Z.to_nat size) buf) = Z.to_nat size)
    by (rewrite length_take; lia).
  pose proof (addrs_advance u iov rest size Hiov ltac:(lia)) as Hadd.
  pose proof (uio_advance_ok u iov rest size Hok Hiov ltac:(lia)) as Hok1.
  set (u1 := uio_advance size u) in *.
  assert (Htk : take (Z.to_nat size) (addrs u) = seqZ (iov_base iov) size).
  { rewrite Hadd. apply take_app_length'. by rewrite length_seqZ. }
  assert (Hr1 : uio_resid u1 = uio_resid u - size).
  { cbn. apply u32_small. unfold is_u32. lia. }
  destruct (uio_transfer_ok (uio_segflg u) (uio_rw u) (iov_base iov)
              (take (Z.to_nat size) buf) vm) as (piece' & Hpe & Hpp).
  { rewrite Hbuf. lia. }
  { done. }
  { rewrite Hbuf. intros a Ha. apply Hacc.
    rewrite Hadd, take_app, take_ge by (rewrite length_seqZ; lia).
    apply elem_of_app. left. apply elem_of_seqZ. lia. }
  rewrite Hbuf, Z2Nat.id in Hpp by lia.
  eexists piece', _. split; [exact Hpe|]. split; [|split; [|split; [|split]]].
  - unfold transferred. rewrite Hbuf, Htk.
    destruct (uio_rw u); [|done]. split; [done|].
    by rewrite <-store_at_seqZ, Hbuf, Z2Nat.id by lia.
  - destruct (uio_rw u); [by subst piece'|].
    apply Forall2_length in Hpp. rewrite length_seqZ in Hpp. lia.
  - split; try done. rewrite Hadd, drop_app_length'; [done|].
    by rewrite length_seqZ.
  - done.
  - destruct (uio_rw u); by rewrite ?set_seg_mem_badfault.
  - rewrite Hr1, length_drop. lia.
  - rewrite Hadd, length_app, length_seqZ in Hlen. rewrite length_drop. lia.
  - intros a Ha. change (uio_segflg u1) with (uio_segflg u).
    assert (Ha' : accessible (uio_segflg u) (seg_mem (uio_segflg u) vm) a).
    { apply Hacc. rewrite Hadd, take_app, length_seqZ.
      apply elem_of_app. right. by rewrite length_drop in Ha. }
    destruct Ha' as [Ha1 Ha2]. split; [|done].
    destruct (uio_rw u); [|done]. rewrite seg_mem_set, <-store_at_seqZ.
    by apply store_at_is_Some.
Qed.

Lemma move_compose buf u vm sp size piece' vm1 r :
  0 ≤ size ≤ Z.of_nat (length buf) → (Z.to_nat size ≤ length (addrs u))%nat →
  transferred u vm (take (Z.to_nat size) buf) piece' vm1 →
  length piece' = Z.to_nat size →
  moved size u (uio_advance size u) →
  move_post (drop (Z.to_nat size) buf) (uio_advance size u) vm1 sp r →
  move_post buf u vm sp
    (match r with
     | Ok rest s => Ok (piece' ++ rest) s
     | Err e s => Err e s
     | Crash c => Crash c
     end).
Proof.
  intros Hs Hle Ht Hl Hm (rest' & u' & vm' & -> & Hm' & Ht' & Hl' & Hbf).
  exists (piece' ++ rest'), u', vm'. rewrite length_drop in *.
  split; [done|]. split; [|split; [|split; [rewrite length_app; lia|done]]].
  - replace (Z.of_nat (length buf)) with
      (size + Z.of_nat (length buf - Z.to_nat size)) by lia.
    eapply moved_trans; [lia|lia|done|done].
  - rewrite <-(take_drop (Z.to_nat size) buf) at 1.
    apply (transferred_app u vm size _ _ _ _ vm1 _ (uio_advance size u)); try done.
    + rewrite length_take. lia.
    + lia.
    + by rewrite (mv_addrs _ _ _ Hm), take_drop.
Qed.

Lemma uiomove_loop_ok fuel buf u vm sp :
  move_pre buf u vm → (length buf + length (uio_iov u) ≤ fuel)%nat →
  move_post buf u vm sp (uiomove_loop fuel buf (UioSt u vm sp)).
Proof.
  revert buf u vm. induction fuel as [|fuel IH]; intros buf u vm Hpre Hfuel;
    pose proof Hpre as [Hok Hbf Hres Hlen _];
    (destruct (decide (buf = [])) as [->|Hne]; [by apply move_nil|]);
    (assert (Hn : 0 < Z.of_nat (length buf)) by (destruct buf; [done|cbn; lia]));
    [lia|].
  cbn [uiomove_loop]. unfold bind at 1, get at 1. cbn [us_uio].
  rewrite (proj2 (Z.ltb_lt 0 (Z.of_nat _))), (proj2 (Z.ltb_lt 0 (uio_resid u))) by lia.
  cbn [andb]. destruct (uio_iov u) as [|iov rest] eqn:Hiov.
  { unfold addrs in Hlen. rewrite Hiov in Hlen. cbn in Hlen. lia. }
  unfold bind at 1, deref at 1, ret at 1. cbn [head].
  pose proof (uio_lens u Hok) as Hls. rewrite Hiov in Hls.
  apply Forall_inv in Hls. set (size := if _ <? _ then _ else _).
  assert (Hsz : 0 ≤ size ≤ iov_len iov ∧ size ≤ Z.of_nat (length buf) ∧
                (size = 0 → iov_len iov = 0)).
  { unfold size. destruct (Z.ltb_spec (Z.of_nat (length buf)) (iov_len iov)); lia. }
  destruct (Z.eqb_spec size 0) as [Hs0|Hs0].
  - destruct (move_skip buf u vm iov rest Hpre Hne Hiov ltac:(tauto))
      as (Hc & Hadd & Hpre').
    rewrite (proj2 (Z.eqb_neq _ _)) by done.
    destruct (IH buf (uio_next_iov u) vm Hpre') as (buf' & u' & vm' & He & Hm & Ht & Hl).
    { cbn [uio_next_iov uio_iov]. rewrite Hiov. cbn in Hfuel |- *. lia. }
    exists buf', u', vm'. unfold bind, modify, set_uio. cbn [us_vm us_as].
    split; [done|]. unfold transferred in *. rewrite Hadd in Ht.
    split; [|done]. destruct Hm. split; auto. by rewrite mv_addrs0, Hadd.
  - destruct (move_piece buf u vm iov rest size Hpre Hiov ltac:(lia) ltac:(lia))
      as (piece' & vm1 & He & Ht & Hl & Hm & Hpre').
    unfold on_vm, zoom, bind at 1. cbn [us_vm]. rewrite He.
    unfold bind at 1, modify at 1. cbn [us_uio us_vm us_as set_uio].
    apply (move_compose buf u vm sp size piece' vm1); [lia|lia|done|done|done|].
    apply IH; [done|]. unfold uio_advance. rewrite Hiov.
    cbn [uio_iov length] in *. rewrite length_drop. lia.
Qed.

(** [uiomove] moves the whole buffer through the next addresses of the
    request, when the request is at least that long and its memory is
    accessible: a read stores the buffer there, a write fetches the buffer
    from there, and the offset and the residue advance by the same amount. *)
Lemma uiomove_spec buf u vm sp :
  move_pre buf u vm →
  (if decide (uio_segflg u = UIO_SYSSPACE) then uio_space u = 0
   else uio_space u = sp) →
  ∃ buf' u' vm',
    uiomove buf (UioSt u vm sp) = Ok buf' (UioSt u' vm' sp) ∧
    moved (Z.of_nat (length buf)) u u' ∧ transferred u vm buf buf' vm' ∧
    length buf' = length buf ∧ tm_badfaultfunc vm' = false.
Proof.
  intros Hpre Hsp. unfold uiomove, bind at 1, get. cbn [us_uio us_as].
  unfold bind, KASSERT, ret.
  destruct (decide (uio_segflg u = UIO_SYSSPACE));
    rewrite (proj2 (Z.eqb_eq _ _)) by done; by apply uiomove_loop_ok.
Qed.

(** ** Sending zeros *)

Lemma move_pre_prefix buf1 buf2 u vm :
  move_pre (buf1 ++ buf2) u vm → move_pre buf1 u vm.
Proof.
  intros [Hok Hbf Hres Hlen Hacc]. rewrite length_app in *.
  split; auto; try lia. intros a Ha. apply Hacc.
  apply list_elem_of_lookup in Ha as [i Hi].
  apply lookup_take_Some in Hi as [Hi ?].
  apply list_elem_of_lookup. exists i. apply lookup_take_Some. split; [done|lia].
Qed.

Lemma move_pre_rest buf1 buf2 u vm u1 vm1 :
  move_pre (buf1 ++ buf2) u vm → uio_rw u = UIO_READ →
  moved (Z.of_nat (length buf1)) u u1 →
  transferred u vm buf1 buf1 vm1 → tm_badfaultfunc vm1 = false →
  move_pre buf2 u1 vm1.
Proof.
  intros [Hok Hbf Hres Hlen Hacc] Hrw [] Ht Hbf1. rewrite length_app in *.
  rewrite Nat2Z.id in *. unfold transferred in Ht. rewrite Hrw in Ht.
  destruct Ht as [_ ->]. split; auto; try lia.
  - rewrite mv_addrs0, length_drop. lia.
  - rewrite mv_addrs0, mv_seg0, seg_mem_set. intros a Ha.
    assert (Ha' : a ∈ take (length buf1 + length buf2) (addrs u)).
    { apply list_elem_of_lookup in Ha as [i Hi].
      apply lookup_take_Some in Hi as [Hi ?]. rewrite lookup_drop in Hi.
      apply list_elem_of_lookup. exists (length buf1 + i)%nat.
      apply lookup_take_Some. split; [done|lia]. }
    destruct (Hacc a Ha') as [? ?]. split; [|done]. by apply store_at_is_Some.
Qed.

Lemma uiomovezeros_loop_ok fuel n u vm sp :
  move_pre (replicate (Z.to_nat n) 0) u vm → uio_rw u = UIO_READ →
  (if decide (uio_segflg u = UIO_SYSSPACE) then uio_space u = 0
   else uio_space u = sp) →
  0 ≤ n ≤ Z.of_nat fuel →
  ∃ u' vm', uiomovezeros_loop fuel n (UioSt u vm sp) = Ok tt (UioSt u' vm' sp) ∧
    moved n u u' ∧
    transferred u vm (replicate (Z.to_nat n) 0) (replicate (Z.to_nat n) 0) vm' ∧
    tm_badfaultfunc vm' = false.
Proof.
  revert n u vm. induction fuel as [|fuel IH]; intros n u vm Hpre Hrw Hsp Hn;
    pose proof Hpre as [Hok Hbf _ _ _];
    (destruct (decide (n = 0)) as [->|Hn0];
     [destruct (move_nil u vm sp Hok Hbf) as (? & ? & ? & ? & ? & ? & ?);
      simplify_eq; by eexists _, _|]); [lia|].
  cbn [uiomovezeros_loop]. rewrite (proj2 (Z.ltb_lt 0 n)) by lia.
  set (amt := if n <? 16 then n else 16).
  assert (Ha : 0 < amt ≤ n) by (unfold amt; destruct (Z.ltb_spec n 16); lia).
  assert (Hsplit : replicate (Z.to_nat n) 0 =
    replicate (Z.to_nat amt) 0 ++ replicate (Z.to_nat (n - amt)) 0).
  { rewrite <-replicate_add. f_equal. lia. }
  rewrite Hsplit in Hpre.
  destruct (uiomove_spec (replicate (Z.to_nat amt) 0) u vm sp
              (move_pre_prefix _ _ _ _ Hpre) Hsp)
    as (buf' & u1 & vm1 & He & Hm & Ht & Hl & Hbf1).
  assert (buf' = replicate (Z.to_nat amt) 0) as ->
    by (revert Ht; unfold transferred; rewrite Hrw; tauto).
  pose proof (move_pre_rest _ _ u vm u1 vm1 Hpre Hrw Hm Ht Hbf1) as Hpre1.
  rewrite length_replicate, Z2Nat.id in Hm by lia.
  destruct (IH (n - amt) u1 vm1 Hpre1) as (u' & vm' & He' & Hm' & Ht' & Hbf').
  { by rewrite (mv_rw _ _ _ Hm). }
  { by rewrite (mv_seg _ _ _ Hm), (mv_space _ _ _ Hm). }
  { lia. }
  exists u', vm'. unfold bind. rewrite He. split; [done|].
  split; [|split; [|done]].
  - replace n with (amt + (n - amt)) by lia. eapply moved_trans; eauto; lia.
  - rewrite Hsplit. eapply (transferred_app u vm amt _ _ _ _ vm1 _ u1); try done.
    + by rewrite length_replicate.
    + lia.
    + by rewrite (mv_addrs _ _ _ Hm), take_drop.
    + pose proof (mp_addrs _ _ _ Hpre) as Hl'.
      rewrite length_app, length_replicate in Hl'. lia.
    + apply (mv_seg _ _ _ Hm).
    + apply (mv_rw _ _ _ Hm).
Qed.

(** C27: [uiomove] moves the whole buffer through the next addresses of the
    request, whatever way these are cut into blocks: a read stores the buffer
    there, a write fetches it from there, and the offset and the residue
    advance by its length. *)
Theorem uiomove_correct buf u vm sp :
  move_pre buf u vm →
  (if decide (uio_segflg u = UIO_SYSSPACE) then uio_space u = 0
   else uio_space u = sp) →
  ∃ buf' u' vm',
    uiomove buf (UioSt u vm sp) = Ok buf' (UioSt u' vm' sp) ∧
    moved (Z.of_nat (length buf)) u u' ∧ transferred u vm buf buf' vm'.
Proof.
  intros Hpre Hsp. destruct (uiomove_spec buf u vm sp Hpre Hsp) as (b & u' & vm' & H).
  exists b, u', vm'. tauto.
Qed.

(** A request for three bytes in two blocks of kernel memory. *)
Definition split_uio : uio := Uio [Iovec 100 2; Iovec 200 1] 2 0 3 UIO_SYSSPACE UIO_READ 0.

Definition split_vm : vmstate := VmState {[ 100 := 0; 101 := 0; 200 := 0 ]} ∅ false.

Lemma split_move_pre buf : length buf = 3%nat → move_pre buf split_uio split_vm.
Proof.
  intros Hl. split; [|done|by rewrite Hl|by rewrite Hl|].
  - split; [by repeat constructor|done|by split|by split].
  - intros a Ha. rewrite Hl in Ha. change (a ∈ [100; 101; 200]) in Ha.
    rewrite !elem_of_cons in Ha. split; [|done].
    destruct Ha as [->|[->|[->|[]%not_elem_of_nil]]]; by eexists.
Qed.

Lemma uiomove_correct_witness :
  ∃ buf' u' vm',
    uiomove [1; 2; 3] (UioSt split_uio split_vm 0) = Ok buf' (UioSt u' vm' 0) ∧
    moved 3 split_uio u' ∧ transferred split_uio split_vm [1; 2; 3] buf' vm'.
Proof. apply (uiomove_correct [1; 2; 3]); [by apply split_move_pre|done]. Defined.

(** [uiomovezeros] stores zeros at the next [n] addresses of the request. *)
Theorem uiomovezeros_correct n u vm sp :
  move_pre (replicate (Z.to_nat n) 0) u vm → uio_rw u = UIO_READ → 0 ≤ n →
  (if decide (uio_segflg u = UIO_SYSSPACE) then uio_space u = 0
   else uio_space u = sp) →
  ∃ u' vm', uiomovezeros n (UioSt u vm sp) = Ok tt (UioSt u' vm' sp) ∧
    moved n u u' ∧
    transferred u vm (replicate (Z.to_nat n) 0) (replicate (Z.to_nat n) 0) vm'.
Proof.
  intros Hpre Hrw Hn Hsp. unfold uiomovezeros, bind, get, KASSERT, ret.
  cbn [us_uio]. rewrite bool_decide_true by done.
  destruct (uiomovezeros_loop_ok (Z.to_nat n) n u vm sp Hpre Hrw Hsp ltac:(lia))
    as (u' & vm' & He & Hm & Ht & _). by exists u', vm'.
Qed.

Lemma uiomovezeros_correct_witness :
  ∃ u' vm', uiomovezeros 3 (UioSt split_uio split_vm 0) = Ok tt (UioSt u' vm' 0) ∧
    moved 3 split_uio u' ∧ transferred split_uio split_vm [0; 0; 0] [0; 0; 0] vm'.
Proof. apply (uiomovezeros_correct 3); [by apply split_move_pre|done|lia|done]. Defined.

Lemma uiomove_loop_nil fuel s : uiomove_loop fuel [] s = Ok [] s.
Proof. by destruct fuel. Qed.

(** C38: [uiomove] does not stop at [uio_resid]: if the first element of the
    request covers the whole block and the block is longer than the residue,
    all of the block is moved, past the residue, and the residue wraps around
    2^32. *)
Theorem uiomove_overruns_resid buf u vm sp iov rest :
  let n := Z.of_nat (length buf) in
  uio_iov u = iov :: rest → 0 < uio_resid u < n → n ≤ iov_len iov → n < 4294967296 →
  tm_badfaultfunc vm = false →
  (if decide (uio_segflg u = UIO_SYSSPACE) then uio_space u = 0 else uio_space u = sp) →
  (∀ a, iov_base iov ≤ a < iov_base iov + n → accessible (uio_segflg u) (seg_mem (uio_segflg u) vm) a) →
  ∃ buf' u' vm', uiomove buf (UioSt u vm sp) = Ok buf' (UioSt u' vm' sp) ∧
    transferred u vm buf buf' vm' ∧
    uio_offset u' = uio_offset u + n ∧ uio_resid u' = uio_resid u - n + 4294967296.
Proof.
  intros n Hu Hr Hn H32 Hbf Hsp Hacc.
  destruct (uio_transfer_ok (uio_segflg u) (uio_rw u) (iov_base iov) buf vm) as (buf' & Ht & Hb);
    [fold n; lia|done|done|]. fold n in Hb.
  assert (Hl : take (length buf) (addrs u) = seqZ (iov_base iov) n).
  { rewrite (addrs_advance u iov rest n) by (done || lia).
    apply take_app_length'. rewrite length_seqZ. unfold n. lia. }
  exists buf', (uio_advance n u). eexists. split; [|split; [|split; [done|]]].
  - unfold uiomove, bind at 1, get. cbn [us_uio us_as].
    replace (if decide _ then _ else _) with true by (destruct (decide _); symmetry; by apply Z.eqb_eq).
    unfold bind at 1, KASSERT, ret at 1.
    replace (length buf + length (uio_iov u))%nat with (S (pred (length buf + length (uio_iov u))))
      by (rewrite Hu; cbn; lia).
    cbn [uiomove_loop]. unfold bind at 1, get at 1. cbn [us_uio]. fold n.
    rewrite (proj2 (Z.ltb_lt 0 n)), (proj2 (Z.ltb_lt 0 (uio_resid u))) by lia. cbn [andb].
    unfold bind at 1. rewrite Hu. cbn [head deref]. unfold ret at 1.
    replace (if n <? iov_len iov then n else iov_len iov) with n
      by (destruct (Z.ltb_spec n (iov_len iov)); lia).
    rewrite (proj2 (Z.eqb_neq n 0)) by lia. unfold n. rewrite Nat2Z.id, firstn_all, drop_all.
    unfold bind at 1, on_vm, zoom. cbn [us_vm]. rewrite Ht. cbn [us_vm us_uio us_as].
    unfold bind at 1, modify. cbn [us_uio set_uio us_vm us_as].
    unfold bind. by rewrite uiomove_loop_nil, app_nil_r.
  - unfold transferred. rewrite Hl. destruct (uio_rw u); [|done]. split; [done|].
    unfold n. by rewrite store_at_seqZ.
  - cbn. unfold u32. symmetry. apply (Z.mod_unique _ _ (-1)); lia.
Qed.

(** Two bytes to a request that has one left to go. *)
Definition short_uio : uio := Uio [Iovec 100 2] 1 0 1 UIO_SYSSPACE UIO_READ 0.

Lemma uiomove_overruns_resid_witness :
  ∃ buf' u' vm',
    uiomove [1; 2] (UioSt short_uio (VmState {[100 := 0; 101 := 0]} ∅ false) 0) =
      Ok buf' (UioSt u' vm' 0) ∧
    transferred short_uio (VmState {[100 := 0; 101 := 0]} ∅ false) [1; 2] buf' vm' ∧
    uio_offset u' = 2 ∧ uio_resid u' = 4294967295.
Proof.
  apply (uiomove_overruns_resid [1; 2] short_uio (VmState {[100 := 0; 101 := 0]} ∅ false) 0
    (Iovec 100 2) []); [done|cbn; lia..|done|done|].
  intros a Ha. cbn in Ha. split; [|done].
  assert (a = 100 ∨ a = 101) as [->| ->] by lia; vm_compute; by eexists.
Defined.

(** ** Termination *)

Lemma bind_no_loop {S A B} (m : M S A) (k : A → M S B) s :
  m s ≠ Crash CLoop → (∀ a s', m s = Ok a s' → k a s' ≠ Crash CLoop) →
  bind m k s ≠ Crash CLoop.
Proof. unfold bind. intros Hm Hk. destruct (m s) as [a s'| |[]]; auto; done. Qed.

Lemma memcpy_to_user_no_loop l a s : memcpy_to_user a l s ≠ Crash CLoop.
Proof.
  revert a s. induction l as [|b l IH]; intros a s; [done|]. cbn.
  apply bind_no_loop; [|auto]. unfold user_store, bad_fault, bind, get, put.
  destruct (umem s !! a); [done|]. by destruct (tm_badfaultfunc s).
Qed.

Lemma protected_no_loop {A} (m : M vmstate A) s :
  (∀ s, m s ≠ Crash CLoop) → protected m s ≠ Crash CLoop.
Proof.
  intros Hm. unfold protected, bind, set_badfault, modify, attempt.
  specialize (Hm (VmState (kmem s) (umem s) true)).
  by destruct (m (VmState (kmem s) (umem s) true)) as [| |[]].
Qed.

Lemma uio_transfer_no_loop seg rw base piece vm :
  uio_transfer seg rw base piece vm ≠ Crash CLoop.
Proof.
  assert (Hs : match rw with
     | UIO_READ => (kmem_write base piece ;;; ret piece) vm ≠ Crash CLoop ∧
                   (copyout piece base ;;; ret piece) vm ≠ Crash CLoop
     | UIO_WRITE => kmem_read base (Z.of_nat (length piece)) vm ≠ Crash CLoop ∧
                    copyin base (Z.of_nat (length piece)) vm ≠ Crash CLoop
     end).
  { destruct rw; split.
    - unfold kmem_write, bind, get, put. by destruct (read_bytes _ _ _).
    - apply bind_no_loop; [|done]. unfold copyout.
      destruct (copycheck _ _); [done|]. destruct (negb _); [done|].
      apply protected_no_loop. apply memcpy_to_user_no_loop.
    - unfold kmem_read, bind, get, deref. by destruct (read_bytes _ _ _).
    - unfold copyin. destruct (copycheck _ _); [done|]. destruct (negb _); [done|].
      apply protected_no_loop. intros s. rewrite memcpy_from_user_spec.
      destruct (read_bytes _ _ _); [done|]. by destruct (tm_badfaultfunc s). }
  destruct rw, seg; apply Hs.
Qed.

Lemma uiomove_loop_no_loop fuel buf s :
  Forall (λ v, 0 ≤ iov_len v) (uio_iov (us_uio s)) →
  (length buf + length (uio_iov (us_uio s)) ≤ fuel)%nat →
  uiomove_loop fuel buf s ≠ Crash CLoop.
Proof.
  revert buf s. induction fuel as [|fuel IH]; intros buf [u vm sp] Hl Hf; cbn in Hl, Hf.
  { destruct buf; [done|cbn in Hf; lia]. }
  cbn [uiomove_loop]. unfold bind at 1, get at 1. cbn [us_uio].
  destruct ((0 <? _) && (0 <? _)) eqn:Hn; [|done].
  apply andb_prop in Hn as [Hn _]. apply Z.ltb_lt in Hn.
  destruct (uio_iov u) as [|iov rest] eqn:Hiov; [done|].
  unfold bind at 1, deref at 1, ret at 1. cbn [head].
  apply Forall_cons_iff in Hl as [Hl0 Hl]. cbn in Hf.
  set (size := if _ <? _ then _ else _).
  assert (Hsz : 0 ≤ size ≤ iov_len iov).
  { unfold size. destruct (Z.ltb_spec (Z.of_nat (length buf)) (iov_len iov)); lia. }
  destruct (Z.eqb_spec size 0) as [Hs0|Hs0].
  - destruct (_ =? 0); [done|]. unfold bind, modify, set_uio. apply IH; cbn;
      rewrite Hiov; cbn; [done|lia].
  - apply bind_no_loop.
    + unfold on_vm, zoom. cbn [us_vm].
      pose proof (uio_transfer_no_loop (uio_segflg u) (uio_rw u) (iov_base iov)
                    (take (Z.to_nat size) buf) vm) as Ht.
      by destruct (uio_transfer _ _ _ _ _) as [| |[]].
    + intros piece s' Hs'. unfold on_vm, zoom in Hs'. cbn [us_vm] in Hs'.
      destruct (uio_transfer _ _ _ _ _) as [? vm'| |]; simplify_eq.
      unfold bind at 1, modify at 1. cbn [us_uio us_vm us_as].
      apply bind_no_loop; [|done]. apply IH; cbn; rewrite Hiov; cbn.
      * constructor; [cbn; lia|done].
      * rewrite length_drop. lia.
Qed.

(** [uiomove] terminates on every request: an iteration uses up a byte of the
    buffer or an element of the request. *)
Lemma uiomove_no_loop buf s :
  Forall (λ v, 0 ≤ iov_len v) (uio_iov (us_uio s)) →
  uiomove buf s ≠ Crash CLoop.
Proof.
  intros Hl. unfold uiomove. apply bind_no_loop; [done|]. intros ? ? [= <- <-].
  apply bind_no_loop.
  - unfold KASSERT. by destruct (if decide _ then _ else _).
  - intros ? s' Hs. unfold KASSERT in Hs.
    assert (s' = s) as ->
      by (destruct (if decide _ then _ else _); unfold ret, panic in Hs; by simplify_eq).
    by apply uiomove_loop_no_loop.
Qed.

(** [uiomove] keeps the lengths of the blocks non-negative, whatever it
    returns. *)
Lemma uiomove_loop_lens fuel buf s :
  Forall (λ v, 0 ≤ iov_len v) (uio_iov (us_uio s)) →
  match uiomove_loop fuel buf s with
  | Ok _ s' | Err _ s' => Forall (λ v, 0 ≤ iov_len v) (uio_iov (us_uio s')) ∧
                          uio_rw (us_uio s') = uio_rw (us_uio s)
  | Crash _ => True
  end.
Proof.
  revert buf s. induction fuel as [|fuel IH]; intros buf [u vm sp] Hl;
    cbn [uiomove_loop]; unfold bind at 1, get at 1; cbn [us_uio] in *;
    (destruct ((0 <? _) && (0 <? _)); [|done]); [done|].
  destruct (uio_iov u) as [|iov rest] eqn:Hiov; [done|].
  unfold bind at 1, deref at 1, ret at 1. cbn [head].
  apply Forall_cons_iff in Hl as [Hl0 Hl].
  set (size := if _ <? _ then _ else _).
  assert (Hsz : size ≤ iov_len iov).
  { unfold size. destruct (Z.ltb_spec (Z.of_nat (length buf)) (iov_len iov)); lia. }
  destruct (Z.eqb_spec size 0) as [Hs0|Hs0].
  - destruct (_ =? 0); [done|]. unfold bind, modify, set_uio.
    apply (IH buf (UioSt (uio_next_iov u) vm sp)). cbn. by rewrite Hiov.
  - unfold bind at 1, on_vm, zoom. cbn [us_vm us_uio us_as].
    destruct (uio_transfer _ _ _ _ _) as [piece vm'|e vm'|]; [| |done].
    + unfold bind at 1, modify at 1. cbn [us_uio us_vm us_as].
      specialize (IH (drop (Z.to_nat size) buf) (set_uio (uio_advance size u) (UioSt u vm' sp))).
      unfold bind. cbn in IH. rewrite Hiov in IH. cbn [us_uio uio_rw] in IH.
      assert (Hl' : Forall (λ v, 0 ≤ iov_len v)
                (Iovec (iov_base iov + size) (iov_len iov - size) :: rest))
        by (constructor; [cbn; lia|done]).
      specialize (IH Hl'). unfold uio_advance, set_uio in *. rewrite Hiov in *. cbn in *.
      by destruct (uiomove_loop fuel _ _).
    + cbn. rewrite Hiov. split; [by constructor|done].
Qed.

Lemma uiomove_lens buf s :
  Forall (λ v, 0 ≤ iov_len v) (uio_iov (us_uio s)) →
  match uiomove buf s with
  | Ok _ s' | Err _ s' => Forall (λ v, 0 ≤ iov_len v) (uio_iov (us_uio s')) ∧
                          uio_rw (us_uio s') = uio_rw (us_uio s)
  | Crash c => c ≠ CLoop
  end.
Proof.
  intros Hl. pose proof (uiomove_no_loop buf s Hl) as Hn.
  assert (Hu : ∀ c, uiomove buf s = Crash c → c ≠ CLoop) by (intros c Hc ->; done).
  destruct (uiomove buf s) as [b s'|e s'|c] eqn:He; [| |by apply Hu];
    unfold uiomove, bind, get, KASSERT in He;
    (destruct (if decide _ then _ else _); [|done]); unfold ret in He;
    match type of He with ?x = _ =>
      pose proof (uiomove_loop_lens (length buf + length (uio_iov (us_uio s))) buf s Hl) as Hll;
      by rewrite He in Hll end.
Qed.
