(* ===== verification/Threadlist.v ===== *)
(** * Thread lists

    The doubly linked lists of kern/thread/threadlist.c: every list has a head
    and a tail node of its own that are always on it, and every thread embeds
    the one node that links it into the run queue, the wait channel or the
    zombie list it is on.  The nodes live in one memory, so an operation on a
    list could in principle damage another; the representation predicate
    [tl_repr] covers all the lists at once, and the operations are proved to
    refine operations on finite sequences. *)

From stdpp Require Import countable.
From S2P Require Import Prelude.
Open Scope Z_scope.

(** ** The code *)

(** A [struct threadlistnode *]: [&tl->tl_head], [&tl->tl_tail] or
    [&t->t_listnode]. *)
Inductive tlptr := Head (tl : Z) | Tail (tl : Z) | TNode (t : Z).

#[global] Instance tlptr_eq_dec : EqDecision tlptr.
Proof. solve_decision. Defined.

#[global] Instance tlptr_countable : Countable tlptr.
Proof.
  refine (inj_countable'
    (λ p, match p with Head z => (0%nat, z) | Tail z => (1%nat, z) | TNode z => (2%nat, z) end)
    (λ q, match q with (0%nat, z) => Head z | (1%nat, z) => Tail z | (_, z) => TNode z end) _).
  by intros [].
Defined.

Record threadlistnode := TLN {
  tln_prev : option tlptr;
  tln_next : option tlptr;
  tln_self : option Z;
}.

(** The nodes that are initialised, and the [tl_count] of every list. *)
Record threadlist := TLMem {
  nodes : gmap tlptr threadlistnode;
  tl_count : gmap Z Z;
}.

Definition read_node (p : tlptr) : M threadlist threadlistnode :=
  s <- get ;; deref (nodes s !! p).

Definition write_node (p : tlptr) (n : threadlistnode) : M threadlist unit :=
  modify (λ s, TLMem (<[p := n]> (nodes s)) (tl_count s)).

(** [p->tln_prev = v] and [p->tln_next = v] *)
Definition set_prev (p : tlptr) (v : option tlptr) : M threadlist unit :=
  n <- read_node p ;; write_node p (TLN v (tln_next n) (tln_self n)).
Definition set_next (p : tlptr) (v : option tlptr) : M threadlist unit :=
  n <- read_node p ;; write_node p (TLN (tln_prev n) v (tln_self n)).

Definition read_count (tl : Z) : M threadlist Z := s <- get ;; deref (tl_count s !! tl).
Definition write_count (tl c : Z) : M threadlist unit :=
  modify (λ s, TLMem (nodes s) (<[tl := c]> (tl_count s))).

Definition threadlistnode_init (t : Z) : M threadlist unit :=
  KASSERT (negb (t =? 0)) ;;; write_node (TNode t) (TLN None None (Some t)).

Definition is_null {A} (o : option A) : bool := match o with None => true | Some _ => false end.

Definition threadlistnode_cleanup (p : tlptr) : M threadlist unit :=
  n <- read_node p ;;
  KASSERT (is_null (tln_next n)) ;;;
  KASSERT (is_null (tln_prev n)) ;;;
  KASSERT (negb (is_null (tln_self n))).

Definition threadlist_init (tl : Z) : M threadlist unit :=
  write_node (Head tl) (TLN None (Some (Tail tl)) None) ;;;
  write_node (Tail tl) (TLN (Some (Head tl)) None None) ;;;
  write_count tl 0.

Definition threadlist_isempty (tl : Z) : M threadlist bool :=
  c <- read_count tl ;; ret (c =? 0).

Definition threadlist_cleanup (tl : Z) : M threadlist unit :=
  e <- threadlist_isempty tl ;; KASSERT e ;;;
  c <- read_count tl ;; KASSERT (c =? 0).

Definition threadlist_insertafternode (onlist : tlptr) (t : Z) : M threadlist unit :=
  let addee := TNode t in
  set_prev addee (Some onlist) ;;;
  o <- read_node onlist ;; set_next addee (tln_next o) ;;;
  a <- read_node addee ;; p <- deref (tln_prev a) ;; set_next p (Some addee) ;;;
  a <- read_node addee ;; n <- deref (tln_next a) ;; set_prev n (Some addee).

Definition threadlist_insertbeforenode (t : Z) (onlist : tlptr) : M threadlist unit :=
  let addee := TNode t in
  o <- read_node onlist ;; set_prev addee (tln_prev o) ;;;
  set_next addee (Some onlist) ;;;
  a <- read_node addee ;; p <- deref (tln_prev a) ;; set_next p (Some addee) ;;;
  a <- read_node addee ;; n <- deref (tln_next a) ;; set_prev n (Some addee).

Definition threadlist_removenode (tln : tlptr) : M threadlist unit :=
  a <- read_node tln ;; p <- deref (tln_prev a) ;; set_next p (tln_next a) ;;;
  a <- read_node tln ;; n <- deref (tln_next a) ;; set_prev n (tln_prev a) ;;;
  set_prev tln None ;;;
  set_next tln None.

(** [tl->tl_count++] and [tl->tl_count--] *)
Definition count_add (tl d : Z) : M threadlist unit :=
  c <- read_count tl ;; write_count tl (u32 (c + d)).

Definition threadlist_addhead (tl t : Z) : M threadlist unit :=
  threadlist_insertafternode (Head tl) t ;;; count_add tl 1.

Definition threadlist_addtail (tl t : Z) : M threadlist unit :=
  threadlist_insertbeforenode t (Tail tl) ;;; count_add tl 1.

Definition threadlist_remhead (tl : Z) : M threadlist (option Z) :=
  h <- read_node (Head tl) ;; tln <- deref (tln_next h) ;;
  n <- read_node tln ;;
  match tln_next n with
  | None => ret None
  | Some _ =>
      threadlist_removenode tln ;;;
      count_add tl (-1) ;;;
      n <- read_node tln ;; ret (tln_self n)
  end.

Definition threadlist_remtail (tl : Z) : M threadlist (option Z) :=
  h <- read_node (Tail tl) ;; tln <- deref (tln_prev h) ;;
  n <- read_node tln ;;
  match tln_prev n with
  | None => ret None
  | Some _ =>
      threadlist_removenode tln ;;;
      count_add tl (-1) ;;;
      n <- read_node tln ;; ret (tln_self n)
  end.

Definition threadlist_insertafter (tl onlist addee : Z) : M threadlist unit :=
  threadlist_insertafternode (TNode onlist) addee ;;; count_add tl 1.

Definition threadlist_insertbefore (tl addee onlist : Z) : M threadlist unit :=
  threadlist_insertbeforenode addee (TNode onlist) ;;; count_add tl 1.

Definition threadlist_remove (tl t : Z) : M threadlist unit :=
  threadlist_removenode (TNode t) ;;; count_add tl (-1).

(** [THREADLIST_FORALL(itervar, tl)] and its reverse: the threads that the
    loop visits.  [fuel] bounds the number of visits. *)
Fixpoint forall_from (fuel : nat) (step : threadlistnode → option tlptr) (p : tlptr) :
    M threadlist (list Z) :=
  match fuel with
  | O => loops
  | S fuel =>
      n <- read_node p ;; q <- deref (step n) ;; nq <- read_node q ;;
      match tln_self nq with
      | None => ret []
      | Some t => r <- forall_from fuel step (TNode t) ;; ret (t :: r)
      end
  end.

Definition THREADLIST_FORALL (fuel : nat) (tl : Z) : M threadlist (list Z) :=
  forall_from fuel tln_next (Head tl).
Definition THREADLIST_FORALL_REV (fuel : nat) (tl : Z) : M threadlist (list Z) :=
  forall_from fuel tln_prev (Tail tl).

(** ** Chains of nodes

    [chain m p ns q]: the nodes [ns] are linked in this order, with [p] before
    the first and [q] after the last. *)

Definition self_of (p : tlptr) : option Z :=
  match p with TNode t => Some t | _ => None end.

Definition first (ns : list tlptr) (q : option tlptr) : option tlptr :=
  match ns with [] => q | x :: _ => Some x end.

Fixpoint lastp (p : option tlptr) (ns : list tlptr) : option tlptr :=
  match ns with [] => p | x :: r => lastp (Some x) r end.

Fixpoint chain (m : gmap tlptr threadlistnode) (p : option tlptr) (ns : list tlptr)
    (q : option tlptr) : Prop :=
  match ns with
  | [] => True
  | x :: r => m !! x = Some (TLN p (first r q) (self_of x)) ∧ chain m (Some x) r q
  end.

Lemma chain_app m p l1 l2 q :
  chain m p (l1 ++ l2) q ↔ chain m p l1 (first l2 q) ∧ chain m (lastp p l1) l2 q.
Proof.
  revert p. induction l1 as [|x l1 IH]; intros p; cbn; [tauto|].
  rewrite IH. destruct l1; cbn; tauto.
Qed.

Lemma chain_frame m m' p ns q :
  (∀ x, x ∈ ns → m' !! x = m !! x) → chain m p ns q → chain m' p ns q.
Proof.
  revert p. induction ns as [|x ns IH]; intros p Hf; cbn; [done|].
  intros [Hx Hc]. split.
  - rewrite Hf by (apply list_elem_of_here). done.
  - apply IH; [|done]. intros y Hy. apply Hf. by apply list_elem_of_further.
Qed.

Lemma lastp_snoc p l x : lastp p (l ++ [x]) = Some x.
Proof. revert p. induction l; intros p; cbn; [done|]. by rewrite IHl. Qed.

(** A node that is replaced. *)
Definition with_next (v : option tlptr) (n : threadlistnode) : threadlistnode :=
  TLN (tln_prev n) v (tln_self n).
Definition with_prev (v : option tlptr) (n : threadlistnode) : threadlistnode :=
  TLN v (tln_next n) (tln_self n).

(** The last node of a chain can be made to point elsewhere, and so can the
    first one. *)
Lemma chain_relink_last m p l x q q' :
  chain m p (l ++ [x]) q → x ∉ l →
  chain (alter (with_next q') x m) p (l ++ [x]) q'.
Proof.
  rewrite !chain_app. cbn. intros (Hl & Hx & _) Hni. split.
  - eapply chain_frame; [|exact Hl]. intros y Hy. rewrite lookup_alter_ne; [done|].
    by intros ->.
  - by rewrite lookup_alter_eq, Hx.
Qed.

Lemma chain_relink_first m p p' x l q :
  chain m p (x :: l) q → x ∉ l →
  chain (alter (with_prev p') x m) p' (x :: l) q.
Proof.
  cbn. intros (Hx & Hl) Hni. split; [by rewrite lookup_alter_eq, Hx|].
  eapply chain_frame; [|exact Hl]. intros y Hy. rewrite lookup_alter_ne; [done|].
  by intros ->.
Qed.

(** What the code makes of the nodes when it puts [a] between [x] and [y], and
    when it takes it out again. *)
Definition insert_between (x a y : tlptr) (m : gmap tlptr threadlistnode) :=
  alter (with_prev (Some a)) y (alter (with_next (Some a)) x
    (<[a := TLN (Some x) (Some y) (self_of a)]> m)).

Definition remove_between (x a y : tlptr) (m : gmap tlptr threadlistnode) :=
  <[a := TLN None None (self_of a)]>
    (alter (with_prev (Some x)) y (alter (with_next (Some y)) x m)).

Lemma insert_between_other x a y m z :
  z ≠ x → z ≠ a → z ≠ y → insert_between x a y m !! z = m !! z.
Proof.
  intros. unfold insert_between. by rewrite !lookup_alter_ne, lookup_insert_ne by done.
Qed.

Lemma remove_between_other x a y m z :
  z ≠ x → z ≠ a → z ≠ y → remove_between x a y m !! z = m !! z.
Proof.
  intros. unfold remove_between. by rewrite lookup_insert_ne, !lookup_alter_ne by done.
Qed.

Lemma chain_insert m p l1 x a y l2 q :
  NoDup (l1 ++ x :: y :: l2) → a ∉ l1 ++ x :: y :: l2 →
  chain m p (l1 ++ x :: y :: l2) q →
  chain (insert_between x a y m) p (l1 ++ x :: a :: y :: l2) q.
Proof.
  intros Hnd Ha Hc. rewrite not_elem_of_app, !not_elem_of_cons in Ha.
  apply list.NoDup_app in Hnd as (H1 & Hdis & Hnd).
  apply list.NoDup_cons in Hnd as [Hx Hnd]. apply list.NoDup_cons in Hnd as [Hy Hnd].
  rewrite (cons_middle x l1 (a :: y :: l2)), assoc in * by apply _.
  rewrite (cons_middle x l1 (y :: l2)), assoc in Hc by apply _.
  apply chain_app in Hc as [Hc1 Hc2]. apply chain_app. rewrite lastp_snoc in *. cbn [first] in *.
  assert (x ≠ y) by (intros ->; apply Hx, list_elem_of_here).
  split; [|split].
  - apply (chain_frame (alter (with_next (Some a)) x m)).
    + intros z Hz. unfold insert_between. apply elem_of_app in Hz.
      rewrite list_elem_of_singleton in Hz.
      rewrite lookup_alter_ne by set_solver.
      destruct (decide (z = x)) as [->|].
      * rewrite !lookup_alter_eq, lookup_insert_ne by set_solver. done.
      * rewrite !lookup_alter_ne, lookup_insert_ne by set_solver. done.
    + eapply chain_relink_last; [done|set_solver].
  - unfold insert_between. rewrite !lookup_alter_ne, lookup_insert_eq by set_solver. done.
  - apply (chain_frame (alter (with_prev (Some a)) y m)).
    + intros z Hz. unfold insert_between. apply elem_of_cons in Hz.
      destruct (decide (z = y)) as [->|].
      * rewrite !lookup_alter_eq, lookup_alter_ne, lookup_insert_ne by set_solver. done.
      * rewrite !lookup_alter_ne, lookup_insert_ne by set_solver. done.
    + eapply chain_relink_first; [done|set_solver].
Qed.

Lemma chain_remove m p l1 x a y l2 q :
  NoDup (l1 ++ x :: a :: y :: l2) →
  chain m p (l1 ++ x :: a :: y :: l2) q →
  chain (remove_between x a y m) p (l1 ++ x :: y :: l2) q.
Proof.
  intros Hnd Hc. apply list.NoDup_app in Hnd as (H1 & Hdis & Hnd).
  apply list.NoDup_cons in Hnd as [Hx Hnd]. apply list.NoDup_cons in Hnd as [Ha Hnd].
  apply list.NoDup_cons in Hnd as [Hy Hnd].
  rewrite (cons_middle x l1 (a :: y :: l2)), assoc in Hc by apply _.
  rewrite (cons_middle x l1 (y :: l2)), assoc by apply _.
  apply chain_app in Hc as [Hc1 Hc2]. apply chain_app. rewrite lastp_snoc in *.
  destruct Hc2 as [_ Hc2]. cbn [first] in *. split.
  - apply (chain_frame (alter (with_next (Some y)) x m)).
    + intros z Hz. unfold remove_between. apply elem_of_app in Hz.
      rewrite list_elem_of_singleton in Hz.
      rewrite lookup_insert_ne, (lookup_alter_ne (with_prev _)) by set_solver. done.
    + eapply chain_relink_last; [done|set_solver].
  - apply (chain_frame (alter (with_prev (Some x)) y m)).
    + intros z Hz. unfold remove_between. rewrite lookup_insert_ne by set_solver.
      destruct (decide (z = y)) as [->|].
      * rewrite !lookup_alter_eq, lookup_alter_ne by set_solver. done.
      * rewrite !lookup_alter_ne by set_solver. done.
    + eapply chain_relink_first; [done|set_solver].
Qed.

(** ** The code on nodes *)

Lemma alter_insert_id (f : threadlistnode → threadlistnode) (m : gmap tlptr threadlistnode) x n :
  m !! x = Some n → alter f x m = <[x := f n]> m.
Proof.
  intros H. apply map_eq. intros z. destruct (decide (z = x)) as [->|Hz].
  - by rewrite lookup_alter_eq, lookup_insert_eq, H.
  - by rewrite lookup_alter_ne, lookup_insert_ne by done.
Qed.

Lemma read_node_eq s p n : nodes s !! p = Some n → read_node p s = Ok n s.
Proof. intros H. unfold read_node, bind, get. by rewrite H. Qed.

Lemma set_prev_eq s p v n :
  nodes s !! p = Some n →
  set_prev p v s = Ok tt (TLMem (<[p := with_prev v n]> (nodes s)) (tl_count s)).
Proof. intros H. unfold set_prev, bind. by rewrite (read_node_eq _ _ _ H). Qed.

Lemma set_next_eq s p v n :
  nodes s !! p = Some n →
  set_next p v s = Ok tt (TLMem (<[p := with_next v n]> (nodes s)) (tl_count s)).
Proof. intros H. unfold set_next, bind. by rewrite (read_node_eq _ _ _ H). Qed.

Section nodes_code.
Context (s : threadlist) (x y : tlptr) (t : Z) (nx ny na : threadlistnode).
Context (Hx : nodes s !! x = Some nx) (Hy : nodes s !! y = Some ny)
  (Ha : nodes s !! TNode t = Some na)
  (Hxa : x ≠ TNode t) (Hya : y ≠ TNode t) (Hxy : x ≠ y).

Ltac nodes_lookup :=
  cbn [nodes tl_count];
  repeat first [rewrite lookup_insert_eq | rewrite lookup_insert_ne by congruence]; try eassumption;
  try reflexivity.
Ltac nodes_step :=
  unfold bind;
  first [ erewrite read_node_eq by nodes_lookup | erewrite set_prev_eq by nodes_lookup
        | erewrite set_next_eq by nodes_lookup ];
  unfold deref, ret; cbn [with_prev with_next tln_prev tln_next tln_self nodes tl_count].

Lemma insert_between_eq :
  tln_self na = Some t →
  insert_between x (TNode t) y (nodes s) =
  <[y := with_prev (Some (TNode t)) ny]> (<[x := with_next (Some (TNode t)) nx]>
    (<[TNode t := TLN (Some x) (Some y) (tln_self na)]> (nodes s))).
Proof using Ha Hx Hxa Hxy Hy Hya.
  intros Hs. unfold insert_between. rewrite Hs. cbn [self_of].
  erewrite (alter_insert_id _ _ x) by nodes_lookup.
  by erewrite (alter_insert_id _ _ y) by nodes_lookup.
Qed.

Lemma insertafternode_eq :
  tln_next nx = Some y → tln_self na = Some t →
  threadlist_insertafternode x t s =
  Ok tt (TLMem (insert_between x (TNode t) y (nodes s)) (tl_count s)).
Proof using Ha Hx Hxa Hxy Hy Hya.
  intros Hn Hs. rewrite insert_between_eq by done. unfold threadlist_insertafternode.
  repeat nodes_step. rewrite Hn. repeat nodes_step.
  cbn [nodes tl_count]. by rewrite !insert_insert_eq.
Qed.

Lemma insertbeforenode_eq :
  tln_prev ny = Some x → tln_self na = Some t →
  threadlist_insertbeforenode t y s =
  Ok tt (TLMem (insert_between x (TNode t) y (nodes s)) (tl_count s)).
Proof using Ha Hx Hxa Hxy Hy Hya.
  intros Hn Hs. rewrite insert_between_eq by done. unfold threadlist_insertbeforenode.
  repeat nodes_step. rewrite Hn. repeat nodes_step.
  cbn [nodes tl_count]. by rewrite !insert_insert_eq.
Qed.

Lemma removenode_eq :
  tln_prev na = Some x → tln_next na = Some y → tln_self na = Some t →
  threadlist_removenode (TNode t) s =
  Ok tt (TLMem (remove_between x (TNode t) y (nodes s)) (tl_count s)).
Proof using Ha Hx Hxa Hxy Hy Hya.
  intros Hp Hn Hs. unfold threadlist_removenode. nodes_step. rewrite Hp. repeat nodes_step.
  rewrite Hn. repeat nodes_step. rewrite insert_insert_eq, Hp.
  unfold remove_between. erewrite (alter_insert_id _ _ x) by nodes_lookup.
  erewrite (alter_insert_id _ _ y) by nodes_lookup.
  unfold with_next, with_prev. cbn [tln_prev tln_next tln_self]. by rewrite Hs.
Qed.

End nodes_code.

(** ** Lists as sequences

    The abstract state: the sequence of threads on every list, and the threads
    that are on no list. *)

Record tlabs := TLAbs { lists : gmap Z (list Z); unlinked : gset Z }.

Definition list_nodes (l : Z) (ts : list Z) : list tlptr :=
  Head l :: map TNode ts ++ [Tail l].

(** A [struct thread *] that is not null. *)
Definition is_ptr (t : Z) : Prop := 0 < t < 4294967296.

(** No thread is in two places. *)
Record tl_wf (a : tlabs) : Prop := {
  wf_nodup l ts : lists a !! l = Some ts → NoDup ts;
  wf_disjoint l l' ts ts' t :
    lists a !! l = Some ts → lists a !! l' = Some ts' → t ∈ ts → t ∈ ts' → l = l';
  wf_unlinked l ts t : lists a !! l = Some ts → t ∈ ts → t ∉ unlinked a;
  wf_ptr l ts t : lists a !! l = Some ts → t ∈ ts → is_ptr t;
  wf_ptr_unlinked t : t ∈ unlinked a → is_ptr t;
}.

Record tl_repr (m : threadlist) (a : tlabs) : Prop := {
  repr_wf : tl_wf a;
  repr_chain l ts : lists a !! l = Some ts → chain (nodes m) None (list_nodes l ts) None;
  repr_count l ts : lists a !! l = Some ts → tl_count m !! l = Some (Z.of_nat (length ts));
  repr_unlinked t : t ∈ unlinked a → nodes m !! TNode t = Some (TLN None None (Some t));
}.

Lemma list_nodes_elem l ts p :
  p ∈ list_nodes l ts ↔ p = Head l ∨ p = Tail l ∨ ∃ t, p = TNode t ∧ t ∈ ts.
Proof.
  unfold list_nodes. rewrite elem_of_cons, elem_of_app, list_elem_of_singleton,
    list_elem_of_fmap. naive_solver.
Qed.

Lemma list_nodes_nodup l ts : NoDup ts → NoDup (list_nodes l ts).
Proof.
  intros H. unfold list_nodes. apply list.NoDup_cons. split.
  - rewrite elem_of_app, list_elem_of_singleton, list_elem_of_fmap. naive_solver.
  - apply list.NoDup_app. split; [|split].
    + apply NoDup_fmap_2; [|done]. by intros ?? [= ->].
    + intros p Hp%list_elem_of_fmap. rewrite list_elem_of_singleton. naive_solver.
    + apply NoDup_singleton.
Qed.

(** A list holds fewer than [2^32] threads, since their addresses differ. *)
Lemma ptrs_bound ts :
  NoDup ts → (∀ t, t ∈ ts → is_ptr t) → is_u32 (Z.of_nat (length ts)).
Proof.
  intros Hnd Hp. enough (length ts ≤ length (seqZ 1 4294967295))%nat as Hl.
  { rewrite length_seqZ in Hl. unfold is_u32. lia. }
  apply submseteq_length, NoDup_submseteq; [done|].
  intros t Ht. apply elem_of_seqZ. specialize (Hp t Ht). unfold is_ptr in Hp. lia.
Qed.

(** The two lists of a memory do not share nodes. *)
Lemma other_list_nodes a l l' ts ts' p :
  tl_wf a → lists a !! l = Some ts → lists a !! l' = Some ts' → l ≠ l' →
  p ∈ list_nodes l ts → p ∉ list_nodes l' ts'.
Proof.
  intros Hw Hl Hl' Hne Hp Hp'. apply list_nodes_elem in Hp, Hp'.
  destruct Hp as [->|[->|(t & -> & Ht)]], Hp' as [?|[?|(t' & ? & Ht')]]; simplify_eq.
  by eapply Hne, wf_disjoint.
Qed.

(** The nodes around a place in a list. *)
Definition before (l : Z) (ts1 : list Z) : tlptr :=
  default (Head l) (lastp None (map TNode ts1)).
Definition after (l : Z) (ts2 : list Z) : tlptr :=
  default (Tail l) (first (map TNode ts2) None).

Lemma list_nodes_before l ts1 ns :
  ∃ l1, Head l :: map TNode ts1 ++ ns = l1 ++ before l ts1 :: ns.
Proof.
  unfold before. destruct ts1 as [|t ts1 _] using rev_ind; [by exists []|].
  exists (Head l :: map TNode ts1). rewrite map_app. cbn. rewrite lastp_snoc. cbn.
  by rewrite <-app_assoc.
Qed.

Lemma list_nodes_after l ts2 :
  ∃ l2, map TNode ts2 ++ [Tail l] = after l ts2 :: l2.
Proof. destruct ts2 as [|t ts2]; cbn; eauto. Qed.

(** A list with a place in it. *)
Lemma list_nodes_at l ts1 ts2 :
  ∃ l1 l2, list_nodes l (ts1 ++ ts2) = l1 ++ before l ts1 :: after l ts2 :: l2 ∧
    ∀ t, list_nodes l (ts1 ++ t :: ts2) =
      l1 ++ before l ts1 :: TNode t :: after l ts2 :: l2.
Proof.
  destruct (list_nodes_after l ts2) as [l2 H2].
  unfold list_nodes. destruct (list_nodes_before l ts1 []) as [l1 H1].
  exists l1, l2.
  assert (Hgen : ∀ ns, Head l :: map TNode ts1 ++ ns = l1 ++ before l ts1 :: ns).
  { intros ns. rewrite app_nil_r in H1.
    change (Head l :: map TNode ts1 ++ ns) with ((Head l :: map TNode ts1) ++ ns).
    rewrite H1. by rewrite <-app_assoc. }
  split; [|intros t]; rewrite map_app, <-app_assoc, Hgen; cbn; by rewrite ?H2.
Qed.

Lemma place_nodes m a l ts1 ts2 :
  tl_repr m a → lists a !! l = Some (ts1 ++ ts2) →
  ∃ nx ny, nodes m !! before l ts1 = Some nx ∧ tln_next nx = Some (after l ts2) ∧
    nodes m !! after l ts2 = Some ny ∧ tln_prev ny = Some (before l ts1) ∧
    before l ts1 ≠ after l ts2.
Proof.
  intros Hr Hl. pose proof (repr_chain _ _ Hr _ _ Hl) as Hc.
  pose proof (list_nodes_nodup l _ (wf_nodup _ (repr_wf _ _ Hr) _ _ Hl)) as Hnd.
  destruct (list_nodes_at l ts1 ts2) as (l1 & l2 & Hn & _). rewrite Hn in Hc, Hnd.
  apply chain_app in Hc as [_ (Hx & Hy & _)].
  apply list.NoDup_app in Hnd as (_ & _ & Hnd). apply list.NoDup_cons in Hnd as [Hne _].
  eexists _, _. split_and!; [exact Hx|done|exact Hy|done|].
  intros He. rewrite He in Hne. apply Hne, list_elem_of_here.
Qed.

Lemma place_elem l ts1 ts2 p :
  p = before l ts1 ∨ p = after l ts2 → p ∈ list_nodes l (ts1 ++ ts2).
Proof.
  destruct (list_nodes_at l ts1 ts2) as (l1 & l2 & -> & _).
  rewrite elem_of_app, !elem_of_cons. naive_solver.
Qed.

Definition abs_insert (l : Z) (ts1 : list Z) (t : Z) (ts2 : list Z) (a : tlabs) : tlabs :=
  TLAbs (<[l := ts1 ++ t :: ts2]> (lists a)) (unlinked a ∖ {[t]}).
Definition abs_remove (l : Z) (ts1 : list Z) (t : Z) (ts2 : list Z) (a : tlabs) : tlabs :=
  TLAbs (<[l := ts1 ++ ts2]> (lists a)) (unlinked a ∪ {[t]}).

(** Both change the elements of one list; every statement about another list
    stays. *)
Lemma wf_insert a l ts1 t ts2 :
  tl_wf a → lists a !! l = Some (ts1 ++ ts2) → t ∈ unlinked a → tl_wf (abs_insert l ts1 t ts2 a).
Proof.
  intros Hw Hl Ht. pose proof (λ l' ts' H H', wf_unlinked _ Hw l' ts' t H H' Ht) as Hni.
  assert (Hin : ∀ l' ts' t', <[l := ts1 ++ t :: ts2]> (lists a) !! l' = Some ts' → t' ∈ ts' →
    (t' = t ∧ l' = l) ∨ (t' ≠ t ∧ ∃ ts0, lists a !! l' = Some ts0 ∧ t' ∈ ts0)).
  { intros l' ts' t' [[-> <-]|[Hne Hl']]%lookup_insert_Some Ht'.
    - destruct (decide (t' = t)) as [->|Hd]; [by left|]. right. split; [done|].
      exists (ts1 ++ ts2). set_solver.
    - right. split; [|by eauto]. intros ->. by eapply Hni. }
  split; cbn.
  - intros l' ts' [[-> <-]|[_ Hl']]%lookup_insert_Some; [|by eapply wf_nodup].
    specialize (wf_nodup _ Hw _ _ Hl). specialize (Hni _ _ Hl). clear -Hni.
    rewrite <-Permutation_middle. intros Hnd. apply list.NoDup_cons. done.
  - intros l' l'' ts' ts'' t' H1 H2 H3 H4.
    destruct (Hin _ _ _ H1 H3) as [[-> ->]|(? & ? & ? & ?)],
      (Hin _ _ _ H2 H4) as [[? ->]|(? & ? & ? & ?)]; try done.
    by eapply wf_disjoint.
  - intros l' ts' t' H1 H2. destruct (Hin _ _ _ H1 H2) as [[-> ->]|(? & ? & ? & ?)]; [set_solver|].
    intros [? _]%elem_of_difference. by eapply wf_unlinked.
  - intros l' ts' t' H1 H2. destruct (Hin _ _ _ H1 H2) as [[-> ->]|(? & ? & ? & ?)].
    + by eapply wf_ptr_unlinked.
    + by eapply wf_ptr.
  - intros t' [? _]%elem_of_difference. by eapply wf_ptr_unlinked.
Qed.

Lemma wf_remove a l ts1 t ts2 :
  tl_wf a → lists a !! l = Some (ts1 ++ t :: ts2) → tl_wf (abs_remove l ts1 t ts2 a).
Proof.
  intros Hw Hl. assert (Hnd : NoDup (t :: ts1 ++ ts2)).
  { rewrite Permutation_middle. by eapply wf_nodup. }
  apply list.NoDup_cons in Hnd as [Hni Hnd].
  assert (Hin : ∀ l' ts' t', <[l := ts1 ++ ts2]> (lists a) !! l' = Some ts' → t' ∈ ts' →
    t' ≠ t ∧ ∃ ts0, lists a !! l' = Some ts0 ∧ t' ∈ ts0).
  { intros l' ts' t' [[-> <-]|[Hne Hl']]%lookup_insert_Some Ht'.
    - split; [by intros ->|]. eexists. split; [done|set_solver].
    - split; [|by eauto]. intros ->. apply Hne. eapply (wf_disjoint _ Hw l l' _ _ t); [done..|set_solver|done]. }
  split; cbn.
  - intros l' ts' [[-> <-]|[_ Hl']]%lookup_insert_Some; [done|by eapply wf_nodup].
  - intros l' l'' ts' ts'' t' H1 H2 H3 H4.
    destruct (Hin _ _ _ H1 H3) as (? & ? & ? & ?), (Hin _ _ _ H2 H4) as (? & ? & ? & ?).
    by eapply wf_disjoint.
  - intros l' ts' t' H1 H2. destruct (Hin _ _ _ H1 H2) as (? & ? & ? & ?).
    intros [?|?%elem_of_singleton]%elem_of_union; [|done]. by eapply wf_unlinked.
  - intros l' ts' t' H1 H2. destruct (Hin _ _ _ H1 H2) as (? & ? & ? & ?). by eapply wf_ptr.
  - intros t' [?| ->%elem_of_singleton]%elem_of_union; [by eapply wf_ptr_unlinked|].
    eapply (wf_ptr _ Hw l _ t); [done..|set_solver].
Qed.

Definition set_count (l : Z) (ts : list Z) (c : gmap Z Z) : gmap Z Z :=
  <[l := Z.of_nat (length ts)]> c.

Lemma repr_insert m a l ts1 t ts2 :
  tl_repr m a → lists a !! l = Some (ts1 ++ ts2) → t ∈ unlinked a →
  tl_repr (TLMem (insert_between (before l ts1) (TNode t) (after l ts2) (nodes m))
                 (set_count l (ts1 ++ t :: ts2) (tl_count m)))
          (abs_insert l ts1 t ts2 a).
Proof.
  intros Hr Hl Ht. pose proof (repr_wf _ _ Hr) as Hw.
  assert (Htn : TNode t ∉ list_nodes l (ts1 ++ ts2)).
  { rewrite list_nodes_elem. intros [?|[?|(t' & [= <-] & ?)]]; [done..|].
    by eapply wf_unlinked. }
  split; cbn [nodes tl_count abs_insert lists unlinked]; [by apply wf_insert|..].
  - intros l' ts' [[<- <-]|[Hne Hl']]%lookup_insert_Some.
    + pose proof (repr_chain _ _ Hr _ _ Hl) as Hc.
      pose proof (list_nodes_nodup l _ (wf_nodup _ Hw _ _ Hl)) as Hnd.
      destruct (list_nodes_at l ts1 ts2) as (l1 & l2 & Hn & Hn'). rewrite Hn'.
      rewrite Hn in Hc, Hnd, Htn. by apply chain_insert.
    + eapply chain_frame; [|by eapply repr_chain]. intros p Hp.
      pose proof (other_list_nodes _ _ _ _ _ _ Hw Hl' Hl (not_eq_sym Hne) Hp) as Hnp.
      apply insert_between_other; [intros ->; apply Hnp, place_elem; auto| |
        intros ->; apply Hnp, place_elem; auto].
      intros ->. apply list_nodes_elem in Hp as [?|[?|(t' & [= <-] & ?)]]; [done..|].
      by eapply wf_unlinked.
  - intros l' ts' [[<- <-]|[Hne Hl']]%lookup_insert_Some; unfold set_count.
    + by rewrite lookup_insert_eq.
    + rewrite lookup_insert_ne by done. by eapply repr_count.
  - intros t' [Ht' Hne]%elem_of_difference. rewrite not_elem_of_singleton in Hne.
    pose proof (repr_unlinked _ _ Hr _ Ht') as Hu.
    assert (Hnt : TNode t' ∉ list_nodes l (ts1 ++ ts2)).
    { rewrite list_nodes_elem. intros [?|[?|(t'' & [= <-] & ?)]]; [done..|].
      by eapply wf_unlinked. }
    rewrite insert_between_other; [done|..]; [|congruence|];
      intros He; apply Hnt; rewrite He; apply place_elem; auto.
Qed.

Lemma repr_remove m a l ts1 t ts2 :
  tl_repr m a → lists a !! l = Some (ts1 ++ t :: ts2) →
  tl_repr (TLMem (remove_between (before l ts1) (TNode t) (after l ts2) (nodes m))
                 (set_count l (ts1 ++ ts2) (tl_count m)))
          (abs_remove l ts1 t ts2 a).
Proof.
  intros Hr Hl. pose proof (repr_wf _ _ Hr) as Hw.
  destruct (list_nodes_at l ts1 ts2) as (l1 & l2 & Hn & Hn'). specialize (Hn' t).
  assert (Hpl : ∀ p, p = before l ts1 ∨ p = after l ts2 ∨ p = TNode t →
    p ∈ list_nodes l (ts1 ++ t :: ts2)).
  { intros p. rewrite Hn', elem_of_app, !elem_of_cons. naive_solver. }
  split; cbn [nodes tl_count abs_remove lists unlinked]; [by apply wf_remove|..].
  - intros l' ts' [[<- <-]|[Hne Hl']]%lookup_insert_Some.
    + pose proof (repr_chain _ _ Hr _ _ Hl) as Hc.
      pose proof (list_nodes_nodup l _ (wf_nodup _ Hw _ _ Hl)) as Hnd.
      rewrite Hn' in Hc, Hnd. rewrite Hn. by apply chain_remove.
    + eapply chain_frame; [|by eapply repr_chain]. intros p Hp.
      pose proof (other_list_nodes _ _ _ _ _ _ Hw Hl' Hl (not_eq_sym Hne) Hp) as Hnp.
      apply remove_between_other; intros ->; apply Hnp, Hpl; auto.
  - intros l' ts' [[<- <-]|[Hne Hl']]%lookup_insert_Some; unfold set_count.
    + by rewrite lookup_insert_eq.
    + rewrite lookup_insert_ne by done. by eapply repr_count.
  - intros t' Ht'. destruct (decide (t' = t)) as [->|Hne].
    { unfold remove_between. by rewrite lookup_insert_eq. }
    assert (Hu : t' ∈ unlinked a) by set_solver.
    assert (Hnt : TNode t' ∉ list_nodes l (ts1 ++ t :: ts2)).
    { rewrite list_nodes_elem. intros [?|[?|(t'' & [= <-] & ?)]]; [done..|].
      by eapply wf_unlinked. }
    rewrite remove_between_other; [by apply (repr_unlinked _ _ Hr)|..];
      intros He; apply Hnt, Hpl; auto.
Qed.

(** ** The operations *)

Lemma count_add_eq s l d c :
  tl_count s !! l = Some c →
  count_add l d s = Ok tt (TLMem (nodes s) (<[l := u32 (c + d)]> (tl_count s))).
Proof. intros H. unfold count_add, read_count, bind, get. by rewrite H. Qed.

Section ops.
Context (m : threadlist) (a : tlabs) (Hr : tl_repr m a).
Context (l : Z) (ts1 ts2 : list Z) (t : Z).

Let before_ne ts : t ∉ ts → before l ts ≠ TNode t.
Proof.
  unfold before. destruct ts as [|x ts _] using rev_ind; [done|].
  rewrite map_app. cbn. rewrite lastp_snoc. cbn. set_solver.
Qed.

Let after_ne ts : t ∉ ts → after l ts ≠ TNode t.
Proof. destruct ts as [|x ts]; cbn; [done|]. set_solver. Qed.

(** What inserting and counting make of the memory. *)
Definition inserted : threadlist :=
  TLMem (insert_between (before l ts1) (TNode t) (after l ts2) (nodes m))
        (set_count l (ts1 ++ t :: ts2) (tl_count m)).

Section insert.
Context (Hl : lists a !! l = Some (ts1 ++ ts2)) (Ht : t ∈ unlinked a).

Let Hni : t ∉ ts1 ++ ts2.
Proof. intros H. by eapply (wf_unlinked _ (repr_wf _ _ Hr)). Qed.

Lemma inserted_bound : u32 (Z.of_nat (length (ts1 ++ ts2)) + 1) = Z.of_nat (length (ts1 ++ t :: ts2)).
Proof using Hl Hni Hr Ht.
  pose proof (wf_insert _ _ _ _ _ (repr_wf _ _ Hr) Hl Ht) as Hw.
  pose proof (lookup_insert_eq (lists a) l (ts1 ++ t :: ts2)) as Hlk.
  pose proof (ptrs_bound _ (wf_nodup _ Hw _ _ Hlk) (λ t, wf_ptr _ Hw _ _ t Hlk)) as Hb.
  rewrite <-(u32_small _ Hb). f_equal. rewrite !length_app. cbn. lia.
Qed.

Lemma inserted_count s :
  tl_count s = tl_count m → nodes s = nodes inserted → count_add l 1 s = Ok tt inserted.
Proof using Hl Hni Hr Ht.
  intros Hc Hn. rewrite (count_add_eq _ _ _ (Z.of_nat (length (ts1 ++ ts2)))).
  - rewrite inserted_bound, Hc, Hn. done.
  - rewrite Hc. by eapply repr_count.
Qed.

Lemma insertafter_eq :
  (threadlist_insertafternode (before l ts1) t ;;; count_add l 1) m = Ok tt inserted.
Proof using Hl Hr Ht.
  destruct (place_nodes _ _ _ _ _ Hr Hl) as (nx & ny & Hx & Hxn & Hy & Hyp & Hne).
  unfold bind. rewrite (insertafternode_eq m _ (after l ts2) t nx ny _ Hx Hy
    (repr_unlinked _ _ Hr _ Ht)); [by apply inserted_count|..]; try done.
  - apply before_ne. set_solver.
  - apply after_ne. set_solver.
Qed.

Lemma insertbefore_eq :
  (threadlist_insertbeforenode t (after l ts2) ;;; count_add l 1) m = Ok tt inserted.
Proof using Hl Hr Ht.
  destruct (place_nodes _ _ _ _ _ Hr Hl) as (nx & ny & Hx & Hxn & Hy & Hyp & Hne).
  unfold bind. rewrite (insertbeforenode_eq m (before l ts1) _ t nx ny _ Hx Hy
    (repr_unlinked _ _ Hr _ Ht)); [by apply inserted_count|..]; try done.
  - apply before_ne. set_solver.
  - apply after_ne. set_solver.
Qed.

End insert.
End ops.

(** What removing and counting make of the memory. *)
Definition removed (m : threadlist) (l : Z) (ts1 : list Z) (t : Z) (ts2 : list Z) : threadlist :=
  TLMem (remove_between (before l ts1) (TNode t) (after l ts2) (nodes m))
        (set_count l (ts1 ++ ts2) (tl_count m)).

Section remove.
Context (m : threadlist) (a : tlabs) (Hr : tl_repr m a).
Context (l : Z) (ts1 ts2 : list Z) (t : Z) (Hl : lists a !! l = Some (ts1 ++ t :: ts2)).

(** The node of the thread and its neighbours. *)
Lemma place_node :
  nodes m !! TNode t = Some (TLN (Some (before l ts1)) (Some (after l ts2)) (Some t)) ∧
  (∃ nx, nodes m !! before l ts1 = Some nx) ∧ (∃ ny, nodes m !! after l ts2 = Some ny) ∧
  before l ts1 ≠ TNode t ∧ after l ts2 ≠ TNode t ∧ before l ts1 ≠ after l ts2.
Proof using Hr Hl.
  pose proof (repr_chain _ _ Hr _ _ Hl) as Hc.
  pose proof (list_nodes_nodup l _ (wf_nodup _ (repr_wf _ _ Hr) _ _ Hl)) as Hnd.
  destruct (list_nodes_at l ts1 ts2) as (l1 & l2 & _ & Hn). rewrite Hn in Hc, Hnd.
  apply chain_app in Hc as [_ (Hx & Ha & Hy & _)].
  apply list.NoDup_app in Hnd as (_ & _ & Hnd).
  apply list.NoDup_cons in Hnd as [Hnx Hnd]. apply list.NoDup_cons in Hnd as [Hna Hnd].
  split_and!; [exact Ha|by eauto..| | |]; set_solver.
Qed.

Lemma removenode_removed s c :
  tl_count m !! l = Some c →
  threadlist_removenode (TNode t) m = Ok tt s → count_add l (-1) s = Ok tt (removed m l ts1 t ts2).
Proof using Hr Hl.
  intros Hc. destruct place_node as (Ha & [nx Hx] & [ny Hy] & ? & ? & ?).
  rewrite (removenode_eq m (before l ts1) (after l ts2) t nx ny _ Hx Hy Ha) by done.
  intros [= <-]. rewrite (repr_count _ _ Hr _ _ Hl) in Hc. simplify_eq.
  erewrite count_add_eq by (cbn; by eapply repr_count). cbn [nodes tl_count].
  unfold removed, set_count. do 3 f_equal.
  assert (Hb : Z.of_nat (length (ts1 ++ t :: ts2)) + -1 = Z.of_nat (length (ts1 ++ ts2))).
  { rewrite !length_app. cbn. lia. }
  rewrite Hb. apply u32_small. pose proof (wf_remove _ _ _ _ _ (repr_wf _ _ Hr) Hl) as Hw.
  pose proof (lookup_insert_eq (lists a) l (ts1 ++ ts2)) as Hlk.
  by apply (ptrs_bound _ (wf_nodup _ Hw _ _ Hlk) (λ t, wf_ptr _ Hw _ _ t Hlk)).
Qed.

Lemma removenode_ok : ∃ s, threadlist_removenode (TNode t) m = Ok tt s.
Proof using Hr Hl.
  destruct place_node as (Ha & [nx Hx] & [ny Hy] & ? & ? & ?).
  rewrite (removenode_eq m (before l ts1) (after l ts2) t nx ny _ Hx Hy Ha) by done. eauto.
Qed.

Lemma remove_eq : threadlist_remove l t m = Ok tt (removed m l ts1 t ts2).
Proof using Hr Hl.
  destruct removenode_ok as [s Hs]. unfold threadlist_remove, bind. rewrite Hs.
  eapply removenode_removed; [|done]. by eapply repr_count.
Qed.

(** [threadlist_removenode(tln); tl->tl_count--; return tln->tln_self;] *)
Lemma take_eq :
  (threadlist_removenode (TNode t) ;;; count_add l (-1) ;;;
   n <- read_node (TNode t) ;; ret (tln_self n)) m = Ok (Some t) (removed m l ts1 t ts2).
Proof using Hr Hl.
  destruct removenode_ok as [s Hs]. unfold bind at 1. rewrite Hs. unfold bind at 1.
  rewrite (removenode_removed s (Z.of_nat (length (ts1 ++ t :: ts2)))); [|by eapply repr_count|done].
  unfold bind. erewrite read_node_eq by (cbn; unfold remove_between; apply lookup_insert_eq).
  done.
Qed.

End remove.

(** The memory after the operation stands for the lists after it. *)
Definition refines {A} (o : res threadlist A) (x : A) (a' : tlabs) : Prop :=
  ∃ m', o = Ok x m' ∧ tl_repr m' a'.

Section lists.
Context (m : threadlist) (a : tlabs) (Hr : tl_repr m a).

Lemma head_node l ts :
  lists a !! l = Some ts → nodes m !! Head l = Some (TLN None (Some (after l ts)) None).
Proof using Hr.
  intros Hl. destruct (repr_chain _ _ Hr _ _ Hl) as [Hh _]. rewrite Hh.
  destruct ts; done.
Qed.

Lemma tail_node l ts :
  lists a !! l = Some ts → nodes m !! Tail l = Some (TLN (Some (before l ts)) None None).
Proof using Hr.
  intros Hl. pose proof (repr_chain _ _ Hr _ _ Hl) as Hc.
  unfold list_nodes in Hc. rewrite app_comm_cons in Hc. apply chain_app in Hc as [_ [Ht _]].
  rewrite Ht. unfold before. destruct ts as [|x ts _] using rev_ind; [done|].
  rewrite map_app, app_comm_cons. cbn [map]. by rewrite !lastp_snoc.
Qed.

Lemma addhead_refines l ts t :
  lists a !! l = Some ts → t ∈ unlinked a →
  refines (threadlist_addhead l t m) tt (abs_insert l [] t ts a).
Proof using Hr.
  intros Hl Ht. eexists. split; [apply (insertafter_eq m a Hr l [] ts t Hl Ht)|].
  by apply (repr_insert m a l [] t ts).
Qed.

Lemma addtail_refines l ts t :
  lists a !! l = Some ts → t ∈ unlinked a →
  refines (threadlist_addtail l t m) tt (abs_insert l ts t [] a).
Proof using Hr.
  rewrite <-(app_nil_r ts) at 1. intros Hl Ht. eexists.
  split; [apply (insertbefore_eq m a Hr l ts [] t Hl Ht)|]. by apply (repr_insert m a l ts t []).
Qed.

Lemma insertafter_refines l ts1 x ts2 t :
  lists a !! l = Some (ts1 ++ x :: ts2) → t ∈ unlinked a →
  refines (threadlist_insertafter l x t m) tt (abs_insert l (ts1 ++ [x]) t ts2 a).
Proof using Hr.
  rewrite cons_middle, app_assoc. intros Hl Ht. eexists.
  split; [|by apply repr_insert]. pose proof (insertafter_eq m a Hr l _ ts2 t Hl Ht) as H.
  unfold before in H. rewrite map_app in H. cbn [map] in H. rewrite lastp_snoc in H. exact H.
Qed.

Lemma insertbefore_refines l ts1 x ts2 t :
  lists a !! l = Some (ts1 ++ x :: ts2) → t ∈ unlinked a →
  refines (threadlist_insertbefore l t x m) tt (abs_insert l ts1 t (x :: ts2) a).
Proof using Hr.
  intros Hl Ht. eexists. split; [apply (insertbefore_eq m a Hr l ts1 (x :: ts2) t Hl Ht)|].
  by apply repr_insert.
Qed.

Lemma remove_refines l ts1 t ts2 :
  lists a !! l = Some (ts1 ++ t :: ts2) →
  refines (threadlist_remove l t m) tt (abs_remove l ts1 t ts2 a).
Proof using Hr.
  intros Hl. eexists. split; [by apply (remove_eq m a)|]. by apply repr_remove.
Qed.

Lemma remhead_refines l ts :
  lists a !! l = Some ts →
  refines (threadlist_remhead l m) (head ts)
    (match ts with [] => a | t :: ts => abs_remove l [] t ts a end).
Proof using Hr.
  intros Hl. unfold threadlist_remhead, bind at 1.
  rewrite (read_node_eq _ _ _ (head_node l ts Hl)). cbn [deref tln_next]. unfold bind at 1, ret at 1.
  destruct ts as [|t ts]; unfold bind at 1; cbn [after map first default].
  - erewrite read_node_eq by (exact (tail_node l [] Hl)). cbn. by exists m.
  - erewrite read_node_eq by (exact (proj1 (place_node m a Hr l [] ts t Hl))). cbn [tln_next].
    eexists. split; [apply (take_eq m a Hr l [] ts t Hl)|]. by apply (repr_remove m a l [] t ts).
Qed.

Lemma remtail_refines l ts :
  lists a !! l = Some ts →
  refines (threadlist_remtail l m) (list.last ts)
    (match list.last ts with None => a | Some t => abs_remove l (removelast ts) t [] a end).
Proof using Hr.
  intros Hl. unfold threadlist_remtail, bind at 1.
  rewrite (read_node_eq _ _ _ (tail_node l ts Hl)). cbn [deref tln_prev]. unfold bind at 1, ret at 1.
  destruct ts as [|t ts _] using rev_ind; unfold bind at 1.
  - cbn [before map lastp default]. erewrite read_node_eq by (exact (head_node l [] Hl)). cbn. by exists m.
  - unfold before. rewrite map_app. cbn [map]. rewrite lastp_snoc. cbn [default].
    erewrite read_node_eq by (exact (proj1 (place_node m a Hr l ts [] t Hl))). cbn [tln_prev].
    rewrite list.last_snoc, removelast_last. eexists.
    split; [apply (take_eq m a Hr l ts [] t Hl)|]. by apply (repr_remove m a l ts t []).
Qed.

Lemma isempty_spec l ts :
  lists a !! l = Some ts → threadlist_isempty l m = Ok (bool_decide (ts = [])) m.
Proof using Hr.
  intros Hl. unfold threadlist_isempty, read_count, bind, get. rewrite (repr_count _ _ Hr _ _ Hl).
  cbn. by destruct ts.
Qed.

Lemma cleanup_spec l ts :
  lists a !! l = Some ts →
  threadlist_cleanup l m = if bool_decide (ts = []) then Ok tt m else Crash CPanic.
Proof using Hr.
  intros Hl. unfold threadlist_cleanup, bind at 1. rewrite (isempty_spec _ _ Hl).
  destruct ts; [|done]. unfold KASSERT, read_count, bind, get, ret. cbn.
  by rewrite (repr_count _ _ Hr _ _ Hl).
Qed.

End lists.

(** ** Iteration *)

Lemma forall_next_from m a l ts1 ts2 k :
  tl_repr m a → lists a !! l = Some (ts1 ++ ts2) → (length ts2 < k)%nat →
  forall_from k tln_next (before l ts1) m = Ok ts2 m.
Proof.
  intros Hr. revert ts1 k. induction ts2 as [|t ts2 IH]; intros ts1 k Hl Hk;
    (destruct k as [|k]; [cbn in Hk; lia|]);
    destruct (place_nodes _ _ _ _ _ Hr Hl) as (nx & ny & Hx & Hxn & Hy & Hyp & _);
    cbn [forall_from]; unfold bind; rewrite (read_node_eq _ _ _ Hx), Hxn; cbn [deref ret];
    unfold ret; rewrite (read_node_eq _ _ _ Hy).
  - rewrite app_nil_r in Hl. pose proof (tail_node _ _ Hr _ _ Hl) as Ht.
    cbn in Hy. rewrite Ht in Hy. by simplify_eq.
  - pose proof (proj1 (place_node _ _ Hr _ _ _ _ Hl)) as Ht.
    cbn in Hy. rewrite Ht in Hy. simplify_eq. cbn [tln_self].
    assert (Hb : before l (ts1 ++ [t]) = TNode t).
    { unfold before. rewrite map_app. cbn [map]. by rewrite lastp_snoc. }
    rewrite cons_middle, app_assoc in Hl. specialize (IH (ts1 ++ [t]) k Hl).
    rewrite Hb in IH. rewrite IH by (cbn in Hk; lia). done.
Qed.

Lemma forall_prev_from m a l ts1 ts2 k :
  tl_repr m a → lists a !! l = Some (ts1 ++ ts2) → (length ts1 < k)%nat →
  forall_from k tln_prev (after l ts2) m = Ok (rev ts1) m.
Proof.
  intros Hr. revert ts2 k. induction ts1 as [|t ts1 IH] using rev_ind; intros ts2 k Hl Hk;
    (destruct k as [|k]; [cbn in Hk; lia|]);
    destruct (place_nodes _ _ _ _ _ Hr Hl) as (nx & ny & Hx & Hxn & Hy & Hyp & _);
    cbn [forall_from]; unfold bind; rewrite (read_node_eq _ _ _ Hy), Hyp; cbn [deref ret];
    unfold ret; rewrite (read_node_eq _ _ _ Hx).
  - pose proof (head_node _ _ Hr _ _ Hl) as Ht.
    cbn in Hx. rewrite Ht in Hx. by simplify_eq.
  - assert (Hb : before l (ts1 ++ [t]) = TNode t).
    { unfold before. rewrite map_app. cbn [map]. by rewrite lastp_snoc. }
    rewrite <-app_assoc in Hl. pose proof (proj1 (place_node _ _ Hr _ _ _ _ Hl)) as Ht.
    rewrite Hb, Ht in Hx. simplify_eq. cbn [tln_self].
    specialize (IH (t :: ts2) k Hl). change (after l (t :: ts2)) with (TNode t) in IH.
    rewrite IH by (rewrite length_app in Hk; cbn in Hk; lia).
    by rewrite rev_app_distr.
Qed.

(** ** Refinement of the whole interface *)

(** The calls of the interface. *)
Inductive tlop :=
  | NodeInit (t : Z) | NodeCleanup (t : Z) | Init (l : Z) | Cleanup (l : Z) | IsEmpty (l : Z)
  | AddHead (l t : Z) | AddTail (l t : Z) | RemHead (l : Z) | RemTail (l : Z)
  | InsertAfter (l onlist addee : Z) | InsertBefore (l addee onlist : Z) | Remove (l t : Z)
  | Forall (l : Z) | ForallRev (l : Z).

(** What a call returns. *)
Inductive tlval := Void | Bool (b : bool) | Thread (t : option Z) | Threads (ts : list Z).

Definition void (m : M threadlist unit) : M threadlist tlval := m ;;; ret Void.

Definition tl_run (fuel : nat) (o : tlop) : M threadlist tlval :=
  match o with
  | NodeInit t => void (threadlistnode_init t)
  | NodeCleanup t => void (threadlistnode_cleanup (TNode t))
  | Init l => void (threadlist_init l)
  | Cleanup l => void (threadlist_cleanup l)
  | IsEmpty l => b <- threadlist_isempty l ;; ret (Bool b)
  | AddHead l t => void (threadlist_addhead l t)
  | AddTail l t => void (threadlist_addtail l t)
  | RemHead l => t <- threadlist_remhead l ;; ret (Thread t)
  | RemTail l => t <- threadlist_remtail l ;; ret (Thread t)
  | InsertAfter l x t => void (threadlist_insertafter l x t)
  | InsertBefore l t x => void (threadlist_insertbefore l t x)
  | Remove l t => void (threadlist_remove l t)
  | Forall l => ts <- THREADLIST_FORALL fuel l ;; ret (Threads ts)
  | ForallRev l => ts <- THREADLIST_FORALL_REV fuel l ;; ret (Threads ts)
  end.

(** What a call does to the sequences: [tl_spec a o v a'].  A list is
    initialised while no thread is on it, a thread while it is on no list. *)
Inductive tl_spec (a : tlabs) : tlop → tlval → tlabs → Prop :=
  | SpecNodeInit t :
      is_ptr t → (∀ l ts, lists a !! l = Some ts → t ∉ ts) →
      tl_spec a (NodeInit t) Void (TLAbs (lists a) (unlinked a ∪ {[t]}))
  | SpecNodeCleanup t : t ∈ unlinked a → tl_spec a (NodeCleanup t) Void a
  | SpecInit l :
      (∀ ts, lists a !! l = Some ts → ts = []) →
      tl_spec a (Init l) Void (TLAbs (<[l := []]> (lists a)) (unlinked a))
  | SpecCleanup l : lists a !! l = Some [] → tl_spec a (Cleanup l) Void a
  | SpecIsEmpty l ts :
      lists a !! l = Some ts → tl_spec a (IsEmpty l) (Bool (bool_decide (ts = []))) a
  | SpecAddHead l t ts :
      lists a !! l = Some ts → t ∈ unlinked a →
      tl_spec a (AddHead l t) Void (TLAbs (<[l := t :: ts]> (lists a)) (unlinked a ∖ {[t]}))
  | SpecAddTail l t ts :
      lists a !! l = Some ts → t ∈ unlinked a →
      tl_spec a (AddTail l t) Void (TLAbs (<[l := ts ++ [t]]> (lists a)) (unlinked a ∖ {[t]}))
  | SpecRemHeadEmpty l : lists a !! l = Some [] → tl_spec a (RemHead l) (Thread None) a
  | SpecRemHead l t ts :
      lists a !! l = Some (t :: ts) →
      tl_spec a (RemHead l) (Thread (Some t)) (TLAbs (<[l := ts]> (lists a)) (unlinked a ∪ {[t]}))
  | SpecRemTailEmpty l : lists a !! l = Some [] → tl_spec a (RemTail l) (Thread None) a
  | SpecRemTail l t ts :
      lists a !! l = Some (ts ++ [t]) →
      tl_spec a (RemTail l) (Thread (Some t)) (TLAbs (<[l := ts]> (lists a)) (unlinked a ∪ {[t]}))
  | SpecInsertAfter l x t ts1 ts2 :
      lists a !! l = Some (ts1 ++ x :: ts2) → t ∈ unlinked a →
      tl_spec a (InsertAfter l x t) Void
        (TLAbs (<[l := ts1 ++ x :: t :: ts2]> (lists a)) (unlinked a ∖ {[t]}))
  | SpecInsertBefore l x t ts1 ts2 :
      lists a !! l = Some (ts1 ++ x :: ts2) → t ∈ unlinked a →
      tl_spec a (InsertBefore l t x) Void
        (TLAbs (<[l := ts1 ++ t :: x :: ts2]> (lists a)) (unlinked a ∖ {[t]}))
  | SpecRemove l t ts1 ts2 :
      lists a !! l = Some (ts1 ++ t :: ts2) →
      tl_spec a (Remove l t) Void (TLAbs (<[l := ts1 ++ ts2]> (lists a)) (unlinked a ∪ {[t]}))
  | SpecForall l ts : lists a !! l = Some ts → tl_spec a (Forall l) (Threads ts) a
  | SpecForallRev l ts : lists a !! l = Some ts → tl_spec a (ForallRev l) (Threads (rev ts)) a.

Lemma node_init_refines m a t :
  tl_repr m a → is_ptr t → (∀ l ts, lists a !! l = Some ts → t ∉ ts) →
  refines (threadlistnode_init t m) tt (TLAbs (lists a) (unlinked a ∪ {[t]})).
Proof.
  intros Hr Hp Hni. unfold threadlistnode_init, bind, KASSERT, is_ptr in *.
  destruct (Z.eqb_spec t 0) as [->|_]; [lia|]. cbn. eexists. split; [done|].
  pose proof (repr_wf _ _ Hr) as Hw. split; cbn [nodes tl_count lists unlinked].
  - split; cbn; try apply Hw.
    + intros l ts t' Hl Ht' [?| ->%elem_of_singleton]%elem_of_union; [by eapply wf_unlinked|].
      by eapply Hni.
    + intros t' [?| ->%elem_of_singleton]%elem_of_union; [by eapply wf_ptr_unlinked|done].
  - intros l ts Hl. eapply chain_frame; [|by eapply repr_chain].
    intros p Hp'. rewrite lookup_insert_ne; [done|]. intros <-.
    apply list_nodes_elem in Hp' as [?|[?|(t' & [= <-] & ?)]]; [done..|]. by eapply Hni.
  - apply (repr_count _ _ Hr).
  - intros t' Ht'. destruct (decide (t' = t)) as [->|Hne]; [by rewrite lookup_insert_eq|].
    rewrite lookup_insert_ne by congruence. apply (repr_unlinked _ _ Hr). set_solver.
Qed.

Lemma init_refines m a l :
  tl_repr m a → (∀ ts, lists a !! l = Some ts → ts = []) →
  refines (threadlist_init l m) tt (TLAbs (<[l := []]> (lists a)) (unlinked a)).
Proof.
  intros Hr Hl. eexists. split; [done|]. pose proof (repr_wf _ _ Hr) as Hw.
  assert (Hin : ∀ l' ts t, <[l := []]> (lists a) !! l' = Some ts → t ∈ ts →
    lists a !! l' = Some ts).
  { intros l' ts t [[-> <-]|[_ ?]]%lookup_insert_Some Ht; [by apply elem_of_nil in Ht|done]. }
  split; cbn [nodes tl_count lists unlinked].
  - split; cbn.
    + intros l' ts [[-> <-]|[_ ?]]%lookup_insert_Some; [apply NoDup_nil_2|by eapply wf_nodup].
    + intros. eapply (wf_disjoint _ Hw); eauto.
    + intros. eapply (wf_unlinked _ Hw); eauto.
    + intros. eapply (wf_ptr _ Hw); eauto.
    + apply Hw.
  - intros l' ts [[<- <-]|[Hne Hl']]%lookup_insert_Some.
    + cbn. rewrite lookup_insert_ne, !lookup_insert_eq by done. done.
    + eapply chain_frame; [|by eapply repr_chain]. intros p Hp.
      apply list_nodes_elem in Hp. rewrite !lookup_insert_ne by naive_solver. done.
  - intros l' ts [[<- <-]|[Hne Hl']]%lookup_insert_Some; [by rewrite lookup_insert_eq|].
    rewrite lookup_insert_ne by done. by eapply repr_count.
  - intros t Ht. rewrite !lookup_insert_ne by done. by apply (repr_unlinked _ _ Hr).
Qed.

Lemma node_cleanup_ok m a t :
  tl_repr m a → t ∈ unlinked a → threadlistnode_cleanup (TNode t) m = Ok tt m.
Proof.
  intros Hr Ht. unfold threadlistnode_cleanup, bind.
  by rewrite (read_node_eq _ _ _ (repr_unlinked _ _ Hr _ Ht)).
Qed.

Lemma refines_bind {A B} (m : M threadlist A) (k : A → B) s x a :
  refines (m s) x a → refines ((y <- m ;; ret (k y)) s) (k x) a.
Proof. intros (s' & Hm & Hr). exists s'. split; [|done]. unfold bind. by rewrite Hm. Qed.

Lemma tl_run_refines fuel m a o v a' :
  tl_repr m a → (∀ l ts, lists a !! l = Some ts → (length ts < fuel)%nat) →
  tl_spec a o v a' → refines (tl_run fuel o m) v a'.
Proof.
  intros Hr Hf Hs. destruct Hs; cbn [tl_run]; unfold void;
    match goal with
    | |- refines (bind ?mm _ _) (Bool ?b) _ => apply (refines_bind mm Bool m b)
    | |- refines (bind ?mm _ _) (Thread ?b) _ => apply (refines_bind mm Thread m b)
    | |- refines (bind ?mm _ _) (Threads ?b) _ => apply (refines_bind mm Threads m b)
    | |- refines (bind ?mm _ _) Void _ => apply (refines_bind mm (λ _, Void) m tt)
    end.
  - by apply node_init_refines.
  - exists m. split; [by eapply node_cleanup_ok|done].
  - by apply init_refines.
  - exists m. by rewrite (cleanup_spec _ _ Hr _ [] ltac:(done)).
  - exists m. by rewrite (isempty_spec _ _ Hr _ ts ltac:(done)).
  - by apply (addhead_refines m a Hr).
  - by apply (addtail_refines m a Hr).
  - by apply (remhead_refines m a Hr l []).
  - by apply (remhead_refines m a Hr l (t :: ts)).
  - by apply (remtail_refines m a Hr l []).
  - pose proof (remtail_refines m a Hr l (ts ++ [t]) ltac:(done)) as Hrt.
    rewrite list.last_snoc, removelast_last in Hrt. unfold abs_remove in Hrt.
    by rewrite app_nil_r in Hrt.
  - pose proof (insertafter_refines m a Hr l ts1 x ts2 t ltac:(done) ltac:(done)) as Hi.
    unfold abs_insert in Hi. by rewrite <-app_assoc in Hi.
  - by apply (insertbefore_refines m a Hr).
  - by apply (remove_refines m a Hr).
  - exists m. split; [|done]. eapply (forall_next_from m a l [] ts); [done..|]. by eapply Hf.
  - exists m. split; [|done]. eapply (forall_prev_from m a l ts []); [done| |by eapply Hf].
    by rewrite app_nil_r.
Qed.

(** ** Sequences of calls *)

Fixpoint tl_runs (fuel : nat) (os : list tlop) : M threadlist (list tlval) :=
  match os with
  | [] => ret []
  | o :: os => v <- tl_run fuel o ;; vs <- tl_runs fuel os ;; ret (v :: vs)
  end.

Inductive tl_specs : tlabs → list tlop → list tlval → tlabs → Prop :=
  | specs_nil a : tl_specs a [] [] a
  | specs_cons a o v a' os vs a'' :
      tl_spec a o v a' → tl_specs a' os vs a'' → tl_specs a (o :: os) (v :: vs) a''.

(** No list is longer than [n]. *)
Definition shorter (n : nat) (a : tlabs) : Prop :=
  ∀ l ts, lists a !! l = Some ts → (length ts ≤ n)%nat.

(** A call makes a list longer by at most one. *)
Lemma tl_spec_length a o v a' n :
  tl_spec a o v a' → shorter n a → shorter (S n) a'.
Proof.
  unfold shorter. intros Hs Hn.
  assert (Hn' : ∀ l ts, lists a !! l = Some ts → (length ts ≤ S n)%nat).
  { intros l ts Hl. specialize (Hn _ _ Hl). lia. }
  destruct Hs; cbn [lists]; try done; intros l' ts' [[-> <-]|[_ Hl']]%lookup_insert_Some; eauto;
    try (match goal with Hl : lists a !! _ = Some _ |- _ => specialize (Hn _ _ Hl) end);
    rewrite ?length_app in *; cbn in *; lia.
Qed.

(** C20: the operations on thread lists refine operations on sequences: run from
    any memory in which the lists hold given sequences, a sequence of calls
    that respects the interface (a thread is added only while it is on no
    list) returns what the sequences say, visits the threads in order when
    iterating in either direction, keeps every [tl_count], and leaves the lists
    that a call does not name as they were. *)
Theorem threadlist_refines fuel n m a os vs a' :
  tl_repr m a → shorter n a → (n + length os < fuel)%nat →
  tl_specs a os vs a' → refines (tl_runs fuel os m) vs a'.
Proof.
  intros Hr Hn Hf Hs. revert n m Hr Hn Hf.
  induction Hs as [a|a o v a' os vs a'' Ho Hs IH]; intros n m Hr Hn Hf; [by exists m|].
  cbn [length] in Hf.
  destruct (tl_run_refines fuel m a o v a' Hr) as (m1 & Hm1 & Hr1); [|done|].
  { intros l ts Hl. specialize (Hn _ _ Hl). lia. }
  destruct (IH (S n) m1 Hr1) as (m2 & Hm2 & Hr2); [by eapply tl_spec_length|lia|].
  exists m2. split; [|done]. cbn [tl_runs]. unfold bind. by rewrite Hm1, Hm2.
Qed.

(** Memory and sequences before anything is initialised. *)
Definition tl_empty : threadlist := TLMem ∅ ∅.
Definition abs_empty : tlabs := TLAbs ∅ ∅.

Lemma tl_empty_repr : tl_repr tl_empty abs_empty.
Proof.
  split; [split|..]; intros *; cbn; rewrite ?lookup_empty, ?elem_of_empty; done.
Qed.

(** Two threads are put on one of two lists. *)
Definition sample_ops : list tlop :=
  [Init 1; Init 2; NodeInit 16; NodeInit 32; AddTail 1 16; AddHead 1 32; ForallRev 1].

Lemma threadlist_refines_witness :
  refines (tl_runs 12 sample_ops tl_empty)
    [Void; Void; Void; Void; Void; Void; Threads [16; 32]]
    (TLAbs (<[1 := [32; 16]]> (<[1 := [16]]> (<[2 := []]> (<[1 := []]> ∅))))
           (((∅ ∪ {[16]} ∪ {[32]}) ∖ {[16]}) ∖ {[32]})).
Proof.
  apply (threadlist_refines 12 0 _ abs_empty); [exact tl_empty_repr|done|cbn; lia|].
  repeat eapply specs_cons; try apply specs_nil.
  - apply SpecInit. done.
  - apply SpecInit. cbn. intros ts. by rewrite lookup_insert_ne.
  - apply SpecNodeInit; [done|]. intros l ts. cbn.
    intros [[_ <-]|[_ [[_ <-]|[_ ?]]%lookup_insert_Some]]%lookup_insert_Some; [set_solver..|done].
  - apply SpecNodeInit; [done|]. intros l ts. cbn.
    intros [[_ <-]|[_ [[_ <-]|[_ ?]]%lookup_insert_Some]]%lookup_insert_Some; [set_solver..|done].
  - apply (SpecAddTail _ _ _ []); [done|]. cbn. set_solver.
  - apply (SpecAddHead _ _ _ [16]); [done|]. cbn. set_solver.
  - apply (SpecForallRev _ _ [32; 16]). done.
Defined.
