(* ===== verification/Spinlock.v ===== *)
(** * Interrupt levels and spinlocks

    [splraise], [spllower] and [splx] of kern/thread/spl.c and the spinlocks of
    kern/thread/spinlock.c with the load-linked/store-conditional primitive of
    the MIPS.  [splx] and its helpers are computations on the state of one
    processor.  Several processors run [spinlock_acquire] and
    [spinlock_release] at once: each call is cut at its accesses to the shared
    lock, and [step] interleaves the pieces of all the processors. *)

From S2P Require Import Prelude.
Open Scope Z_scope.

(** ** The code *)

Definition IPL_NONE : Z := 0.
Definition IPL_HIGH : Z := 1.

(** What the code uses of [curcpu] and of the thread that runs on it; [irq_on]
    is the interrupt enable bit that [cpu_irqoff] and [cpu_irqon] change, and
    [cpu_exists] is [CURCPU_EXISTS()]. *)
Record cpu := Cpu {
  cpu_exists : bool;
  c_self : Z;
  c_spinlocks : Z;
  t_curspl : Z;
  t_iplhigh_count : Z;
  irq_on : bool;
}.

Definition set_spinlocks (n : Z) (c : cpu) : cpu :=
  Cpu (cpu_exists c) (c_self c) n (t_curspl c) (t_iplhigh_count c) (irq_on c).
Definition set_curspl (n : Z) (c : cpu) : cpu :=
  Cpu (cpu_exists c) (c_self c) (c_spinlocks c) n (t_iplhigh_count c) (irq_on c).
Definition set_iplhigh (n : Z) (c : cpu) : cpu :=
  Cpu (cpu_exists c) (c_self c) (c_spinlocks c) (t_curspl c) n (irq_on c).
Definition set_irq (b : bool) (c : cpu) : cpu :=
  Cpu (cpu_exists c) (c_self c) (c_spinlocks c) (t_curspl c) (t_iplhigh_count c) b.

Definition cpu_irqoff : M cpu unit := modify (set_irq false).
Definition cpu_irqon : M cpu unit := modify (set_irq true).

Definition splraise (oldspl newspl : Z) : M cpu unit :=
  KASSERT (oldspl =? IPL_NONE) ;;;
  KASSERT (newspl =? IPL_HIGH) ;;;
  c <- get ;;
  if negb (cpu_exists c) then ret tt
  else
    (if t_iplhigh_count c =? 0 then cpu_irqoff else ret tt) ;;;
    modify (λ c, set_iplhigh (t_iplhigh_count c + 1) c).

Definition spllower (oldspl newspl : Z) : M cpu unit :=
  KASSERT (oldspl =? IPL_HIGH) ;;;
  KASSERT (newspl =? IPL_NONE) ;;;
  c <- get ;;
  if negb (cpu_exists c) then ret tt
  else
    modify (λ c, set_iplhigh (t_iplhigh_count c - 1) c) ;;;
    c <- get ;;
    if t_iplhigh_count c =? 0 then cpu_irqon else ret tt.

Definition splx (spl : Z) : M cpu Z :=
  c <- get ;;
  if negb (cpu_exists c) then ret spl
  else if t_curspl c <? spl then
    splraise (t_curspl c) spl ;;;
    c <- get ;; let r := t_curspl c in
    modify (set_curspl spl) ;;;
    ret r
  else if spl <? t_curspl c then
    let r := t_curspl c in
    modify (set_curspl spl) ;;;
    spllower r spl ;;;
    ret r
  else ret spl.

Definition spl0 : M cpu Z := splx IPL_NONE.
Definition splhigh : M cpu Z := splx IPL_HIGH.

Record spinlock := Spinlock { splk_lock : Z; splk_holder : option Z }.

Definition spinlock_data_set (val : Z) (lk : spinlock) : spinlock :=
  Spinlock val (splk_holder lk).
Definition spinlock_data_get (lk : spinlock) : Z := splk_lock lk.

(** The store-conditional succeeds or not, [sc]; a failure leaves the word and
    pretends that the lock was held. *)
Definition spinlock_data_testandset (sc : bool) (lk : spinlock) : spinlock * Z :=
  if sc then (spinlock_data_set 1 lk, spinlock_data_get lk) else (lk, 1).

Definition spinlock_init (lk : spinlock) : spinlock :=
  Spinlock (splk_lock (spinlock_data_set 0 lk)) None.

Definition spinlock_cleanup (lk : spinlock) : M cpu unit :=
  KASSERT (bool_decide (splk_holder lk = None)) ;;;
  KASSERT (spinlock_data_get lk =? 0).

(** [spinlock_acquire] up to its loop: the value of [mycpu]. *)
Definition acquire_begin (lk : spinlock) : M cpu (option Z) :=
  splraise IPL_NONE IPL_HIGH ;;;
  c <- get ;;
  if cpu_exists c then
    if bool_decide (splk_holder lk = Some (c_self c)) then panic
    else modify (λ c, set_spinlocks (u32 (c_spinlocks c + 1)) c) ;;; ret (Some (c_self c))
  else ret None.

(** The first test of the loop: [true] goes on to the test-and-set. *)
Definition acquire_test (lk : spinlock) : bool := spinlock_data_get lk =? 0.

(** The second one: [true] leaves the loop. *)
Definition acquire_tas (sc : bool) (lk : spinlock) : spinlock * bool :=
  let '(lk', old) := spinlock_data_testandset sc lk in (lk', old =? 0).

Definition acquire_end (mycpu : option Z) (lk : spinlock) : spinlock :=
  Spinlock (splk_lock lk) mycpu.

(** [spinlock_release] up to the first store to the lock. *)
Definition release_begin (lk : spinlock) : M cpu unit :=
  c <- get ;;
  if cpu_exists c then
    KASSERT (bool_decide (splk_holder lk = Some (c_self c))) ;;;
    KASSERT (0 <? c_spinlocks c) ;;;
    modify (λ c, set_spinlocks (c_spinlocks c - 1) c)
  else ret tt.

Definition release_unhold (lk : spinlock) : spinlock := Spinlock (splk_lock lk) None.
Definition release_clear (lk : spinlock) : spinlock := spinlock_data_set 0 lk.
Definition release_end : M cpu unit := spllower IPL_HIGH IPL_NONE.

Definition spinlock_do_i_hold (lk : spinlock) (c : cpu) : bool :=
  if negb (cpu_exists c) then true else bool_decide (splk_holder lk = Some (c_self c)).

(** ** The processors together *)

(** Where a processor is: outside both functions; in the loop of
    [spinlock_acquire] before the first or the second test; past the loop; in
    [spinlock_release] before the store to [splk_holder] or before the store
    to [splk_lock]. *)
Inductive pc :=
  | Outside | Test (l : Z) | Tas (l : Z) | Got (l : Z) | Unhold (l : Z) | Clear (l : Z).

(** A processor, with the locks it has been given by [spinlock_acquire] and
    has not yet passed to [spinlock_release]. *)
Record pstate := PState { p_pc : pc; p_cpu : cpu; p_held : gset Z }.

Record system := System { locks : gmap Z spinlock; procs : gmap Z pstate }.

Definition update (i : Z) (p : pstate) (l : Z) (lk : spinlock) (s : system) : system :=
  System (<[l := lk]> (locks s)) (<[i := p]> (procs s)).

(** The pieces that processor [i] can run when it is in the state [p]. *)
Inductive runs (i : Z) : pstate → Z → spinlock → pstate → spinlock → Prop :=
  | run_acquire c h l lk c' :
      acquire_begin lk c = Ok (Some i) c' →
      runs i (PState Outside c h) l lk (PState (Test l) c' h) lk
  | run_test c h l lk :
      runs i (PState (Test l) c h) l lk
        (PState (if acquire_test lk then Tas l else Test l) c h) lk
  | run_tas c h l lk sc :
      runs i (PState (Tas l) c h) l lk
        (PState (if (acquire_tas sc lk).2 then Got l else Test l) c h) (acquire_tas sc lk).1
  | run_got c h l lk :
      runs i (PState (Got l) c h) l lk
        (PState Outside c (h ∪ {[l]})) (acquire_end (Some i) lk)
  | run_release c h l lk c' :
      release_begin lk c = Ok tt c' →
      runs i (PState Outside c h) l lk (PState (Unhold l) c' (h ∖ {[l]})) lk
  | run_unhold c h l lk :
      runs i (PState (Unhold l) c h) l lk (PState (Clear l) c h) (release_unhold lk)
  | run_clear c h l lk c' :
      release_end c = Ok tt c' →
      runs i (PState (Clear l) c h) l lk (PState Outside c' h) (release_clear lk)
  | run_splx c h l lk spl r c' :
      spl = IPL_NONE ∨ spl = IPL_HIGH → splx spl c = Ok r c' →
      runs i (PState Outside c h) l lk (PState Outside c' h) lk.

Inductive step (s : system) : system → Prop :=
  | step_run i p l lk p' lk' :
      procs s !! i = Some p → locks s !! l = Some lk → runs i p l lk p' lk' →
      step s (update i p' l lk' s).

(** ** Interrupt levels

    [spl_ok n c]: the level has been raised [n] times other than by [splx]. *)

Definition spl_ok (n : Z) (c : cpu) : Prop :=
  cpu_exists c = true ∧ (t_curspl c = IPL_NONE ∨ t_curspl c = IPL_HIGH) ∧ 0 ≤ n ∧
  t_iplhigh_count c = n + t_curspl c ∧ irq_on c = (t_iplhigh_count c =? 0).

Lemma splraise_ok n c :
  spl_ok n c →
  ∃ c', splraise IPL_NONE IPL_HIGH c = Ok tt c' ∧ spl_ok (n + 1) c' ∧
    c_self c' = c_self c ∧ c_spinlocks c' = c_spinlocks c ∧ t_curspl c' = t_curspl c.
Proof.
  destruct c as [ex self sp cs ih irq]. unfold spl_ok. cbn. intros (-> & Hcs & Hn & Hi & Hq).
  unfold splraise. cbn. unfold bind, KASSERT, ret, get. cbn.
  unfold IPL_NONE, IPL_HIGH in *.
  destruct (Z.eqb_spec ih 0); eexists; (split; [reflexivity|]); cbn;
    (split_and!; [done|done|lia|lia| |done|done|done]).
  - symmetry. apply Z.eqb_neq. lia.
  - rewrite Hq. symmetry. apply Z.eqb_neq. lia.
Qed.

Lemma spllower_ok n c :
  spl_ok (n + 1) c → 0 ≤ n →
  ∃ c', spllower IPL_HIGH IPL_NONE c = Ok tt c' ∧ spl_ok n c' ∧
    c_self c' = c_self c ∧ c_spinlocks c' = c_spinlocks c ∧ t_curspl c' = t_curspl c.
Proof.
  destruct c as [ex self sp cs ih irq]. unfold spl_ok. cbn. intros (-> & Hcs & _ & Hi & Hq) Hn.
  unfold spllower. cbn. unfold bind, KASSERT, ret, get, modify. cbn.
  unfold IPL_NONE, IPL_HIGH in *.
  assert (Hq' : irq = false) by (rewrite Hq; apply Z.eqb_neq; lia). rewrite Hq'.
  destruct (Z.eqb_spec (ih - 1) 0) as [He|He]; eexists; (split; [reflexivity|]); cbn;
    (split_and!; [done|done|lia|lia| |done|done|done]).
  - symmetry. by apply Z.eqb_eq.
  - symmetry. by apply Z.eqb_neq.
Qed.

Lemma splx_ok n spl c :
  spl_ok n c → spl = IPL_NONE ∨ spl = IPL_HIGH →
  ∃ c', splx spl c = Ok (t_curspl c) c' ∧ spl_ok n c' ∧ t_curspl c' = spl ∧
    c_self c' = c_self c ∧ c_spinlocks c' = c_spinlocks c.
Proof.
  destruct c as [ex self sp cs ih irq]. unfold spl_ok. cbn. intros (-> & Hcs & Hn & Hi & Hq) Hs.
  unfold splx, bind, get, IPL_NONE, IPL_HIGH in *. cbn [cpu_exists negb t_curspl].
  destruct Hcs as [-> | ->], Hs as [-> | ->]; cbn [Z.ltb Z.compare].
  - eexists. split; [reflexivity|]. cbn. split_and!; auto with lia.
  - edestruct (splraise_ok n (Cpu true self sp 0 ih irq)) as (c' & Hc' & Hok & H1 & H2 & H3).
    { unfold spl_ok, IPL_NONE, IPL_HIGH. cbn. split_and!; auto with lia. }
    unfold IPL_NONE, IPL_HIGH in Hc'. rewrite Hc'. eexists. unfold modify. cbn. rewrite H3. split; [reflexivity|].
    destruct Hok as (E & _ & _ & Hi' & Hq'). cbn in *. rewrite H3 in Hi'.
    split_and!; auto with lia.
  - edestruct (spllower_ok n (Cpu true self sp 0 ih irq)) as (c' & Hc' & Hok & H1 & H2 & H3); [|done|].
    { unfold spl_ok, IPL_NONE, IPL_HIGH. cbn. split_and!; auto with lia. }
    unfold IPL_NONE, IPL_HIGH in Hc'. unfold modify, set_curspl. cbn -[spllower]. rewrite Hc'.
    eexists. split; [reflexivity|]. split; [exact Hok|]. done.
  - eexists. split; [reflexivity|]. cbn. split_and!; auto with lia.
Qed.

(** ** The invariant of the system *)

Definition acquiring (k : pc) : Z :=
  match k with Test _ | Tas _ | Got _ => 1 | _ => 0 end.
Definition releasing (k : pc) : Z :=
  match k with Unhold _ | Clear _ => 1 | _ => 0 end.
Definition pc_lock (k : pc) : option Z :=
  match k with
  | Outside => None
  | Test l | Tas l | Got l | Unhold l | Clear l => Some l
  end.

(** The locks whose word the processor has set, and those that name it as
    their holder. *)
Definition owns (p : pstate) (l : Z) : Prop :=
  l ∈ p_held p ∨ match p_pc p with Got l' | Unhold l' | Clear l' => l = l' | _ => False end.
Definition named (p : pstate) (l : Z) : Prop :=
  l ∈ p_held p ∨ match p_pc p with Unhold l' => l = l' | _ => False end.

Record proc_ok (ls : gset Z) (i : Z) (p : pstate) : Prop := {
  ok_self : c_self (p_cpu p) = i;
  ok_spinlocks : c_spinlocks (p_cpu p) = Z.of_nat (size (p_held p)) + acquiring (p_pc p);
  ok_spl : spl_ok (Z.of_nat (size (p_held p)) + acquiring (p_pc p) + releasing (p_pc p)) (p_cpu p);
  ok_pc l : pc_lock (p_pc p) = Some l → l ∉ p_held p;
  ok_locks : p_held p ⊆ ls;
}.

Record sys_ok (s : system) : Prop := {
  sys_size : Z.of_nat (size (dom (locks s))) < 2147483648;
  sys_proc i p : procs s !! i = Some p → proc_ok (dom (locks s)) i p;
  sys_word l lk : locks s !! l = Some lk → splk_lock lk = 0 ∨ splk_lock lk = 1;
  sys_owned l lk : locks s !! l = Some lk → splk_lock lk = 1 →
    ∃ i p, procs s !! i = Some p ∧ owns p l;
  sys_owner l lk i p : locks s !! l = Some lk → procs s !! i = Some p → owns p l →
    splk_lock lk = 1;
  sys_unique l i p i' p' : procs s !! i = Some p → procs s !! i' = Some p' →
    owns p l → owns p' l → i = i';
  sys_holder l lk i p : locks s !! l = Some lk → procs s !! i = Some p →
    (splk_holder lk = Some i ↔ named p l);
}.

(** What a piece of code does to its processor and to the lock it works on. *)
Record piece (s : system) (i : Z) (p : pstate) (l : Z) (lk : spinlock)
    (p' : pstate) (lk' : spinlock) : Prop := {
  piece_proc : proc_ok (dom (locks s)) i p';
  piece_other l' : l' ≠ l → (owns p' l' ↔ owns p l') ∧ (named p' l' ↔ named p l');
  piece_word : splk_lock lk' = 0 ∨ splk_lock lk' = 1;
  piece_take : owns p' l → splk_lock lk' = 1 ∧ (owns p l ∨ splk_lock lk = 0);
  piece_keep : splk_lock lk' = 1 → owns p' l ∨ (splk_lock lk = 1 ∧ ¬ owns p l);
  piece_drop : splk_lock lk' = 0 → owns p l ∨ splk_lock lk = 0;
  piece_named : splk_holder lk' = Some i ↔ named p' l;
  piece_holder j q : j ≠ i → procs s !! j = Some q → (splk_holder lk' = Some j ↔ splk_holder lk = Some j);
}.

Lemma piece_sys_ok s i p l lk p' lk' :
  sys_ok s → procs s !! i = Some p → locks s !! l = Some lk →
  piece s i p l lk p' lk' → sys_ok (update i p' l lk' s).
Proof.
  intros Hs Hp Hl Hpc. set (s' := update i p' l lk' s).
  assert (Hd : dom (locks s') = dom (locks s)).
  { cbn. rewrite dom_insert_L. apply elem_of_dom_2 in Hl. set_solver. }
  assert (Hpr : ∀ j q, procs s' !! j = Some q → (j = i ∧ q = p') ∨ (j ≠ i ∧ procs s !! j = Some q)).
  { intros j q. cbn. intros [[-> <-]|[? ?]]%lookup_insert_Some; auto. }
  assert (Hlk : ∀ k m, locks s' !! k = Some m → (k = l ∧ m = lk') ∨ (k ≠ l ∧ locks s !! k = Some m)).
  { intros k m. cbn. intros [[-> <-]|[? ?]]%lookup_insert_Some; auto. }
  assert (Hi : procs s' !! i = Some p') by apply lookup_insert_eq.
  assert (Hoth : ∀ j q, j ≠ i → procs s !! j = Some q → procs s' !! j = Some q).
  { intros j q Hj. cbn. by rewrite lookup_insert_ne. }
  assert (Htake : ∀ j q, j ≠ i → procs s !! j = Some q → owns q l → ¬ owns p' l).
  { intros j q Hj Hq Ho Ho'. destruct (piece_take _ _ _ _ _ _ _ Hpc Ho') as [_ [Hown|Hw]].
    - by apply Hj, (sys_unique _ Hs l j q i p).
    - pose proof (sys_owner _ Hs _ _ _ _ Hl Hq Ho). lia. }
  split.
  - rewrite Hd. apply Hs.
  - intros j q [[-> ->]|[_ Hq]]%Hpr; rewrite Hd; [apply Hpc|by apply Hs].
  - intros k m [[-> ->]|[_ Hm]]%Hlk; [apply Hpc|by apply (sys_word _ Hs k)].
  - intros k m [[-> ->]|[Hk Hm]]%Hlk Hw.
    + destruct (piece_keep _ _ _ _ _ _ _ Hpc Hw) as [Ho|[Hw' Hno]]; [by eauto|].
      destruct (sys_owned _ Hs _ _ Hl Hw') as (j & q & Hq & Ho). exists j, q. split; [|done].
      apply Hoth; [|done]. intros ->. congruence.
    + destruct (sys_owned _ Hs _ _ Hm Hw) as (j & q & Hq & Ho).
      destruct (decide (j = i)) as [->|Hj]; [|by eauto]. exists i, p'. split; [done|].
      apply (piece_other _ _ _ _ _ _ _ Hpc); [done|]. by simplify_eq.
  - intros k m j q [[-> ->]|[Hk Hm]]%Hlk [[-> ->]|[Hj Hq]]%Hpr Ho.
    + by apply (piece_take _ _ _ _ _ _ _ Hpc).
    + destruct (piece_word _ _ _ _ _ _ _ Hpc) as [Hw|Hw]; [|done].
      pose proof (sys_owner _ Hs _ _ _ _ Hl Hq Ho) as Hw1.
      destruct (piece_drop _ _ _ _ _ _ _ Hpc Hw) as [Hown|?]; [|lia].
      by destruct Hj, (sys_unique _ Hs l j q i p Hq Hp Ho Hown).
    + apply (sys_owner _ Hs _ _ _ _ Hm Hp). by apply (piece_other _ _ _ _ _ _ _ Hpc).
    + by apply (sys_owner _ Hs _ _ _ _ Hm Hq).
  - intros k j q j' q' [[-> ->]|[Hj Hq]]%Hpr [[-> ->]|[Hj' Hq']]%Hpr Ho Ho'; [done|..].
    + destruct (decide (k = l)) as [->|Hk]; [by destruct (Htake j' q')|].
      apply (sys_unique _ Hs k _ p _ q'); try done. by apply (piece_other _ _ _ _ _ _ _ Hpc).
    + destruct (decide (k = l)) as [->|Hk]; [by destruct (Htake j q)|].
      apply (sys_unique _ Hs k _ q _ p); try done. by apply (piece_other _ _ _ _ _ _ _ Hpc).
    + by apply (sys_unique _ Hs k _ q _ q').
  - intros k m j q [[-> ->]|[Hk Hm]]%Hlk [[-> ->]|[Hj Hq]]%Hpr.
    + apply Hpc.
    + rewrite (piece_holder _ _ _ _ _ _ _ Hpc j q) by done. by apply (sys_holder _ Hs).
    + rewrite (proj2 (piece_other _ _ _ _ _ _ _ Hpc k Hk)). by apply (sys_holder _ Hs).
    + by apply (sys_holder _ Hs).
Qed.

Lemma acquire_begin_eq lk c n :
  spl_ok n c → is_u32 (c_spinlocks c + 1) →
  ∃ c', acquire_begin lk c =
      (if bool_decide (splk_holder lk = Some (c_self c)) then Crash CPanic
       else Ok (Some (c_self c)) c') ∧
    spl_ok (n + 1) c' ∧ c_self c' = c_self c ∧ c_spinlocks c' = c_spinlocks c + 1.
Proof.
  intros Hok Hb. destruct (splraise_ok n c Hok) as (c1 & Hc1 & Hok1 & Hs & Hn & Hcs).
  exists (set_spinlocks (c_spinlocks c + 1) c1). split; [|by destruct c1].
  unfold acquire_begin, bind at 1. rewrite Hc1. unfold bind, get.
  pose proof Hok1 as (-> & _). rewrite Hs. case_bool_decide; [done|].
  unfold modify, ret. cbn. by rewrite Hn, u32_small.
Qed.

Lemma release_begin_eq lk c n :
  spl_ok n c → 0 < c_spinlocks c →
  release_begin lk c =
    if bool_decide (splk_holder lk = Some (c_self c))
    then Ok tt (set_spinlocks (c_spinlocks c - 1) c) else Crash CPanic.
Proof.
  intros (He & _) Hn. unfold release_begin, bind, get. rewrite He.
  case_bool_decide; [|done]. unfold KASSERT, ret. by rewrite (proj2 (Z.ltb_lt _ _)).
Qed.

Lemma held_bound ls i p : proc_ok ls i p → Z.of_nat (size (p_held p)) ≤ Z.of_nat (size ls).
Proof. intros Hp. apply inj_le, subseteq_size, Hp. Qed.

Section pieces.
Context (s : system) (Hs : sys_ok s) (i : Z) (l : Z) (lk : spinlock) (Hl : locks s !! l = Some lk).

Let Hld : l ∈ dom (locks s).
Proof. by eapply elem_of_dom_2. Qed.

(** A processor that is not about to use the lock owns it when it holds it. *)
Lemma owns_outside c h k : owns (PState Outside c h) k ↔ k ∈ h.
Proof. unfold owns. cbn. naive_solver. Qed.
Lemma named_outside c h k : named (PState Outside c h) k ↔ k ∈ h.
Proof. unfold named. cbn. naive_solver. Qed.

Ltac piece_tac :=
  repeat match goal with
  | H : sys_ok _ |- _ => clear H
  | H : proc_ok _ _ _ |- _ => clear H
  | H : spl_ok _ _ |- _ => clear H
  | H : procs _ !! _ = _ |- _ => clear H
  | H : locks _ !! _ = _ |- _ => clear H
  | H : _ ⊆ _ |- _ => clear H
  | H : @eq Z _ (_ + _) |- _ => clear H
  | H : ∀ l, pc_lock _ = _ → _ |- _ => clear H
  end;
  unfold owns, named in *; cbn [p_pc p_held p_cpu splk_lock splk_holder] in *; set_solver.

Lemma piece_acquire c h c' :
  procs s !! i = Some (PState Outside c h) → acquire_begin lk c = Ok (Some i) c' →
  piece s i (PState Outside c h) l lk (PState (Test l) c' h) lk.
Proof using Hs Hl.
  intros Hp Hb. pose proof (sys_proc _ Hs _ _ Hp) as Hpo. pose proof (held_bound _ _ _ Hpo) as Hsz.
  pose proof (sys_size _ Hs) as Hmax. pose proof (sys_holder _ Hs _ _ _ _ Hl Hp) as Hh.
  pose proof (sys_word _ Hs _ _ Hl) as Hw. pose proof (sys_owner _ Hs _ _ _ _ Hl Hp) as Ho.
  pose proof Hpo as [Hself Hsp Hspl _ Hsub].
  cbn [p_cpu p_held p_pc acquiring releasing] in *. rewrite ?Z.add_0_r in *.
  destruct (acquire_begin_eq lk c _ Hspl) as (c1 & Hc1 & Hok1 & Hs1 & Hn1).
  { unfold is_u32. lia. }
  rewrite Hc1 in Hb. case_bool_decide as Hd; [done|]. simplify_eq.
  assert (Hni : l ∉ h) by (intros Hin; apply Hd, Hh; by left).
  split; [|piece_tac..].
  - split; cbn; [done|lia| |by intros ? [= <-]|done]. by rewrite Z.add_0_r.
Qed.

Lemma piece_release c h c' :
  procs s !! i = Some (PState Outside c h) → release_begin lk c = Ok tt c' →
  piece s i (PState Outside c h) l lk (PState (Unhold l) c' (h ∖ {[l]})) lk.
Proof using Hs Hl.
  intros Hp Hb. pose proof (sys_proc _ Hs _ _ Hp) as Hpo.
  pose proof (sys_holder _ Hs _ _ _ _ Hl Hp) as Hh.
  pose proof (sys_word _ Hs _ _ Hl) as Hw. pose proof (sys_owner _ Hs _ _ _ _ Hl Hp) as Ho.
  pose proof Hpo as [Hself Hsp Hspl _ Hsub].
  cbn [p_cpu p_held p_pc acquiring releasing] in *. rewrite ?Z.add_0_r in *.
  assert (Hin : l ∈ h).
  { unfold release_begin, bind, get in Hb. destruct Hspl as (He & _). rewrite He in Hb.
    case_bool_decide as Hd; [|done]. rewrite Hself in Hd. by apply Hh, named_outside in Hd. }
  assert (Hsz : Z.of_nat (size (h ∖ {[l]})) = Z.of_nat (size h) - 1).
  { assert (Hn : size ({[l]} : gset Z) = 1%nat) by apply size_singleton.
    rewrite size_difference by set_solver. rewrite Hn.
    assert (size h ≠ 0%nat); [|lia]. rewrite size_non_empty_iff. set_solver. }
  assert (Hpos : 0 < c_spinlocks c).
  { rewrite Hsp. assert (size h ≠ 0%nat); [|lia]. rewrite size_non_empty_iff. set_solver. }
  rewrite (release_begin_eq lk c _ Hspl Hpos) in Hb. case_bool_decide; [|done]. simplify_eq.
  assert (Hown : owns (PState Outside c h) l) by by left.
  split; [|piece_tac..].
  - split; cbn; [done|lia| |intros ? [= <-]; set_solver|set_solver].
    rewrite Hsz. replace (Z.of_nat (size h) - 1 + 0 + 1) with (Z.of_nat (size h)) by lia. exact Hspl.
Qed.

(** Facts about a processor that is in the middle of a call. *)
Ltac proc_facts Hp :=
  pose proof (sys_proc _ Hs _ _ Hp) as Hpo;
  pose proof (sys_holder _ Hs _ _ _ _ Hl Hp) as Hh;
  pose proof (sys_word _ Hs _ _ Hl) as Hw; pose proof (sys_owner _ Hs _ _ _ _ Hl Hp) as Ho;
  pose proof Hpo as [Hself Hsp Hspl Hpc Hsub];
  pose proof (Hpc l eq_refl) as Hni;
  cbn [p_cpu p_held p_pc acquiring releasing] in *.

Lemma piece_test c h :
  procs s !! i = Some (PState (Test l) c h) →
  piece s i (PState (Test l) c h) l lk
    (PState (if acquire_test lk then Tas l else Test l) c h) lk.
Proof using Hs Hl.
  intros Hp. proc_facts Hp.
  destruct (acquire_test lk); (split; [split; done|piece_tac..]).
Qed.

Lemma piece_tas c h sc :
  procs s !! i = Some (PState (Tas l) c h) →
  piece s i (PState (Tas l) c h) l lk
    (PState (if (acquire_tas sc lk).2 then Got l else Test l) c h) (acquire_tas sc lk).1.
Proof using Hs Hl.
  intros Hp. proc_facts Hp.
  unfold acquire_tas, spinlock_data_testandset, spinlock_data_set, spinlock_data_get.
  destruct sc; cbn [fst snd]; [|split; try piece_tac; split; done].
  destruct (Z.eqb_spec (splk_lock lk) 0) as [Hz|Hz]; (split; [split; done|piece_tac..]).
Qed.

Lemma piece_got c h :
  procs s !! i = Some (PState (Got l) c h) →
  piece s i (PState (Got l) c h) l lk
    (PState Outside c (h ∪ {[l]})) (acquire_end (Some i) lk).
Proof using Hs Hl.
  intros Hp. proc_facts Hp.
  assert (Hw1 : splk_lock lk = 1) by (apply Ho; by right).
  assert (Hsz : Z.of_nat (size (h ∪ {[l]})) = Z.of_nat (size h) + 1).
  { rewrite size_union by set_solver. rewrite size_singleton. lia. }
  assert (Hu : ∀ j p', procs s !! j = Some p' → j ≠ i → splk_holder lk ≠ Some j).
  { intros j p' Hp' Hj Hh'. apply (sys_holder _ Hs _ _ _ _ Hl Hp') in Hh'.
    apply Hj, (sys_unique _ Hs l j p' i _ Hp' Hp); [|by right].
    destruct Hh' as [?|Hk]; [by left|]. right. by destruct (p_pc p'). }
  split; [|piece_tac..].
  - split; cbn; [done|lia| |done|set_solver]. rewrite Hsz. rewrite !Z.add_0_r in *. exact Hspl.
Qed.

Lemma piece_unhold c h :
  procs s !! i = Some (PState (Unhold l) c h) →
  piece s i (PState (Unhold l) c h) l lk (PState (Clear l) c h) (release_unhold lk).
Proof using Hs Hl.
  intros Hp. proc_facts Hp.
  assert (Hi : splk_holder lk = Some i) by (apply Hh; by right).
  split; [split; done|piece_tac..].
Qed.

Lemma piece_clear c h c' :
  procs s !! i = Some (PState (Clear l) c h) → release_end c = Ok tt c' →
  piece s i (PState (Clear l) c h) l lk (PState Outside c' h) (release_clear lk).
Proof using Hs Hl.
  intros Hp Hr. proc_facts Hp.
  assert (Hw1 : splk_lock lk = 1) by (apply Ho; by right).
  destruct (spllower_ok (Z.of_nat (size h)) c) as (c1 & Hc1 & Hok1 & Hs1 & Hn1 & _);
    [by rewrite Z.add_0_r in Hspl|lia|].
  unfold release_end in Hr. rewrite Hc1 in Hr. simplify_eq.
  split; [|piece_tac..]. split; cbn; rewrite ?Z.add_0_r in *; [done|congruence|done|done|done].
Qed.

Lemma piece_splx c h spl r c' :
  procs s !! i = Some (PState Outside c h) →
  spl = IPL_NONE ∨ spl = IPL_HIGH → splx spl c = Ok r c' →
  piece s i (PState Outside c h) l lk (PState Outside c' h) lk.
Proof using Hs Hl.
  intros Hp Hspl' Hr. pose proof (sys_proc _ Hs _ _ Hp) as [Hself Hsp Hspl _ Hsub].
  pose proof (sys_holder _ Hs _ _ _ _ Hl Hp) as Hh.
  pose proof (sys_word _ Hs _ _ Hl) as Hw. pose proof (sys_owner _ Hs _ _ _ _ Hl Hp) as Ho.
  cbn [p_cpu p_held p_pc acquiring releasing] in *.
  destruct (splx_ok _ spl c Hspl Hspl') as (c1 & Hc1 & Hok1 & _ & Hs1 & Hn1).
  rewrite Hc1 in Hr. simplify_eq.
  clear Hspl' Hc1.
  split; [split; cbn; [congruence|congruence|done|done|done]|destruct (decide (l ∈ h)); piece_tac..].
Qed.
End pieces.

Lemma step_ok s s' : sys_ok s → step s s' → sys_ok s'.
Proof.
  intros Hs [i p l lk p' lk' Hp Hl Hr]. eapply piece_sys_ok; [done..|].
  destruct Hr; eauto using piece_acquire, piece_test, piece_tas, piece_got, piece_release,
    piece_unhold, piece_clear, piece_splx.
Qed.

(** ** Reachable states *)

(** A processor that has just started, and a lock as [spinlock_init] leaves
    it. *)
Definition proc_start (i : Z) (p : pstate) : Prop :=
  p = PState Outside (Cpu true i 0 IPL_NONE 0 true) ∅.

Definition sys_start (s : system) : Prop :=
  Z.of_nat (size (dom (locks s))) < 2147483648 ∧
  (∀ l lk, locks s !! l = Some lk → ∃ lk0, lk = spinlock_init lk0) ∧
  (∀ i p, procs s !! i = Some p → proc_start i p).

Definition reachable (s : system) : Prop := ∃ s0, sys_start s0 ∧ rtc step s0 s.

Lemma start_ok s : sys_start s → sys_ok s.
Proof.
  intros (Hsz & Hl & Hp).
  assert (Hno : ∀ i p l, procs s !! i = Some p → ¬ owns p l ∧ ¬ named p l).
  { intros i p l Hi. rewrite (Hp i p Hi). unfold owns, named. cbn. set_solver. }
  split; [done|..].
  - intros i p Hi. rewrite (Hp i p Hi). split; cbn; [done|done| |done|set_solver].
    unfold spl_ok. cbn. auto with lia.
  - intros l lk Hlk. destruct (Hl _ _ Hlk) as [lk0 ->]. by left.
  - intros l lk Hlk. destruct (Hl _ _ Hlk) as [lk0 ->]. done.
  - intros l lk i p _ Hi Ho. by destruct (Hno i p l Hi).
  - intros l i p i' p' Hi _ Ho. by destruct (Hno i p l Hi).
  - intros l lk i p Hlk Hi. destruct (Hl _ _ Hlk) as [lk0 ->]. destruct (Hno i p l Hi).
    split; [done|]. by intros ?.
Qed.

Lemma reachable_ok s : reachable s → sys_ok s.
Proof.
  intros (s0 & H0 & Hst). apply start_ok in H0. induction Hst; eauto using step_ok.
Qed.


(** C25: in every interleaving no two processors have been given the same lock;
    outside the two functions [spinlock_do_i_hold] tells a processor exactly
    whether it has been given the lock and [c_spinlocks] counts the locks it
    has; and interrupts are off on a processor that has been given a lock or
    that is taking or giving back one, however [splx] calls nest with them. *)
Theorem spinlock_mutex s i p :
  reachable s → procs s !! i = Some p →
  (∀ j q l, procs s !! j = Some q → l ∈ p_held p → l ∈ p_held q → i = j) ∧
  (p_pc p = Outside → c_spinlocks (p_cpu p) = Z.of_nat (size (p_held p)) ∧
     ∀ l lk, locks s !! l = Some lk →
       spinlock_do_i_hold lk (p_cpu p) = bool_decide (l ∈ p_held p)) ∧
  irq_on (p_cpu p) =
    bool_decide (p_held p = ∅ ∧ pc_lock (p_pc p) = None ∧ t_curspl (p_cpu p) = IPL_NONE).
Proof.
  intros Hs%reachable_ok Hp. pose proof (sys_proc _ Hs _ _ Hp) as [Hself Hsp Hspl _ _].
  split_and!.
  - intros j q l Hq H1 H2. by apply (sys_unique _ Hs l i p j q); [done..|left|left].
  - intros Hpc. rewrite Hpc in Hsp. cbn in Hsp. split; [lia|]. intros l lk Hl.
    unfold spinlock_do_i_hold. rewrite (proj1 Hspl), Hself. cbn [negb].
    apply bool_decide_ext. rewrite (sys_holder _ Hs _ _ _ _ Hl Hp). unfold named. rewrite Hpc.
    tauto.
  - destruct Hspl as (_ & Hcs & _ & Hi & ->). rewrite Hi. unfold IPL_NONE, IPL_HIGH in *.
    assert (Hz : Z.of_nat (size (p_held p)) = 0 ↔ p_held p = ∅).
    { rewrite <-leibniz_equiv_iff, <-size_empty_iff. lia. }
    assert (Hk : acquiring (p_pc p) + releasing (p_pc p) = 0 ↔ pc_lock (p_pc p) = None)
      by (destruct (p_pc p); naive_solver).
    assert (0 ≤ acquiring (p_pc p) ∧ 0 ≤ releasing (p_pc p)) by (by destruct (p_pc p)).
    case_bool_decide as Hd; rewrite <-Hz, <-Hk in Hd; [apply Z.eqb_eq|apply Z.eqb_neq]; lia.
Qed.

(** the checks of the spinlock code are exact: taking a lock panics when the
    processor already has it and otherwise goes on to the loop; giving back a
    lock panics when the processor does not have it and otherwise goes on; and
    the end of [spinlock_release] never fails. *)
Theorem spinlock_checks s i p l lk :
  reachable s → procs s !! i = Some p → locks s !! l = Some lk →
  (p_pc p = Outside → if bool_decide (l ∈ p_held p)
     then acquire_begin lk (p_cpu p) = Crash CPanic ∧ ∃ c, release_begin lk (p_cpu p) = Ok tt c
     else (∃ c, acquire_begin lk (p_cpu p) = Ok (Some i) c) ∧
          release_begin lk (p_cpu p) = Crash CPanic) ∧
  (p_pc p = Clear l → ∃ c, release_end (p_cpu p) = Ok tt c).
Proof.
  intros Hs%reachable_ok Hp Hl. pose proof (sys_proc _ Hs _ _ Hp) as Hok.
  pose proof Hok as [Hself Hsp Hspl _ _]. pose proof (held_bound _ _ _ Hok).
  pose proof (sys_size _ Hs). pose proof (sys_holder _ Hs _ _ _ _ Hl Hp) as Hh.
  split; intros Hpc; rewrite Hpc in *; cbn [acquiring releasing] in *.
  - destruct (acquire_begin_eq lk _ _ Hspl) as (c1 & Hc1 & _); [unfold is_u32; lia|].
    rewrite Hc1, Hself. assert (Hh' : splk_holder lk = Some i ↔ l ∈ p_held p).
    { rewrite Hh. unfold named. rewrite Hpc. tauto. }
    destruct (decide (l ∈ p_held p)) as [Hd|Hd].
    + rewrite !bool_decide_eq_true_2 by (done || by apply Hh'). split; [done|]. rewrite (release_begin_eq lk _ _ Hspl), Hself, bool_decide_eq_true_2; [by eauto| |].
      * by apply Hh'.
      * assert (size (p_held p) ≠ 0%nat); [|lia]. rewrite size_non_empty_iff. set_solver.
    + rewrite !bool_decide_eq_false_2 by (done || by rewrite Hh').
      split; [by eauto|]. unfold release_begin, bind, get. rewrite (proj1 Hspl), Hself.
      rewrite bool_decide_eq_false_2; [done|]. by rewrite Hh'.
  - destruct (spllower_ok (Z.of_nat (size (p_held p))) (p_cpu p)) as (c1 & Hc1 & _);
      [by rewrite Z.add_0_r in Hspl|lia|]. by exists c1.
Qed.

(** ** Progress *)

Lemma rtc_step_run s s' i p l lk p' lk' :
  rtc step s s' → procs s' !! i = Some p → locks s' !! l = Some lk → runs i p l lk p' lk' →
  rtc step s (update i p' l lk' s').
Proof. intros H1 H2 H3 H4. eapply rtc_r; [done|]. by econstructor. Qed.

Lemma update_proc i p l lk s : procs (update i p l lk s) !! i = Some p.
Proof. apply lookup_insert_eq. Qed.
Lemma update_lock i p l lk s : locks (update i p l lk s) !! l = Some lk.
Proof. apply lookup_insert_eq. Qed.
Lemma update_other i p l lk s j : j ≠ i → procs (update i p l lk s) !! j = procs s !! j.
Proof. intros. by apply lookup_insert_ne. Qed.

Definition given (s : system) (l : Z) : Prop :=
  ∃ s' i p, rtc step s s' ∧ procs s' !! i = Some p ∧ l ∈ p_held p.

Lemma given_got s0 s i c h l lk :
  rtc step s0 s → procs s !! i = Some (PState (Got l) c h) → locks s !! l = Some lk → given s0 l.
Proof.
  intros Hr Hp Hl. eexists _, i, _. split; [eapply rtc_step_run; [done..|apply run_got]|].
  split; [apply update_proc|]. cbn. set_solver.
Qed.

Lemma given_tas s0 s i c h l lk :
  rtc step s0 s → procs s !! i = Some (PState (Tas l) c h) → locks s !! l = Some lk →
  splk_lock lk = 0 → given s0 l.
Proof.
  intros Hr Hp Hl Hw. eapply given_got; [eapply rtc_step_run; [done..|apply (run_tas _ _ _ _ _ true)]| |].
  - rewrite update_proc. unfold acquire_tas, spinlock_data_testandset, spinlock_data_get.
    cbn. by rewrite Hw.
  - apply update_lock.
Qed.

Lemma given_spin s0 s i k c h l lk :
  rtc step s0 s → procs s !! i = Some (PState k c h) → k = Test l ∨ k = Tas l →
  locks s !! l = Some lk → splk_lock lk = 0 → given s0 l.
Proof.
  intros Hr Hp [-> | ->] Hl Hw; [|by eapply given_tas].
  eapply given_tas; [eapply rtc_step_run; [done..|apply run_test]| |apply update_lock|done].
  rewrite update_proc. unfold acquire_test, spinlock_data_get. by rewrite Hw.
Qed.

(** C26: a processor that waits for a lock never waits for nothing: when no
    processor has been given the lock, the system can run on until one is
    given it. *)
Theorem spinlock_progress s i p l lk :
  reachable s → procs s !! i = Some p → locks s !! l = Some lk →
  p_pc p = Test l ∨ p_pc p = Tas l →
  (∀ j q, procs s !! j = Some q → l ∉ p_held q) → given s l.
Proof.
  intros Hr Hp Hl Hpc Hno. apply reachable_ok in Hr as Hs. destruct p as [k c h]. cbn in Hpc.
  destruct (sys_word _ Hs _ _ Hl) as [Hw|Hw]; [by eapply given_spin|].
  destruct (sys_owned _ Hs _ _ Hl Hw) as (j & [k' c' h'] & Hq & Ho).
  specialize (Hno _ _ Hq). cbn in Hno. unfold owns in Ho. cbn in Ho.
  assert (Hij : i ≠ j).
  { intros <-. rewrite Hp in Hq. simplify_eq. destruct Ho as [?|Ho]; [done|]. destruct Hpc as [-> | ->]; done. }
  assert (Hclear : ∀ s1 c1 lk1, rtc step s s1 → reachable s1 → locks s1 !! l = Some lk1 →
    procs s1 !! i = Some (PState k c h) → procs s1 !! j = Some (PState (Clear l) c1 h') → given s l).
  { intros s1 c1 lk1 Hst Hr1%reachable_ok Hl1 Hi1 Hj1.
    destruct (sys_proc _ Hr1 _ _ Hj1) as [_ _ Hspl _ _]. cbn in Hspl. rewrite Z.add_0_r in Hspl.
    destruct (spllower_ok _ _ Hspl) as (c2 & Hc2 & _); [lia|].
    eapply (given_spin s (update j (PState Outside c2 h') l (release_clear lk1) s1) i k c h);
      [|rewrite update_other; done|done|apply update_lock|done].
    eapply rtc_step_run; [done..|by apply run_clear]. }
  destruct Ho as [?|Ho]; [done|]. destruct k'; try done; subst.
  - eapply given_got; [apply rtc_refl|done..].
  - set (s1 := update j (PState (Clear l0) c' h') l0 (release_unhold lk) s).
    assert (Hst : rtc step s s1).
    { eapply rtc_step_run; [apply rtc_refl|done..|apply run_unhold]. }
    apply (Hclear s1 c' (release_unhold lk)); [done| |apply update_lock| |apply update_proc].
    + destruct Hr as (s0 & H0 & Hs0). exists s0. split; [done|]. by etrans.
    + unfold s1. by rewrite update_other.
  - by apply (Hclear s c' lk).
Qed.

(** Two processors and a lock: one has the lock, the other waits. *)
Definition two_procs : system :=
  System {[ 5 := Spinlock 0 None ]}
    {[ 0 := PState Outside (Cpu true 0 0 IPL_NONE 0 true) ∅;
       1 := PState Outside (Cpu true 1 0 IPL_NONE 0 true) ∅ ]}.

Lemma two_procs_start : sys_start two_procs.
Proof.
  split_and!; cbn.
  - rewrite dom_singleton_L, size_singleton. lia.
  - intros l lk [<- <-]%lookup_singleton_Some. by exists (Spinlock 0 None).
  - intros i p [[<- <-]|[_ [<- <-]%lookup_singleton_Some]]%lookup_insert_Some; done.
Qed.

(** Processor 0 is in [spinlock_acquire] before a given point, then it has the
    lock; and processor 1 waits for it. *)
Definition cpu_in (i : Z) : cpu := Cpu true i 1 IPL_NONE 1 false.
Definition two_spin : system :=
  update 0 (PState (Test 5) (cpu_in 0) ∅) 5 (Spinlock 0 None) two_procs.
Definition two_got : system :=
  update 0 (PState (Got 5) (cpu_in 0) ∅) 5 (Spinlock 1 None)
    (update 0 (PState (Tas 5) (cpu_in 0) ∅) 5 (Spinlock 0 None) two_spin).
Definition two_taken : system :=
  update 0 (PState Outside (cpu_in 0) (∅ ∪ {[5]})) 5 (Spinlock 1 (Some 0)) two_got.

Lemma two_spin_reachable : rtc step two_procs two_spin.
Proof.
  eapply (rtc_step_run _ two_procs 0 _ 5 (Spinlock 0 None)); [apply rtc_refl|done|done|].
  by apply run_acquire.
Qed.

Lemma two_taken_reachable : rtc step two_procs two_taken.
Proof.
  eapply (rtc_step_run _ two_got 0); [|apply update_proc|apply update_lock|apply run_got].
  eapply (rtc_step_run _ (update 0 (PState (Tas 5) (cpu_in 0) ∅) 5 (Spinlock 0 None) two_spin) 0);
    [|apply update_proc|apply update_lock|exact (run_tas 0 (cpu_in 0) ∅ 5 (Spinlock 0 None) true)].
  eapply (rtc_step_run _ two_spin 0); [apply two_spin_reachable|apply update_proc|apply update_lock|].
  exact (run_test 0 (cpu_in 0) ∅ 5 (Spinlock 0 None)).
Qed.

Lemma spinlock_mutex_witness :
  let p := PState Outside (cpu_in 0) (∅ ∪ {[5]}) in
  (∀ j q l, procs two_taken !! j = Some q → l ∈ p_held p → l ∈ p_held q → 0 = j) ∧
  (p_pc p = Outside → c_spinlocks (p_cpu p) = Z.of_nat (size (p_held p)) ∧
     ∀ l lk, locks two_taken !! l = Some lk →
       spinlock_do_i_hold lk (p_cpu p) = bool_decide (l ∈ p_held p)) ∧
  irq_on (p_cpu p) =
    bool_decide (p_held p = ∅ ∧ pc_lock (p_pc p) = None ∧ t_curspl (p_cpu p) = IPL_NONE).
Proof.
  apply (spinlock_mutex two_taken 0); [|apply update_proc].
  exists two_procs. split; [exact two_procs_start|exact two_taken_reachable].
Defined.

Lemma spinlock_checks_witness :
  let p := PState Outside (cpu_in 0) (∅ ∪ {[5]}) in
  let lk := Spinlock 1 (Some 0) in
  (p_pc p = Outside → if bool_decide (5 ∈ p_held p)
     then acquire_begin lk (p_cpu p) = Crash CPanic ∧ ∃ c, release_begin lk (p_cpu p) = Ok tt c
     else (∃ c, acquire_begin lk (p_cpu p) = Ok (Some 0) c) ∧
          release_begin lk (p_cpu p) = Crash CPanic) ∧
  (p_pc p = Clear 5 → ∃ c, release_end (p_cpu p) = Ok tt c).
Proof.
  apply (spinlock_checks two_taken 0); [|apply update_proc|apply update_lock].
  exists two_procs. split; [exact two_procs_start|exact two_taken_reachable].
Defined.

Lemma spinlock_progress_witness : given two_spin 5.
Proof.
  apply (spinlock_progress two_spin 0 (PState (Test 5) (cpu_in 0) ∅) 5 (Spinlock 0 None));
    [|apply update_proc|apply update_lock|by left|].
  - exists two_procs. split; [exact two_procs_start|exact two_spin_reachable].
  - intros j q. cbn. intros [[_ <-]|[_ Hq]]%lookup_insert_Some; [set_solver|].
    apply lookup_insert_Some in Hq as [[_ <-]|[_ [_ <-]%lookup_singleton_Some]]; set_solver.
Defined.
