(* ===== verification/Thread.v ===== *)
(** * Threads, wait channels and the run queues

    The scheduler of kern/thread/thread.c with the thread count of a process
    (kern/proc/proc.c): creating and ending threads, context switches, sleeping
    and waking up on wait channels, inter-processor interrupts and migration.
    The lists are the linked lists of [Threadlist].

    Every operation is a computation of the processor [curcpu] on the state of
    all of them.  What it does between taking and giving back a spinlock is one
    step; [Spinlock] shows that critical sections exclude each other.  A context
    switch is cut where the processor leaves one thread for another: what the
    new thread runs first is the tail of its own call of [thread_switch]. *)

From S2P Require Import Prelude Threadlist.
Open Scope Z_scope.

(** ** Data *)

Inductive threadstate_t := S_RUN | S_READY | S_SLEEP | S_ZOMBIE.

#[global] Instance threadstate_eq_dec : EqDecision threadstate_t.
Proof. solve_decision. Defined.

(** [struct thread]; its list node is in the memory of [Threadlist]. *)
Record thread := Thread {
  t_state : threadstate_t;
  t_cpu : option Z;
  t_proc : option Z;
  t_in_interrupt : bool;
}.

(** [struct cpu]: the addresses of its two lists and of its two locks are
    fields. *)
Record kcpu := KCpu {
  c_curthread : Z;
  c_zombies : Z;
  c_isidle : bool;
  c_runqueue : Z;
  c_runqueue_lock : Z;
  c_ipi_pending : Z;
  c_ipi_lock : Z;
}.

(** [struct proc]. *)
Record kproc := KProc { p_numthreads : Z; p_lock : Z }.

(** The kernel: the memory of the lists, the threads, the processors in the
    order of [allcpus], the processes; the processor that runs and the
    spinlocks it holds; and the globals of thread.c.  [scratch] is the address
    of the list that a function keeps on its stack. *)
Record kstate := KState {
  k_tl : threadlist;
  k_threads : gmap Z thread;
  k_cpus : gmap Z kcpu;
  allcpus : list Z;
  k_procs : gmap Z kproc;
  curcpu : Z;
  k_held : gset Z;
  thread_count : Z;
  thread_count_lock : Z;
  thread_count_wchan : Z;
  scratch : Z;
}.

Definition set_tl (x : threadlist) (s : kstate) : kstate :=
  KState x (k_threads s) (k_cpus s) (allcpus s) (k_procs s) (curcpu s) (k_held s)
    (thread_count s) (thread_count_lock s) (thread_count_wchan s) (scratch s).
Definition set_threads (x : gmap Z thread) (s : kstate) : kstate :=
  KState (k_tl s) x (k_cpus s) (allcpus s) (k_procs s) (curcpu s) (k_held s)
    (thread_count s) (thread_count_lock s) (thread_count_wchan s) (scratch s).
Definition set_cpus (x : gmap Z kcpu) (s : kstate) : kstate :=
  KState (k_tl s) (k_threads s) x (allcpus s) (k_procs s) (curcpu s) (k_held s)
    (thread_count s) (thread_count_lock s) (thread_count_wchan s) (scratch s).
Definition set_procs (x : gmap Z kproc) (s : kstate) : kstate :=
  KState (k_tl s) (k_threads s) (k_cpus s) (allcpus s) x (curcpu s) (k_held s)
    (thread_count s) (thread_count_lock s) (thread_count_wchan s) (scratch s).
Definition set_held (x : gset Z) (s : kstate) : kstate :=
  KState (k_tl s) (k_threads s) (k_cpus s) (allcpus s) (k_procs s) (curcpu s) x
    (thread_count s) (thread_count_lock s) (thread_count_wchan s) (scratch s).
Definition set_thread_count (x : Z) (s : kstate) : kstate :=
  KState (k_tl s) (k_threads s) (k_cpus s) (allcpus s) (k_procs s) (curcpu s) (k_held s)
    x (thread_count_lock s) (thread_count_wchan s) (scratch s).

Definition on_tl {A} (m : M threadlist A) : M kstate A := zoom k_tl set_tl m.

Definition get_thread (t : Z) : M kstate thread := s <- get ;; deref (k_threads s !! t).
Definition put_thread (t : Z) (x : thread) : M kstate unit :=
  modify (λ s, set_threads (<[t := x]> (k_threads s)) s).
Definition get_cpu (c : Z) : M kstate kcpu := s <- get ;; deref (k_cpus s !! c).
Definition put_cpu (c : Z) (x : kcpu) : M kstate unit :=
  modify (λ s, set_cpus (<[c := x]> (k_cpus s)) s).

(** The fields that change. *)
Definition with_state (st : threadstate_t) (t : thread) : thread :=
  Thread st (t_cpu t) (t_proc t) (t_in_interrupt t).
Definition with_cpu (c : option Z) (t : thread) : thread :=
  Thread (t_state t) c (t_proc t) (t_in_interrupt t).
Definition with_proc (p : option Z) (t : thread) : thread :=
  Thread (t_state t) (t_cpu t) p (t_in_interrupt t).
Definition with_idle (b : bool) (k : kcpu) : kcpu :=
  KCpu (c_curthread k) (c_zombies k) b (c_runqueue k) (c_runqueue_lock k) (c_ipi_pending k) (c_ipi_lock k).
Definition with_curthread (t : Z) (k : kcpu) : kcpu :=
  KCpu t (c_zombies k) (c_isidle k) (c_runqueue k) (c_runqueue_lock k) (c_ipi_pending k) (c_ipi_lock k).
Definition with_ipi (n : Z) (k : kcpu) : kcpu :=
  KCpu (c_curthread k) (c_zombies k) (c_isidle k) (c_runqueue k) (c_runqueue_lock k) n (c_ipi_lock k).

Definition set_t_state (t : Z) (st : threadstate_t) : M kstate unit :=
  x <- get_thread t ;; put_thread t (with_state st x).
Definition set_isidle (c : Z) (b : bool) : M kstate unit :=
  k <- get_cpu c ;; put_cpu c (with_idle b k).

(** [curthread] *)
Definition curthread : M kstate Z := s <- get ;; k <- get_cpu (curcpu s) ;; ret (c_curthread k).

(** A spinlock that no other processor has: [spinlock_acquire] and
    [spinlock_release] as the processor that calls them sees them. *)
Definition spin_acquire (l : Z) : M kstate unit :=
  s <- get ;;
  if bool_decide (l ∈ k_held s) then panic else put (set_held (k_held s ∪ {[l]}) s).
Definition spin_release (l : Z) : M kstate unit :=
  s <- get ;; KASSERT (bool_decide (l ∈ k_held s)) ;;; put (set_held (k_held s ∖ {[l]}) s).
Definition spin_do_i_hold (l : Z) : M kstate bool := gets (λ s, bool_decide (l ∈ k_held s)).

(** ** Inter-processor interrupts *)

Definition IPI_PANIC : Z := 0.
Definition IPI_OFFLINE : Z := 1.
Definition IPI_UNIDLE : Z := 2.
Definition IPI_TLBSHOOTDOWN : Z := 3.

Definition ipi_send (target code : Z) : M kstate unit :=
  KASSERT ((0 <=? code) && (code <? 32)) ;;;
  k <- get_cpu target ;;
  spin_acquire (c_ipi_lock k) ;;;
  put_cpu target (with_ipi (Z.lor (c_ipi_pending k) (u32 (Z.shiftl 1 code))) k) ;;;
  spin_release (c_ipi_lock k).

Fixpoint ipi_broadcast_to (cs : list Z) (code : Z) : M kstate unit :=
  match cs with
  | [] => ret tt
  | c :: cs =>
      s <- get ;;
      (if negb (c =? curcpu s) then ipi_send c code else ret tt) ;;;
      ipi_broadcast_to cs code
  end.

Definition ipi_broadcast (code : Z) : M kstate unit :=
  s <- get ;; ipi_broadcast_to (allcpus s) code.

(** ** Processes and threads *)

Definition proc_addthread (p t : Z) : M kstate unit :=
  x <- get_thread t ;;
  KASSERT (bool_decide (t_proc x = None)) ;;;
  s <- get ;; pr <- deref (k_procs s !! p) ;;
  spin_acquire (p_lock pr) ;;;
  modify (λ s, set_procs (<[p := KProc (u32 (p_numthreads pr + 1)) (p_lock pr)]> (k_procs s)) s) ;;;
  spin_release (p_lock pr) ;;;
  put_thread t (with_proc (Some p) x).

Definition proc_remthread (t : Z) : M kstate unit :=
  x <- get_thread t ;;
  match t_proc x with
  | None => panic
  | Some p =>
      s <- get ;; pr <- deref (k_procs s !! p) ;;
      spin_acquire (p_lock pr) ;;;
      KASSERT (0 <? p_numthreads pr) ;;;
      modify (λ s, set_procs (<[p := KProc (p_numthreads pr - 1) (p_lock pr)]> (k_procs s)) s) ;;;
      spin_release (p_lock pr) ;;;
      put_thread t (with_proc None x)
  end.

Definition thread_make_runnable (target : Z) (already_have_lock : bool) : M kstate unit :=
  x <- get_thread target ;; targetcpu <- deref (t_cpu x) ;;
  k <- get_cpu targetcpu ;;
  (if already_have_lock then h <- spin_do_i_hold (c_runqueue_lock k) ;; KASSERT h
   else spin_acquire (c_runqueue_lock k)) ;;;
  set_t_state target S_READY ;;;
  on_tl (threadlist_addtail (c_runqueue k) target) ;;;
  s <- get ;;
  (if c_isidle k && negb (targetcpu =? curcpu s) then ipi_send targetcpu IPI_UNIDLE else ret tt) ;;;
  if already_have_lock then ret tt else spin_release (c_runqueue_lock k).

Definition MAX_NAME_LENGTH : Z := 64.

(** [thread_create(name)]: [mem] is what [kmalloc] returns.  A name that is
    exactly as long as the array that takes it is written past its end. *)
Definition thread_create (namelen : Z) (mem : option Z) : M kstate (option Z) :=
  if MAX_NAME_LENGTH <? namelen then ret None
  else
    match mem with
    | None => ret None
    | Some t =>
        (if namelen =? MAX_NAME_LENGTH then undef else ret tt) ;;;
        put_thread t (Thread S_READY None None false) ;;;
        on_tl (threadlistnode_init t) ;;;
        ret (Some t)
    end.

Definition thread_destroy (t : Z) : M kstate unit :=
  cur <- curthread ;;
  KASSERT (negb (t =? cur)) ;;;
  x <- get_thread t ;;
  KASSERT (bool_decide (t_state x ≠ S_RUN)) ;;;
  KASSERT (bool_decide (t_proc x = None)) ;;;
  on_tl (threadlistnode_cleanup (TNode t)) ;;;
  modify (λ s, set_threads (delete t (k_threads s)) s).

(** ** Wait channels: a channel is the list of the threads that wait. *)

Definition wchan_wakeone (wc lk : Z) : M kstate unit :=
  h <- spin_do_i_hold lk ;; KASSERT h ;;;
  target <- on_tl (threadlist_remhead wc) ;;
  match target with
  | None => ret tt
  | Some t => thread_make_runnable t false
  end.

(** Each of the two loops of [wchan_wakeall]; a list is not longer than there
    are threads, which is the fuel. *)
Fixpoint move_all (fuel : nat) (from to : Z) : M kstate unit :=
  match fuel with
  | O => loops
  | S fuel =>
      target <- on_tl (threadlist_remhead from) ;;
      match target with
      | None => ret tt
      | Some t => on_tl (threadlist_addtail to t) ;;; move_all fuel from to
      end
  end.

Fixpoint run_all (fuel : nat) (from : Z) : M kstate unit :=
  match fuel with
  | O => loops
  | S fuel =>
      target <- on_tl (threadlist_remhead from) ;;
      match target with
      | None => ret tt
      | Some t => thread_make_runnable t false ;;; run_all fuel from
      end
  end.

Definition enough (s : kstate) : nat := S (size (k_threads s)).

Definition wchan_wakeall (wc lk : Z) : M kstate unit :=
  h <- spin_do_i_hold lk ;; KASSERT h ;;;
  s <- get ;;
  on_tl (threadlist_init (scratch s)) ;;;
  move_all (enough s) wc (scratch s) ;;;
  run_all (enough s) (scratch s) ;;;
  on_tl (threadlist_cleanup (scratch s)).

Definition wchan_isempty (wc lk : Z) : M kstate bool :=
  h <- spin_do_i_hold lk ;; KASSERT h ;;;
  on_tl (threadlist_isempty wc).

(** ** Context switches *)

Fixpoint exorcise_loop (fuel : nat) (zombies : Z) : M kstate unit :=
  match fuel with
  | O => loops
  | S fuel =>
      z <- on_tl (threadlist_remhead zombies) ;;
      match z with
      | None => ret tt
      | Some z =>
          cur <- curthread ;;
          KASSERT (negb (z =? cur)) ;;;
          x <- get_thread z ;;
          KASSERT (bool_decide (t_state x = S_ZOMBIE)) ;;;
          thread_destroy z ;;;
          exorcise_loop fuel zombies
      end
  end.

Definition exorcise : M kstate unit :=
  s <- get ;; k <- get_cpu (curcpu s) ;; exorcise_loop (enough s) (c_zombies k).

(** Once around the loop that looks for a thread to run, with the run queue
    locked: the thread that the processor continues with, after the tail of
    [thread_switch] (or the head of [thread_startup]) in that thread; [None]
    when the processor has to idle, which it does with the queue unlocked. *)
Definition switch_next : M kstate (option Z) :=
  s <- get ;; k <- get_cpu (curcpu s) ;;
  next <- on_tl (threadlist_remhead (c_runqueue k)) ;;
  match next with
  | None => spin_release (c_runqueue_lock k) ;;; ret None
  | Some next =>
      set_isidle (curcpu s) false ;;;
      k <- get_cpu (curcpu s) ;; put_cpu (curcpu s) (with_curthread next k) ;;;
      (* switchframe_switch *)
      set_t_state next S_RUN ;;;
      spin_release (c_runqueue_lock k) ;;;
      exorcise ;;;
      ret (Some next)
  end.

(** [cpu_idle] has returned: the queue is locked again. *)
Definition switch_idle : M kstate (option Z) :=
  s <- get ;; k <- get_cpu (curcpu s) ;;
  spin_acquire (c_runqueue_lock k) ;;;
  switch_next.

(** [thread_switch(newstate, wc, lk)] up to where the processor has a new
    thread or idles; the first component of the result is false when the
    function returned without switching. *)
Definition thread_switch (newstate : threadstate_t) (wc lk : Z) : M kstate (bool * option Z) :=
  s <- get ;; k <- get_cpu (curcpu s) ;;
  let cur := c_curthread k in
  if c_isidle k then ret (false, None)
  else
    spin_acquire (c_runqueue_lock k) ;;;
    empty <- on_tl (threadlist_isempty (c_runqueue k)) ;;
    if bool_decide (newstate = S_READY) && empty then
      spin_release (c_runqueue_lock k) ;;; ret (false, None)
    else
      match newstate with
      | S_RUN => panic
      | S_READY => thread_make_runnable cur true
      | S_SLEEP => on_tl (threadlist_addtail wc cur) ;;; spin_release lk
      | S_ZOMBIE => on_tl (threadlist_addtail (c_zombies k) cur)
      end ;;;
      set_t_state cur newstate ;;;
      set_isidle (curcpu s) true ;;;
      next <- switch_next ;;
      ret (true, next).

Definition thread_yield : M kstate (bool * option Z) := thread_switch S_READY 0 0.

(** [wchan_sleep(wc, lk)] up to where another thread runs; when this one runs
    again it takes [lk] back. *)
Definition wchan_sleep (wc lk : Z) : M kstate (bool * option Z) :=
  cur <- curthread ;; x <- get_thread cur ;;
  KASSERT (negb (t_in_interrupt x)) ;;;
  h <- spin_do_i_hold lk ;; KASSERT h ;;;
  s <- get ;;
  KASSERT (Z.of_nat (size (k_held s)) =? 1) ;;;
  thread_switch S_SLEEP wc lk.

(** [thread_fork(name, proc, ...)]: [mem] and [stack] are what [kmalloc]
    returns for the thread and for its stack. *)
Definition thread_fork (namelen : Z) (mem : option Z) (stack : bool) (proc : option Z) :
    M kstate unit :=
  newthread <- thread_create namelen mem ;;
  match newthread with
  | None => fail ENOMEM
  | Some t =>
      if negb stack then thread_destroy t ;;; fail ENOMEM
      else
        cur <- curthread ;; c <- get_thread cur ;;
        x <- get_thread t ;; put_thread t (with_cpu (t_cpu c) x) ;;;
        p <- match proc with Some p => ret p | None => deref (t_proc c) end ;;
        r <- attempt (proc_addthread p t) ;;
        match r with
        | inl e => thread_destroy t ;;; fail e
        | inr _ =>
            s <- get ;;
            (spin_acquire (thread_count_lock s) ;;;
             modify (λ s, set_thread_count (u32 (thread_count s + 1)) s) ;;;
             wchan_wakeall (thread_count_wchan s) (thread_count_lock s) ;;;
             spin_release (thread_count_lock s)) ;;;
            thread_make_runnable t false
        end
  end.

(** [thread_exit()] up to where another thread runs. *)
Definition thread_exit : M kstate (bool * option Z) :=
  cur <- curthread ;;
  proc_remthread cur ;;;
  x <- get_thread cur ;;
  KASSERT (bool_decide (t_proc x = None)) ;;;
  s <- get ;;
  (if negb (thread_count s =? 0) then
     spin_acquire (thread_count_lock s) ;;;
     modify (λ s, set_thread_count (u32 (thread_count s - 1)) s) ;;;
     wchan_wakeall (thread_count_wchan s) (thread_count_lock s) ;;;
     spin_release (thread_count_lock s)
   else ret tt) ;;;
  thread_switch S_ZOMBIE 0 0.

(** ** Migration *)

(** The loop that counts the threads on the run queues. *)
Fixpoint count_threads (cs : list Z) (my total : Z) : M kstate (Z * Z) :=
  match cs with
  | [] => ret (my, total)
  | c :: cs =>
      s <- get ;; k <- get_cpu c ;;
      spin_acquire (c_runqueue_lock k) ;;;
      n <- on_tl (read_count (c_runqueue k)) ;;
      spin_release (c_runqueue_lock k) ;;;
      count_threads cs (if c =? curcpu s then n else my) (u32 (total + n))
  end.

(** The loop that takes threads off the end of the own queue. *)
Fixpoint take_victims (n : nat) (rq victims : Z) : M kstate unit :=
  match n with
  | O => ret tt
  | S n =>
      t <- on_tl (threadlist_remtail rq) ;; t <- deref t ;;
      on_tl (threadlist_addhead victims t) ;;;
      take_victims n rq victims
  end.

(** The loop that fills the queue of processor [c] up to [one_share]; it ends
    because every round uses up one thread to send: the fuel is [to_send]. *)
Fixpoint send_to (fuel : nat) (c victims one_share to_send : Z) : M kstate Z :=
  k <- get_cpu c ;;
  n <- on_tl (read_count (c_runqueue k)) ;;
  if (n <? one_share) && (0 <? to_send) then
    match fuel with
    | O => loops
    | S fuel =>
        t <- on_tl (threadlist_remhead victims) ;; t <- deref t ;;
        cur <- curthread ;;
        if t =? cur then
          on_tl (threadlist_addtail victims t) ;;;
          send_to fuel c victims one_share (to_send - 1)
        else
          x <- get_thread t ;; put_thread t (with_cpu (Some c) x) ;;;
          on_tl (threadlist_addtail (c_runqueue k) t) ;;;
          (if c_isidle k then ipi_send c IPI_UNIDLE else ret tt) ;;;
          send_to fuel c victims one_share (to_send - 1)
    end
  else ret to_send.

Fixpoint send_all (cs : list Z) (victims one_share to_send : Z) : M kstate unit :=
  match cs with
  | [] => ret tt
  | c :: cs =>
      if 0 <? to_send then
        s <- get ;;
        if c =? curcpu s then send_all cs victims one_share to_send
        else
          k <- get_cpu c ;;
          spin_acquire (c_runqueue_lock k) ;;;
          to_send <- send_to (Z.to_nat to_send) c victims one_share to_send ;;
          spin_release (c_runqueue_lock k) ;;;
          send_all cs victims one_share to_send
      else ret tt
  end.

Definition thread_consider_migration : M kstate unit :=
  s <- get ;;
  let numcpus := Z.of_nat (length (allcpus s)) in
  counts <- count_threads (allcpus s) 0 0 ;;
  let '(my_count, total_count) := counts in
  let one_share := DIVROUNDUP total_count numcpus in
  if my_count <? one_share then ret tt
  else
    let to_send := my_count - one_share in
    let victims := scratch s in
    k <- get_cpu (curcpu s) ;;
    (on_tl (threadlist_init victims) ;;;
     spin_acquire (c_runqueue_lock k) ;;;
     take_victims (Z.to_nat to_send) (c_runqueue k) victims ;;;
     spin_release (c_runqueue_lock k)) ;;;
    send_all (allcpus s) victims one_share to_send ;;;
    empty <- on_tl (threadlist_isempty victims) ;;
    (if negb empty then
       spin_acquire (c_runqueue_lock k) ;;;
       move_all (enough s) victims (c_runqueue k) ;;;
       spin_release (c_runqueue_lock k)
     else ret tt) ;;;
    empty <- on_tl (threadlist_isempty victims) ;;
    KASSERT empty ;;;
    on_tl (threadlist_cleanup victims).

(** ** The invariant

    What each list and each spinlock is for. *)

Inductive role := RunQ (c : Z) | Zomb (c : Z) | Wchan | Scratch.
Inductive lockrole := LRunq (c : Z) | LIpi (c : Z) | LProc (p : Z) | LWchan.

Definition on (a : tlabs) (l t : Z) : Prop := ∃ ts, lists a !! l = Some ts ∧ t ∈ ts.

(** The threads that belong to process [p]. *)
Definition members (p : Z) (ths : gmap Z thread) : gmap Z thread :=
  filter (λ tx, t_proc tx.2 = Some p) ths.

(** Proves the parts of the invariant that a change does not touch. *)
Ltac kinv_keep Hk :=
  let K1 := fresh in let K2 := fresh in let K3 := fresh in
  let K4 := fresh in let K5 := fresh in let K6 := fresh in
  let K7 := fresh in let K8 := fresh in let K9 := fresh in
  let K10 := fresh in let K11 := fresh in let K12 := fresh in
  let K13 := fresh in let K14 := fresh in
  destruct (Hk) as [K1 K2 K3 K4 K5 K6 K7 K8 K9 K10 K11 K12 K13 K14];
  split; [try exact K1|try exact K2|try exact K3|try exact K4|try exact K5|try exact K6|try exact K7
    |try exact K8|try exact K9|try exact K10|try exact K11|try exact K12|try exact K13|try exact K14];
  clear K1 K2 K3 K4 K5 K6 K7 K8 K9 K10 K11 K12 K13 K14.

Section kinv.
Context (L : gmap Z lockrole) (R : gmap Z role).

(** A thread is where its state says, and nowhere else since no thread is on
    two lists. *)
Definition located (s : kstate) (a : tlabs) (t : Z) (x : thread) : Prop :=
  match t_state x with
  | S_RUN => t ∈ unlinked a ∧
      ∃ c k, t_cpu x = Some c ∧ k_cpus s !! c = Some k ∧ c_curthread k = t ∧ c_isidle k = false
  | S_READY => ∃ l c, on a l t ∧ R !! l = Some (RunQ c) ∧ t_cpu x = Some c
  | S_SLEEP => ∃ l, on a l t ∧ R !! l = Some Wchan
  | S_ZOMBIE => ∃ l c, on a l t ∧ R !! l = Some (Zomb c) ∧ t_cpu x = Some c ∧ t_proc x = None
  end.

(** [X]: the threads that the code that runs is moving. *)
Record kinv (X : gset Z) (s : kstate) (a : tlabs) : Prop := {
  ki_tl : tl_repr (k_tl s) a;
  ki_dom l : is_Some (lists a !! l) ↔ is_Some (R !! l);
  ki_cpu c k : k_cpus s !! c = Some k →
    R !! c_runqueue k = Some (RunQ c) ∧ R !! c_zombies k = Some (Zomb c) ∧
    L !! c_runqueue_lock k = Some (LRunq c) ∧ L !! c_ipi_lock k = Some (LIpi c);
  ki_all c : c ∈ allcpus s ↔ is_Some (k_cpus s !! c);
  ki_nodup : NoDup (allcpus s);
  ki_curcpu : is_Some (k_cpus s !! curcpu s);
  ki_globals : R !! scratch s = Some Scratch ∧ R !! thread_count_wchan s = Some Wchan ∧
    L !! thread_count_lock s = Some LWchan;
  ki_located t x : k_threads s !! t = Some x → t ∉ X → located s a t x;
  ki_tcpu t x : k_threads s !! t = Some x → ∃ c, t_cpu x = Some c ∧ is_Some (k_cpus s !! c);
  ki_known t : t ∈ unlinked a ∨ (∃ l, on a l t) → is_Some (k_threads s !! t);
  ki_cur c k : k_cpus s !! c = Some k → c_isidle k = false → c_curthread k ∈ X ∨
    ∃ x, k_threads s !! c_curthread k = Some x ∧ t_state x = S_RUN ∧ t_cpu x = Some c;
  ki_proc p pr : k_procs s !! p = Some pr →
    L !! p_lock pr = Some (LProc p) ∧ p_numthreads pr = Z.of_nat (size (members p (k_threads s)));
  ki_tproc t x p : k_threads s !! t = Some x → t_proc x = Some p → is_Some (k_procs s !! p);
  ki_ptr t x : k_threads s !! t = Some x → is_ptr t;
}.

(** Nothing is being moved. *)
Definition kinv0 (s : kstate) (a : tlabs) : Prop :=
  kinv ∅ s a ∧ lists a !! scratch s = Some [].

(** *** How the lists change *)

Lemma on_insert l ts1 t ts2 a l' t' :
  lists a !! l = Some (ts1 ++ ts2) → t' ≠ t →
  (on (abs_insert l ts1 t ts2 a) l' t' ↔ on a l' t').
Proof.
  intros Hl Hne. unfold on, abs_insert. cbn. split.
  - intros (ts & [[<- <-]|[? ?]]%lookup_insert_Some & Ht); [|by eauto].
    eexists. split; [done|]. set_solver.
  - intros (ts & Hts & Ht). destruct (decide (l = l')) as [<-|Hd].
    + rewrite lookup_insert_eq. eexists. split; [done|]. simplify_eq. set_solver.
    + rewrite lookup_insert_ne by done. eauto.
Qed.

Lemma on_remove l ts1 t ts2 a l' t' :
  lists a !! l = Some (ts1 ++ t :: ts2) → t' ≠ t →
  (on (abs_remove l ts1 t ts2 a) l' t' ↔ on a l' t').
Proof.
  intros Hl Hne. unfold on, abs_remove. cbn. split.
  - intros (ts & [[<- <-]|[? ?]]%lookup_insert_Some & Ht); [|by eauto].
    eexists. split; [done|]. set_solver.
  - intros (ts & Hts & Ht). destruct (decide (l = l')) as [<-|Hd].
    + rewrite lookup_insert_eq. eexists. split; [done|]. simplify_eq. set_solver.
    + rewrite lookup_insert_ne by done. eauto.
Qed.

Lemma on_inserted l ts1 t ts2 a : on (abs_insert l ts1 t ts2 a) l t.
Proof. eexists. cbn. rewrite lookup_insert_eq. split; [done|]. set_solver. Qed.

(** Lists that differ in where [t] is, which is on the move. *)
Definition same_but (t : Z) (a a' : tlabs) : Prop :=
  (∀ l, is_Some (lists a' !! l) ↔ is_Some (lists a !! l)) ∧
  (∀ l t', t' ≠ t → (on a' l t' ↔ on a l t')) ∧
  (∀ t', t' ≠ t → (t' ∈ unlinked a' ↔ t' ∈ unlinked a)).

Lemma same_insert l ts1 t ts2 a :
  lists a !! l = Some (ts1 ++ ts2) → same_but t a (abs_insert l ts1 t ts2 a).
Proof.
  intros Hl. split_and!.
  - intros l'. cbn. destruct (decide (l = l')) as [<-|].
    + rewrite lookup_insert_eq, Hl. split; eauto.
    + by rewrite lookup_insert_ne.
  - intros l' t' Hne. by apply on_insert.
  - cbn. set_solver.
Qed.

Lemma same_remove l ts1 t ts2 a :
  lists a !! l = Some (ts1 ++ t :: ts2) → same_but t a (abs_remove l ts1 t ts2 a).
Proof.
  intros Hl. split_and!.
  - intros l'. cbn. destruct (decide (l = l')) as [<-|].
    + rewrite lookup_insert_eq, Hl. split; eauto.
    + by rewrite lookup_insert_ne.
  - intros l' t' Hne. by apply on_remove.
  - cbn. set_solver.
Qed.

Lemma kinv_lists X s a m' a' t :
  kinv X s a → t ∈ X → is_Some (k_threads s !! t) → tl_repr m' a' → same_but t a a' →
  kinv X (set_tl m' s) a'.
Proof.
  intros Hk Ht Htk Hr (Hd & Hon & Hun). kinv_keep Hk; cbn [set_tl k_tl k_threads k_cpus].
  - done.
  - intros l. rewrite Hd. apply Hk.
  - intros t' x Hx HX. assert (Hne : t' ≠ t) by (by intros ->).
    pose proof (ki_located _ _ _ Hk _ _ Hx HX) as Hloc. unfold located in *. cbn [k_cpus set_tl].
    destruct (t_state x).
    + by rewrite Hun.
    + destruct Hloc as (l & c & Ho & ?). exists l, c. by rewrite Hon.
    + destruct Hloc as (l & Ho & ?). exists l. by rewrite Hon.
    + destruct Hloc as (l & c & Ho & ?). exists l, c. by rewrite Hon.
  - intros t' Ht'. destruct (decide (t' = t)) as [->|Hne]; [done|].
    apply (ki_known _ _ _ Hk). destruct Ht' as [Hu|(l & Ho)].
    + left. by apply Hun.
    + right. exists l. by apply Hon.
Qed.

Lemma kinv_mono X Y s a : kinv X s a → X ⊆ Y → kinv Y s a.
Proof.
  intros Hk Hsub. kinv_keep Hk.
  - intros t' x Hx HX. apply (ki_located _ _ _ Hk); [done|set_solver].
  - intros c k Hc Hi. destruct (ki_cur _ _ _ Hk _ _ Hc Hi); [left; set_solver|by right].
Qed.

Lemma kinv_weaken X s a t : kinv X s a → kinv (X ∪ {[t]}) s a.
Proof. intros Hk. eapply kinv_mono; [done|]. set_solver. Qed.

(** A thread that has arrived. *)
Lemma kinv_settle X s a t x :
  kinv X s a → k_threads s !! t = Some x → located s a t x →
  (∀ c k, k_cpus s !! c = Some k → c_isidle k = false → c_curthread k = t →
     t_state x = S_RUN ∧ t_cpu x = Some c) →
  kinv (X ∖ {[t]}) s a.
Proof.
  intros Hk Hx Hloc Hcur. kinv_keep Hk.
  - intros t' x' Hx' HX. destruct (decide (t' = t)) as [->|Hne]; [by simplify_eq|].
    apply (ki_located _ _ _ Hk); [done|set_solver].
  - intros c k Hc Hi. destruct (decide (c_curthread k = t)) as [<-|Hne].
    + right. exists x. split; [done|]. by apply (Hcur c k).
    + destruct (ki_cur _ _ _ Hk _ _ Hc Hi); [left; set_solver|by right].
Qed.

(** *** How threads and processors change *)

Lemma members_insert p ths t x x' :
  ths !! t = Some x → t_proc x' = t_proc x →
  size (members p (<[t := x']> ths)) = size (members p ths).
Proof.
  intros Ht Hp. unfold members. destruct (decide (t_proc x = Some p)) as [Hd|Hd].
  - rewrite (map_filter_insert_True _ _ t x') by (cbn; congruence).
    rewrite map_size_insert, map_lookup_filter, Ht. cbn. by rewrite option_guard_True.
  - rewrite (map_filter_insert_False _ _ t x') by (cbn; congruence).
    rewrite map_filter_delete_not; [done|]. intros y Hy. rewrite Ht in Hy. simplify_eq. cbn. congruence.
Qed.

Lemma kinv_thread X s a t x x' :
  kinv X s a → t ∈ X → k_threads s !! t = Some x → t_proc x' = t_proc x →
  (∃ c, t_cpu x' = Some c ∧ is_Some (k_cpus s !! c)) →
  kinv X (set_threads (<[t := x']> (k_threads s)) s) a.
Proof.
  intros Hk HX Hx Hp Hc. kinv_keep Hk; cbn [set_threads k_threads k_cpus k_procs].
  - intros t' y Hy HX'. rewrite lookup_insert_ne in Hy by (by intros ->).
    exact (ki_located _ _ _ Hk _ _ Hy HX').
  - intros t' y [[<- <-]|[_ Hy]]%lookup_insert_Some; [done|by eapply ki_tcpu].
  - intros t' Ht'. rewrite lookup_insert_is_Some'. right. by apply (ki_known _ _ _ Hk).
  - intros c k Hck Hi. destruct (ki_cur _ _ _ Hk _ _ Hck Hi) as [?|(y & Hy & ?)]; [by left|].
    destruct (decide (c_curthread k = t)) as [->|Hne]; [by left|].
    right. exists y. by rewrite lookup_insert_ne.
  - intros p pr Hpr. rewrite (members_insert p _ t x x') by done. by apply (ki_proc _ _ _ Hk).
  - intros t' y p [[<- <-]|[_ Hy]]%lookup_insert_Some Hyp; [|by eapply ki_tproc].
    eapply (ki_tproc _ _ _ Hk t x); [done|congruence].
  - intros t' y [[<- _]|[_ Hy]]%lookup_insert_Some; by eapply ki_ptr.
Qed.

Lemma kinv_cpu X s a c k k' :
  kinv X s a → k_cpus s !! c = Some k →
  c_runqueue k' = c_runqueue k → c_zombies k' = c_zombies k →
  c_runqueue_lock k' = c_runqueue_lock k → c_ipi_lock k' = c_ipi_lock k →
  (∀ t x, k_threads s !! t = Some x → t ∉ X → t_state x = S_RUN → t_cpu x = Some c →
     c_curthread k = t → c_isidle k = false → c_curthread k' = t ∧ c_isidle k' = false) →
  (c_isidle k' = false → c_curthread k' ∈ X ∨
     ∃ x, k_threads s !! c_curthread k' = Some x ∧ t_state x = S_RUN ∧ t_cpu x = Some c) →
  kinv X (set_cpus (<[c := k']> (k_cpus s)) s) a.
Proof.
  intros Hk Hc H1 H2 H3 H4 Hrun Hcur.
  assert (Hsome : ∀ c', is_Some (<[c := k']> (k_cpus s) !! c') ↔ is_Some (k_cpus s !! c')).
  { intros c'. rewrite lookup_insert_is_Some'. split; [intros [<-|]|]; eauto. }
  kinv_keep Hk; cbn [set_cpus k_threads k_cpus k_procs allcpus curcpu].
  - intros c' k'' [[<- <-]|[_ Hc']]%lookup_insert_Some; [|by apply (ki_cpu _ _ _ Hk)].
    rewrite H1, H2, H3, H4. by apply (ki_cpu _ _ _ Hk).
  - intros c'. rewrite Hsome. apply (ki_all _ _ _ Hk).
  - rewrite Hsome. apply (ki_curcpu _ _ _ Hk).
  - intros t x Hx HX. pose proof (ki_located _ _ _ Hk _ _ Hx HX) as Hloc. unfold located in *.
    cbn [set_cpus k_cpus]. destruct (t_state x) eqn:Hst; try done.
    destruct Hloc as (Hu & c' & k'' & Htc & Hc' & Hct & Hi). split; [done|].
    destruct (decide (c' = c)) as [->|Hne].
    + simplify_eq. exists c, k'. rewrite lookup_insert_eq. by destruct (Hrun _ _ Hx HX Hst Htc).
    + exists c', k''. by rewrite lookup_insert_ne.
  - intros t x Hx. destruct (ki_tcpu _ _ _ Hk _ _ Hx) as (c' & ? & ?). exists c'. by rewrite Hsome.
  - intros c' k'' [[<- <-]|[_ Hc']]%lookup_insert_Some Hi; [by apply Hcur|].
    by apply (ki_cur _ _ _ Hk).
Qed.

Lemma kinv_held X s a h : kinv X s a → kinv X (set_held h s) a.
Proof. intros Hk. kinv_keep Hk. Qed.

Lemma kinv_count X s a n : kinv X s a → kinv X (set_thread_count n s) a.
Proof. intros Hk. kinv_keep Hk. Qed.

End kinv.

(** ** Steps of the code *)

Lemma get_thread_eq s t x : k_threads s !! t = Some x → get_thread t s = Ok x s.
Proof. intros H. unfold get_thread, bind, get. by rewrite H. Qed.

Lemma get_cpu_eq s c k : k_cpus s !! c = Some k → get_cpu c s = Ok k s.
Proof. intros H. unfold get_cpu, bind, get. by rewrite H. Qed.

Lemma curthread_eq s k : k_cpus s !! curcpu s = Some k → curthread s = Ok (c_curthread k) s.
Proof. intros H. unfold curthread, bind, get at 1. by rewrite (get_cpu_eq _ _ _ H). Qed.

Lemma set_t_state_eq s t x st :
  k_threads s !! t = Some x →
  set_t_state t st s = Ok tt (set_threads (<[t := with_state st x]> (k_threads s)) s).
Proof. intros H. unfold set_t_state, bind. by rewrite (get_thread_eq _ _ _ H). Qed.

Lemma set_isidle_eq s c k b :
  k_cpus s !! c = Some k →
  set_isidle c b s = Ok tt (set_cpus (<[c := with_idle b k]> (k_cpus s)) s).
Proof. intros H. unfold set_isidle, bind. by rewrite (get_cpu_eq _ _ _ H). Qed.

Lemma spin_acquire_eq s l :
  l ∉ k_held s → spin_acquire l s = Ok tt (set_held (k_held s ∪ {[l]}) s).
Proof. intros H. unfold spin_acquire, bind, get. by rewrite bool_decide_eq_false_2. Qed.

Lemma spin_release_eq s l :
  l ∈ k_held s → spin_release l s = Ok tt (set_held (k_held s ∖ {[l]}) s).
Proof. intros H. unfold spin_release, bind, get. by rewrite bool_decide_eq_true_2. Qed.

Lemma spin_do_i_hold_eq s l : spin_do_i_hold l s = Ok (bool_decide (l ∈ k_held s)) s.
Proof. done. Qed.

(** Runs the next call, of which [H] says what it does. *)
Tactic Notation "kcall" uconstr(H) := eapply wp_of_ok; [eapply H|cbn beta].
Tactic Notation "kstep" uconstr(H) := apply wp_bind; kcall H.

Lemma on_tl_wp {A} C (m : M threadlist A) Q E s v a' :
  refines (m (k_tl s)) v a' → (∀ m', tl_repr m' a' → Q v (set_tl m' s)) → wp C (on_tl m) Q E s.
Proof. intros (m' & Hm & Hr) HQ. apply wp_zoom. unfold wp. rewrite Hm. by apply HQ. Qed.

(** What the scheduler leaves alone: everything but the lists, the states of
    threads and pending interrupts. *)
Record keeps (s s' : kstate) : Prop := {
  kp_curcpu : curcpu s' = curcpu s;
  kp_allcpus : allcpus s' = allcpus s;
  kp_procs : k_procs s' = k_procs s;
  kp_held : k_held s' = k_held s;
  kp_count : thread_count s' = thread_count s;
  kp_lock : thread_count_lock s' = thread_count_lock s;
  kp_wchan : thread_count_wchan s' = thread_count_wchan s;
  kp_scratch : scratch s' = scratch s;
  kp_cpus c k : k_cpus s !! c = Some k → ∃ n, k_cpus s' !! c = Some (with_ipi n k);
}.

#[global] Instance keeps_refl : Reflexive keeps.
Proof. intros s. split; try done. intros c [] Hk. by eexists. Qed.

#[global] Instance keeps_trans : Transitive keeps.
Proof.
  intros s1 s2 s3 H12 H23. split;
    try (etrans; [apply H23|apply H12]).
  intros c k Hk. destruct (kp_cpus _ _ H12 _ _ Hk) as (n & Hn).
  destruct (kp_cpus _ _ H23 _ _ Hn) as (n' & Hn'). by exists n'.
Qed.

Lemma keeps_tl s m : keeps s (set_tl m s).
Proof. split; try done. intros c [] Hk. by eexists. Qed.
Lemma keeps_threads s m : keeps s (set_threads m s).
Proof. split; try done. intros c [] Hk. by eexists. Qed.

Lemma held_back (h : gset Z) l : l ∉ h → (h ∪ {[l]}) ∖ {[l]} = h.
Proof. set_solver. Qed.

Lemma set_held_twice h h' s : set_held h (set_held h' s) = set_held h s.
Proof. done. Qed.
Lemma set_held_id s : set_held (k_held s) s = s.
Proof. by destruct s. Qed.

Section wps.
Context (L : gmap Z lockrole) (R : gmap Z role).
#[local] Abbreviation kinv := (kinv L R).

(** The spinlocks that the processor holds are of this kind. *)
Definition holds_only (P : lockrole → Prop) (s : kstate) : Prop :=
  ∀ l, l ∈ k_held s → ∃ r, L !! l = Some r ∧ P r.

Lemma not_held P s l r : holds_only P s → L !! l = Some r → ¬ P r → l ∉ k_held s.
Proof. intros Hh Hl HP Hin. destruct (Hh _ Hin) as (r' & ? & ?). by simplify_eq. Qed.

Lemma ipi_send_wp C X s a c k code Q :
  kinv X s a → k_cpus s !! c = Some k → holds_only (λ r, ∀ c, r ≠ LIpi c) s → 0 ≤ code < 32 →
  (∀ s', kinv X s' a → keeps s s' → k_threads s' = k_threads s → k_tl s' = k_tl s → Q tt s') →
  wp C (ipi_send c code) Q no_err s.
Proof.
  intros Hk Hc Hh Hcode HQ. unfold ipi_send. apply wp_bind, wp_KASSERT.
  { apply andb_true_intro. split; [apply Z.leb_le|apply Z.ltb_lt]; lia. }
  kstep (get_cpu_eq _ _ _ Hc). destruct (ki_cpu _ _ _ _ _ Hk _ _ Hc) as (_ & _ & _ & Hl).
  assert (Hn : c_ipi_lock k ∉ k_held s) by (eapply not_held; [done..|naive_solver]).
  kstep (spin_acquire_eq _ _ Hn). unfold put_cpu. wps.
  eapply wp_of_ok; [apply spin_release_eq; cbn; set_solver|]. cbn [k_held set_cpus set_held].
  rewrite held_back by done. apply HQ; [| |done|done].
  - apply kinv_held. eapply (kinv_cpu L R X (set_held _ s) a c k); [by apply kinv_held|done..| |].
    + cbn. naive_solver.
    + exact (ki_cur _ _ _ _ _ Hk _ _ Hc).
  - split; try done. intros c' k' Hc'. cbn. destruct (decide (c' = c)) as [->|].
    + rewrite lookup_insert_eq. simplify_eq. by eexists.
    + rewrite lookup_insert_ne by done. destruct k'. by eexists.
Qed.

(** A thread that is being moved goes to the end of the run queue of its
    processor. *)
Lemma thread_make_runnable_wp C X s a t x c k ts have Q :
  kinv X s a → t ∈ X → t ∈ unlinked a → k_threads s !! t = Some x → t_cpu x = Some c →
  k_cpus s !! c = Some k → lists a !! c_runqueue k = Some ts →
  holds_only (λ r, ∀ c, r ≠ LIpi c) s →
  (if have : bool then c_runqueue_lock k ∈ k_held s else c_runqueue_lock k ∉ k_held s) →
  (∀ s', kinv X s' (abs_insert (c_runqueue k) ts t [] a) → keeps s s' →
     k_threads s' = <[t := with_state S_READY x]> (k_threads s) → Q tt s') →
  wp C (thread_make_runnable t have) Q no_err s.
Proof.
  intros Hk HX Hu Hx Hxc Hc Hts Hh Hlk HQ. unfold thread_make_runnable.
  destruct (ki_cpu _ _ _ _ _ Hk _ _ Hc) as (Hrq & _ & HLr & HLi).
  kstep (get_thread_eq _ _ _ Hx). apply wp_bind. eapply wp_deref; [done|]. kstep (get_cpu_eq _ _ _ Hc).
  set (h := if have then k_held s else k_held s ∪ {[c_runqueue_lock k]}).
  apply wp_bind. eapply (wp_of_ok _ _ _ _ _ tt (set_held h s)).
  { unfold h. destruct have; [|by apply spin_acquire_eq].
    unfold bind. rewrite spin_do_i_hold_eq, bool_decide_eq_true_2, set_held_id; done. }
  pose proof (kinv_held _ _ _ _ _ h Hk) as Hk1.
  kstep (set_t_state_eq (set_held h s) t x _ Hx). apply wp_bind. eapply on_tl_wp.
  { cbn [set_threads k_tl set_held]. apply (addtail_refines _ _ (ki_tl _ _ _ _ _ Hk)); done. }
  intros m' Hm'. wps. set (s2 := set_tl m' _).
  assert (Hk2 : kinv X s2 (abs_insert (c_runqueue k) ts t [] a)).
  { eapply (kinv_lists _ _ _ _ a); [|done| |done|by apply same_insert; rewrite app_nil_r].
    - eapply kinv_thread; [done..| |]; [done|]. exists c. split; [done|by eexists].
    - cbn. rewrite lookup_insert_eq. eauto. }
  assert (Hend : ∀ s3, keeps s2 s3 → k_threads s3 = k_threads s2 →
    kinv X s3 (abs_insert (c_runqueue k) ts t [] a) →
    wp C (if have then ret tt else spin_release (c_runqueue_lock k)) Q no_err s3).
  { intros s3 H23 Hth Hk3. pose proof (kp_held _ _ H23) as Hh3. cbn in Hh3, Hth.
    assert (Hs2 : keeps (set_held h s) s2).
    { etrans; [apply keeps_threads|apply keeps_tl]. }
    assert (Hkeep : ∀ h', h' = k_held s → keeps s (set_held h' s3)).
    { intros h' ->. pose proof (transitivity Hs2 H23) as []. by split. }
    unfold h in *. destruct have.
    - wps. apply HQ; [done| |done]. rewrite <-(set_held_id s3). by apply Hkeep.
    - eapply wp_of_ok; [apply spin_release_eq; rewrite Hh3; set_solver|].
      rewrite Hh3, held_back by done. apply HQ; [by apply kinv_held|by apply Hkeep|done]. }
  destruct (c_isidle k && negb (c =? curcpu s2)) eqn:Eb; [|wps; by apply Hend].
  eapply (ipi_send_wp _ X s2); [done|done| |done|intros; by apply Hend].
  intros l Hl. cbn in Hl. unfold h in Hl. destruct have; [by apply Hh|].
  apply elem_of_union in Hl as [Hl| ->%elem_of_singleton]; [by apply Hh|]. by eexists.
Qed.

(** The threads that are being moved do not run. *)
Definition nocur (X : gset Z) (s : kstate) : Prop :=
  ∀ c k, k_cpus s !! c = Some k → c_isidle k = false → c_curthread k ∉ X.

Lemma keeps_cpu_back X X' s s' a a' c k' :
  kinv X s a → kinv X' s' a' → keeps s s' → k_cpus s' !! c = Some k' →
  ∃ k n, k_cpus s !! c = Some k ∧ k' = with_ipi n k.
Proof.
  intros Hk Hk' Hkp Hc. assert (Hc0 : is_Some (k_cpus s !! c)).
  { apply (ki_all _ _ _ _ _ Hk). rewrite <-(kp_allcpus _ _ Hkp). apply (ki_all _ _ _ _ _ Hk'). eauto. }
  destruct Hc0 as [k Hc0]. destruct (kp_cpus _ _ Hkp _ _ Hc0) as (n & Hn). exists k, n.
  by rewrite Hc in Hn; simplify_eq.
Qed.

Lemma nocur_keeps X X' s s' a a' :
  nocur X s → X' ⊆ X → keeps s s' → kinv X' s' a' → kinv X s a → nocur X' s'.
Proof.
  intros Hn Hsub Hkp Hk' Hk c k' Hc Hi.
  destruct (keeps_cpu_back _ _ _ _ _ _ _ _ Hk Hk' Hkp Hc) as (k & n & Hc0 & ->).
  specialize (Hn _ _ Hc0 Hi). set_solver.
Qed.

Lemma kinv_entry X s a l t :
  kinv X s a → on a l t →
  ∃ x c k, k_threads s !! t = Some x ∧ t_cpu x = Some c ∧ k_cpus s !! c = Some k.
Proof.
  intros Hk Ho. destruct (ki_known _ _ _ _ _ Hk t) as [x Hx]; [right; by exists l|].
  destruct (ki_tcpu _ _ _ _ _ Hk _ _ Hx) as (c & Hxc & k & Hc). by exists x, c, k.
Qed.

Lemma kinv_runqueue X s a c k :
  kinv X s a → k_cpus s !! c = Some k → ∃ ts, lists a !! c_runqueue k = Some ts.
Proof.
  intros Hk Hc. apply (ki_dom _ _ _ _ _ Hk).
  destruct (ki_cpu _ _ _ _ _ Hk _ _ Hc) as (-> & _). eauto.
Qed.

(** What kind of list a thread is on follows from its state. *)
Lemma kinv_state X s a l t x r :
  kinv X s a → on a l t → k_threads s !! t = Some x → t ∉ X → R !! l = Some r →
  match r with
  | RunQ c => t_state x = S_READY ∧ t_cpu x = Some c
  | Zomb c => t_state x = S_ZOMBIE ∧ t_cpu x = Some c ∧ t_proc x = None
  | Wchan => t_state x = S_SLEEP
  | Scratch => False
  end.
Proof.
  intros Hk (ts & Hts & Ht) Hx HX Hr. pose proof (repr_wf _ _ (ki_tl _ _ _ _ _ Hk)) as Hw.
  pose proof (ki_located _ _ _ _ _ Hk _ _ Hx HX) as Hloc. unfold located in Hloc.
  assert (Huniq : ∀ l', on a l' t → l' = l).
  { intros l' (ts' & Hts' & Ht'). by eapply (wf_disjoint _ Hw). }
  destruct (t_state x).
  - destruct Hloc as [Hu _]. exfalso. by eapply (wf_unlinked _ Hw l ts t).
  - destruct Hloc as (l' & c & Ho & Hr' & Hc). rewrite (Huniq _ Ho) in Hr'. by simplify_eq.
  - destruct Hloc as (l' & Ho & Hr'). rewrite (Huniq _ Ho) in Hr'. by simplify_eq.
  - destruct Hloc as (l' & c & Ho & Hr' & Hc). rewrite (Huniq _ Ho) in Hr'. by simplify_eq.
Qed.

(** A thread that is on a list does not run. *)
Lemma kinv_notcur X s a l t c k :
  kinv X s a → nocur X s → on a l t → k_cpus s !! c = Some k → c_isidle k = false →
  c_curthread k ≠ t.
Proof.
  intros Hk Hn (ts & Hts & Ht) Hc Hi <-. pose proof (repr_wf _ _ (ki_tl _ _ _ _ _ Hk)) as Hw.
  pose proof (Hn _ _ Hc Hi) as HX. destruct (ki_cur _ _ _ _ _ Hk _ _ Hc Hi) as [?|(x & Hx & Hst & _)]; [done|].
  pose proof (ki_located _ _ _ _ _ Hk _ _ Hx HX) as Hloc. unfold located in Hloc. rewrite Hst in Hloc.
  destruct Hloc as [Hu _]. by eapply (wf_unlinked _ Hw _ ts).
Qed.

(** Where the head of a list goes when it is woken up. *)
Definition abs_wake (from : Z) (t : Z) (ws : list Z) (rq : Z) (a : tlabs) : tlabs :=
  let a1 := abs_remove from [] t ws a in
  abs_insert rq (default [] (lists a1 !! rq)) t [] a1.

Lemma wake_wp C X s m' a from t ws Q :
  kinv X s a → lists a !! from = Some (t :: ws) → tl_repr m' (abs_remove from [] t ws a) →
  nocur X s → holds_only (λ r, r = LWchan) s →
  (∀ s' x c k, k_threads s !! t = Some x → t_cpu x = Some c → k_cpus s !! c = Some k →
     kinv (X ∖ {[t]}) s' (abs_wake from t ws (c_runqueue k) a) → keeps s s' →
     k_threads s' = <[t := with_state S_READY x]> (k_threads s) → Q tt s') →
  wp C (thread_make_runnable t false) Q no_err (set_tl m' s).
Proof.
  intros Hk Hl Hm' Hn Hh HQ. assert (Ho : on a from t) by (eexists; split; [done|set_solver]).
  destruct (kinv_entry _ _ _ _ _ Hk Ho) as (x & c & k & Hx & Hxc & Hc).
  assert (Hk1 : kinv (X ∪ {[t]}) (set_tl m' s) (abs_remove from [] t ws a)).
  { eapply (kinv_lists _ _ _ _ a _ _ t); [by apply kinv_weaken|set_solver|by eexists|done|by apply same_remove]. }
  destruct (kinv_runqueue _ _ _ _ _ Hk1 Hc) as (ts & Hts).
  destruct (ki_cpu _ _ _ _ _ Hk _ _ Hc) as (Hrq & _ & HLr & _).
  eapply (thread_make_runnable_wp C (X ∪ {[t]}) _ _ t x c k ts false); try done; [set_solver..| | |].
  - intros l Hin. destruct (Hh _ Hin) as (r & Hr & ->). eexists. by split.
  - by eapply (not_held _ s).
  - intros s' Hk' Hkp Hth. eapply (HQ s' x c k); try done; [|by etrans; [apply (keeps_tl s m')|]].
    unfold abs_wake. rewrite Hts. cbn [default].
    replace (X ∖ {[t]}) with ((X ∪ {[t]}) ∖ {[t]} : gset Z) by set_solver.
    eapply kinv_settle; [done|rewrite Hth; apply lookup_insert_eq| |].
    + exists (c_runqueue k), c. split; [apply on_inserted|]. done.
    + intros c' k' Hc' Hi He. exfalso.
      destruct (keeps_cpu_back _ _ _ _ _ _ _ _ Hk1 Hk' Hkp Hc') as (k0 & n & Hc0 & ->).
      by eapply (kinv_notcur X s a from t c' k0).
Qed.

(** *** Waking up *)

Lemma remhead_wp C X s a l ts Q :
  kinv X s a → lists a !! l = Some ts →
  (ts = [] → ∀ s', kinv X s' a → keeps s s' → k_threads s' = k_threads s → Q None s') →
  (∀ t ts', ts = t :: ts' → ∀ m', tl_repr m' (abs_remove l [] t ts' a) → Q (Some t) (set_tl m' s)) →
  wp C (on_tl (threadlist_remhead l)) Q no_err s.
Proof.
  intros Hk Hl H0 H1. eapply on_tl_wp; [by apply (remhead_refines _ _ (ki_tl _ _ _ _ _ Hk))|].
  intros m' Hm'. destruct ts as [|t ts]; [|by eapply H1].
  apply H0; [done| |apply keeps_tl|done]. kinv_keep Hk. done.
Qed.

Lemma wchan_wakeone_wp C X s a wc lk ws Q :
  kinv X s a → lists a !! wc = Some ws → nocur X s → lk ∈ k_held s →
  holds_only (λ r, r = LWchan) s →
  (ws = [] → ∀ s', kinv X s' a → keeps s s' → k_threads s' = k_threads s → Q tt s') →
  (∀ t ws' s' x c k, ws = t :: ws' →
     k_threads s !! t = Some x → t_cpu x = Some c → k_cpus s !! c = Some k →
     kinv (X ∖ {[t]}) s' (abs_wake wc t ws' (c_runqueue k) a) → keeps s s' →
     k_threads s' = <[t := with_state S_READY x]> (k_threads s) → Q tt s') →
  wp C (wchan_wakeone wc lk) Q no_err s.
Proof.
  intros Hk Hl Hn Hlk Hh H0 H1. unfold wchan_wakeone. kstep (spin_do_i_hold_eq _ _).
  apply wp_bind, wp_KASSERT; [by apply bool_decide_eq_true_2|]. apply wp_bind.
  eapply remhead_wp; [done..| |].
  - intros -> s' ???. wps. by apply H0.
  - intros t ws' -> m' Hm'. eapply (wake_wp _ X s m' a wc t ws'); try done. eauto.
Qed.

(** The run queue of the processor of a thread. *)
Definition rq_of (s : kstate) (t : Z) : Z :=
  default 0 (x ← k_threads s !! t; c ← t_cpu x; k ← k_cpus s !! c; Some (c_runqueue k)).

Lemma rq_of_eq s t x c k :
  k_threads s !! t = Some x → t_cpu x = Some c → k_cpus s !! c = Some k →
  rq_of s t = c_runqueue k.
Proof. intros Hx Hc Hk. unfold rq_of. rewrite Hx. cbn. rewrite Hc. cbn. by rewrite Hk. Qed.

(** The threads [ws] of a list have gone to their run queues in order. *)
Definition woken (from : Z) (ws : list Z) (f : Z → Z) (a a' : tlabs) : Prop :=
  unlinked a' = unlinked a ∧
  ∀ l, lists a' !! l = if decide (l = from) then Some []
                       else (λ ts, ts ++ filter (λ t, f t = l) ws) <$> lists a !! l.

Definition readied (ws : list Z) (ths ths' : gmap Z thread) : Prop :=
  ∀ t, ths' !! t = (if decide (t ∈ ws) then with_state S_READY else id) <$> ths !! t.

Lemma rq_of_readied ws s s' X a X' a' t :
  kinv X s a → kinv X' s' a' → keeps s s' → readied ws (k_threads s) (k_threads s') →
  is_Some (k_threads s !! t) → rq_of s' t = rq_of s t.
Proof.
  intros Hk Hk' Hkp Hr [x Hx]. destruct (ki_tcpu _ _ _ _ _ Hk _ _ Hx) as (c & Hxc & k & Hc).
  rewrite (rq_of_eq s t x c k) by done. destruct (kp_cpus _ _ Hkp _ _ Hc) as (n & Hn).
  specialize (Hr t). rewrite Hx in Hr. case_decide; by rewrite (rq_of_eq s' t _ c _ Hr Hxc Hn).
Qed.

Lemma readied_one t x ths :
  ths !! t = Some x → readied [t] ths (<[t := with_state S_READY x]> ths).
Proof.
  intros Hx t'. case_decide as Hd.
  - apply list_elem_of_singleton in Hd as ->. by rewrite lookup_insert_eq, Hx.
  - rewrite lookup_insert_ne by set_solver. by destruct (ths !! t').
Qed.

Lemma readied_cons t ws ths1 ths2 ths3 :
  readied [t] ths1 ths2 → readied ws ths2 ths3 → readied (t :: ws) ths1 ths3.
Proof.
  intros H1 H2 t'. rewrite H2, H1. destruct (ths1 !! t'); [|done]. cbn.
  do 3 case_decide; set_solver.
Qed.

Lemma woken_cons from t ws f a a1 a' rq :
  tl_wf a → lists a !! from = Some (t :: ws) → f t = rq → rq ≠ from → is_Some (lists a !! rq) →
  a1 = abs_wake from t ws rq a → woken from ws f a1 a' → woken from (t :: ws) f a a'.
Proof.
  intros Hw Hl Hf Hne [ts Hts] -> [Hu Hls]. unfold abs_wake in *. cbn in *.
  assert (E : default [] (<[from := ws]> (lists a) !! rq) = ts)
    by (by rewrite lookup_insert_ne, Hts).
  rewrite E in Hls. split.
  - rewrite Hu. apply held_back, (wf_unlinked _ Hw from _ t Hl). set_solver.
  - intros l. rewrite Hls. destruct (decide (l = from)); [done|]. rewrite filter_cons.
    destruct (decide (f t = l)) as [He|He].
    + assert (l = rq) as -> by congruence. rewrite lookup_insert_eq, Hts. cbn.
      by rewrite <-app_assoc.
    + rewrite !lookup_insert_ne by congruence. done.
Qed.

Lemma filter_ext_in {A} (P Q : A → Prop) `{!∀ x, Decision (P x), !∀ x, Decision (Q x)} (l : list A) :
  (∀ x, x ∈ l → P x ↔ Q x) → filter P l = filter Q l.
Proof.
  induction l as [|x l IH]; intros Hx; [done|]. rewrite !filter_cons.
  rewrite IH by (intros; apply Hx; set_solver).
  destruct (decide (P x)) as [Hp|Hp], (decide (Q x)) as [Hq|Hq]; try done;
    exfalso; specialize (Hx x (list_elem_of_here _ _)); tauto.
Qed.

Lemma woken_ext from ws f f' a a' :
  (∀ t, t ∈ ws → f t = f' t) → woken from ws f' a a' → woken from ws f a a'.
Proof.
  intros Hf [Hu Hl]. split; [done|]. intros l. rewrite Hl. case_decide; [done|].
  destruct (lists a !! l); [|done]. cbn. do 2 f_equal. apply filter_ext_in.
  intros t Ht. by rewrite (Hf t Ht).
Qed.

Lemma run_all_wp C fuel X s a from ws r Q :
  kinv X s a → lists a !! from = Some ws → R !! from = Some r → (∀ c, r ≠ RunQ c) →
  nocur X s → holds_only (λ r, r = LWchan) s → (length ws < fuel)%nat →
  (∀ s' a', kinv (X ∖ list_to_set ws) s' a' → woken from ws (rq_of s) a a' → keeps s s' →
     readied ws (k_threads s) (k_threads s') → Q tt s') →
  wp C (run_all fuel from) Q no_err s.
Proof.
  revert X s a ws. induction fuel as [|fuel IH]; intros X s a ws Hk Hl Hr Hnr Hn Hh Hf HQ; [lia|].
  cbn [run_all]. apply wp_bind. eapply remhead_wp; [done..| |].
  - intros -> s' Hk' Hkp Hth. wps. apply (HQ s' a).
    + by rewrite list_to_set_nil, difference_empty_L.
    + split; [done|]. intros l. case_decide as Hd; [by subst|].
      destruct (lists a !! l); cbn; by rewrite ?app_nil_r.
    + done.
    + intros t. rewrite Hth. cbn. by destruct (k_threads s !! t).
  - intros t ws' -> m' Hm'. apply wp_bind.
    eapply (wake_wp _ X s m' a from t ws'); [done..|].
    intros s1 x c k Hx Hxc Hc Hk1 Hkp1 Hth1. cbn [length] in Hf.
    destruct (ki_cpu _ _ _ _ _ Hk _ _ Hc) as (Hrq & _).
    assert (Hne : c_runqueue k ≠ from) by (intros He; rewrite He in Hrq; naive_solver).
    destruct (kinv_runqueue _ _ _ _ _ Hk Hc) as (ts & Hts).
    assert (Hr1 : readied [t] (k_threads s) (k_threads s1)) by (rewrite Hth1; by apply readied_one).
    eapply (IH (X ∖ {[t]}) s1 _ ws' Hk1); [|done|done| | |lia|].
    + unfold abs_wake. cbn. rewrite lookup_insert_ne, lookup_insert_eq by done. done.
    + eapply nocur_keeps; [exact Hn|set_solver|done..].
    + intros l. rewrite (kp_held _ _ Hkp1). apply Hh.
    + intros s2 a2 Hk2 Hw2 Hkp2 Hr2. apply (HQ s2 a2).
      * by rewrite list_to_set_cons, <-difference_difference_l_L.
      * eapply (woken_cons from t ws' (rq_of s) a _ a2 (c_runqueue k)); try done.
        -- apply (repr_wf _ _ (ki_tl _ _ _ _ _ Hk)).
        -- by eapply rq_of_eq.
        -- eapply woken_ext; [|done]. intros t' Ht'. symmetry.
           eapply rq_of_readied; [exact Hk|exact Hk1|done..|].
           apply (ki_known _ _ _ _ _ Hk). right. exists from. eexists. split; [done|set_solver].
      * by etrans.
      * by eapply readied_cons.
Qed.

(** The fuel of the loops over lists is enough. *)
Lemma list_enough X s a l ts :
  kinv X s a → lists a !! l = Some ts → (length ts < enough s)%nat.
Proof.
  intros Hk Hl. unfold enough. apply Nat.lt_succ_r. rewrite <-size_dom.
  rewrite <-(size_list_to_set (C:=gset Z) ts) by (by eapply wf_nodup, Hl; apply (ki_tl _ _ _ _ _ Hk)).
  apply subseteq_size. intros t Ht%elem_of_list_to_set. apply elem_of_dom.
  apply (ki_known _ _ _ _ _ Hk). right. exists l. by exists ts.
Qed.

Lemma kinv_known_list X s a l ts t :
  kinv X s a → lists a !! l = Some ts → t ∈ ts → is_Some (k_threads s !! t).
Proof. intros Hk Hl Ht. apply (ki_known _ _ _ _ _ Hk). right. exists l. by exists ts. Qed.

(** All the threads of a list have gone to the end of another one. *)
Definition moved (from to : Z) (ws : list Z) (a a' : tlabs) : Prop :=
  unlinked a' = unlinked a ∧
  ∀ l, lists a' !! l = if decide (l = from) then Some []
                       else if decide (l = to) then (λ us, us ++ ws) <$> lists a !! to
                       else lists a !! l.

Lemma move_all_wp C fuel X s a from to ws Q :
  kinv X s a → lists a !! from = Some ws → is_Some (lists a !! to) → from ≠ to →
  (length ws < fuel)%nat →
  (∀ s' a', kinv (X ∪ list_to_set ws) s' a' → moved from to ws a a' → keeps s s' →
     k_threads s' = k_threads s → Q tt s') →
  wp C (move_all fuel from to) Q no_err s.
Proof.
  revert X s a ws. induction fuel as [|fuel IH]; intros X s a ws Hk Hl [us Hus] Hne Hf HQ; [lia|].
  cbn [move_all]. apply wp_bind. eapply remhead_wp; [done..| |].
  - intros -> s' Hk' Hkp Hth. wps. apply (HQ s' a); [|split; [done|]|done..].
    + by rewrite list_to_set_nil, union_empty_r_L.
    + intros l. case_decide; [by subst|]. case_decide; [|done]. subst. rewrite Hus. cbn.
      by rewrite app_nil_r.
  - intros t ws' -> m' Hm'. cbn [length] in Hf.
    assert (Htk : is_Some (k_threads s !! t)) by (apply (kinv_known_list X s a from _ t Hk Hl); set_solver).
    assert (Hk1 : kinv (X ∪ {[t]}) (set_tl m' s) (abs_remove from [] t ws' a)).
    { eapply (kinv_lists _ _ _ _ a _ _ t);
        [by apply kinv_weaken|set_solver|done|done|by apply same_remove]. }
    assert (Hto : lists (abs_remove from [] t ws' a) !! to = Some us) by (cbn; by rewrite lookup_insert_ne).
    apply wp_bind. eapply on_tl_wp.
    { apply (addtail_refines _ _ (ki_tl _ _ _ _ _ Hk1) to us t); [done|]. cbn. set_solver. }
    intros m2 Hm2. set (a2 := abs_insert to us t [] (abs_remove from [] t ws' a)) in *.
    assert (Hk2 : kinv (X ∪ {[t]}) (set_tl m2 (set_tl m' s)) a2).
    { eapply (kinv_lists _ _ _ _ _ _ _ t); [done|set_solver|done|done|].
      apply same_insert. by rewrite app_nil_r. }
    eapply (IH (X ∪ {[t]}) _ a2 ws' Hk2); [| |done|lia|].
    + cbn. by rewrite lookup_insert_ne, lookup_insert_eq.
    + cbn. rewrite lookup_insert_eq. eauto.
    + intros s' a' Hk' [Hu Hls] Hkp Hth. apply (HQ s' a').
      * by rewrite list_to_set_cons, assoc_L by apply _.
      * split.
        -- rewrite Hu. cbn. apply held_back. eapply (wf_unlinked _ (repr_wf _ _ (ki_tl _ _ _ _ _ Hk)) from);
             [done|set_solver].
        -- intros l. rewrite Hls. case_decide; [done|]. case_decide as Hd.
           ++ cbn. rewrite lookup_insert_eq, Hus. cbn. by rewrite <-app_assoc.
           ++ cbn. by rewrite !lookup_insert_ne.
      * etrans; [|exact Hkp]. etrans; apply keeps_tl.
      * done.
Qed.

Lemma init_scratch_wp C X s a Q :
  kinv X s a → lists a !! scratch s = Some [] →
  (∀ s', kinv X s' a → keeps s s' → k_threads s' = k_threads s → Q tt s') →
  wp C (on_tl (threadlist_init (scratch s))) Q no_err s.
Proof.
  intros Hk Hl HQ. eapply on_tl_wp; [apply (init_refines _ a)|].
  - apply Hk.
  - intros ts. rewrite Hl. by intros [= <-].
  - intros m' Hm'. rewrite insert_id in Hm' by done. apply HQ; [|apply keeps_tl|done].
    kinv_keep Hk. by destruct a.
Qed.

Lemma cleanup_wp C X s a l Q :
  kinv X s a → lists a !! l = Some [] → Q tt s → wp C (on_tl (threadlist_cleanup l)) Q no_err s.
Proof.
  intros Hk Hl HQ. apply wp_zoom. unfold wp. rewrite (cleanup_spec _ _ (ki_tl _ _ _ _ _ Hk) _ _ Hl).
  cbn. by destruct s.
Qed.

(** Nobody's run queue is a list of another kind. *)
Lemma rq_of_role X s a l r ws :
  kinv X s a → (∀ t, t ∈ ws → is_Some (k_threads s !! t)) → R !! l = Some r →
  (∀ c, r ≠ RunQ c) → filter (λ t, rq_of s t = l) ws = [].
Proof.
  intros Hk Hws Hr Hnr. induction ws as [|t ws IH]; [done|]. rewrite filter_cons_False.
  - apply IH. intros. apply Hws. set_solver.
  - destruct (Hws t) as [x Hx]; [set_solver|].
    destruct (ki_tcpu _ _ _ _ _ Hk _ _ Hx) as (c & Hxc & k & Hc).
    rewrite (rq_of_eq s t x c k) by done. destruct (ki_cpu _ _ _ _ _ Hk _ _ Hc) as (Hrq & _).
    intros He. rewrite He in Hrq. naive_solver.
Qed.

Lemma nocur_list X s a l ws :
  kinv X s a → nocur X s → lists a !! l = Some ws → nocur (X ∪ list_to_set ws) s.
Proof.
  intros Hk Hn Hl c k Hc Hi [Hin|Hin%elem_of_list_to_set]%elem_of_union.
  - by eapply Hn.
  - eapply (kinv_notcur X s a l _ c k); [done..| |done|done|done]. by exists ws.
Qed.

(** By way of a second list. *)
Lemma moved_woken X s a s2 a2 a3 wc ws :
  kinv X s a → lists a !! scratch s = Some [] → lists a !! wc = Some ws → R !! wc = Some Wchan →
  (∀ t, t ∈ ws → rq_of s2 t = rq_of s t) →
  moved wc (scratch s) ws a a2 → woken (scratch s) ws (rq_of s2) a2 a3 →
  woken wc ws (rq_of s) a a3.
Proof.
  intros Hk Hsc Hl Hwc Hrq [Hu2 Hm2] Hw. apply (woken_ext _ _ (rq_of s)) in Hw as [Hu3 Hw3];
    [|intros; symmetry; by apply Hrq].
  assert (Hkn : ∀ t, t ∈ ws → is_Some (k_threads s !! t)) by (intros; by eapply kinv_known_list).
  pose proof (ki_globals _ _ _ _ _ Hk) as (Hrs & _ & _). split; [congruence|].
  intros l. rewrite Hw3, Hm2. destruct (decide (l = wc)) as [->|Hne].
  - destruct (decide (wc = scratch s)) as [He|_]; [done|]. cbn.
    by rewrite (rq_of_role X s a wc Wchan).
  - destruct (decide (l = scratch s)) as [->|_]; [|done]. rewrite Hsc. cbn.
    by rewrite (rq_of_role X s a _ Scratch).
Qed.

Lemma wchan_wakeall_wp C X s a wc lk ws Q :
  kinv X s a → lists a !! scratch s = Some [] → lists a !! wc = Some ws → R !! wc = Some Wchan →
  nocur X s → lk ∈ k_held s → holds_only (λ r, r = LWchan) s →
  (∀ s' a', kinv (X ∖ list_to_set ws) s' a' → woken wc ws (rq_of s) a a' → keeps s s' →
     readied ws (k_threads s) (k_threads s') → Q tt s') →
  wp C (wchan_wakeall wc lk) Q no_err s.
Proof.
  intros Hk Hsc Hl Hwc Hn Hlk Hh HQ. unfold wchan_wakeall. kstep (spin_do_i_hold_eq _ _).
  apply wp_bind, wp_KASSERT; [by apply bool_decide_eq_true_2|]. wps.
  pose proof (ki_globals _ _ _ _ _ Hk) as (Hrs & _ & _).
  assert (Hne : wc ≠ scratch s) by (intros ->; congruence).
  eapply init_scratch_wp; [done..|]. intros s1 Hk1 Hkp1 Hth1. apply wp_bind.
  assert (Hen : enough s = enough s1) by (unfold enough; by rewrite Hth1). rewrite Hen.
  eapply move_all_wp; [exact Hk1|done|by eexists|done|by eapply list_enough|].
  intros s2 a2 Hk2 [Hu2 Hm2] Hkp2 Hth2. apply wp_bind.
  assert (Hen2 : enough s1 = enough s2) by (unfold enough; by rewrite Hth2). rewrite Hen2.
  assert (Hs2 : lists a2 !! scratch s = Some ws).
  { rewrite Hm2, decide_False, decide_True by done. by rewrite Hsc. }
  eapply (run_all_wp _ _ (X ∪ list_to_set ws) s2 a2); [done|exact Hs2|done|done| | |by eapply list_enough|].
  - eapply (nocur_keeps (X ∪ list_to_set ws) _ s s2); [by eapply nocur_list|done|by etrans|done|].
    eapply kinv_mono; [done|set_solver].
  - intros l. rewrite (kp_held _ _ Hkp2), (kp_held _ _ Hkp1). apply Hh.
  - intros s3 a3 Hk3 [Hu3 Hw3] Hkp3 Hr3.
    eapply cleanup_wp; [exact Hk3|by rewrite Hw3, decide_True|]. apply (HQ s3 a3).
    + replace (X ∖ list_to_set ws) with ((X ∪ list_to_set ws) ∖ list_to_set ws : gset Z) by set_solver. done.
    + eapply (moved_woken X s a s2 a2); try done. intros t Ht.
      eapply (rq_of_readied []); [exact Hk|exact Hk2|by etrans| |by eapply kinv_known_list].
      intros t'. rewrite Hth2, Hth1. cbn. by destruct (k_threads s !! t').
    + etrans; [|exact Hkp3]. by etrans.
    + rewrite Hth2, Hth1 in Hr3. done.
Qed.

(** *** Destroying threads *)

Lemma repr_forget m a t :
  tl_repr m a → tl_repr m (TLAbs (lists a) (unlinked a ∖ {[t]})).
Proof.
  intros [Hw Hc Hn Hu]. split; cbn; [|done|done|].
  - destruct Hw as [W1 W2 W3 W4 W5]. split; cbn; eauto.
    + intros l ts t' Hl Ht'. specialize (W3 _ _ _ Hl Ht'). set_solver.
    + intros t' Ht'. apply W5. set_solver.
  - intros t' Ht'. apply Hu. set_solver.
Qed.

Lemma members_delete p ths t x :
  ths !! t = Some x → t_proc x = None →
  size (members p (delete t ths)) = size (members p ths).
Proof.
  intros Hx Hp. unfold members. rewrite map_filter_delete_not; [done|].
  intros y Hy. rewrite Hx in Hy. simplify_eq. cbn. congruence.
Qed.

Lemma kinv_destroy X s a t x :
  kinv X s a → t ∈ X → t ∈ unlinked a → k_threads s !! t = Some x → t_proc x = None →
  (∀ c k, k_cpus s !! c = Some k → c_isidle k = false → c_curthread k ≠ t) →
  kinv (X ∖ {[t]}) (set_threads (delete t (k_threads s)) s)
    (TLAbs (lists a) (unlinked a ∖ {[t]})).
Proof.
  intros Hk HX Hu Hx Hp Hcur. pose proof (repr_wf _ _ (ki_tl _ _ _ _ _ Hk)) as Hw.
  kinv_keep Hk; cbn [set_threads k_threads k_cpus k_procs k_tl lists unlinked].
  - by apply repr_forget, (ki_tl _ _ _ _ _ Hk).
  - intros t' y [Hne Hy]%lookup_delete_Some HX'.
    assert (Hloc : located R s a t' y) by (apply (ki_located _ _ _ _ _ Hk); [done|set_solver]).
    unfold located in *. destruct (t_state y); [|exact Hloc..]. cbn. set_solver.
  - intros t' y [_ Hy]%lookup_delete_Some. by eapply ki_tcpu.
  - intros t' Ht'. assert (Hne : t' ≠ t).
    { intros ->. destruct Ht' as [?|(l & ts & Hl & Hin)]; [set_solver|].
      by eapply (wf_unlinked _ Hw l ts t). }
    rewrite lookup_delete_ne by done. apply (ki_known _ _ _ _ _ Hk).
    destruct Ht' as [?|?]; [left; set_solver|by right].
  - intros c k Hc Hi. pose proof (Hcur _ _ Hc Hi) as Hne.
    destruct (ki_cur _ _ _ _ _ Hk _ _ Hc Hi) as [?|(y & Hy & ?)]; [left; set_solver|].
    right. exists y. by rewrite lookup_delete_ne.
  - intros p pr Hpr. rewrite (members_delete p _ t x) by done. by apply (ki_proc _ _ _ _ _ Hk).
  - intros t' y p [_ Hy]%lookup_delete_Some. by eapply ki_tproc.
  - intros t' y [_ Hy]%lookup_delete_Some. by eapply ki_ptr.
Qed.

Lemma thread_destroy_raw C E s a t x k Q :
  tl_repr (k_tl s) a → t ∈ unlinked a → k_threads s !! t = Some x → t_proc x = None →
  t_state x ≠ S_RUN → k_cpus s !! curcpu s = Some k → c_curthread k ≠ t →
  (∀ m', tl_repr m' a → Q tt (set_threads (delete t (k_threads s)) (set_tl m' s))) →
  wp C (thread_destroy t) Q E s.
Proof.
  intros Hr Hu Hx Hp Hst Hc Hne HQ. unfold thread_destroy. kstep (curthread_eq _ _ Hc).
  apply wp_bind, wp_KASSERT; [by apply negb_true_iff, Z.eqb_neq, not_eq_sym|].
  kstep (get_thread_eq _ _ _ Hx). apply wp_bind, wp_KASSERT; [by apply bool_decide_eq_true_2|].
  apply wp_bind, wp_KASSERT; [by apply bool_decide_eq_true_2|]. apply wp_bind.
  eapply on_tl_wp.
  { exists (k_tl s). split; [by apply (node_cleanup_ok _ a)|done]. }
  intros m' Hm'. wps. by apply HQ.
Qed.

Lemma thread_destroy_wp C X s a t x k Q :
  kinv X s a → t ∈ X → t ∈ unlinked a → k_threads s !! t = Some x → t_proc x = None →
  t_state x ≠ S_RUN → k_cpus s !! curcpu s = Some k → c_curthread k ≠ t →
  (∀ c k, k_cpus s !! c = Some k → c_isidle k = false → c_curthread k ≠ t) →
  (∀ s', kinv (X ∖ {[t]}) s' (TLAbs (lists a) (unlinked a ∖ {[t]})) → keeps s s' →
     k_threads s' = delete t (k_threads s) → Q tt s') →
  wp C (thread_destroy t) Q no_err s.
Proof.
  intros Hk HX Hu Hx Hp Hst Hc Hne Hcur HQ. eapply thread_destroy_raw; [apply Hk|done..|].
  intros m' Hm'. apply HQ; [|etrans; [apply keeps_tl|apply keeps_threads]|done].
  eapply (kinv_destroy X (set_tl m' s) a t x); try done. kinv_keep Hk. done.
Qed.

Lemma exorcise_loop_wp C fuel s a k zs Q :
  kinv ∅ s a → k_cpus s !! curcpu s = Some k → c_isidle k = false →
  lists a !! c_zombies k = Some zs → (length zs < fuel)%nat →
  (∀ s' a', kinv ∅ s' a' → keeps s s' → lists a' = <[c_zombies k := []]> (lists a) →
     unlinked a' = unlinked a →
     (∀ t, k_threads s' !! t = if decide (t ∈ zs) then None else k_threads s !! t) → Q tt s') →
  wp C (exorcise_loop fuel (c_zombies k)) Q no_err s.
Proof.
  revert s a k zs. induction fuel as [|fuel IH]; intros s a k zs Hk Hc Hi Hl Hf HQ; [lia|].
  cbn [exorcise_loop]. apply wp_bind. eapply remhead_wp; [done..| |].
  - intros -> s' Hk' Hkp Hth. wps. apply (HQ s' a); [done|done|by rewrite insert_id|done|].
    intros t. by rewrite Hth.
  - intros t zs' -> m' Hm'. cbn [length] in Hf.
    destruct (ki_cpu _ _ _ _ _ Hk _ _ Hc) as (_ & Hz & _).
    assert (Ho : on a (c_zombies k) t) by (eexists; split; [done|set_solver]).
    assert (Hncur : ∀ c' k', k_cpus s !! c' = Some k' → c_isidle k' = false → c_curthread k' ≠ t).
    { intros c' k' Hc' Hi'. by eapply (kinv_notcur ∅ s a); [|intros ? ? ? ?; set_solver|..]. }
    destruct (kinv_known_list _ _ _ _ _ t Hk Hl) as [x Hx]; [set_solver|].
    destruct (kinv_state _ _ _ _ _ x _ Hk Ho Hx (not_elem_of_empty _) Hz) as (Hst & _ & Hp).
    assert (Hk1 : kinv {[t]} (set_tl m' s) (abs_remove (c_zombies k) [] t zs' a)).
    { eapply (kinv_lists _ _ _ _ a _ _ t); [|set_solver|by eexists|done|by apply same_remove].
      eapply kinv_mono; [done|set_solver]. }
    kstep (curthread_eq (set_tl m' s) k Hc).
    apply wp_bind, wp_KASSERT; [by apply negb_true_iff, Z.eqb_neq, not_eq_sym, (Hncur _ _ Hc)|].
    kstep (get_thread_eq (set_tl m' s) t x Hx).
    apply wp_bind, wp_KASSERT; [by apply bool_decide_eq_true_2|]. apply wp_bind.
    eapply (thread_destroy_wp C {[t]} _ _ t x k);
      [exact Hk1|set_solver|cbn; set_solver|done|done|congruence|done|by apply (Hncur _ _ Hc)|done|].
    intros s1 Hk2 Hkp2 Hth2. cbn in Hk2.
    pose proof (transitivity (keeps_tl s m') Hkp2) as Hkp.
    destruct (kp_cpus _ _ Hkp _ _ Hc) as (n & Hc1). rewrite <-(kp_curcpu _ _ Hkp) in Hc1.
    assert (Hu : (unlinked a ∪ {[t]}) ∖ {[t]} = unlinked a).
    { apply held_back, (wf_unlinked _ (repr_wf _ _ (ki_tl _ _ _ _ _ Hk)) _ _ t Hl). set_solver. }
    rewrite difference_diag_L in Hk2.
    eapply (IH s1 _ (with_ipi n k) zs' Hk2 Hc1 Hi); [apply lookup_insert_eq|lia|].
    intros s' a' Hk' Hkp' Hls Hun Hth. apply (HQ s' a' Hk').
    + by etrans.
    + rewrite Hls. cbn. by rewrite insert_insert_eq.
    + rewrite Hun. exact Hu.
    + intros t'. rewrite Hth, Hth2. cbn. destruct (decide (t' = t)) as [->|Hne].
      * rewrite lookup_delete_eq. do 2 case_decide; set_solver.
      * rewrite lookup_delete_ne by done. do 2 case_decide; set_solver.
Qed.

(** *** Switching *)

Record same_globals (s s' : kstate) : Prop := {
  sg_curcpu : curcpu s' = curcpu s;
  sg_allcpus : allcpus s' = allcpus s;
  sg_procs : k_procs s' = k_procs s;
  sg_count : thread_count s' = thread_count s;
  sg_lock : thread_count_lock s' = thread_count_lock s;
  sg_wchan : thread_count_wchan s' = thread_count_wchan s;
  sg_scratch : scratch s' = scratch s;
}.

Lemma keeps_globals s s' : keeps s s' → same_globals s s'.
Proof. intros []. by split. Qed.

Lemma nocur_empty s : nocur ∅ s.
Proof. intros c k _ _. set_solver. Qed.

(** The processor continues with the thread [n]. *)
Definition runs_on (s s' : kstate) (k : kcpu) (n : Z) (zs : list Z) : Prop :=
  same_globals s s' ∧ k_held s' = k_held s ∖ {[c_runqueue_lock k]} ∧
  (∃ j, k_cpus s' !! curcpu s = Some (with_ipi j (with_curthread n (with_idle false k)))) ∧
  ∀ t, k_threads s' !! t = if decide (t ∈ zs) then None
         else (if decide (t = n) then with_state S_RUN else id) <$> k_threads s !! t.

Lemma kinv_run s a m' c k n ts x :
  kinv ∅ s a → k_cpus s !! c = Some k → c_isidle k = true →
  lists a !! c_runqueue k = Some (n :: ts) → k_threads s !! n = Some x →
  tl_repr m' (abs_remove (c_runqueue k) [] n ts a) →
  kinv ∅ (set_threads (<[n := with_state S_RUN x]> (k_threads s))
      (set_cpus (<[c := with_curthread n (with_idle false k)]> (k_cpus s)) (set_tl m' s)))
    (abs_remove (c_runqueue k) [] n ts a).
Proof.
  intros Hk Hc Hi Hl Hx Hm'. destruct (ki_cpu _ _ _ _ _ Hk _ _ Hc) as (Hrq & _).
  assert (Ho : on a (c_runqueue k) n) by (eexists; split; [done|set_solver]).
  destruct (kinv_state _ _ _ _ _ x _ Hk Ho Hx (not_elem_of_empty _) Hrq) as (_ & Hxc).
  assert (Hk1 : kinv {[n]} (set_tl m' s) (abs_remove (c_runqueue k) [] n ts a)).
  { eapply (kinv_lists _ _ _ _ a _ _ n); [|set_solver|by eexists|done|by apply same_remove].
    eapply kinv_mono; [done|set_solver]. }
  assert (Hk2 : kinv {[n]} (set_cpus (<[c := with_curthread n (with_idle false k)]> (k_cpus s))
    (set_tl m' s)) (abs_remove (c_runqueue k) [] n ts a)).
  { eapply (kinv_cpu L R {[n]} (set_tl m' s) _ c k); try done.
    - intros. cbn. congruence.
    - intros _. left. cbn. set_solver. }
  rewrite <-(difference_diag_L {[n]}).
  eapply kinv_settle; [|apply lookup_insert_eq| |].
  - apply (kinv_thread _ _ _ _ _ n x (with_state S_RUN x) Hk2); [set_solver|done|done|].
    exists c. cbn. rewrite lookup_insert_eq. split; [done|eauto].
  - split; [cbn; set_solver|]. eexists c, _. cbn. rewrite lookup_insert_eq. done.
  - intros c' k' Hc' Hi' He. cbn in Hc'. apply lookup_insert_Some in Hc' as [[<- _]|[_ Hc']]; [done|].
    exfalso. eapply (kinv_notcur ∅ s a _ n c' k'); [exact Hk|apply nocur_empty|exact Ho|done..].
Qed.

Lemma switch_next_wp C s a k ts zs Q :
  kinv ∅ s a → k_cpus s !! curcpu s = Some k → c_isidle k = true →
  lists a !! c_runqueue k = Some ts → lists a !! c_zombies k = Some zs →
  c_runqueue_lock k ∈ k_held s →
  (ts = [] → ∀ s', kinv ∅ s' a → same_globals s s' → k_threads s' = k_threads s →
     k_cpus s' = k_cpus s → k_held s' = k_held s ∖ {[c_runqueue_lock k]} → Q None s') →
  (∀ n ts' s' a', ts = n :: ts' → kinv ∅ s' a' → runs_on s s' k n zs →
     lists a' = <[c_zombies k := []]> (<[c_runqueue k := ts']> (lists a)) →
     unlinked a' = unlinked a ∪ {[n]} → Q (Some n) s') →
  wp C switch_next Q no_err s.
Proof.
  intros Hk Hc Hi Hl Hz Hlk H0 H1. unfold switch_next. apply wp_bind. unfold wp at 1, get at 1.
  kstep (get_cpu_eq _ _ _ Hc). apply wp_bind.
  eapply on_tl_wp; [by apply (remhead_refines _ _ (ki_tl _ _ _ _ _ Hk))|]. intros m' Hm'.
  destruct ts as [|n ts]; cbn [head].
  - kstep (spin_release_eq (set_tl m' s) _ Hlk). apply H0; try done. apply kinv_held. kinv_keep Hk. done.
  - destruct (kinv_known_list _ _ _ _ _ n Hk Hl) as [x Hx]; [set_solver|].
    kstep (set_isidle_eq (set_tl m' s) _ k false Hc).
    kstep (get_cpu_eq _ _ (with_idle false k)); [cbn; apply lookup_insert_eq|].
    unfold put_cpu. apply wp_bind. wp_step. cbn beta. kstep (set_t_state_eq _ n x S_RUN); [exact Hx|]. cbn [set_cpus k_cpus k_threads set_tl].
    rewrite insert_insert_eq.
    kstep (spin_release_eq _ (c_runqueue_lock k)); [done|].
    set (s1 := set_held _ _).
    pose proof (kinv_run s a m' _ k n ts x Hk Hc Hi Hl Hx Hm') as Hk1.
    apply (kinv_held _ _ _ _ _ (k_held s ∖ {[c_runqueue_lock k]})) in Hk1.
    change (kinv ∅ s1 (abs_remove (c_runqueue k) [] n ts a)) in Hk1.
    assert (Hc1 : k_cpus s1 !! curcpu s1 = Some (with_curthread n (with_idle false k)))
      by (cbn; apply lookup_insert_eq).
    destruct (ki_cpu _ _ _ _ _ Hk _ _ Hc) as (Hrq & Hzo & _).
    assert (Hne : c_runqueue k ≠ c_zombies k) by (intros He; rewrite He in Hrq; naive_solver).
    assert (Hz1 : lists (abs_remove (c_runqueue k) [] n ts a) !! c_zombies k = Some zs)
      by (cbn; by rewrite lookup_insert_ne).
    apply wp_bind. unfold exorcise. wps. kcall (get_cpu_eq _ _ _ Hc1).
    eapply (exorcise_loop_wp _ _ s1 _ _ zs _ Hk1 Hc1); [done|exact Hz1|by eapply list_enough|].
    intros s' a' Hk' Hkp Hls Hu Hth. wps. apply (H1 n ts s' a'); [done|done| |done|by rewrite Hu].
    split_and!.
    + destruct Hkp. by split.
    + by rewrite (kp_held _ _ Hkp).
    + by apply (kp_cpus _ _ Hkp) in Hc1.
    + intros t. rewrite Hth. case_decide; [done|]. cbn. destruct (decide (t = n)) as [->|Hd].
      * by rewrite lookup_insert_eq, Hx.
      * rewrite lookup_insert_ne by done. by destruct (k_threads s !! t).
Qed.

(** The list that [thread_switch] puts the current thread on, and when it may. *)
Definition park_list (st : threadstate_t) (wc : Z) (k : kcpu) : Z :=
  match st with
  | S_SLEEP => wc
  | S_ZOMBIE => c_zombies k
  | _ => c_runqueue k
  end.

Definition park_ok (st : threadstate_t) (wc lk : Z) (s : kstate) (x : thread) : Prop :=
  match st with
  | S_RUN => False
  | S_READY => True
  | S_SLEEP => R !! wc = Some Wchan ∧ lk ∈ k_held s
  | S_ZOMBIE => t_proc x = None
  end.

Definition park_held (st : threadstate_t) (lk : Z) (h : gset Z) : gset Z :=
  match st with S_SLEEP => h ∖ {[lk]} | _ => h end.

(** The state after the current thread has been put on its list, while the
    code still has to note its new state. *)
Record parking (s : kstate) (k : kcpu) (x : thread) (h : gset Z) (a1 : tlabs) (s1 : kstate) : Prop := {
  pk_inv : kinv {[c_curthread k]} s1 a1;
  pk_globals : same_globals s s1;
  pk_held : k_held s1 = h;
  pk_cpu c k' : k_cpus s !! c = Some k' → ∃ n, k_cpus s1 !! c = Some (with_ipi n k');
  pk_threads : ∃ st, k_threads s1 = <[c_curthread k := with_state st x]> (k_threads s);
}.

(** The current thread of a processor that does not idle. *)
Lemma kinv_current s a c k :
  kinv ∅ s a → k_cpus s !! c = Some k → c_isidle k = false →
  ∃ x, k_threads s !! c_curthread k = Some x ∧ t_state x = S_RUN ∧ t_cpu x = Some c ∧
    c_curthread k ∈ unlinked a.
Proof.
  intros Hk Hc Hi. destruct (ki_cur _ _ _ _ _ Hk _ _ Hc Hi) as [?|(x & Hx & Hst & Hxc)]; [set_solver|].
  pose proof (ki_located _ _ _ _ _ Hk _ _ Hx (not_elem_of_empty _)) as Hloc.
  unfold located in Hloc. rewrite Hst in Hloc. exists x. naive_solver.
Qed.

Lemma parking_insert s a k x h q qs m' :
  kinv ∅ s a → k_cpus s !! curcpu s = Some k → k_threads s !! c_curthread k = Some x →
  lists a !! q = Some qs → tl_repr m' (abs_insert q qs (c_curthread k) [] a) →
  parking s k x h (abs_insert q qs (c_curthread k) [] a) (set_tl m' (set_held h s)).
Proof.
  intros Hk Hc Hx Hq Hm'. split; cbn.
  - eapply (kinv_lists _ _ _ _ a _ _ (c_curthread k)); [|set_solver|by eexists|done|].
    + apply kinv_held. eapply kinv_mono; [done|set_solver].
    + apply same_insert. by rewrite app_nil_r.
  - by split.
  - done.
  - intros c' [] Hc'. by eexists.
  - exists (t_state x). rewrite insert_id; [done|]. rewrite Hx. by destruct x.
Qed.

Lemma park_wp C s a k x newstate wc lk q qs Q :
  kinv ∅ s a → k_cpus s !! curcpu s = Some k → c_isidle k = false →
  k_threads s !! c_curthread k = Some x → park_ok newstate wc lk s x →
  holds_only (λ r, r = LWchan) s →
  q = park_list newstate wc k → lists a !! q = Some qs →
  (∀ s1, parking s k x (park_held newstate lk (k_held s ∪ {[c_runqueue_lock k]}))
           (abs_insert q qs (c_curthread k) [] a) s1 → Q tt s1) →
  wp C (match newstate with
        | S_RUN => panic
        | S_READY => thread_make_runnable (c_curthread k) true
        | S_SLEEP => on_tl (threadlist_addtail wc (c_curthread k)) ;;; spin_release lk
        | S_ZOMBIE => on_tl (threadlist_addtail (c_zombies k) (c_curthread k))
        end) Q no_err (set_held (k_held s ∪ {[c_runqueue_lock k]}) s).
Proof.
  intros Hk Hc Hi Hx Hok Hh Hq Hqs HQ. set (h := k_held s ∪ {[c_runqueue_lock k]}) in *.
  destruct (kinv_current _ _ _ _ Hk Hc Hi) as (x' & Hx' & _ & Hxc & Hu). simplify_eq.
  destruct (ki_cpu _ _ _ _ _ Hk _ _ Hc) as (_ & _ & HLr & _).
  destruct newstate; cbn [park_ok park_list park_held] in *; [done|..].
  - eapply (thread_make_runnable_wp _ {[c_curthread k]} (set_held h s) a _ x (curcpu s) k qs true);
      try done; [..|intros s' Hk' Hkp Hth; apply HQ].
    + apply kinv_held. eapply kinv_mono; [done|set_solver].
    + set_solver.
    + intros l [Hl| ->%elem_of_singleton]%elem_of_union; [|by eexists].
      destruct (Hh _ Hl) as (r & Hr & ->). by eexists.
    + cbn. unfold h. set_solver.
    + split; [done| |by rewrite (kp_held _ _ Hkp)|exact (kp_cpus _ _ Hkp)|by exists S_READY].
      apply keeps_globals in Hkp. destruct Hkp. by split.
  - apply wp_bind. eapply on_tl_wp; [by apply (addtail_refines _ _ (ki_tl _ _ _ _ _ Hk))|].
    intros m' Hm'. kcall (spin_release_eq _ lk); [cbn; unfold h; set_solver|]. apply HQ. by apply parking_insert.
  - eapply on_tl_wp; [by apply (addtail_refines _ _ (ki_tl _ _ _ _ _ Hk))|].
    intros m' Hm'. apply HQ. by apply parking_insert.
Qed.

(** The current thread has been put on its list and the processor looks for
    another one. *)
Record parked (s : kstate) (k : kcpu) (x : thread) (st : threadstate_t) (h : gset Z) (a1 : tlabs)
    (s2 : kstate) : Prop := {
  pd_inv : kinv ∅ s2 a1;
  pd_globals : same_globals s s2;
  pd_held : k_held s2 = h;
  pd_cpu : ∃ n, k_cpus s2 !! curcpu s = Some (with_idle true (with_ipi n k));
  pd_threads : k_threads s2 = <[c_curthread k := with_state st x]> (k_threads s);
}.

Lemma parking_parked s a k x st wc lk h q qs s1 n :
  kinv ∅ s a → k_cpus s !! curcpu s = Some k → c_isidle k = false →
  k_threads s !! c_curthread k = Some x → park_ok st wc lk s x → q = park_list st wc k →
  parking s k x h (abs_insert q qs (c_curthread k) [] a) s1 →
  k_cpus s1 !! curcpu s = Some (with_ipi n k) →
  parked s k x st h (abs_insert q qs (c_curthread k) [] a)
    (set_cpus (<[curcpu s := with_idle true (with_ipi n k)]> (k_cpus s1))
      (set_threads (<[c_curthread k := with_state st x]> (k_threads s)) s1)).
Proof.
  intros Hk Hc Hi Hx Hok Hq Hpk Hc1. destruct (pk_threads _ _ _ _ _ _ Hpk) as (st0 & Hth1).
  destruct (kinv_current _ _ _ _ Hk Hc Hi) as (x' & Hx' & _ & Hxc & Hu). simplify_eq.
  pose proof (pk_inv _ _ _ _ _ _ Hpk) as Hk1.
  destruct (ki_cpu _ _ _ _ _ Hk _ _ Hc) as (Hrq & Hzo & _).
  set (cur := c_curthread k) in *.
  assert (Hk2 : kinv {[cur]} (set_threads (<[cur := with_state st x]> (k_threads s)) s1)
    (abs_insert (park_list st wc k) qs cur [] a)).
  { assert (E : <[cur := with_state st x]> (k_threads s) = <[cur := with_state st x]> (k_threads s1))
      by (by rewrite Hth1, insert_insert_eq).
    rewrite E. eapply kinv_thread; [exact Hk1|set_solver|by rewrite Hth1, lookup_insert_eq|done|].
    exists (curcpu s). split; [done|by eexists]. }
  split; cbn.
  - rewrite <-(difference_diag_L {[cur]}). eapply kinv_settle.
    + apply (kinv_cpu _ _ _ _ _ (curcpu s) (with_ipi n k) _ Hk2); [done..| |done].
      intros t y Hy HX Hst Htc Hct. cbn in Hct. set_solver.
    + apply lookup_insert_eq.
    + pose proof (on_inserted (park_list st wc k) qs cur [] a) as Ho.
      unfold located. destruct st; cbn [with_state t_state t_cpu t_proc park_list park_ok] in *; [done|..].
      * by exists (c_runqueue k), (curcpu s).
      * exists wc. by destruct Hok.
      * by exists (c_zombies k), (curcpu s).
    + intros c' k' Hc' Hi' He. cbn in Hc'. exfalso.
      apply lookup_insert_Some in Hc' as [[_ <-]|[Hne Hc']]; [done|].
      assert (Hc0 : is_Some (k_cpus s !! c')).
      { apply (ki_all _ _ _ _ _ Hk). rewrite <-(sg_allcpus _ _ (pk_globals _ _ _ _ _ _ Hpk)).
        apply (ki_all _ _ _ _ _ Hk1). eauto. }
      destruct Hc0 as [k0 Hc0]. destruct (pk_cpu _ _ _ _ _ _ Hpk _ _ Hc0) as (j & Hj).
      rewrite Hc' in Hj. simplify_eq. destruct (kinv_current _ _ _ _ Hk Hc0 Hi') as (y & Hy & _ & Hyc & _).
      cbn in He. rewrite He in Hy. simplify_eq.
  - destruct (pk_globals _ _ _ _ _ _ Hpk). by split.
  - apply (pk_held _ _ _ _ _ _ Hpk).
  - exists n. by rewrite lookup_insert_eq.
  - done.
Qed.

Lemma isempty_wp C X s a l ts Q :
  kinv X s a → lists a !! l = Some ts → Q (bool_decide (ts = [])) s →
  wp C (on_tl (threadlist_isempty l)) Q no_err s.
Proof.
  intros Hk Hl HQ. apply wp_zoom. unfold wp. rewrite (isempty_spec _ _ (ki_tl _ _ _ _ _ Hk) _ _ Hl).
  by destruct s.
Qed.

(** A switch that took place: the thread is parked, then the processor idles
    or continues with the first thread of its run queue. *)
Inductive switched (s : kstate) (a : tlabs) (k : kcpu) (st : threadstate_t) (wc lk : Z) :
    option Z → kstate → tlabs → Prop :=
  | switched_idle x qs s' a1 :
      k_threads s !! c_curthread k = Some x → lists a !! park_list st wc k = Some qs →
      a1 = abs_insert (park_list st wc k) qs (c_curthread k) [] a →
      lists a1 !! c_runqueue k = Some [] →
      parked s k x st (park_held st lk (k_held s)) a1 s' →
      switched s a k st wc lk None s' a1
  | switched_next x qs s1 s' a1 a' j n ts zs :
      k_threads s !! c_curthread k = Some x → lists a !! park_list st wc k = Some qs →
      a1 = abs_insert (park_list st wc k) qs (c_curthread k) [] a →
      lists a1 !! c_runqueue k = Some (n :: ts) → lists a1 !! c_zombies k = Some zs →
      parked s k x st (park_held st lk (k_held s ∪ {[c_runqueue_lock k]})) a1 s1 →
      kinv ∅ s' a' → runs_on s1 s' (with_idle true (with_ipi j k)) n zs →
      lists a' = <[c_zombies k := []]> (<[c_runqueue k := ts]> (lists a1)) →
      unlinked a' = unlinked a1 ∪ {[n]} → k_held s' = park_held st lk (k_held s) →
      switched s a k st wc lk (Some n) s' a'.

Lemma switched_inv s a k st wc lk o s' a' :
  switched s a k st wc lk o s' a' →
  kinv ∅ s' a' ∧ same_globals s s' ∧ k_held s' = park_held st lk (k_held s).
Proof.
  intros [x qs s1 a1 _ _ _ _ Hp|x qs s1 s2 a1 a2 j n ts zs _ _ _ _ _ Hp Hk Hr _ _ Hh].
  - destruct Hp. by split_and!.
  - split_and!; [done| |done]. destruct Hp as [_ [] _ _ _], Hr as ([] & _). split; congruence.
Qed.

Lemma park_held_back st lk h l :
  l ∉ h → park_held st lk (h ∪ {[l]}) ∖ {[l]} = park_held st lk h.
Proof. intros Hl. destruct st; cbn; set_solver. Qed.

Lemma thread_switch_wp C s a k x st wc lk rs Q :
  kinv ∅ s a → k_cpus s !! curcpu s = Some k → c_isidle k = false →
  k_threads s !! c_curthread k = Some x → park_ok st wc lk s x →
  holds_only (λ r, r = LWchan) s → lists a !! c_runqueue k = Some rs →
  (st = S_READY → rs = [] → ∀ s', kinv ∅ s' a → keeps s s' → k_threads s' = k_threads s → Q (false, None) s') →
  (∀ o s' a', switched s a k st wc lk o s' a' → Q (true, o) s') →
  wp C (thread_switch st wc lk) Q no_err s.
Proof.
  intros Hk Hc Hi Hx Hok Hh Hrs H0 H1. unfold thread_switch. apply wp_bind. wp_step. cbn beta.
  kstep (get_cpu_eq _ _ _ Hc). cbn zeta. rewrite Hi.
  destruct (ki_cpu _ _ _ _ _ Hk _ _ Hc) as (Hrq & Hzo & HLr & _).
  assert (Hnl : c_runqueue_lock k ∉ k_held s) by (by eapply not_held).
  kstep (spin_acquire_eq _ _ Hnl). apply wp_bind.
  eapply isempty_wp; [by apply kinv_held|exact Hrs|].
  destruct (bool_decide (st = S_READY) && bool_decide (rs = [])) eqn:Eb.
  { apply andb_true_iff in Eb as [He1%bool_decide_eq_true He2%bool_decide_eq_true].
    kstep (spin_release_eq _ (c_runqueue_lock k)); [cbn; set_solver|]. wps. cbn.
    rewrite held_back, set_held_twice, set_held_id by done. apply H0; done. }
  assert (Hq : ∃ qs, lists a !! park_list st wc k = Some qs).
  { apply (ki_dom _ _ _ _ _ Hk). destruct st; cbn in *; [done|by rewrite Hrq|by destruct Hok as [-> _]|by rewrite Hzo]. }
  destruct Hq as [qs Hqs]. apply wp_bind.
  eapply (park_wp C s a k x st wc lk _ qs); [done..|]. intros s1 Hpk.
  destruct (pk_cpu _ _ _ _ _ _ Hpk _ _ Hc) as (n & Hc1).
  destruct (pk_threads _ _ _ _ _ _ Hpk) as (st0 & Hth1).
  kstep (set_t_state_eq _ _ (with_state st0 x)); [by rewrite Hth1, lookup_insert_eq|].
  rewrite Hth1, insert_insert_eq. kstep (set_isidle_eq _ (curcpu s) (with_ipi n k)); [exact Hc1|].
  pose proof (parking_parked s a k x st wc lk _ _ qs s1 n Hk Hc Hi Hx Hok eq_refl Hpk Hc1) as Hpd.
  cbn [k_cpus set_threads]. set (s2 := set_cpus _ _) in *.
  pose proof (pd_inv _ _ _ _ _ _ _ Hpd) as Hk2. pose proof (pd_held _ _ _ _ _ _ _ Hpd) as Hh2.
  assert (Hc2 : k_cpus s2 !! curcpu s2 = Some (with_idle true (with_ipi n k))).
  { rewrite (sg_curcpu _ _ (pd_globals _ _ _ _ _ _ _ Hpd)). cbn. apply lookup_insert_eq. }
  destruct (kinv_runqueue _ _ _ _ _ Hk2 Hc2) as (ts & Hts). cbn in Hts.
  assert (Hzs : ∃ zs, lists (abs_insert (park_list st wc k) qs (c_curthread k) [] a) !! c_zombies k = Some zs).
  { apply (ki_dom _ _ _ _ _ Hk2). by rewrite Hzo. }
  destruct Hzs as [zs Hzs]. apply wp_bind.
  assert (Hlk2 : c_runqueue_lock k ∈ k_held s2).
  { rewrite Hh2. destruct st; cbn in *; [set_solver..| |set_solver].
    apply elem_of_difference. split; [set_solver|]. intros He%elem_of_singleton.
    destruct Hok as [_ Hin]. by rewrite <-He in Hin. }
  eapply (switch_next_wp _ s2 _ _ ts zs _ Hk2 Hc2); [done|exact Hts|exact Hzs|exact Hlk2| |].
  - intros -> s' Hk' Hg Hth Hcs Hhd. wps. eapply (H1 None s'). eapply switched_idle; try done.
    cbn [c_runqueue_lock with_idle with_ipi] in Hhd. rewrite Hh2, park_held_back in Hhd by done.
    destruct Hpd as [_ P1 _ P2 P3]. split; [done| |done|by rewrite Hcs|by rewrite Hth].
    destruct P1, Hg. split; congruence.
  - intros m ts' s' a' -> Hk' Hr Hls Hu. wps. apply (H1 (Some m) s' a').
    eapply switched_next; try done.
    destruct Hr as (_ & Hhd & _). cbn [c_runqueue_lock with_idle with_ipi] in Hhd.
    by rewrite Hhd, Hh2, park_held_back.
Qed.

Lemma thread_switch_idle_wp C s k st wc lk Q :
  k_cpus s !! curcpu s = Some k → c_isidle k = true → Q (false, None) s →
  wp C (thread_switch st wc lk) Q no_err s.
Proof.
  intros Hc Hi HQ. unfold thread_switch. apply wp_bind. wp_step. cbn beta.
  kstep (get_cpu_eq _ _ _ Hc). cbn zeta. rewrite Hi. done.
Qed.

Lemma wchan_sleep_wp C s a k x wc lk rs Q :
  kinv ∅ s a → k_cpus s !! curcpu s = Some k → c_isidle k = false →
  k_threads s !! c_curthread k = Some x → t_in_interrupt x = false →
  R !! wc = Some Wchan → k_held s = {[lk]} → L !! lk = Some LWchan →
  lists a !! c_runqueue k = Some rs →
  (∀ o s' a', switched s a k S_SLEEP wc lk o s' a' → Q (true, o) s') →
  wp C (wchan_sleep wc lk) Q no_err s.
Proof.
  intros Hk Hc Hi Hx Hint Hwc Hh HL Hrs HQ. unfold wchan_sleep. kstep (curthread_eq _ _ Hc).
  kstep (get_thread_eq _ _ _ Hx). apply wp_bind, wp_KASSERT; [by rewrite Hint|].
  kstep (spin_do_i_hold_eq _ _). apply wp_bind, wp_KASSERT; [apply bool_decide_eq_true_2; set_solver|].
  wps. apply wp_KASSERT; [by rewrite Hh, size_singleton|].
  eapply (thread_switch_wp C s a k x S_SLEEP wc lk rs); try done.
  - split; [done|]. set_solver.
  - intros l Hl. rewrite Hh in Hl. apply elem_of_singleton in Hl as ->. by eexists.
Qed.

(** *** Processes *)

Lemma members_change p ths t x x' :
  ths !! t = Some x →
  Z.of_nat (size (members p (<[t := x']> ths))) =
  Z.of_nat (size (members p ths)) - Z.b2z (bool_decide (t_proc x = Some p))
    + Z.b2z (bool_decide (t_proc x' = Some p)).
Proof.
  intros Hx. unfold members. rewrite map_filter_insert. cbn.
  assert (Hm : filter (λ tx : Z * thread, t_proc tx.2 = Some p) ths !! t =
    if bool_decide (t_proc x = Some p) then Some x else None).
  { case_bool_decide.
    - apply map_lookup_filter_Some. by cbn.
    - apply map_lookup_filter_None. right. intros y Hy. rewrite Hx in Hy. by simplify_eq. }
  set (m := filter _ ths) in *. rewrite map_filter_delete. fold m. repeat case_bool_decide;
    rewrite ?decide_True, ?decide_False by done; rewrite ?map_size_insert, ?map_size_delete, ?Hm; cbn; try lia.
  assert (size m ≠ 0%nat); [|lia]. intros Hz%map_size_empty_inv. by rewrite Hz, lookup_empty in Hm.
Qed.

Lemma members_size p ths : (size (members p ths) ≤ size ths)%nat.
Proof. apply map_subseteq_size, map_filter_subseteq. Qed.

Lemma threads_bound X s a : kinv X s a → is_u32 (Z.of_nat (size (k_threads s))).
Proof.
  intros Hk. rewrite <-size_dom. unfold size, set_size. cbn. apply ptrs_bound; [apply NoDup_elements|].
  intros t [x Hx]%elem_of_elements%elem_of_dom. by eapply ki_ptr.
Qed.

(** A thread enters or leaves a process and the process counts it. *)
Lemma kinv_proc X s a t x p pr o n :
  kinv X s a → k_threads s !! t = Some x → k_procs s !! p = Some pr →
  (t_state x = S_ZOMBIE → t ∉ X → o = None) →
  (t_proc x = None ∧ o = Some p ∧ n = p_numthreads pr + 1 ∨
   t_proc x = Some p ∧ o = None ∧ n = p_numthreads pr - 1) →
  kinv X (set_threads (<[t := with_proc o x]> (k_threads s))
           (set_procs (<[p := KProc n (p_lock pr)]> (k_procs s)) s)) a.
Proof.
  intros Hk Hx Hp Hz Ho. kinv_keep Hk; cbn [set_threads set_procs k_threads k_procs k_cpus].
  - intros t' y Hy HX. apply lookup_insert_Some in Hy as [[<- <-]|[_ Hy]].
    + pose proof (ki_located _ _ _ _ _ Hk _ _ Hx HX) as Hloc. unfold located in *. cbn.
      destruct (t_state x) eqn:Hst; try done. destruct Hloc as (l & c & ? & ? & ? & ?).
      exists l, c. split_and!; try done. by apply Hz.
    + exact (ki_located _ _ _ _ _ Hk _ _ Hy HX).
  - intros t' y [[<- <-]|[_ Hy]]%lookup_insert_Some; [|by eapply ki_tcpu].
    exact (ki_tcpu _ _ _ _ _ Hk _ _ Hx).
  - intros t' Ht'. rewrite lookup_insert_is_Some'. right. by apply (ki_known _ _ _ _ _ Hk).
  - intros c k Hc Hi. destruct (ki_cur _ _ _ _ _ Hk _ _ Hc Hi) as [?|(y & Hy & ?)]; [by left|right].
    destruct (decide (c_curthread k = t)) as [He|Hne].
    + rewrite He in *. simplify_eq. exists (with_proc o x). rewrite lookup_insert_eq. naive_solver.
    + exists y. by rewrite lookup_insert_ne.
  - intros p' pr' Hpr'. rewrite (members_change p' _ t x) by done. cbn.
    apply lookup_insert_Some in Hpr' as [[<- <-]|[Hne Hpr']].
    + destruct (ki_proc _ _ _ _ _ Hk _ _ Hp) as (? & Hn). split; [done|]. cbn.
      destruct Ho as [(-> & -> & ->)|(-> & -> & ->)]; repeat case_bool_decide; try done; cbn; lia.
    + destruct (ki_proc _ _ _ _ _ Hk _ _ Hpr') as (? & Hn). split; [done|].
      destruct Ho as [(-> & -> & _)|(-> & -> & _)]; repeat case_bool_decide; simplify_eq; cbn; lia.
  - intros t' y p' Hy Hyp. rewrite lookup_insert_is_Some'.
    apply lookup_insert_Some in Hy as [[<- <-]|[_ Hy]].
    + left. cbn in Hyp. destruct Ho as [(_ & -> & _)|(_ & -> & _)]; by simplify_eq.
    + right. by eapply ki_tproc.
  - intros t' y [[<- _]|[_ Hy]]%lookup_insert_Some; by eapply ki_ptr.
Qed.
End wps.
