(* ===== verification/Sched.v ===== *)
(** * Creating, ending and migrating threads

    [thread_fork], [thread_exit] and [thread_consider_migration] of
    kern/thread/thread.c keep the invariant of [Thread]; with context switches,
    sleeping and waking up they are the steps of a system of processors whose
    reachable states have every thread in exactly the place that its state
    names. *)

From S2P Require Import Prelude Threadlist Thread.
Open Scope Z_scope.

Section fork.
Context (L : gmap Z lockrole) (R : gmap Z role).
#[local] Abbreviation kinv := (kinv L R).

(** ** Creating a thread *)

Lemma not_on_new X s a t :
  kinv X s a → k_threads s !! t = None → ∀ l ts, lists a !! l = Some ts → t ∉ ts.
Proof.
  intros Hk Ht l ts Hl Hin. destruct (kinv_known_list _ _ _ _ _ _ _ t Hk Hl Hin). congruence.
Qed.

Lemma members_new p ths t x :
  ths !! t = None → t_proc x = None → size (members p (<[t := x]> ths)) = size (members p ths).
Proof.
  intros Ht Hp. unfold members. rewrite map_filter_insert. rewrite decide_False by (cbn; congruence).
  by rewrite delete_id.
Qed.

Lemma kinv_new s a m' t c st :
  kinv ∅ s a → k_threads s !! t = None → is_ptr t → is_Some (k_cpus s !! c) →
  tl_repr m' (TLAbs (lists a) (unlinked a ∪ {[t]})) →
  kinv {[t]} (set_threads (<[t := Thread st (Some c) None false]> (k_threads s)) (set_tl m' s))
    (TLAbs (lists a) (unlinked a ∪ {[t]})).
Proof.
  intros Hk Ht Hp Hc Hm'. kinv_keep Hk; cbn [set_threads set_tl k_tl k_threads k_cpus k_procs lists unlinked].
  - done.
  - intros t' x Hx HX. rewrite lookup_insert_ne in Hx by set_solver.
    pose proof (ki_located _ _ _ _ _ Hk _ _ Hx (not_elem_of_empty _)) as Hloc.
    unfold located in *. destruct (t_state x); [|exact Hloc..].
    split; [cbn; set_solver|]. exact (proj2 Hloc).
  - intros t' x [[<- <-]|[_ Hx]]%lookup_insert_Some; [by exists c|by eapply ki_tcpu].
  - intros t' Ht'. rewrite lookup_insert_is_Some'. destruct (decide (t = t')) as [->|Hne]; [by left|right].
    apply (ki_known _ _ _ _ _ Hk). destruct Ht' as [?|?]; [left; set_solver|by right].
  - intros c' k Hc' Hi. destruct (ki_cur _ _ _ _ _ Hk _ _ Hc' Hi) as [?|(x & Hx & ?)]; [set_solver|].
    right. exists x. rewrite lookup_insert_ne; [done|]. congruence.
  - intros p pr Hpr. rewrite members_new by done. by apply (ki_proc _ _ _ _ _ Hk).
  - intros t' x p [[<- <-]|[_ Hx]]%lookup_insert_Some Hxp; [done|by eapply ki_tproc].
  - intros t' x [[<- _]|[_ Hx]]%lookup_insert_Some; [done|by eapply ki_ptr].
Qed.

(** What the operations below leave alone. *)
(** Waking the threads [ws] up changes the one channel and run queues. *)
Lemma woken_wchan X s a wc ws a' l r :
  kinv X s a → lists a !! wc = Some ws → woken wc ws (rq_of s) a a' → R !! l = Some r →
  (∀ c, r ≠ RunQ c) → l ≠ wc → lists a' !! l = lists a !! l.
Proof.
  intros Hk Hws [_ Hl] HR Hr Hne. rewrite Hl, decide_False by done.
  rewrite (rq_of_role L R X s a l r ws); [|done| |done|done].
  - destruct (lists a !! l); cbn; [by rewrite app_nil_r|done].
  - intros t Ht. by apply (kinv_known_list L R X s a wc ws t).
Qed.

Record carries (s s' : kstate) : Prop := {
  ca_curcpu : curcpu s' = curcpu s;
  ca_allcpus : allcpus s' = allcpus s;
  ca_held : k_held s' = k_held s;
  ca_lock : thread_count_lock s' = thread_count_lock s;
  ca_wchan : thread_count_wchan s' = thread_count_wchan s;
  ca_scratch : scratch s' = scratch s;
  ca_cpus c k : k_cpus s !! c = Some k → ∃ n, k_cpus s' !! c = Some (with_ipi n k);
}.

Lemma keeps_carries s s' : keeps s s' → carries s s'.
Proof. intros []. by split. Qed.

Lemma with_ipi_same k : with_ipi (c_ipi_pending k) k = k.
Proof. by destruct k. Qed.

Lemma carries_refl s s' :
  curcpu s' = curcpu s → allcpus s' = allcpus s → k_held s' = k_held s → thread_count_lock s' = thread_count_lock s →
  thread_count_wchan s' = thread_count_wchan s → scratch s' = scratch s → k_cpus s' = k_cpus s →
  carries s s'.
Proof.
  intros. split; try done. intros c k Hc. exists (c_ipi_pending k). rewrite with_ipi_same. congruence.
Qed.

Lemma with_ipi_twice n n' k : with_ipi n (with_ipi n' k) = with_ipi n k.
Proof. done. Qed.

#[export] Instance carries_preorder : PreOrder carries.
Proof.
  split; [intros s; by apply carries_refl|]. intros s1 s2 s3 H1 H2. split; [..|].
  1-6: destruct H1, H2; congruence.
  intros c k (n & Hn)%(ca_cpus _ _ H1). apply (ca_cpus _ _ H2) in Hn as (n' & Hn').
  rewrite with_ipi_twice in Hn'. by exists n'.
Qed.

Lemma carries_nocur X X' Y s s' a a' :
  kinv X s a → kinv X' s' a' → carries s s' → nocur Y s → nocur Y s'.
Proof.
  intros Hk Hk' Hca Hn c k' Hc Hi.
  destruct (proj1 (ki_all _ _ _ _ _ Hk c)) as [k Hc0].
  { rewrite <-(ca_allcpus _ _ Hca). apply (ki_all _ _ _ _ _ Hk'). by eexists. }
  destruct (ca_cpus _ _ Hca _ _ Hc0) as (n & Hn'). simplify_eq. by apply (Hn c k).
Qed.

Lemma scratch_empty X s a :
  kinv X s a → X ⊆ unlinked a → lists a !! scratch s = Some [].
Proof.
  intros Hk HX. destruct (ki_globals _ _ _ _ _ Hk) as (HR & _).
  destruct (proj2 (ki_dom _ _ _ _ _ Hk (scratch s))) as [ts Hts]; [by eexists|].
  destruct ts as [|t ts]; [done|exfalso].
  assert (Ht : on a (scratch s) t) by (eexists; split; [done|left]).
  destruct (kinv_entry _ _ _ _ _ _ _ Hk Ht) as (x & _ & _ & Hx & _).
  apply (kinv_state _ _ X s a _ t x Scratch Hk Ht Hx); [|done]. intros HtX.
  eapply (wf_unlinked _ (repr_wf _ _ (ki_tl _ _ _ _ _ Hk)) (scratch s)); [done|left|set_solver].
Qed.

Lemma proc_addthread_wp C X s a t x p pr Q :
  kinv X s a → k_threads s !! t = Some x → t_proc x = None → t ∈ X → k_procs s !! p = Some pr →
  k_held s = ∅ →
  (∀ s', kinv X s' a → carries s s' → thread_count s' = thread_count s →
     k_threads s' = <[t := with_proc (Some p) x]> (k_threads s) → Q tt s') →
  wp C (proc_addthread p t) Q no_err s.
Proof.
  intros Hk Hx Hxp HX Hp Hh HQ. unfold proc_addthread. kstep (get_thread_eq _ _ _ Hx).
  apply wp_bind, wp_KASSERT; [by apply bool_decide_eq_true_2|]. apply wp_bind. wp_step. cbn beta.
  apply wp_bind. eapply wp_deref; [done|]. kstep (spin_acquire_eq _ (p_lock pr)); [set_solver|].
  apply wp_bind. wp_step. cbn beta. kstep (spin_release_eq _ (p_lock pr)); [cbn; set_solver|].
  unfold put_thread. wps. cbn [k_held set_procs set_held k_procs k_threads set_threads].
  rewrite Hh, held_back by set_solver.
  assert (Hn : u32 (p_numthreads pr + 1) = p_numthreads pr + 1).
  { apply u32_small. destruct (ki_proc _ _ _ _ _ Hk _ _ Hp) as (_ & ->).
    pose proof (members_change p (k_threads s) t x (with_proc (Some p) x) Hx) as Hm.
    rewrite Hxp in Hm. cbn in Hm. repeat case_bool_decide; try done. cbn in Hm.
    pose proof (members_size p (<[t := with_proc (Some p) x]> (k_threads s))) as Hsz.
    pose proof (threads_bound _ _ _ _ _ Hk). rewrite map_size_insert_Some in Hsz by (by eexists).
    unfold is_u32 in *. lia. }
  rewrite Hn. apply HQ; [|by apply carries_refl|done..].
  apply (kinv_held _ _ X (set_threads _ (set_procs _ s)) a ∅).
  apply (kinv_proc L R X s a t x p pr (Some p)); try done. by left.
Qed.

Lemma proc_remthread_wp C s a k x p Q :
  kinv ∅ s a → k_cpus s !! curcpu s = Some k → c_isidle k = false →
  k_threads s !! c_curthread k = Some x → t_proc x = Some p → k_held s = ∅ →
  (∀ s', kinv ∅ s' a → carries s s' → thread_count s' = thread_count s →
     k_threads s' = <[c_curthread k := with_proc None x]> (k_threads s) → Q tt s') →
  wp C (proc_remthread (c_curthread k)) Q no_err s.
Proof.
  intros Hk Hc Hi Hx Hxp Hh HQ. unfold proc_remthread. kstep (get_thread_eq _ _ _ Hx). rewrite Hxp.
  destruct (ki_tproc _ _ _ _ _ Hk _ _ _ Hx Hxp) as [pr Hp]. apply wp_bind. wp_step. cbn beta.
  apply wp_bind. eapply wp_deref; [done|]. kstep (spin_acquire_eq _ (p_lock pr)); [set_solver|].
  assert (Hn : 0 < p_numthreads pr).
  { destruct (ki_proc _ _ _ _ _ Hk _ _ Hp) as (_ & ->).
    pose proof (members_change p (k_threads s) _ x (with_proc None x) Hx) as Hm.
    rewrite Hxp in Hm. cbn in Hm. repeat case_bool_decide; try done. cbn in Hm. lia. }
  apply wp_bind, wp_KASSERT; [by apply Z.ltb_lt|].
  apply wp_bind. wp_step. cbn beta. kstep (spin_release_eq _ (p_lock pr)); [cbn; set_solver|].
  unfold put_thread. wps. cbn [k_held set_procs set_held k_procs k_threads set_threads].
  rewrite Hh, held_back by set_solver. apply HQ; [|by apply carries_refl|done..].
  apply (kinv_held _ _ ∅ (set_threads _ (set_procs _ s)) a ∅).
  apply (kinv_proc L R ∅ s a _ x p pr None); try done. by right.
Qed.

(** The count of the threads changes and whoever waits for that wakes up. *)
Lemma count_wp C X s a ws f Q :
  kinv X s a → X ⊆ unlinked a → nocur X s → k_held s = ∅ →
  lists a !! thread_count_wchan s = Some ws →
  (∀ s' a', kinv X s' a' → X ⊆ unlinked a' → carries s s' →
     (∀ s0, thread_count s0 = thread_count s → thread_count s' = f s0) →
     woken (thread_count_wchan s) ws (rq_of s) a a' → readied ws (k_threads s) (k_threads s') →
     (∀ t, t ∈ X → k_threads s' !! t = k_threads s !! t) → Q tt s') →
  (∀ s0 s1, thread_count s0 = thread_count s1 → f s0 = f s1) →
  wp C (spin_acquire (thread_count_lock s) ;;; modify (λ s, set_thread_count (f s) s) ;;;
        wchan_wakeall (thread_count_wchan s) (thread_count_lock s) ;;;
        spin_release (thread_count_lock s)) Q no_err s.
Proof.
  intros Hk HX Hn Hh Hws HQ Hf. destruct (ki_globals _ _ _ _ _ Hk) as (_ & HW & HL).
  kstep (spin_acquire_eq _ (thread_count_lock s)); [set_solver|]. apply wp_bind. wp_step. cbn beta.
  set (s1 := set_thread_count _ _).
  assert (Hk1 : kinv X s1 a) by (apply (kinv_count _ _ _ _ _ _ (kinv_held _ _ _ _ _ _ Hk))).
  assert (HXws : ∀ t, t ∈ X → t ∉ ws).
  { intros t Ht Htw. eapply (wf_unlinked _ (repr_wf _ _ (ki_tl _ _ _ _ _ Hk))); [done..|]. set_solver. }
  apply wp_bind. eapply (wchan_wakeall_wp L R C X s1 a _ _ ws); try done.
  - by apply (scratch_empty X s).
  - cbn. set_solver.
  - intros l Hl. cbn in Hl. exists LWchan. split; [|done]. rewrite Hh in Hl. set_solver.
  - intros s2 a2 Hk2 Hwk Hkp Hrd.
    replace (X ∖ list_to_set ws) with X in Hk2.
    2:{ symmetry. apply set_eq. intros t. rewrite elem_of_difference, elem_of_list_to_set. naive_solver. }
    eapply wp_of_ok; [apply spin_release_eq; rewrite (kp_held _ _ Hkp); cbn; set_solver|].
    eapply (HQ _ a2); try done.
    + by apply kinv_held.
    + by rewrite (proj1 Hwk).
    + destruct Hkp. split; try done. cbn. rewrite kp_held. cbn. by rewrite Hh, held_back by set_solver.
    + intros s0 Hs0. cbn. rewrite (kp_count _ _ Hkp). cbn. by apply Hf.
    + intros t Ht. cbn. rewrite Hrd, decide_False by auto. cbn. by destruct (k_threads s !! t).
Qed.

(** The state after [thread_fork] has made the thread [t] in process [p]: the
    threads [ws] that waited for the count of threads are ready again, and [t]
    is the last thread of the run queue [rs] of the processor. *)
Record forked (s : kstate) (a : tlabs) (k : kcpu) (t p : Z) (s' : kstate) (a' : tlabs) : Prop := {
  fk_inv : kinv ∅ s' a';
  fk_carries : carries s s';
  fk_count : thread_count s' = u32 (thread_count s + 1);
  fk_new : k_threads s' !! t = Some (Thread S_READY (Some (curcpu s)) (Some p) false);
  fk_old ws t' : lists a !! thread_count_wchan s = Some ws → t' ≠ t →
    k_threads s' !! t' = (if decide (t' ∈ ws) then with_state S_READY else id) <$> k_threads s !! t';
  fk_queue : ∃ rs, lists a' !! c_runqueue k = Some (rs ++ [t]);
  fk_wchans l : R !! l = Some Wchan → l ≠ thread_count_wchan s → lists a' !! l = lists a !! l;
}.

(** The thread exists and is in no process yet. *)
Lemma fork_rest_wp C s a k t p pr Q (proc_ok : k_procs s !! p = Some pr) :
  kinv {[t]} s a → t ∈ unlinked a → k_held s = ∅ → k_cpus s !! curcpu s = Some k →
  nocur {[t]} s →
  k_threads s !! t = Some (Thread S_READY (Some (curcpu s)) None false) →
  (∀ s' a', forked s a k t p s' a' → Q tt s') →
  wp C (r <- attempt (proc_addthread p t) ;;
        match r with
        | inl e => thread_destroy t ;;; fail e
        | inr _ =>
            s <- get ;;
            (spin_acquire (thread_count_lock s) ;;;
             modify (λ s, set_thread_count (u32 (thread_count s + 1)) s) ;;;
             wchan_wakeall (thread_count_wchan s) (thread_count_lock s) ;;;
             spin_release (thread_count_lock s)) ;;;
            thread_make_runnable t false
        end) Q no_err s.
Proof.
  intros Hk Hu Hh Hc Hn Hx HQ. apply wp_bind, wp_attempt.
  wp_call (proc_addthread_wp C {[t]} s a t _ p pr (λ _ s', kinv {[t]} s' a ∧ carries s s' ∧
     thread_count s' = thread_count s ∧
     k_threads s' = <[t := Thread S_READY (Some (curcpu s)) (Some p) false]> (k_threads s)));
    [done|done|done|set_solver|done|done|by intros| |done|done].
  cbn beta. intros [] s1 (Hk1 & Hca1 & Hct1 & Hth1). apply wp_bind. wp_step. cbn beta.
  pose proof (carries_nocur _ _ _ _ _ _ _ Hk Hk1 Hca1 Hn) as Hn1.
  destruct (proj2 (ki_dom _ _ _ _ _ Hk (thread_count_wchan s))) as [ws Hws].
  { destruct (ki_globals _ _ _ _ _ Hk) as (_ & -> & _). by eexists. }
  apply wp_bind. eapply (count_wp C {[t]} s1 a ws (λ s, u32 (thread_count s + 1)));
    [done|set_solver|done|by rewrite (ca_held _ _ Hca1)|by rewrite (ca_wchan _ _ Hca1)|
    |by intros ?? ->].
  intros s2 a2 Hk2 Hu2 Hca2 Hct2 Hwk Hrd Hsame. pose proof (transitivity Hca1 Hca2) as Hca.
  destruct (ca_cpus _ _ Hca _ _ Hc) as (n & Hc2).
  destruct (kinv_runqueue _ _ _ _ _ _ _ Hk2 Hc2) as (rs & Hrs).
  assert (Hh2 : k_held s2 = ∅) by (by rewrite (ca_held _ _ Hca)).
  assert (Hx2 : k_threads s2 !! t = Some (Thread S_READY (Some (curcpu s)) (Some p) false)).
  { rewrite Hsame by set_solver. by rewrite Hth1, lookup_insert_eq. }
  eapply (thread_make_runnable_wp L R C {[t]} s2 a2 t _ (curcpu s) _ rs false _ Hk2);
    [set_solver|set_solver|done|done|done|done|intros l; set_solver|set_solver|].
  intros s3 Hk3 Hkp3 Hth3. eapply (HQ _ (abs_insert (c_runqueue k) rs t [] a2)).
  pose proof (transitivity Hca (keeps_carries _ _ Hkp3)) as Hca3.
  assert (Hx3 : k_threads s3 !! t = Some (Thread S_READY (Some (curcpu s)) (Some p) false)).
  { by rewrite Hth3, lookup_insert_eq. }
  assert (Hq : lists (abs_insert (c_runqueue k) rs t [] a2) !! c_runqueue k = Some (rs ++ [t])).
  { cbn. by rewrite lookup_insert_eq. }
  split; [|done| |done| |by exists rs|].
  - replace ∅ with ({[t]} ∖ {[t]} : gset Z) by set_solver.
    eapply (kinv_settle L R {[t]} s3 _ t _ Hk3 Hx3).
    + exists (c_runqueue k), (curcpu s). split_and!; [|apply (ki_cpu _ _ _ _ _ Hk _ _ Hc)|done].
      exists (rs ++ [t]). split; [done|set_solver].
    + intros c k' Hc' Hi' Ht. exfalso.
      apply (carries_nocur _ _ _ _ _ _ _ Hk Hk3 Hca3 Hn c k' Hc' Hi'). set_solver.
  - rewrite (kp_count _ _ Hkp3). rewrite (Hct2 s1) by done. by rewrite Hct1.
  - intros ws' t' Hws' Hne. rewrite Hth3, lookup_insert_ne by done. rewrite Hrd, Hth1.
    rewrite lookup_insert_ne by done. by simplify_eq.
  - intros l HR Hl. destruct (ki_cpu _ _ _ _ _ Hk _ _ Hc) as (HRq & _). cbn.
    rewrite lookup_insert_ne by congruence.
    rewrite (ca_wchan _ _ Hca1) in Hwk.
    by apply (woken_wchan {[t]} s1 a (thread_count_wchan s) ws a2 l Wchan).
Qed.

(** A thread that runs or may run. *)
Definition awake (x : thread) : Prop := t_state x = S_RUN ∨ t_state x = S_READY.

(** [thread_fork] is given memory that holds no thread, or none. *)
Definition fresh_mem (s : kstate) (mem : option Z) : Prop :=
  ∀ t, mem = Some t → k_threads s !! t = None ∧ is_ptr t.

Lemma thread_fork_wp C s a k x namelen mem stack proc p Q E :
  kinv ∅ s a → k_held s = ∅ → k_cpus s !! curcpu s = Some k → c_isidle k = false →
  k_threads s !! c_curthread k = Some x → fresh_mem s mem →
  (match proc with Some q => Some q | None => t_proc x end) = Some p → is_Some (k_procs s !! p) →
  (∀ t s' a', namelen < MAX_NAME_LENGTH → mem = Some t → stack = true → forked s a k t p s' a' → Q tt s') →
  (∀ s', MAX_NAME_LENGTH < namelen ∨ mem = None ∨ stack = false →
     kinv ∅ s' a → carries s s' → k_threads s' = k_threads s → thread_count s' = thread_count s →
     E ENOMEM s') →
  (namelen = MAX_NAME_LENGTH → is_Some mem → C CUndef) →
  wp C (thread_fork namelen mem stack proc) Q E s.
Proof.
  intros Hk Hh Hc Hi Hx Hm Hp [pr Hpr] HQ HE HC. unfold thread_fork, thread_create.
  destruct (MAX_NAME_LENGTH <? namelen) eqn:Hlen.
  { wps. apply HE; [left; lia|done|reflexivity|done..]. }
  destruct mem as [t|]; [|wps; apply HE; [by right; left|done|reflexivity|done..]].
  destruct (Hm t eq_refl) as (Ht & Hptr).
  destruct (Z.eqb_spec namelen MAX_NAME_LENGTH) as [He|Hnl]; [by apply HC; [|eexists]|].
  assert (Hne : c_curthread k ≠ t) by congruence. unfold put_thread. wps.
  eapply on_tl_wp; [apply (node_init_refines _ a); [apply Hk|done|by eapply not_on_new]|].
  intros m' Hm'. cbn beta. wps. destruct stack; cbn [negb].
  - kstep (curthread_eq _ k); [done|]. kstep (get_thread_eq _ _ x).
    { cbn. by rewrite lookup_insert_ne by done. }
    kstep (get_thread_eq _ t). { cbn. apply lookup_insert_eq. }
    apply wp_bind. wps. cbn [set_tl set_threads k_threads with_cpu t_state t_proc t_in_interrupt].
    rewrite insert_insert_eq.
    assert (Hd : ∀ s0 : kstate, match proc with Some p0 => ret p0 | None => deref (t_proc x) end s0 = Ok p s0).
    { destruct proc; by simplify_eq/=; rewrite ?Hp. }
    kcall Hd. clear Hd.
    destruct (kinv_current _ _ _ _ _ _ Hk Hc Hi) as (x' & Hx' & _ & Hxc & _).
    rewrite Hx' in Hx. injection Hx as ->. rewrite Hxc.
    pose proof (kinv_new s a m' t (curcpu s) S_READY Hk Ht Hptr (mk_is_Some _ _ Hc) Hm') as Hk2.
    match type of Hk2 with Thread.kinv _ _ _ ?s2 _ =>
      eapply wp_mono; [eapply (fork_rest_wp C s2 _ k t p pr _ Hpr Hk2)| | |] end;
      [set_solver|done|done| |apply lookup_insert_eq|..|done|done|done].
    + intros c k' Hc' Hi' Ht'%elem_of_singleton.
      destruct (kinv_current _ _ _ _ _ _ Hk Hc' Hi') as (y & Hy & _). congruence.
    + intros s' a' [F1 F2 F3 F4 F5 F6 F7]. apply (HQ t s' a'); [lia|done..|].
      split; [done|refine (transitivity _ F2); by apply carries_refl|done..| |done|done].
      intros ws t' Hws Hne'. rewrite (F5 ws t') by done. cbn. by rewrite lookup_insert_ne.
  - apply wp_bind. eapply (thread_destroy_raw _ _ _ _ t _ k); [exact Hm'|set_solver|apply lookup_insert_eq|done..|].
    intros m2 Hm2. cbn. wps. apply HE; [by right; right| |by apply carries_refl|..]; cbn.
    + apply (repr_forget _ _ t) in Hm2. cbn in Hm2.
      replace ((unlinked a ∪ {[t]}) ∖ {[t]}) with (unlinked a) in Hm2.
      2:{ symmetry. apply held_back. intros Htu. destruct (ki_known _ _ _ _ _ Hk t); [by left|congruence]. }
      rewrite delete_insert_id by done. kinv_keep Hk. by destruct a.
    + by rewrite delete_insert_id.
    + done.
Qed.

(** ** Ending a thread *)

(** The thread that ended is a zombie when the processor idles, and is gone
    when another thread took over. *)
Record exited (s : kstate) (a : tlabs) (k : kcpu) (o : option Z) (s' : kstate) (a' : tlabs) : Prop := {
  ex_inv : kinv ∅ s' a';
  ex_curcpu : curcpu s' = curcpu s;
  ex_held : k_held s' = ∅;
  ex_count : thread_count s' = if thread_count s =? 0 then 0 else u32 (thread_count s - 1);
  ex_thread : match o with
    | None => ∃ x, k_threads s' !! c_curthread k = Some x ∧ t_state x = S_ZOMBIE ∧ t_proc x = None
    | Some n => k_threads s' !! c_curthread k = None
    end;
  ex_wchans l : R !! l = Some Wchan → l ≠ thread_count_wchan s → lists a' !! l = lists a !! l;
  ex_awake t x : t ≠ c_curthread k → k_threads s !! t = Some x → awake x →
    ∃ x', k_threads s' !! t = Some x' ∧ awake x';
}.

Lemma switched_wchans s a k st wc lk o s' a' l :
  kinv ∅ s a → k_cpus s !! curcpu s = Some k → switched L R s a k st wc lk o s' a' →
  R !! l = Some Wchan → (st = S_SLEEP → l ≠ wc) → lists a' !! l = lists a !! l.
Proof.
  intros Hk Hc Hsw HR Hne. destruct (ki_cpu _ _ _ _ _ Hk _ _ Hc) as (HRq & HRz & _).
  assert (Hpl : l ≠ park_list st wc k) by (destruct st; cbn; [congruence|congruence|by apply Hne|congruence]).
  destruct Hsw as [x qs s1 a1 _ _ -> _ _|x qs s1 s2 a1 a2 j n ts zs _ _ -> _ _ _ _ _ -> _ _]; cbn.
  - by rewrite lookup_insert_ne.
  - rewrite !lookup_insert_ne; congruence.
Qed.

Lemma switched_awake s a k st wc lk o s' a' t x :
  switched L R s a k st wc lk o s' a' → (st = S_READY ∨ t ≠ c_curthread k) →
  k_threads s !! t = Some x → awake x → ∃ x', k_threads s' !! t = Some x' ∧ awake x'.
Proof.
  intros Hsw Hst Hx Haw.
  assert (Hpark : ∀ y s1, k_threads s !! c_curthread k = Some y →
    k_threads s1 = <[c_curthread k := with_state st y]> (k_threads s) →
    ∃ x', k_threads s1 !! t = Some x' ∧ awake x').
  { intros y s1 Hy ->. destruct (decide (c_curthread k = t)) as [<-|Hne].
    - rewrite lookup_insert_eq. eexists. split; [done|]. destruct Hst as [->|?]; [by right|done].
    - rewrite lookup_insert_ne by done. by exists x. }
  destruct Hsw as [y qs s1 a1 Hy _ _ _ Hp|y qs s1 s2 a1 a2 j n ts zs Hy _ _ _ Hzs Hp Hk Hr _ _ _].
  - apply (Hpark y s1 Hy (pd_threads _ _ _ _ _ _ _ _ _ Hp)).
  - destruct (Hpark y s1 Hy (pd_threads _ _ _ _ _ _ _ _ _ Hp)) as (x1 & Hx1 & Haw1).
    destruct Hr as (_ & _ & _ & ->). rewrite Hx1. destruct (pd_cpu _ _ _ _ _ _ _ _ _ Hp) as (j' & Hc1).
    pose proof (pd_inv _ _ _ _ _ _ _ _ _ Hp) as Hk1. destruct (ki_cpu _ _ _ _ _ Hk1 _ _ Hc1) as (_ & HRz & _).
    rewrite decide_False.
    + cbn. case_decide; eexists; (split; [done|]); [by left|done].
    + intros Ht. assert (Ho : on a1 (c_zombies k) t) by (by exists zs).
      destruct (kinv_state _ _ ∅ s1 a1 _ t x1 _ Hk1 Ho Hx1 (not_elem_of_empty _) HRz) as (Hz & _).
      destruct Haw1; congruence.
Qed.

Lemma exit_switched s a k x o s' a' :
  k_threads s !! c_curthread k = Some x → t_proc x = None → c_isidle k = false →
  switched L R s a k S_ZOMBIE 0 0 o s' a' →
  match o with
  | None => ∃ x, k_threads s' !! c_curthread k = Some x ∧ t_state x = S_ZOMBIE ∧ t_proc x = None
  | Some n => k_threads s' !! c_curthread k = None
  end.
Proof.
  intros Hx Hp Hi [x' qs s1 a1 Hx' _ _ _ Hpk|x' qs s1 s2 a1 a2 j n ts zs Hx' Hq -> Hrs Hzs Hpk Hk Hr _ _ _].
  - simplify_eq. exists (with_state S_ZOMBIE x). rewrite (pd_threads _ _ _ _ _ _ _ _ _ Hpk).
    by rewrite lookup_insert_eq.
  - destruct Hr as (_ & _ & _ & ->). cbn in Hzs, Hq. rewrite lookup_insert_eq in Hzs.
    rewrite decide_True; [done|]. injection Hzs as <-. set_solver.
Qed.

Lemma thread_exit_wp C s a k x p Q :
  kinv ∅ s a → k_held s = ∅ → k_cpus s !! curcpu s = Some k → c_isidle k = false →
  k_threads s !! c_curthread k = Some x → t_proc x = Some p →
  (∀ o s' a', exited s a k o s' a' → Q (true, o) s') →
  wp C thread_exit Q no_err s.
Proof.
  intros Hk Hh Hc Hi Hx Hxp HQ. unfold thread_exit. kstep (curthread_eq _ _ Hc). apply wp_bind.
  eapply (proc_remthread_wp C s a k x p); try done. intros s1 Hk1 Hca1 Hct1 Hth1.
  kstep (get_thread_eq _ _ (with_proc None x)); [by rewrite Hth1, lookup_insert_eq|].
  apply wp_bind, wp_KASSERT; [by apply bool_decide_eq_true_2|]. apply wp_bind. wp_step. cbn beta.
  assert (Hfin : ∀ s2 a2, kinv ∅ s2 a2 → carries s1 s2 →
    thread_count s2 = (if thread_count s =? 0 then 0 else u32 (thread_count s - 1)) →
    (∃ x', k_threads s2 !! c_curthread k = Some x' ∧ t_proc x' = None) →
    (∀ l, R !! l = Some Wchan → l ≠ thread_count_wchan s → lists a2 !! l = lists a !! l) →
    (∀ t y, t ≠ c_curthread k → k_threads s !! t = Some y → awake y →
      ∃ y', k_threads s2 !! t = Some y' ∧ awake y') →
    wp C (thread_switch S_ZOMBIE 0 0) Q no_err s2).
  { intros s2 a2 Hk2 Hca2 Hct2 (x2 & Hx2 & Hxp2) Hwc2 Haw2. pose proof (transitivity Hca1 Hca2) as Hca.
    destruct (ca_cpus _ _ Hca _ _ Hc) as (n & Hc2). rewrite <-(ca_curcpu _ _ Hca) in Hc2.
    destruct (kinv_runqueue _ _ _ _ _ _ _ Hk2 Hc2) as (rs & Hrs).
    assert (Hh2 : k_held s2 = ∅) by (by rewrite (ca_held _ _ Hca)).
    eapply (thread_switch_wp L R C s2 a2 _ x2 S_ZOMBIE 0 0 rs); try done.
    { intros l. set_solver. }
    intros o s' a' Hsw. apply (HQ o s' a'). destruct (switched_inv _ _ _ _ _ _ _ _ _ _ _ Hsw) as (Hk' & Hg & Hh').
    split; [done| | | | | |].
    - by rewrite (sg_curcpu _ _ Hg), (ca_curcpu _ _ Hca).
    - by rewrite Hh'.
    - by rewrite (sg_count _ _ Hg).
    - by apply (exit_switched s2 a2 (with_ipi n k) x2 o s' a').
    - intros l HR Hl. rewrite <-(Hwc2 l HR Hl). by eapply switched_wchans.
    - intros t y Hne Hy Haw. destruct (Haw2 t y Hne Hy Haw) as (y2 & Hy2 & Hay2).
      eapply switched_awake; [done|by right|done..]. }
  apply wp_bind. rewrite Hct1. destruct (thread_count s =? 0) eqn:Hz; cbn [negb].
  - wp_step. eapply Hfin; [done|reflexivity|lia| |done|].
    + exists (with_proc None x). by rewrite Hth1, lookup_insert_eq.
    + intros t y Hne Hy Haw. exists y. by rewrite Hth1, lookup_insert_ne.
  - destruct (proj2 (ki_dom _ _ _ _ _ Hk1 (thread_count_wchan s1))) as [ws Hws].
    { destruct (ki_globals _ _ _ _ _ Hk1) as (_ & -> & _). by eexists. }
    eapply (count_wp C ∅ s1 a ws (λ s, u32 (thread_count s - 1)));
      [done|set_solver|apply nocur_empty|by rewrite (ca_held _ _ Hca1)|done| |by intros ?? ->].
    intros s2 a2 Hk2 _ Hca2 Hct2 Hwk Hrd _. eapply Hfin; [done..|by rewrite (Hct2 s1), Hct1| | |].
    + rewrite Hrd, Hth1, lookup_insert_eq. cbn. case_decide; by eexists.
    + intros l HR Hl. rewrite (ca_wchan _ _ Hca1) in *. by eapply (woken_wchan ∅ s1).
    + intros t y Hne Hy Haw. rewrite Hrd, Hth1, lookup_insert_ne, Hy by done. cbn.
      case_decide; eexists; (split; [done|]); [by right|done].
Qed.
End fork.

(** ** Migration *)

Section migration.
Context (L : gmap Z lockrole) (R : gmap Z role).
#[local] Abbreviation kinv := (kinv L R).

Definition queue_len (s : kstate) (a : tlabs) (c : Z) : Z :=
  match k_cpus s !! c with
  | Some k => Z.of_nat (length (default [] (lists a !! c_runqueue k)))
  | None => 0
  end.

Lemma read_count_eq X s a l ts :
  kinv X s a → lists a !! l = Some ts → on_tl (read_count l) s = Ok (Z.of_nat (length ts)) s.
Proof.
  intros Hk Hl. unfold on_tl, zoom, read_count, bind, get. cbn.
  rewrite (repr_count _ _ (ki_tl _ _ _ _ _ Hk) _ _ Hl). cbn. by destruct s.
Qed.

Lemma count_threads_eq X s a cs my total :
  kinv X s a → k_held s = ∅ → (∀ c, c ∈ cs → is_Some (k_cpus s !! c)) →
  count_threads cs my total s =
  Ok (if bool_decide (curcpu s ∈ cs) then queue_len s a (curcpu s) else my,
      foldl (λ n c, u32 (n + queue_len s a c)) total cs) s.
Proof.
  intros Hk Hh. revert my total. induction cs as [|c cs IH]; intros my total Hcs; [done|].
  destruct (Hcs c) as [k Hc]; [left|]. destruct (kinv_runqueue _ _ _ _ _ _ _ Hk Hc) as (ts & Hts).
  assert (Hq : queue_len s a c = Z.of_nat (length ts)) by (unfold queue_len; by rewrite Hc, Hts).
  cbn [count_threads]. unfold bind at 1, get. unfold bind at 1. rewrite (get_cpu_eq _ _ _ Hc).
  unfold bind at 1. rewrite spin_acquire_eq by set_solver.
  unfold bind at 1. rewrite (read_count_eq X _ a _ ts) by (try done; by apply kinv_held).
  unfold bind at 1. rewrite spin_release_eq by (cbn; set_solver). cbn [k_held set_held].
  rewrite held_back, set_held_twice, set_held_id by set_solver.
  rewrite IH by (intros c' ?; apply Hcs; by right). cbn [foldl]. rewrite Hq. f_equal. f_equal.
  destruct (Z.eqb_spec c (curcpu s)) as [->|Hne].
  - rewrite (bool_decide_eq_true_2 (_ ∈ _ :: _)) by left. case_bool_decide; [done|]. done.
  - repeat case_bool_decide; set_solver.
Qed.

(** One thread moves from one place on a list to a place on another. *)
Lemma kinv_transfer X s m1 m2 a from ts1 t ts2 to us1 us2 :
  kinv X s a → lists a !! from = Some (ts1 ++ t :: ts2) →
  tl_repr m1 (abs_remove from ts1 t ts2 a) →
  lists (abs_remove from ts1 t ts2 a) !! to = Some (us1 ++ us2) →
  tl_repr m2 (abs_insert to us1 t us2 (abs_remove from ts1 t ts2 a)) →
  kinv (X ∪ {[t]}) (set_tl m2 (set_tl m1 s)) (abs_insert to us1 t us2 (abs_remove from ts1 t ts2 a)).
Proof.
  intros Hk Hl Hm1 Hto Hm2.
  assert (Htk : is_Some (k_threads s !! t)) by (apply (kinv_known_list _ _ X s a from _ t Hk Hl); set_solver).
  assert (Hk1 : kinv (X ∪ {[t]}) (set_tl m1 s) (abs_remove from ts1 t ts2 a)).
  { eapply (kinv_lists _ _ _ _ a _ _ t);
      [by apply kinv_weaken|set_solver|done|done|by apply same_remove]. }
  eapply (kinv_lists _ _ _ _ _ _ _ t); [done|set_solver|done|done|by apply same_insert].
Qed.

Lemma take_victims_wp C X s a rq scr ts vs vs' Q :
  kinv X s a → lists a !! rq = Some (ts ++ vs') → lists a !! scr = Some vs → rq ≠ scr →
  (∀ s' a', kinv (X ∪ list_to_set vs') s' a' → lists a' = <[scr := vs' ++ vs]> (<[rq := ts]> (lists a)) →
     unlinked a' = unlinked a → keeps s s' → k_threads s' = k_threads s → Q tt s') →
  wp C (take_victims (length vs') rq scr) Q no_err s.
Proof.
  revert X s a vs. induction vs' as [|t vs' IH] using rev_ind; intros X s a vs Hk Hrq Hscr Hne HQ.
  - cbn. wps. rewrite app_nil_r in Hrq. apply (HQ s a); [|by rewrite (insert_id (lists a)), insert_id|done|reflexivity|done].
    by rewrite list_to_set_nil, union_empty_r_L.
  - rewrite length_app, Nat.add_comm. cbn [length Nat.add take_victims]. apply wp_bind. eapply on_tl_wp.
    { apply (remtail_refines _ _ (ki_tl _ _ _ _ _ Hk) _ _ Hrq). }
    rewrite app_assoc, last_snoc, removelast_last. intros m1 Hm1. apply wp_bind. eapply wp_deref; [done|].
    assert (Hscr' : lists (abs_remove rq (ts ++ vs') t [] a) !! scr = Some vs) by (cbn; by rewrite lookup_insert_ne).
    apply wp_bind. eapply on_tl_wp.
    { apply (addhead_refines _ _ Hm1 scr vs t Hscr'). cbn. set_solver. }
    intros m2 Hm2. rewrite app_assoc in Hrq.
    pose proof (kinv_transfer X s m1 m2 a rq (ts ++ vs') t [] scr [] vs Hk Hrq Hm1 Hscr' Hm2) as Hk2.
    eapply (IH _ _ _ (t :: vs) Hk2); [| |done|].
    + cbn. rewrite lookup_insert_ne by done. by rewrite lookup_insert_eq, app_nil_r.
    + cbn. by rewrite lookup_insert_eq.
    + intros s' a' Hk' Hls Hu Hkp Hth. apply (HQ s' a'); [| | | |done].
      * eapply kinv_mono; [exact Hk'|]. rewrite list_to_set_app. set_solver.
      * rewrite Hls, <-app_assoc. cbn. apply map_eq. intros l.
        rewrite !lookup_insert. repeat case_decide; congruence.
      * rewrite Hu. cbn. apply held_back.
        eapply (wf_unlinked _ (repr_wf _ _ (ki_tl _ _ _ _ _ Hk)) rq); [done|set_solver].
      * etrans; [|exact Hkp]. etrans; apply keeps_tl.
Qed.

(** The threads [vs] are on their way between two processors. *)
Record sending (vs : list Z) (s : kstate) (a : tlabs) : Prop := {
  sd_inv : kinv (list_to_set vs) s a;
  sd_list : lists a !! scratch s = Some vs;
  sd_nocur : nocur (list_to_set vs) s;
  sd_ready t : t ∈ vs →
    ∃ x, k_threads s !! t = Some x ∧ t_state x = S_READY ∧ t_cpu x = Some (curcpu s);
}.

(** Threads change nothing but the processor that they are for. *)
Definition same_but_cpu (ths ths' : gmap Z thread) : Prop :=
  ∀ t, option_Forall2 (λ x x', ∃ c, x' = with_cpu c x) (ths !! t) (ths' !! t).

#[export] Instance same_but_cpu_preorder : PreOrder same_but_cpu.
Proof.
  split.
  - intros m t. destruct (m !! t) as [x|]; constructor. exists (t_cpu x). by destruct x.
  - intros m1 m2 m3 H1 H2 t. specialize (H1 t). specialize (H2 t).
    destruct H1 as [x y [c ->]|]; inversion H2 as [? z [d ->]|]; constructor. by exists d.
Qed.

Lemma same_but_cpu_insert ths t x c :
  ths !! t = Some x → same_but_cpu ths (<[t := with_cpu c x]> ths).
Proof.
  intros Hx t'. destruct (decide (t = t')) as [<-|Hne].
  - rewrite lookup_insert_eq, Hx. constructor. by exists c.
  - rewrite lookup_insert_ne by done. by apply same_but_cpu_preorder.
Qed.

(** The first of them goes to the end of the queue of processor [c]. *)
Lemma sending_send t vs s a c k qs m1 m2 x :
  sending (t :: vs) s a → k_cpus s !! c = Some k → lists a !! c_runqueue k = Some qs →
  k_threads s !! t = Some x →
  tl_repr m1 (abs_remove (scratch s) [] t vs a) →
  tl_repr m2 (abs_insert (c_runqueue k) qs t [] (abs_remove (scratch s) [] t vs a)) →
  let s' := set_tl m2 (set_threads (<[t := with_cpu (Some c) x]> (k_threads s)) (set_tl m1 s)) in
  let a' := abs_insert (c_runqueue k) qs t [] (abs_remove (scratch s) [] t vs a) in
  sending vs s' a' ∧ lists a' !! c_runqueue k = Some (qs ++ [t]).
Proof.
  intros [Hk Hl Hn Hrd] Hc Hqs Hx Hm1 Hm2 s' a'.
  destruct (ki_globals _ _ _ _ _ Hk) as (HRs & _). destruct (ki_cpu _ _ _ _ _ Hk _ _ Hc) as (HRq & _).
  assert (Hne : scratch s ≠ c_runqueue k) by congruence.
  assert (Hto : lists (abs_remove (scratch s) [] t vs a) !! c_runqueue k = Some (qs ++ [])).
  { cbn. by rewrite lookup_insert_ne, app_nil_r. }
  pose proof (kinv_transfer _ s m1 m2 a _ [] t vs _ qs [] Hk Hl Hm1 Hto Hm2) as Hk1.
  assert (Hnd : t ∉ vs).
  { pose proof (wf_nodup _ (repr_wf _ _ (ki_tl _ _ _ _ _ Hk)) _ _ Hl) as Hnd. by apply list.NoDup_cons in Hnd as []. }
  assert (Hk2 : kinv (list_to_set (t :: vs)) s' a').
  { replace (list_to_set (t :: vs)) with (list_to_set (t :: vs) ∪ {[t]} : gset Z) by set_solver.
    apply (kinv_thread _ _ _ _ _ t x (with_cpu (Some c) x) Hk1); [set_solver|done|done|].
    exists c. split; [done|by eexists]. }
  assert (Hq : lists a' !! c_runqueue k = Some (qs ++ [t])) by (cbn; by rewrite lookup_insert_eq).
  destruct (Hrd t) as (x' & Hx' & Hst & _); [left|]. rewrite Hx' in Hx. injection Hx as ->.
  split; [split|done].
  - replace (list_to_set vs) with (list_to_set (t :: vs) ∖ {[t]} : gset Z) by set_solver.
    eapply (kinv_settle _ _ _ _ _ t _ Hk2); [cbn; apply lookup_insert_eq| |].
    + unfold located. cbn. rewrite Hst. exists (c_runqueue k), c. split_and!; [|done..].
      exists (qs ++ [t]). split; [done|set_solver].
    + intros c' k' Hc' Hi' He. exfalso. apply (Hn c' k' Hc' Hi'). rewrite He. set_solver.
  - cbn. by rewrite lookup_insert_ne, lookup_insert_eq.
  - intros c' k' Hc' Hi' Hin. apply (Hn c' k' Hc' Hi'). set_solver.
  - intros t' Ht'. cbn. rewrite lookup_insert_ne by set_solver. apply Hrd. by right.
Qed.

(** The first of them is the thread that the idle processor still has as its
    own: it stays. *)
Lemma sending_rotate t vs s a m1 m2 :
  sending (t :: vs) s a →
  tl_repr m1 (abs_remove (scratch s) [] t vs a) →
  tl_repr m2 (abs_insert (scratch s) vs t [] (abs_remove (scratch s) [] t vs a)) →
  sending (vs ++ [t]) (set_tl m2 (set_tl m1 s)) (abs_insert (scratch s) vs t [] (abs_remove (scratch s) [] t vs a)).
Proof.
  intros [Hk Hl Hn Hrd] Hm1 Hm2.
  assert (Hset : list_to_set (vs ++ [t]) = (list_to_set (t :: vs) ∪ {[t]} : gset Z)).
  { rewrite list_to_set_app_L. set_solver. }
  split; rewrite ?Hset.
  - eapply (kinv_transfer _ s m1 m2 a _ [] t vs _ vs [] Hk Hl Hm1); [|done].
    cbn. by rewrite lookup_insert_eq, app_nil_r.
  - cbn. by rewrite lookup_insert_eq.
  - intros c k Hc Hi Hin. apply (Hn c k Hc Hi). set_solver.
  - intros t' Ht'. apply Hrd. set_solver.
Qed.

Lemma sending_keeps vs s s' a :
  sending vs s a → kinv (list_to_set vs) s' a → keeps s s' → k_threads s' = k_threads s →
  sending vs s' a.
Proof.
  intros [Hk Hl Hn Hrd] Hk' Hkp Hth. split; [done| | |].
  - by rewrite (kp_scratch _ _ Hkp).
  - by eapply carries_nocur; [exact Hk|exact Hk'|by apply keeps_carries|].
  - intros t Ht. rewrite Hth, (kp_curcpu _ _ Hkp). auto.
Qed.

Lemma keeps_release s s' l :
  keeps (set_held (k_held s ∪ {[l]}) s) s' → l ∉ k_held s → keeps s (set_held (k_held s' ∖ {[l]}) s').
Proof. intros [] Hl. split; try done. cbn in *. rewrite kp_held. by rewrite held_back. Qed.

(** What the lists gain: a queue takes threads only up to [share] of them. *)
Definition topped (share : Z) (ts ts' : list Z) : Prop :=
  ∃ new, ts' = ts ++ new ∧ (new = [] ∨ Z.of_nat (length ts') ≤ share).

Lemma topped_snoc share ts t ts' :
  Z.of_nat (length ts) < share → topped share (ts ++ [t]) ts' → topped share ts ts'.
Proof.
  intros Hlt (new & -> & Hnew). exists (t :: new). rewrite <-app_assoc. split; [done|right].
  rewrite !length_app in *. destruct Hnew as [->|?]; cbn in *; lia.
Qed.

Lemma topped_refl share ts : topped share ts ts.
Proof. exists []. rewrite app_nil_r. by split; [|left]. Qed.

Lemma send_to_wp C fuel vs s a c k qs share n Q :
  sending vs s a → k_cpus s !! c = Some k → lists a !! c_runqueue k = Some qs →
  k_held s = {[c_runqueue_lock k]} → n ≤ Z.of_nat fuel → n ≤ Z.of_nat (length vs) →
  (∀ vs' qs' n' s' a', sending vs' s' a' → topped share qs qs' → n' ≤ Z.of_nat (length vs') →
     lists a' = <[scratch s := vs']> (<[c_runqueue k := qs']> (lists a)) →
     keeps s s' → same_but_cpu (k_threads s) (k_threads s') → Q n' s') →
  wp C (send_to fuel c (scratch s) share n) Q no_err s.
Proof.
  revert vs s a k qs n. induction fuel as [|fuel IH]; intros vs s a k qs n Hs Hc Hqs Hh Hfuel Hvs HQ;
    pose proof (sd_inv _ _ _ Hs) as Hk; cbn [send_to]; kstep (get_cpu_eq _ _ _ Hc);
    kstep (read_count_eq _ _ _ _ _ Hk Hqs).
  { rewrite (proj2 (Z.ltb_ge 0 n)), andb_false_r by lia. wps.
    eapply (HQ vs qs n s a); try done; [apply topped_refl| ].
    rewrite (insert_id (lists a)), insert_id; by rewrite ?(sd_list _ _ _ Hs). }
  destruct ((Z.of_nat (length qs) <? share) && (0 <? n)) eqn:Hb.
  2:{ wps. eapply (HQ vs qs n s a); try done; [apply topped_refl| ].
      rewrite (insert_id (lists a)), insert_id; by rewrite ?(sd_list _ _ _ Hs). }
  apply andb_true_iff in Hb as [Hlt%Z.ltb_lt Hpos%Z.ltb_lt].
  destruct vs as [|t vs]; [cbn in Hvs; lia|]. cbn [length] in Hvs.
  destruct (sd_ready _ _ _ Hs t) as (x & Hx & _); [left|].
  apply wp_bind. eapply remhead_wp; [exact Hk|apply (sd_list _ _ _ Hs)|done|].
  intros t0 vs0 [= <- <-] m1 Hm1. apply wp_bind. eapply wp_deref; [done|].
  destruct (ki_curcpu _ _ _ _ _ Hk) as [ko Hko]. kstep (curthread_eq _ ko); [done|].
  destruct (ki_globals _ _ _ _ _ Hk) as (HRs & _).
  destruct (ki_cpu _ _ _ _ _ Hk _ _ Hc) as (HRq & _ & HLq & _).
  assert (Hne : scratch s ≠ c_runqueue k) by congruence.
  destruct (t =? c_curthread ko).
  - apply wp_bind. eapply on_tl_wp.
    { apply (addtail_refines _ _ Hm1 (scratch s) vs t); cbn; [apply lookup_insert_eq|set_solver]. }
    intros m2 Hm2. pose proof (sending_rotate _ _ _ _ _ _ Hs Hm1 Hm2) as Hs2.
    eapply (IH _ _ _ k qs (n - 1) Hs2); [done| |done|lia|rewrite length_app; cbn; lia|].
    { cbn. by rewrite !lookup_insert_ne. }
    intros vs' qs' n' s' a' Hs' Ht' Hn' Hl' Hkp Hcpu. apply (HQ vs' qs' n' s' a'); try done.
    + rewrite Hl'. cbn. apply map_eq. intros l. rewrite !lookup_insert. by repeat case_decide.
    + etrans; [|exact Hkp]. etrans; apply keeps_tl.
  - kstep (get_thread_eq _ t x); [done|]. unfold put_thread. wps. eapply on_tl_wp.
    { apply (addtail_refines _ _ Hm1 (c_runqueue k) qs t); cbn; [by rewrite lookup_insert_ne|set_solver]. }
    intros m2 Hm2. destruct (sending_send t vs s a c k qs m1 m2 x Hs Hc Hqs Hx Hm1 Hm2) as [Hs2 Hq2].
    cbn [k_threads set_tl]. set (s2 := set_tl m2 _) in *. set (a2 := abs_insert _ _ _ _ _) in *.
    assert (Hkp2 : keeps s s2).
    { etrans; [apply (keeps_tl s m1)|]. etrans; [apply keeps_threads|apply keeps_tl]. }
    apply wp_bind. eapply (wp_mono C C _ (λ _ s3, sending vs s3 a2 ∧ keeps s2 s3 ∧ k_threads s3 = k_threads s2)
      _ no_err no_err).
    { destruct (c_isidle k); [|wps; split_and!; [done|reflexivity|done]].
      eapply (ipi_send_wp L R _ _ s2 a2 c k); [apply Hs2|done| |done|].
      - intros l. cbn. rewrite Hh. intros ->%elem_of_singleton. by eexists.
      - intros s3 Hk3 Hkp3 Hth3 _. split_and!; [by eapply sending_keeps|done..]. }
    2,3: done. intros [] s3 (Hs3 & Hkp3 & Hth3). pose proof (transitivity Hkp2 Hkp3) as Hkp03.
    destruct (kp_cpus _ _ Hkp03 _ _ Hc) as (j & Hc3). rewrite <-(kp_scratch _ _ Hkp03).
    eapply (IH _ _ _ _ _ (n - 1) Hs3 Hc3 Hq2); [by rewrite (kp_held _ _ Hkp03)|lia|lia|].
    intros vs' qs' n' s' a' Hs' Ht' Hn' Hl' Hkp Hcpu. eapply (HQ vs' qs' n' s' a'); [done| |done| |by etrans|].
    + by eapply topped_snoc.
    + rewrite Hl', (kp_scratch _ _ Hkp03). cbn. apply map_eq. intros l. rewrite !lookup_insert.
      by repeat case_decide.
    + etrans; [|exact Hcpu]. rewrite Hth3. by apply same_but_cpu_insert.
Qed.

Lemma topped_trans share ts1 ts2 ts3 :
  topped share ts1 ts2 → topped share ts2 ts3 → topped share ts1 ts3.
Proof.
  intros (n1 & -> & H1) (n2 & -> & H2). exists (n1 ++ n2). rewrite <-app_assoc. split; [done|].
  destruct H2 as [->|H2]; [|by rewrite <-app_assoc in H2; right].
  rewrite app_nil_r. exact H1.
Qed.

(** Only run queues gain threads. *)
Definition gains (share l : Z) (ts ts' : list Z) : Prop :=
  topped share ts ts' ∧ (ts' = ts ∨ ∃ c, R !! l = Some (RunQ c)).

Lemma gains_refl share l ts : gains share l ts ts.
Proof. split; [apply topped_refl|by left]. Qed.

Lemma gains_trans share l ts1 ts2 ts3 :
  gains share l ts1 ts2 → gains share l ts2 ts3 → gains share l ts1 ts3.
Proof.
  intros [H1 H1'] [H2 H2']. split; [by eapply topped_trans|].
  destruct H1' as [->|?]; [|by right]. destruct H2' as [->|?]; [by left|by right].
Qed.

Definition spread (share scr : Z) (a a' : tlabs) : Prop :=
  ∀ l ts, l ≠ scr → lists a !! l = Some ts →
    ∃ ts', lists a' !! l = Some ts' ∧ gains share l ts ts'.

Lemma spread_refl share scr a : spread share scr a a.
Proof. intros l ts _ Hl. exists ts. split; [done|apply gains_refl]. Qed.

Lemma spread_trans share scr a1 a2 a3 :
  spread share scr a1 a2 → spread share scr a2 a3 → spread share scr a1 a3.
Proof.
  intros H1 H2 l ts Hl Hts. destruct (H1 l ts Hl Hts) as (ts2 & Hts2 & Ht2).
  destruct (H2 l ts2 Hl Hts2) as (ts3 & Hts3 & Ht3). exists ts3. split; [done|by eapply gains_trans].
Qed.

Lemma send_all_wp C cs vs s a ko share n Q :
  sending vs s a → k_held s = ∅ → (∀ c, c ∈ cs → is_Some (k_cpus s !! c)) →
  k_cpus s !! curcpu s = Some ko → n ≤ Z.of_nat (length vs) →
  (∀ vs' s' a', sending vs' s' a' → spread share (scratch s) a a' →
     lists a' !! c_runqueue ko = lists a !! c_runqueue ko →
     keeps s s' → same_but_cpu (k_threads s) (k_threads s') → Q tt s') →
  wp C (send_all cs (scratch s) share n) Q no_err s.
Proof.
  revert vs s a ko n. induction cs as [|c cs IH]; intros vs s a ko n Hs Hh Hcs Hko Hn HQ; cbn [send_all].
  { wps. apply (HQ vs s a); [done|apply spread_refl|done|reflexivity..]. }
  destruct (0 <? n) eqn:Hpos.
  2:{ wps. apply (HQ vs s a); [done|apply spread_refl|done|reflexivity..]. }
  apply wp_bind. wp_step. cbn beta. destruct (Z.eqb_spec c (curcpu s)) as [->|Hne].
  { eapply (IH vs s a ko); try done. intros c' Hc'. apply Hcs. by right. }
  destruct (Hcs c) as [k Hc]; [left|]. kstep (get_cpu_eq _ _ _ Hc).
  kstep (spin_acquire_eq _ (c_runqueue_lock k)); [set_solver|].
  assert (Hs1 : sending vs (set_held (k_held s ∪ {[c_runqueue_lock k]}) s) a).
  { destruct Hs. split; [by apply kinv_held|done..]. }
  pose proof (sd_inv _ _ _ Hs) as Hk. destruct (kinv_runqueue _ _ _ _ _ _ _ Hk Hc) as (qs & Hqs).
  apply wp_bind. eapply (send_to_wp C _ vs (set_held _ s) a c k qs); [exact Hs1|done|done| |lia|done|].
  { cbn. rewrite Hh. set_solver. }
  cbn [scratch set_held]. intros vs' qs' n' s' a' Hs' Ht' Hn' Hl' Hkp Hcpu.
  kstep (spin_release_eq _ (c_runqueue_lock k)); [rewrite (kp_held _ _ Hkp); cbn; set_solver|].
  set (s2 := set_held _ s').
  assert (Hkp2 : keeps s s2) by (apply keeps_release; [done|set_solver]).
  assert (Hs2 : sending vs' s2 a') by (destruct Hs'; split; [by apply kinv_held|done..]).
  destruct (ki_cpu _ _ _ _ _ Hk _ _ Hc) as (HRq & _), (ki_cpu _ _ _ _ _ Hk _ _ Hko) as (HRo & _).
  destruct (ki_globals _ _ _ _ _ Hk) as (HRs & _).
  destruct (kp_cpus _ _ Hkp2 _ _ Hko) as (j & Hko2). rewrite <-(kp_curcpu _ _ Hkp2) in Hko2.
  rewrite <-(kp_scratch _ _ Hkp2).
  eapply (IH vs' s2 a' _ n' Hs2); [by rewrite (kp_held _ _ Hkp2)| |exact Hko2|done|].
  { intros c' Hc'. destruct (Hcs c') as [k' Hk']; [by right|].
    destruct (kp_cpus _ _ Hkp2 _ _ Hk') as (j' & ->). by eexists. }
  intros vs3 s3 a3 Hs3 Hsp Hown Hkp3 Hcpu3. apply (HQ vs3 s3 a3); [done| | |by etrans|by etrans].
  - eapply spread_trans; [|rewrite (kp_scratch _ _ Hkp2) in Hsp; exact Hsp].
    intros l ts Hl Hts. rewrite Hl', lookup_insert_ne by done.
    destruct (decide (c_runqueue k = l)) as [<-|Hd].
    + exists qs'. rewrite lookup_insert_eq. simplify_eq. split; [done|]. split; [done|right; by exists c].
    + rewrite lookup_insert_ne by done. exists ts. split; [done|apply gains_refl].
  - cbn in Hown. rewrite Hown, Hl', !lookup_insert_ne; congruence.
Qed.

Lemma kinv_settle_all X s a :
  kinv X s a → nocur X s →
  (∀ t, t ∈ X → ∃ x, k_threads s !! t = Some x ∧ located R s a t x) → kinv ∅ s a.
Proof.
  intros Hk Hn HX. kinv_keep Hk.
  - intros t x Hx _. destruct (decide (t ∈ X)) as [Ht|Ht]; [|by apply (ki_located _ _ _ _ _ Hk)].
    destruct (HX t Ht) as (x' & Hx' & Hloc). by simplify_eq.
  - intros c k Hc Hi. destruct (ki_cur _ _ _ _ _ Hk c k Hc Hi) as [?|?]; [|by right].
    by destruct (Hn c k Hc Hi).
Qed.

(** How many threads each processor is to have at most. *)
Definition share_of (s : kstate) (a : tlabs) : Z :=
  DIVROUNDUP (foldl (λ n c, u32 (n + queue_len s a c)) 0 (allcpus s)) (Z.of_nat (length (allcpus s))).

Record migrated (share : Z) (ko : kcpu) (rs : list Z) (s : kstate) (a : tlabs) (s' : kstate) (a' : tlabs) : Prop := {
  mg_inv : kinv ∅ s' a';
  mg_keeps : keeps s s';
  mg_threads : same_but_cpu (k_threads s) (k_threads s');
  mg_own : ∃ rest, lists a' !! c_runqueue ko = Some (take (Z.to_nat share) rs ++ rest);
  mg_others l ts : l ≠ c_runqueue ko → lists a !! l = Some ts →
    ∃ ts', lists a' !! l = Some ts' ∧ gains share l ts ts';
}.

(** After the threads to send have been taken off the queue. *)
Lemma sending_start s a ko rs n s' a' :
  kinv ∅ s a → k_cpus s !! curcpu s = Some ko → lists a !! c_runqueue ko = Some rs →
  kinv (∅ ∪ list_to_set (drop n rs)) s' a' → keeps s s' → k_threads s' = k_threads s →
  lists a' = <[scratch s := drop n rs ++ []]> (<[c_runqueue ko := take n rs]> (lists a)) →
  sending (drop n rs) s' a'.
Proof.
  intros Hk Hko Hrs Hk' Hkp Hth Hl. rewrite union_empty_l_L, app_nil_r in *.
  assert (Hsub : ∀ t, t ∈ drop n rs → on a (c_runqueue ko) t).
  { intros t Ht. exists rs. split; [done|]. rewrite <-(take_drop n rs). set_solver. }
  split; [done| | |].
  - by rewrite Hl, (kp_scratch _ _ Hkp), lookup_insert_eq.
  - eapply carries_nocur; [exact Hk|exact Hk'|by apply keeps_carries|].
    intros c k Hc Hi Hin%elem_of_list_to_set. 
    by eapply (kinv_notcur _ _ ∅ s a _ _ c k Hk (nocur_empty s) (Hsub _ Hin)).
  - intros t Ht. rewrite Hth, (kp_curcpu _ _ Hkp).
    destruct (kinv_entry _ _ _ _ _ _ _ Hk (Hsub _ Ht)) as (x & _ & _ & Hx & _).
    exists x. split; [done|]. destruct (ki_cpu _ _ _ _ _ Hk _ _ Hko) as (HR & _).
    by apply (kinv_state _ _ ∅ s a _ t x _ Hk (Hsub _ Ht) Hx (not_elem_of_empty _) HR).
Qed.

(** The threads that were not sent come back. *)
Lemma sending_back vs s a ko ts s' a' :
  sending vs s a → k_cpus s !! curcpu s = Some ko → lists a !! c_runqueue ko = Some ts →
  kinv (list_to_set vs ∪ list_to_set vs) s' a' → moved (scratch s) (c_runqueue ko) vs a a' →
  keeps s s' → k_threads s' = k_threads s → kinv ∅ s' a'.
Proof.
  intros Hs Hko Hts Hk' [_ Hl] Hkp Hth. pose proof (sd_inv _ _ _ Hs) as Hk.
  destruct (ki_cpu _ _ _ _ _ Hk _ _ Hko) as (HR & _). destruct (ki_globals _ _ _ _ _ Hk) as (HRs & _).
  rewrite union_idemp_L in Hk'. eapply kinv_settle_all; [exact Hk'| |].
  - eapply carries_nocur; [exact Hk|exact Hk'|by apply keeps_carries|apply Hs].
  - intros t Ht%elem_of_list_to_set. destruct (sd_ready _ _ _ Hs t Ht) as (x & Hx & Hst & Hxc).
    exists x. rewrite Hth. split; [done|]. unfold located. rewrite Hst.
    exists (c_runqueue ko), (curcpu s). split_and!; [|done..].
    exists (ts ++ vs). rewrite Hl, decide_False by congruence. rewrite decide_True, Hts by done.
    split; [done|set_solver].
Qed.

Lemma same_but_cpu_size ths ths' : same_but_cpu ths ths' → size ths' = size ths.
Proof.
  intros H. rewrite <-!size_dom. f_equal. apply set_eq. intros t. rewrite !elem_of_dom.
  destruct (H t); split; intros []; by eauto.
Qed.

(** The end of the function: what is left of the list of victims goes back. *)
Lemma migration_end_wp C s0 vs s a ko ts Q :
  sending vs s a → k_held s = ∅ → k_cpus s !! curcpu s = Some ko → lists a !! c_runqueue ko = Some ts →
  enough s0 = enough s →
  (∀ s' a', kinv ∅ s' a' → keeps s s' → k_threads s' = k_threads s →
     lists a' = <[scratch s := []]> (<[c_runqueue ko := ts ++ vs]> (lists a)) → Q tt s') →
  wp C (empty <- on_tl (threadlist_isempty (scratch s)) ;;
    (if negb empty then
       spin_acquire (c_runqueue_lock ko) ;;;
       move_all (enough s0) (scratch s) (c_runqueue ko) ;;;
       spin_release (c_runqueue_lock ko)
     else ret tt) ;;;
    empty <- on_tl (threadlist_isempty (scratch s)) ;;
    KASSERT empty ;;;
    on_tl (threadlist_cleanup (scratch s))) Q no_err s.
Proof.
  intros Hs Hh Hko Hts Hen HQ. pose proof (sd_inv _ _ _ Hs) as Hk. pose proof (sd_list _ _ _ Hs) as Hl.
  destruct (ki_cpu _ _ _ _ _ Hk _ _ Hko) as (HR & _). destruct (ki_globals _ _ _ _ _ Hk) as (HRs & _).
  assert (Hend : ∀ s' a', kinv ∅ s' a' → keeps s s' → k_threads s' = k_threads s →
     lists a' = <[scratch s := []]> (<[c_runqueue ko := ts ++ vs]> (lists a)) →
     wp C (empty <- on_tl (threadlist_isempty (scratch s)) ;; KASSERT empty ;;;
           on_tl (threadlist_cleanup (scratch s))) Q no_err s').
  { intros s' a' Hk' Hkp Hth Hl'.
    assert (He : lists a' !! scratch s = Some []) by (by rewrite Hl', lookup_insert_eq).
    apply wp_bind. eapply isempty_wp; [exact Hk'|exact He|]. apply wp_bind, wp_KASSERT; [done|].
    eapply cleanup_wp; [exact Hk'|exact He|]. by apply (HQ s' a'). }
  apply wp_bind. eapply isempty_wp; [exact Hk|exact Hl|]. apply wp_bind. case_bool_decide as Hvs; cbn [negb].
  - subst vs. wp_step. eapply Hend; [exact Hk|reflexivity|done|].
    rewrite app_nil_r, (insert_id (lists a)), insert_id; done.
  - kstep (spin_acquire_eq _ (c_runqueue_lock ko)); [set_solver|]. apply wp_bind.
    eapply (move_all_wp L R C _ _ _ a _ _ vs); [apply kinv_held, Hk|done|by eexists|congruence| |].
    { rewrite Hen. by eapply (list_enough _ _ _ s). }
    intros s1 a1 Hk1 Hmv Hkp1 Hth1.
    eapply wp_of_ok; [apply spin_release_eq; rewrite (kp_held _ _ Hkp1); cbn; set_solver|].
    set (s2 := set_held _ s1).
    assert (Hkp2 : keeps s s2) by (apply keeps_release; [done|set_solver]).
    eapply (Hend s2 a1); [|done..|].
    + eapply sending_back; [exact Hs|done|done|by apply kinv_held, Hk1|exact Hmv|done|done].
    + apply map_eq. intros l. rewrite (proj2 Hmv l). rewrite !lookup_insert.
      repeat case_decide; try congruence. subst. by rewrite Hts.
Qed.

Lemma DIVROUNDUP_nonneg x y : 0 ≤ y → 0 ≤ DIVROUNDUP x y.
Proof.
  intros Hy. unfold DIVROUNDUP. pose proof (u32_range (u32 (x + y) - 1)) as [? _].
  destruct (decide (y = 0)) as [->|]; [by rewrite Zdiv_0_r|]. apply Z.div_pos; lia.
Qed.

(** The threads past the share of the processor are taken off its queue. *)
Lemma migration_take_wp C s a ko rs n Q :
  kinv ∅ s a → k_held s = ∅ → k_cpus s !! curcpu s = Some ko → lists a !! c_runqueue ko = Some rs →
  (∀ s' a', sending (drop n rs) s' a' → keeps s s' → k_threads s' = k_threads s →
     lists a' = <[scratch s := drop n rs]> (<[c_runqueue ko := take n rs]> (lists a)) → Q tt s') →
  wp C (on_tl (threadlist_init (scratch s)) ;;;
        spin_acquire (c_runqueue_lock ko) ;;;
        take_victims (length (drop n rs)) (c_runqueue ko) (scratch s) ;;;
        spin_release (c_runqueue_lock ko)) Q no_err s.
Proof.
  intros Hk Hh Hko Hrs HQ. pose proof (scratch_empty _ _ _ _ _ Hk (empty_subseteq _)) as Hscr.
  destruct (ki_cpu _ _ _ _ _ Hk _ _ Hko) as (HR & _). destruct (ki_globals _ _ _ _ _ Hk) as (HRs & _).
  apply wp_bind. eapply init_scratch_wp; [exact Hk|done|]. intros s1 Hk1 Hkp1 Hth1.
  assert (Hh1 : k_held s1 = ∅) by (by rewrite (kp_held _ _ Hkp1)).
  kstep (spin_acquire_eq _ (c_runqueue_lock ko)); [set_solver|].
  apply wp_bind. eapply (take_victims_wp C ∅ _ a _ _ (take n rs) []);
    [by apply kinv_held|by rewrite take_drop|done|congruence|].
  intros s2 a2 Hk2 Hl2 _ Hkp2 Hth2.
  eapply wp_of_ok; [apply spin_release_eq; rewrite (kp_held _ _ Hkp2); cbn; set_solver|].
  assert (Hkp3 : keeps s (set_held (k_held s2 ∖ {[c_runqueue_lock ko]}) s2)).
  { refine (transitivity Hkp1 _). apply keeps_release; [done|set_solver]. }
  apply (HQ _ a2); [|done|cbn; by rewrite Hth2, <-Hth1|by rewrite Hl2, app_nil_r].
  eapply (sending_start s a ko rs); try done; [by apply kinv_held|cbn; by rewrite Hth2, <-Hth1].
Qed.

Lemma thread_consider_migration_wp C s a ko rs Q :
  kinv ∅ s a → k_held s = ∅ → k_cpus s !! curcpu s = Some ko → lists a !! c_runqueue ko = Some rs →
  (∀ s' a', migrated (share_of s a) ko rs s a s' a' → Q tt s') →
  wp C thread_consider_migration Q no_err s.
Proof.
  intros Hk Hh Hko Hrs HQ. unfold thread_consider_migration. apply wp_bind. wp_step. cbn zeta beta.
  assert (Hcs : ∀ c, c ∈ allcpus s → is_Some (k_cpus s !! c)) by (intros c; apply (ki_all _ _ _ _ _ Hk)).
  kstep (count_threads_eq _ _ _ (allcpus s) 0 0 Hk Hh Hcs).
  rewrite bool_decide_eq_true_2 by (apply (ki_all _ _ _ _ _ Hk); by eexists). cbn beta iota.
  fold (share_of s a). set (share := share_of s a) in *.
  assert (Hlen : queue_len s a (curcpu s) = Z.of_nat (length rs)) by (unfold queue_len; by rewrite Hko, Hrs).
  rewrite Hlen. destruct (Z.of_nat (length rs) <? share) eqn:Hlt.
  { wps. apply (HQ s a). split; [done|reflexivity|reflexivity| |].
    - exists []. rewrite take_ge, app_nil_r by lia. done.
    - intros l ts _ Hl. exists ts. split; [done|apply gains_refl]. }
  assert (Hsh : 0 ≤ share) by (apply DIVROUNDUP_nonneg; lia).
  kstep (get_cpu_eq _ _ _ Hko).
  replace (Z.to_nat (Z.of_nat (length rs) - share)) with (length (drop (Z.to_nat share) rs))
    by (rewrite length_drop; lia).
  destruct (ki_cpu _ _ _ _ _ Hk _ _ Hko) as (HR & _). destruct (ki_globals _ _ _ _ _ Hk) as (HRs & _).
  apply wp_bind. eapply migration_take_wp; [exact Hk|done..|]. intros s3 a2 Hs3 Hkp3 Hth3 Hl2.
  rewrite <-(kp_scratch _ _ Hkp3). apply wp_bind.
  destruct (kp_cpus _ _ Hkp3 _ _ Hko) as (j3 & Hko3). rewrite <-(kp_curcpu _ _ Hkp3) in Hko3.
  eapply (send_all_wp C _ _ s3 a2 _ share _ _ Hs3); [by rewrite (kp_held _ _ Hkp3)| |exact Hko3| |].
  { intros c [k Hc]%Hcs. destruct (kp_cpus _ _ Hkp3 _ _ Hc) as (n & ->). by eexists. }
  { rewrite length_drop. lia. }
  cbn [c_runqueue with_ipi]. intros vs s4 a4 Hs4 Hsp Hown Hkp4 Hcpu4. pose proof (transitivity Hkp3 Hkp4) as Hkp.
  destruct (kp_cpus _ _ Hkp _ _ Hko) as (j4 & Hko4). rewrite <-(kp_curcpu _ _ Hkp) in Hko4.
  rewrite Hl2, lookup_insert_ne, lookup_insert_eq in Hown by congruence.
  rewrite <-(kp_scratch _ _ Hkp4).
  eapply (migration_end_wp C s vs s4 a4 (with_ipi j4 ko) _ _ Hs4); [by rewrite (kp_held _ _ Hkp)|exact Hko4|done| |].
  { unfold enough. by rewrite (same_but_cpu_size _ _ Hcpu4), Hth3. }
  cbn [c_runqueue with_ipi]. intros s5 a5 Hk5 Hkp5 Hth5 Hl5. apply (HQ s5 a5).
  rewrite (kp_scratch _ _ Hkp) in Hl5. split; [done|by etrans|by rewrite Hth5, <-Hth3| |].
  - exists vs. by rewrite Hl5, lookup_insert_ne, lookup_insert_eq by congruence.
  - intros l ts Hlo Hl. rewrite Hl5. destruct (decide (scratch s = l)) as [<-|Hd].
    + rewrite (scratch_empty _ _ _ _ _ Hk (empty_subseteq _)) in Hl. injection Hl as <-.
      exists []. by rewrite lookup_insert_eq; split; [|apply gains_refl].
    + rewrite !lookup_insert_ne by done. apply Hsp; [by rewrite (kp_scratch _ _ Hkp3)|].
      by rewrite Hl2, !lookup_insert_ne.
Qed.
End migration.

(** ** The system

    The processors take turns; in a turn a processor runs one of the operations
    to its end, or until another thread runs. *)

Definition set_curcpu (c : Z) (s : kstate) : kstate :=
  KState (k_tl s) (k_threads s) (k_cpus s) (allcpus s) (k_procs s) c (k_held s)
    (thread_count s) (thread_count_lock s) (thread_count_wchan s) (scratch s).

Inductive kop :=
  | OpTurn (c : Z)
  | OpYield
  | OpSleep (wc lk : Z)
  | OpWakeone (wc lk : Z)
  | OpWakeall (wc lk : Z)
  | OpFork (namelen : Z) (mem : option Z) (stack : bool) (proc : option Z)
  | OpExit
  | OpMigrate
  | OpUnidle.

Definition run_op (o : kop) : M kstate unit :=
  match o with
  | OpTurn c => modify (set_curcpu c)
  | OpYield => thread_yield ;;; ret tt
  | OpSleep wc lk => spin_acquire lk ;;; wchan_sleep wc lk ;;; ret tt
  | OpWakeone wc lk => spin_acquire lk ;;; wchan_wakeone wc lk ;;; spin_release lk
  | OpWakeall wc lk => spin_acquire lk ;;; wchan_wakeall wc lk ;;; spin_release lk
  | OpFork namelen mem stack proc => thread_fork namelen mem stack proc
  | OpExit => thread_exit ;;; ret tt
  | OpMigrate => thread_consider_migration
  | OpUnidle => switch_idle ;;; ret tt
  end.

Section system.
Context (L : gmap Z lockrole) (R : gmap Z role).
#[local] Abbreviation kinv := (kinv L R).

(** The processor whose turn it is runs the thread [x]. *)
Definition running (s : kstate) (k : kcpu) (x : thread) : Prop :=
  k_cpus s !! curcpu s = Some k ∧ c_isidle k = false ∧ k_threads s !! c_curthread k = Some x.

(** When each operation is called. *)
Definition op_ok (o : kop) (s : kstate) : Prop :=
  match o with
  | OpTurn c => is_Some (k_cpus s !! c)
  | OpYield | OpMigrate => True
  | OpSleep wc lk => R !! wc = Some Wchan ∧ L !! lk = Some LWchan ∧
      ∃ k x, running s k x ∧ t_in_interrupt x = false
  | OpWakeone wc lk | OpWakeall wc lk => R !! wc = Some Wchan ∧ L !! lk = Some LWchan
  | OpFork namelen mem stack proc => namelen ≠ MAX_NAME_LENGTH ∧ fresh_mem s mem ∧
      ∃ k x p, running s k x ∧ (match proc with Some q => Some q | None => t_proc x end) = Some p ∧
        is_Some (k_procs s !! p)
  | OpExit => ∃ k x p, running s k x ∧ t_proc x = Some p
  | OpUnidle => ∃ k, k_cpus s !! curcpu s = Some k ∧ c_isidle k = true
  end.

Definition sys_inv (s : kstate) : Prop := k_held s = ∅ ∧ ∃ a, kinv ∅ s a.

Lemma kinv_turn X s a c : kinv X s a → is_Some (k_cpus s !! c) → kinv X (set_curcpu c s) a.
Proof. intros Hk Hc. kinv_keep Hk. exact Hc. Qed.

Lemma yield_wp C s a k rs Q :
  kinv ∅ s a → k_held s = ∅ → k_cpus s !! curcpu s = Some k → lists a !! c_runqueue k = Some rs →
  (c_isidle k = true → Q (false, None) s) →
  (c_isidle k = false → rs = [] → ∀ s', kinv ∅ s' a → keeps s s' → k_threads s' = k_threads s → Q (false, None) s') →
  (∀ o s' a', c_isidle k = false → switched L R s a k S_READY 0 0 o s' a' → Q (true, o) s') →
  wp C thread_yield Q no_err s.
Proof.
  intros Hk Hh Hc Hrs H1 H2 H3. unfold thread_yield. destruct (c_isidle k) eqn:Hi.
  { eapply thread_switch_idle_wp; [done..|by apply H1]. }
  destruct (kinv_current _ _ _ _ _ _ Hk Hc Hi) as (x & Hx & _).
  eapply (thread_switch_wp L R C s a k x S_READY 0 0 rs); try done; [intros l; set_solver| |].
  - intros _ Hnil. by apply H2.
  - intros o s' a'. by apply H3.
Qed.

Lemma list_of_wchan X s a wc : kinv X s a → R !! wc = Some Wchan → ∃ ws, lists a !! wc = Some ws.
Proof. intros Hk HR. apply (ki_dom _ _ _ _ _ Hk). rewrite HR. eauto. Qed.

Lemma held_one s lk : k_held s = ∅ → L !! lk = Some LWchan →
  holds_only L (λ r, r = LWchan) (set_held (k_held s ∪ {[lk]}) s).
Proof. intros Hh HL l Hl. cbn in Hl. rewrite Hh in Hl. exists LWchan. split; [|done]. set_solver. Qed.

Lemma wakeone_wp C s a wc lk ws Q :
  kinv ∅ s a → k_held s = ∅ → R !! wc = Some Wchan → L !! lk = Some LWchan → lists a !! wc = Some ws →
  (ws = [] → ∀ s', kinv ∅ s' a → keeps s s' → k_threads s' = k_threads s → Q tt s') →
  (∀ t ws' s' x c k, ws = t :: ws' →
     k_threads s !! t = Some x → t_cpu x = Some c → k_cpus s !! c = Some k →
     kinv ∅ s' (abs_wake wc t ws' (c_runqueue k) a) → keeps s s' →
     k_threads s' = <[t := with_state S_READY x]> (k_threads s) → Q tt s') →
  wp C (run_op (OpWakeone wc lk)) Q no_err s.
Proof.
  intros Hk Hh HR HL Hws H1 H2. cbn [run_op]. kstep (spin_acquire_eq _ lk); [set_solver|]. apply wp_bind.
  assert (Hrel : ∀ s1, keeps (set_held (k_held s ∪ {[lk]}) s) s1 →
    spin_release lk s1 = Ok tt (set_held (k_held s1 ∖ {[lk]}) s1)).
  { intros s1 Hkp. apply spin_release_eq. rewrite (kp_held _ _ Hkp). cbn. set_solver. }
  eapply (wchan_wakeone_wp L R C ∅ _ a wc lk ws); [by apply kinv_held|done|apply nocur_empty|cbn; set_solver
    |by apply held_one| |].
  - intros Hnil s1 Hk1 Hkp Hth. eapply wp_of_ok; [by apply Hrel|].
    apply H1; [done|by apply kinv_held|apply keeps_release; [done|set_solver]|done].
  - intros t ws' s1 x c k He Hx Hxc Hc Hk1 Hkp Hth. eapply wp_of_ok; [by apply Hrel|].
    eapply (H2 t ws' _ x c k He Hx Hxc Hc); [|apply keeps_release; [done|set_solver]|done].
    apply kinv_held. eapply kinv_mono; [exact Hk1|set_solver].
Qed.

Lemma wakeall_wp C s a wc lk ws Q :
  kinv ∅ s a → k_held s = ∅ → R !! wc = Some Wchan → L !! lk = Some LWchan → lists a !! wc = Some ws →
  (∀ s' a', kinv ∅ s' a' → woken wc ws (rq_of s) a a' → keeps s s' →
     readied ws (k_threads s) (k_threads s') → Q tt s') →
  wp C (run_op (OpWakeall wc lk)) Q no_err s.
Proof.
  intros Hk Hh HR HL Hws HQ. cbn [run_op]. kstep (spin_acquire_eq _ lk); [set_solver|]. apply wp_bind.
  eapply (wchan_wakeall_wp L R C ∅ _ a wc lk ws); [by apply kinv_held
    |apply (scratch_empty _ _ _ _ _ Hk), empty_subseteq|done|done|apply nocur_empty|cbn; set_solver|by apply held_one|].
  intros s1 a1 Hk1 Hwk Hkp Hrd.
  eapply wp_of_ok; [apply spin_release_eq; rewrite (kp_held _ _ Hkp); cbn; set_solver|].
  apply (HQ _ a1); [|done|apply keeps_release; [done|set_solver]|done].
  apply kinv_held. eapply kinv_mono; [exact Hk1|set_solver].
Qed.

Lemma sleep_wp C s a k x wc lk Q :
  kinv ∅ s a → k_held s = ∅ → running s k x → t_in_interrupt x = false →
  R !! wc = Some Wchan → L !! lk = Some LWchan →
  (∀ o s' a', switched L R (set_held {[lk]} s) a k S_SLEEP wc lk o s' a' → Q tt s') →
  wp C (run_op (OpSleep wc lk)) Q no_err s.
Proof.
  intros Hk Hh (Hc & Hi & Hx) Hint HR HL HQ. cbn [run_op]. kstep (spin_acquire_eq _ lk); [set_solver|].
  rewrite Hh, union_empty_l_L. destruct (kinv_runqueue _ _ _ _ _ _ _ Hk Hc) as (rs & Hrs).
  apply wp_bind. eapply (wchan_sleep_wp L R C _ a k x wc lk rs); [by apply kinv_held|done..|].
  intros o s' a' Hsw. wps. by eapply HQ.
Qed.

Lemma unidle_wp C s a k ts zs Q :
  kinv ∅ s a → k_held s = ∅ → k_cpus s !! curcpu s = Some k → c_isidle k = true →
  lists a !! c_runqueue k = Some ts → lists a !! c_zombies k = Some zs →
  (ts = [] → ∀ s', kinv ∅ s' a → same_globals s s' → k_threads s' = k_threads s → k_held s' = ∅ → Q None s') →
  (∀ n ts' s' a', ts = n :: ts' → kinv ∅ s' a' → runs_on (set_held {[c_runqueue_lock k]} s) s' k n zs →
     lists a' = <[c_zombies k := []]> (<[c_runqueue k := ts']> (lists a)) → k_held s' = ∅ → Q (Some n) s') →
  wp C switch_idle Q no_err s.
Proof.
  intros Hk Hh Hc Hi Hts Hzs H1 H2. unfold switch_idle. apply wp_bind. wp_step. cbn beta.
  kstep (get_cpu_eq _ _ _ Hc). kstep (spin_acquire_eq _ (c_runqueue_lock k)); [set_solver|].
  rewrite Hh, union_empty_l_L.
  eapply (switch_next_wp L R C _ a k ts zs); [by apply kinv_held|done..|cbn; set_solver| |].
  - intros Hnil s' Hk' [] Hth _ Hh'. apply H1; try done. rewrite Hh'. cbn. set_solver.
  - intros n ts' s' a' He Hk' Hr Hl _. apply (H2 n ts' s' a' He Hk' Hr Hl).
    rewrite (proj1 (proj2 Hr)). cbn. set_solver.
Qed.

(** The wait channel whose list an operation changes, and the thread that it
    takes off the processor for more than a while. *)
Definition touches (o : kop) (s : kstate) (l : Z) : Prop :=
  match o with
  | OpSleep wc _ | OpWakeone wc _ | OpWakeall wc _ => l = wc
  | OpFork _ _ _ _ | OpExit => l = thread_count_wchan s
  | _ => False
  end.

Definition leaves (o : kop) (s : kstate) (t : Z) : Prop :=
  match o with
  | OpSleep _ _ | OpExit => (c_curthread <$> k_cpus s !! curcpu s) = Some t
  | _ => False
  end.

Record calm (o : kop) (s : kstate) (a : tlabs) (s' : kstate) (a' : tlabs) : Prop := {
  cm_inv : kinv ∅ s' a';
  cm_held : k_held s' = ∅;
  cm_lists l : R !! l = Some Wchan → ¬ touches o s l → lists a' !! l = lists a !! l;
  cm_awake t x : k_threads s !! t = Some x → awake x → ¬ leaves o s t →
    ∃ x', k_threads s' !! t = Some x' ∧ awake x';
}.

Lemma calm_same o s a s' :
  kinv ∅ s' a → k_held s' = ∅ → k_threads s' = k_threads s → calm o s a s' a.
Proof. intros Hk Hh Hth. split; [done..|]. intros t x Hx Haw _. exists x. by rewrite Hth. Qed.

Lemma calm_switched o s s1 a k st wc lk n s' a' :
  kinv ∅ s1 a → k_cpus s1 !! curcpu s1 = Some k → switched L R s1 a k st wc lk n s' a' →
  k_threads s1 = k_threads s → k_held s' = ∅ →
  (st = S_SLEEP → touches o s wc) →
  (st = S_READY ∨ leaves o s (c_curthread k)) → calm o s a s' a'.
Proof.
  intros Hk Hc Hsw Hth Hh Ht Hl. split; [|done| |].
  - by destruct (switched_inv _ _ _ _ _ _ _ _ _ _ _ Hsw).
  - intros l HR Hnt. eapply switched_wchans; [done..|]. intros Hst ->. by apply Hnt, Ht.
  - intros t x Hx Haw Hnl. eapply switched_awake; [done| |by rewrite Hth|done].
    destruct Hl as [->|Hl]; [by left|right]. by intros ->.
Qed.

Lemma calm_wakeone s a wc lk t ws s' x k c :
  kinv ∅ s a → k_held s = ∅ → lists a !! wc = Some (t :: ws) → k_threads s !! t = Some x →
  k_cpus s !! c = Some k → kinv ∅ s' (abs_wake wc t ws (c_runqueue k) a) → keeps s s' →
  k_threads s' = <[t := with_state S_READY x]> (k_threads s) →
  calm (OpWakeone wc lk) s a s' (abs_wake wc t ws (c_runqueue k) a).
Proof.
  intros Hk Hh Hws Hx Hc Hk' Hkp Hth. split; [done|by rewrite (kp_held _ _ Hkp)| |].
  - intros l HR Hnt. destruct (ki_cpu _ _ _ _ _ Hk _ _ Hc) as (HRq & _). cbn in Hnt.
    unfold abs_wake. cbn. rewrite !lookup_insert_ne; congruence.
  - intros t' y Hy Haw _. rewrite Hth. destruct (decide (t = t')) as [<-|Hne].
    + rewrite lookup_insert_eq. eexists. split; [done|by right].
    + rewrite lookup_insert_ne by done. by exists y.
Qed.

Lemma calm_fork s a k t p nl mem stack proc s' a' :
  k_held s = ∅ → k_threads s !! t = None → forked L R s a k t p s' a' →
  is_Some (lists a !! thread_count_wchan s) →
  calm (OpFork nl mem stack proc) s a s' a'.
Proof.
  intros Hh Ht Hf [ws Hws]. split; [apply Hf| | |].
  - by rewrite (ca_held _ _ (fk_carries _ _ _ _ _ _ _ _ _ Hf)).
  - intros l HR Hnt. by apply (fk_wchans _ _ _ _ _ _ _ _ _ Hf).
  - intros t' x Hx Haw _. rewrite (fk_old _ _ _ _ _ _ _ _ _ Hf ws t' Hws), Hx by congruence.
    cbn. case_decide; eexists; (split; [done|]); [by right|done].
Qed.

Lemma calm_migrate s a k rs s' a' :
  kinv ∅ s a → k_held s = ∅ → k_cpus s !! curcpu s = Some k →
  migrated L R (share_of s a) k rs s a s' a' → calm OpMigrate s a s' a'.
Proof.
  intros Hk Hh Hc Hm. split; [apply Hm|by rewrite (kp_held _ _ (mg_keeps _ _ _ _ _ _ _ _ _ Hm))| |].
  - intros l HR _. destruct (proj2 (ki_dom _ _ _ _ _ Hk l)) as [ts Hts]; [by eexists|].
    destruct (ki_cpu _ _ _ _ _ Hk _ _ Hc) as (HRq & _).
    destruct (mg_others _ _ _ _ _ _ _ _ _ Hm l ts) as (ts' & Hts' & _ & [->|(c & Hrq)]); [congruence|done| |].
    + congruence.
    + congruence.
  - intros t x Hx Haw _. pose proof (mg_threads _ _ _ _ _ _ _ _ _ Hm t) as Ht. rewrite Hx in Ht.
    inversion Ht as [? x' [c ->] Heq1 Heq2|]; subst. by exists (with_cpu c x).
Qed.

Lemma calm_unidle s a k n zs s' a' ts :
  kinv ∅ s a → k_cpus s !! curcpu s = Some k → lists a !! c_zombies k = Some zs →
  kinv ∅ s' a' → runs_on (set_held {[c_runqueue_lock k]} s) s' k n zs →
  lists a' = <[c_zombies k := []]> (<[c_runqueue k := ts]> (lists a)) → k_held s' = ∅ →
  calm OpUnidle s a s' a'.
Proof.
  intros Hk Hc Hzs Hk' (_ & _ & _ & Hth) Hl Hh. destruct (ki_cpu _ _ _ _ _ Hk _ _ Hc) as (HRq & HRz & _).
  split; [done|done| |].
  - intros l HR _. rewrite Hl, !lookup_insert_ne; congruence.
  - intros t x Hx Haw _. rewrite Hth. cbn. rewrite Hx, decide_False.
    + cbn. case_decide; eexists; (split; [done|]); [by left|done].
    + intros Ht. assert (Ho : on a (c_zombies k) t) by (by exists zs).
      destruct (kinv_state _ _ ∅ s a _ t x _ Hk Ho Hx (not_elem_of_empty _) HRz) as (Hz & _).
      destruct Haw; congruence.
Qed.

Lemma run_op_wp o s a :
  kinv ∅ s a → k_held s = ∅ → op_ok o s →
  wp no_crash (run_op o) (λ _ s', ∃ a', calm o s a s' a') (λ e s', e = ENOMEM ∧ ∃ a', calm o s a s' a') s.
Proof.
  intros Hk Hh Hok.
  assert (Hno : ∀ m : M kstate unit, wp no_crash m (λ _ s', ∃ a', calm o s a s' a') no_err s →
    wp no_crash m (λ _ s', ∃ a', calm o s a s' a') (λ e s', e = ENOMEM ∧ ∃ a', calm o s a s' a') s).
  { intros m Hm. eapply wp_mono; [exact Hm|done..]. }
  destruct (ki_curcpu _ _ _ _ _ Hk) as [k Hc]. destruct (kinv_runqueue _ _ _ _ _ _ _ Hk Hc) as (rs & Hrs).
  destruct o as [c| |wc lk|wc lk|wc lk|namelen mem stack proc| | |]; cbn [op_ok] in Hok.
  - apply Hno. cbn [run_op]. wps. exists a. apply calm_same; [by apply kinv_turn|done..].
  - apply Hno. cbn [run_op]. apply wp_bind. eapply (yield_wp _ s a k rs); try done.
    + intros _. wps. exists a. by apply calm_same.
    + intros _ _ s' Hk' Hkp Hth. wps. exists a. apply calm_same; [done|by rewrite (kp_held _ _ Hkp)|done].
    + intros o s' a' _ Hsw. wps. exists a'. eapply calm_switched; try done; [|by left].
      destruct (switched_inv _ _ _ _ _ _ _ _ _ _ _ Hsw) as (_ & _ & ->). done.
  - destruct Hok as (HR & HL & k0 & x & Hrun & Hint). apply Hno. eapply sleep_wp; [done..|].
    destruct Hrun as (Hc0 & _). intros o s' a' Hsw. exists a'.
    eapply calm_switched; [by apply kinv_held|exact Hc0|exact Hsw|done| |done|right; cbn; by rewrite Hc0].
    destruct (switched_inv _ _ _ _ _ _ _ _ _ _ _ Hsw) as (_ & _ & ->). cbn. set_solver.
  - destruct Hok as (HR & HL). destruct (list_of_wchan _ _ _ _ Hk HR) as (ws & Hws). apply Hno.
    eapply wakeone_wp; [done..| |].
    + intros _ s' Hk' Hkp Hth. exists a. apply calm_same; [done|by rewrite (kp_held _ _ Hkp)|done].
    + intros t ws' s' x c k0 -> Hx Hxc Hc0 Hk' Hkp Hth. eexists. by eapply calm_wakeone.
  - destruct Hok as (HR & HL). destruct (list_of_wchan _ _ _ _ Hk HR) as (ws & Hws). apply Hno.
    eapply wakeall_wp; [done..|]. intros s' a' Hk' Hw Hkp Hrd. exists a'.
    split; [done|by rewrite (kp_held _ _ Hkp)| |].
    + intros l HRl Hnt. by eapply woken_wchan.
    + intros t x Hx Haw _. rewrite Hrd, Hx. cbn. case_decide; eexists; (split; [done|]); [by right|done].
  - destruct Hok as (Hnl & Hm & k0 & x & p & (Hc0 & Hi0 & Hx0) & Hp & Hpr).
    eapply (thread_fork_wp L R _ s a k0 x _ _ _ _ p); try done.
    + intros t s' a' _ Hmem _ Hf. exists a'. eapply calm_fork; [done|by apply Hm|done|].
      apply (ki_dom _ _ _ _ _ Hk). destruct (ki_globals _ _ _ _ _ Hk) as (_ & -> & _). by eexists.
    + intros s' _ Hk' Hca Hth _. split; [done|]. exists a. apply calm_same; [done|by rewrite (ca_held _ _ Hca)|done].
  - destruct Hok as (k0 & x & p & (Hc0 & Hi0 & Hx0) & Hp). apply Hno. cbn [run_op]. apply wp_bind.
    eapply (thread_exit_wp L R _ s a k0 x p); try done. intros o s' a' Hex. wps. exists a'.
    split; [apply Hex..| |].
    + intros l HR Hnt. by apply (ex_wchans _ _ _ _ _ _ _ _ Hex).
    + intros t y Hy Haw Hnl. eapply (ex_awake _ _ _ _ _ _ _ _ Hex); [|done..].
      intros ->. apply Hnl. cbn. by rewrite Hc0.
  - apply Hno. eapply (thread_consider_migration_wp L R _ s a k rs); try done.
    intros s' a' Hm. exists a'. by eapply calm_migrate.
  - destruct Hok as (k0 & Hc0 & Hi0). rewrite Hc in Hc0. injection Hc0 as <-. apply Hno. cbn [run_op]. apply wp_bind.
    destruct (proj2 (ki_dom _ _ _ _ _ Hk (c_zombies k))) as [zs Hzs].
    { destruct (ki_cpu _ _ _ _ _ Hk _ _ Hc) as (_ & -> & _). by eexists. }
    eapply (unidle_wp _ s a k rs zs); try done.
    + intros _ s' Hk' _ Hth Hh'. wps. exists a. by apply calm_same.
    + intros n ts' s' a' _ Hk' Hr Hl Hh'. wps. exists a'. by eapply calm_unidle.
Qed.

(** A thread that sleeps is the last one on the channel. *)
Lemma switched_sleep s a k wc lk n s' a' ws :
  kinv ∅ s a → k_cpus s !! curcpu s = Some k → R !! wc = Some Wchan → lists a !! wc = Some ws →
  switched L R s a k S_SLEEP wc lk n s' a' → lists a' !! wc = Some (ws ++ [c_curthread k]).
Proof.
  intros Hk Hc HR Hws Hsw. destruct (ki_cpu _ _ _ _ _ Hk _ _ Hc) as (HRq & HRz & _).
  destruct Hsw as [x qs s1 a1 _ Hqs -> _ _|x qs s1 s2 a1 a2 j m ts zs _ Hqs -> _ _ _ _ _ -> _ _];
    cbn in *; rewrite Hws in Hqs; injection Hqs as <-.
  - by rewrite lookup_insert_eq.
  - rewrite !lookup_insert_ne by congruence. by rewrite lookup_insert_eq.
Qed.

Lemma run_op_sys o s :
  sys_inv s → op_ok o s →
  match run_op o s with Ok _ s' => sys_inv s' | Err e s' => e = ENOMEM ∧ sys_inv s' | Crash _ => False end.
Proof.
  intros (Hh & a & Hk) Hok. pose proof (run_op_wp o s a Hk Hh Hok) as Hw. unfold wp in Hw.
  destruct (run_op o s); [|destruct Hw as (-> & Hw); split; [done|]|done];
    destruct Hw as (a' & Hcm); (split; [apply Hcm|by exists a'; apply Hcm]).
Qed.

(** The states that a sequence of operations leads to, whether they succeed or
    report that there is no memory. *)
Inductive reach (s0 : kstate) : kstate → Prop :=
  | reach_start : reach s0 s0
  | reach_ok s o s' : reach s0 s → op_ok o s → run_op o s = Ok tt s' → reach s0 s'
  | reach_err s o e s' : reach s0 s → op_ok o s → run_op o s = Err e s' → reach s0 s'.

Lemma reach_inv s0 s : sys_inv s0 → reach s0 s → sys_inv s.
Proof.
  intros H0. induction 1 as [|s o s' _ IH Hok Hr|s o e s' _ IH Hok Hr]; [done|..];
    pose proof (run_op_sys o s IH Hok) as Hw; rewrite Hr in Hw; [done|by destruct Hw].
Qed.

(** *** The order on a wait channel *)

(** The threads [ts] sleep on the channel [wc] of a system in good order. *)
Definition sleepers (s : kstate) (wc : Z) (ts : list Z) : Prop :=
  k_held s = ∅ ∧ ∃ a, kinv ∅ s a ∧ lists a !! wc = Some ts.

Definition sleeping (s : kstate) (t : Z) : bool :=
  match k_threads s !! t with Some x => bool_decide (t_state x = S_SLEEP) | None => false end.

(** The threads that slept in [s] and do not sleep in [s']. *)
Definition woke (s s' : kstate) : list Z :=
  filter (λ t, sleeping s t = true ∧ sleeping s' t = false) (elements (dom (k_threads s))).

(** A run of the system with, for the channel [wc], the threads that went to
    sleep on it and those that were woken, each in the order of time. *)
Inductive wtrace (wc : Z) (s0 : kstate) : list Z → list Z → kstate → Prop :=
  | wt_start : wtrace wc s0 [] [] s0
  | wt_sleep slept woken s lk k x s' :
      wtrace wc s0 slept woken s → op_ok (OpSleep wc lk) s → running s k x →
      run_op (OpSleep wc lk) s = Ok tt s' → wtrace wc s0 (slept ++ [c_curthread k]) woken s'
  | wt_wake slept woken s lk s' :
      wtrace wc s0 slept woken s → op_ok (OpWakeone wc lk) s →
      run_op (OpWakeone wc lk) s = Ok tt s' → wtrace wc s0 slept (woken ++ woke s s') s'
  | wt_other slept woken s o s' :
      wtrace wc s0 slept woken s → op_ok o s → ¬ touches o s wc →
      (run_op o s = Ok tt s' ∨ ∃ e, run_op o s = Err e s') → wtrace wc s0 slept woken s'.

Lemma woke_same s s' : k_threads s' = k_threads s → woke s s' = [].
Proof.
  intros Hth. unfold woke, sleeping. rewrite Hth. induction (elements _) as [|t l IH]; [done|].
  rewrite filter_cons_False; [done|]. by intros [-> ?].
Qed.

Lemma woke_one s s' t x :
  k_threads s !! t = Some x → t_state x = S_SLEEP →
  k_threads s' = <[t := with_state S_READY x]> (k_threads s) → woke s s' = [t].
Proof.
  intros Hx Hst Hth. apply list.Permutation_singleton_r, list.NoDup_Permutation.
  - apply list.NoDup_filter, NoDup_elements.
  - apply list.NoDup_singleton.
  - intros u. unfold woke, sleeping. rewrite list_elem_of_filter, elem_of_elements, elem_of_dom, list_elem_of_singleton, Hth.
    split.
    + intros [[H1 H2] _]. destruct (decide (u = t)) as [|Hne]; [done|].
      rewrite lookup_insert_ne in H2 by done. congruence.
    + intros ->. rewrite lookup_insert_eq, Hx, bool_decide_true by done. by split; [|eexists].
Qed.

Lemma wakeone_woke s a wc lk ws :
  kinv ∅ s a → k_held s = ∅ → R !! wc = Some Wchan → L !! lk = Some LWchan → lists a !! wc = Some ws →
  wp no_crash (run_op (OpWakeone wc lk)) (λ _ s', woke s s' = take 1 ws ∧
    k_held s' = ∅ ∧ ∃ a', kinv ∅ s' a' ∧ lists a' !! wc = Some (tail ws)) no_err s.
Proof.
  intros Hk Hh HR HL Hws. eapply wakeone_wp; [done..| |].
  - intros -> s' Hk' Hkp Hth. split; [by apply woke_same|]. split; [by rewrite (kp_held _ _ Hkp)|]. by exists a.
  - intros t ws' s' x c k -> Hx Hxc Hc Hk' Hkp Hth.
    destruct (ki_cpu _ _ _ _ _ Hk _ _ Hc) as (HRq & _). split; [|split; [by rewrite (kp_held _ _ Hkp)|]].
    + eapply woke_one; [done| |done].
      apply (kinv_state _ _ ∅ s a wc t x Wchan Hk); [|done|set_solver|done].
      exists (t :: ws'). split; [done|set_solver].
    + eexists. split; [done|]. unfold abs_wake. cbn. rewrite lookup_insert_ne by congruence.
      apply lookup_insert_eq.
Qed.

Lemma wtrace_inv wc s0 slept woken s :
  R !! wc = Some Wchan → sleepers s0 wc [] → wtrace wc s0 slept woken s →
  ∃ rest, slept = woken ++ rest ∧ sleepers s wc rest.
Proof.
  intros HR H0. induction 1 as [|slept woken s lk k x s' _ IH Hok Hrun Hr
    |slept woken s lk s' _ IH Hok Hr|slept woken s o s' _ IH Hok Hnt Hr].
  - by exists [].
  - destruct IH as (rest & -> & Hh & a & Hk & Hws). destruct Hok as (_ & HL & k1 & x1 & Hrun1 & Hint).
    assert (k1 = k) as -> by (destruct Hrun, Hrun1; congruence).
    pose proof (sleep_wp no_crash s a k x1 wc lk (λ _ s', k_held s' = ∅ ∧ ∃ a', kinv ∅ s' a' ∧
      lists a' !! wc = Some (rest ++ [c_curthread k])) Hk Hh Hrun1 Hint HR HL) as Hw.
    unfold wp in Hw. rewrite Hr in Hw. destruct Hw as (Hh' & a' & Hk' & Hl').
    + intros o s1 a1 Hsw. destruct (switched_inv _ _ _ _ _ _ _ _ _ _ _ Hsw) as (Hk1 & _ & ->).
      split; [cbn; set_solver|]. exists a1. split; [done|].
      eapply (switched_sleep (set_held {[lk]} s)); [by apply kinv_held|apply Hrun1|done|done|done].
    + exists (rest ++ [c_curthread k]). rewrite app_assoc. split; [done|]. split; [done|]. by exists a'.
  - destruct IH as (rest & -> & Hh & a & Hk & Hws). destruct Hok as (_ & HL).
    pose proof (wakeone_woke s a wc lk rest Hk Hh HR HL Hws) as Hw. unfold wp in Hw. rewrite Hr in Hw.
    destruct Hw as (-> & Hh' & a' & Hk' & Hl'). exists (tail rest).
    split; [|split; [done|by exists a']]. rewrite <-app_assoc. f_equal. by destruct rest.
  - destruct IH as (rest & -> & Hh & a & Hk & Hws). pose proof (run_op_wp o s a Hk Hh Hok) as Hw.
    assert (Hcm : ∃ a', calm o s a s' a').
    { unfold wp in Hw. destruct Hr as [Hr|[e Hr]]; rewrite Hr in Hw; [done|by destruct Hw]. }
    destruct Hcm as (a' & Hcm). exists rest. split; [done|]. split; [apply Hcm|]. exists a'. split; [apply Hcm|].
    by rewrite (cm_lists _ _ _ _ _ Hcm).
Qed.

(** The processor runs [q] and has the threads [qs] on its queue. *)
Definition queued (s : kstate) (q : Z) (qs : list Z) : Prop :=
  k_held s = ∅ ∧ ∃ a k, kinv ∅ s a ∧ k_cpus s !! curcpu s = Some k ∧ c_isidle k = false ∧
    c_curthread k = q ∧ lists a !! c_runqueue k = Some qs.

Lemma yield_rotates s q qs :
  queued s q qs →
  wp no_crash thread_yield (λ _ s', curcpu s' = curcpu s ∧ ∃ q' qs', queued s' q' qs' ∧ q' :: qs' = qs ++ [q])
    no_err s.
Proof.
  intros (Hh & a & k & Hk & Hc & Hi & Hq & Hqs). eapply (yield_wp _ s a k qs); try done.
  - congruence.
  - intros _ -> s' Hk' Hkp _. split; [by destruct Hkp|]. exists q, []. split; [|done].
    split; [by rewrite (kp_held _ _ Hkp)|]. destruct (kp_cpus _ _ Hkp _ _ Hc) as (n & Hn).
    exists a, (with_ipi n k). by rewrite (kp_curcpu _ _ Hkp).
  - intros o s' a' _ Hsw. destruct (switched_inv _ _ _ _ _ _ _ _ _ _ _ Hsw) as (_ & Hg & Hh').
    split; [by destruct Hg|].
    destruct Hsw as [x rs s1 a1 _ Hrs -> Hnil _|x rs s1 s2 a1 a2 j n ts zs _ Hrs -> Hn _ Hp Hk2 Hr Hl _ _];
      cbn [park_list] in *; rewrite Hqs in Hrs; injection Hrs as <-.
    { cbn in Hnil. rewrite lookup_insert_eq in Hnil. by destruct qs. }
    cbn [abs_insert lists] in Hn. rewrite lookup_insert_eq in Hn. injection Hn as Hn.
    exists n, ts. rewrite <-Hq. split; [|done]. split; [by rewrite Hh'|].
    destruct Hr as (Hg2 & _ & (j' & Hj') & _). exists a2. eexists. split; [done|].
    rewrite (sg_curcpu _ _ Hg2). split; [exact Hj'|]. split; [done|]. split; [done|].
    rewrite Hl. cbn. rewrite lookup_insert_ne, lookup_insert_eq; [done|].
    destruct (ki_cpu _ _ _ _ _ Hk _ _ Hc) as (HR1 & HR2 & _). congruence.
Qed.

Fixpoint yields (n : nat) : M kstate unit :=
  match n with
  | O => ret tt
  | S n => thread_yield ;;; yields n
  end.

Lemma yields_rotate n s q qs :
  queued s q qs →
  wp no_crash (yields n) (λ _ s', curcpu s' = curcpu s ∧ ∃ q' qs', queued s' q' qs' ∧
    q' :: qs' = Nat.iter n (λ l, tail l ++ option_list (head l)) (q :: qs)) no_err s.
Proof.
  revert s q qs. induction n as [|n IH]; intros s q qs Hq; cbn [yields].
  { wps. split; [done|]. by exists q, qs. }
  apply wp_bind. wp_call (yield_rotates _ _ _ Hq); [|done|done]. cbn beta.
  intros _ s1 (Hc1 & q1 & qs1 & Hq1 & He1). wp_call (IH _ _ _ Hq1); [|done|done]. cbn beta.
  intros _ s2 (Hc2 & q2 & qs2 & Hq2 & He2). split; [congruence|]. exists q2, qs2. split; [done|].
  rewrite He2, He1, Nat.iter_succ_r. done.
Qed.

Lemma rotate_lookup {A} n (l : list A) x :
  l !! n = Some x → head (Nat.iter n (λ l, tail l ++ option_list (head l)) l) = Some x.
Proof.
  revert l. induction n as [|n IH]; intros l Hl; [by destruct l|].
  rewrite Nat.iter_succ_r. destruct l as [|y l]; [done|]. apply IH. cbn in *.
  rewrite lookup_app_l; [done|]. by apply lookup_lt_Some in Hl.
Qed.

(** C8: Yielding is fair: the thread at position [i] of the row that the running
    thread and the run queue make up runs after [i] yields. *)
Theorem yield_round_robin s q qs i t :
  queued s q qs → (q :: qs) !! i = Some t →
  ∃ s' qs', yields i s = Ok tt s' ∧ curcpu s' = curcpu s ∧ queued s' t qs' ∧
    (q :: qs) ≡ₚ (t :: qs').
Proof.
  intros Hq Hi. destruct (wp_ok _ _ _ (yields_rotate i s q qs Hq)) as ([] & s' & Hy & Hc & q' & qs' & Hq' & He).
  exists s', qs'. pose proof (rotate_lookup _ _ _ Hi) as Hh. rewrite <-He in Hh. injection Hh as ->.
  split_and!; try done. rewrite He. clear. induction i as [|i IH]; [done|].
  etrans; [exact IH|]. clear IH. rewrite Nat.iter_succ. generalize (Nat.iter i (λ l, tail l ++ option_list (head l)) (q :: qs)).
  intros [|y l]; [reflexivity|]. cbn. by rewrite (Permutation_app_comm l).
Qed.

(** C7: In every state that the scheduler reaches, every thread is in the one place
    that its state names, and no operation that is called as it may be panics,
    fails an assertion, waits for a spinlock that the processor holds itself or
    runs on without end; the only error there is is [ENOMEM].  Operations are
    not interleaved inside, and as it may be excludes a name of exactly
    [MAX_NAME_LENGTH] characters for a new thread, which overruns [t_name]. *)
Theorem scheduler_safe s0 s :
  sys_inv s0 → reach s0 s →
  (∃ a, tl_repr (k_tl s) a ∧
     ∀ t x, k_threads s !! t = Some x → located R s a t x ∧
       (∀ l l', on a l t → on a l' t → l = l') ∧ (t ∈ unlinked a → ∀ l, ¬ on a l t)) ∧
  (∀ o, op_ok o s → match run_op o s with Ok _ _ => True | Err e _ => e = ENOMEM | Crash _ => False end).
Proof.
  intros H0 Hr. pose proof (reach_inv _ _ H0 Hr) as Hs. split.
  - destruct Hs as (_ & a & Hk). exists a. pose proof (repr_wf _ _ (ki_tl _ _ _ _ _ Hk)) as Hw.
    split; [apply Hk|]. intros t x Hx. split_and!.
    + by apply (ki_located _ _ _ _ _ Hk).
    + intros l l' (ts & Hl & Ht) (ts' & Hl' & Ht'). by eapply (wf_disjoint _ Hw).
    + intros Hu l (ts & Hl & Ht). by eapply (wf_unlinked _ Hw).
  - intros o Hok. pose proof (run_op_sys o s Hs Hok) as Hw.
    destruct (run_op o s); [done|by destruct Hw|done].
Qed.

(** C23: Threads wake up in the order in which they went to sleep.  From a state
    where nobody sleeps on a channel, for any sequence of operations that use it
    with [wchan_sleep] and [wchan_wakeone]: the threads that were woken so far
    are the first of those that went to sleep, in that order, the others are on
    the channel, and [wchan_wakeone] wakes the first of these, and only it. *)
Theorem wchan_fifo wc s0 slept woken s :
  R !! wc = Some Wchan → sleepers s0 wc [] → wtrace wc s0 slept woken s →
  ∃ rest, slept = woken ++ rest ∧ sleepers s wc rest ∧
    ∀ lk, L !! lk = Some LWchan → ∃ s', run_op (OpWakeone wc lk) s = Ok tt s' ∧ woke s s' = take 1 rest.
Proof.
  intros HR He Hw. destruct (wtrace_inv wc s0 slept woken s HR He Hw) as (rest & -> & Hsl).
  exists rest. split; [done|]. split; [done|]. intros lk HL. destruct Hsl as (Hh & a & Hk & Hr).
  destruct (wp_ok _ _ _ (wakeone_woke s a wc lk rest Hk Hh HR HL Hr)) as ([] & s' & Hrun & Hwk & _).
  by exists s'.
Qed.

(** C24: [wchan_wakeall] empties the channel: every thread that was on it is ready
    and at the end of the queue of its processor, in the order in which they
    waited. *)
Theorem wakeall_all s a wc lk ws :
  kinv ∅ s a → k_held s = ∅ → R !! wc = Some Wchan → L !! lk = Some LWchan → lists a !! wc = Some ws →
  ∃ s' a', run_op (OpWakeall wc lk) s = Ok tt s' ∧ kinv ∅ s' a' ∧ keeps s s' ∧
    (∀ l, lists a' !! l = if decide (l = wc) then Some []
                          else (λ ts, ts ++ filter (λ t, rq_of s t = l) ws) <$> lists a !! l) ∧
    (∀ t, k_threads s' !! t = (if decide (t ∈ ws) then with_state S_READY else id) <$> k_threads s !! t).
Proof.
  intros Hk Hh HR HL Hws.
  destruct (wp_ok (run_op (OpWakeall wc lk)) (λ _ s', ∃ a', kinv ∅ s' a' ∧ keeps s s' ∧
    woken wc ws (rq_of s) a a' ∧ readied ws (k_threads s) (k_threads s')) s)
    as ([] & s' & Hr & a' & Hk' & Hkp & [_ Hw] & Hrd); [|by exists s', a'].
  eapply wakeall_wp; [done..|]. intros s' a' Hk' Hw Hkp Hrd. by exists a'.
Qed.

(** C22: [thread_fork] with enough memory makes one new thread, ready at the end of
    the run queue of the processor and counted in its process; apart from the
    threads that waited for the count to change, no other thread changes.
    Without enough memory, or with a name longer than [MAX_NAME_LENGTH], it
    reports [ENOMEM] and leaves the threads as they were.  A name of exactly
    [MAX_NAME_LENGTH] characters passes the test of [thread_create] although
    with its end it does not fit [t_name]: that, and only that, is undefined. *)
Theorem thread_fork_spec s a k x namelen mem stack proc p :
  kinv ∅ s a → k_held s = ∅ → running s k x → fresh_mem s mem →
  (match proc with Some q => Some q | None => t_proc x end) = Some p → is_Some (k_procs s !! p) →
  match thread_fork namelen mem stack proc s with
  | Ok _ s' => ∃ t a', namelen < MAX_NAME_LENGTH ∧ mem = Some t ∧ stack = true ∧ forked L R s a k t p s' a'
  | Err e s' => e = ENOMEM ∧ (MAX_NAME_LENGTH < namelen ∨ mem = None ∨ stack = false) ∧
      kinv ∅ s' a ∧ k_threads s' = k_threads s ∧ thread_count s' = thread_count s
  | Crash c => c = CUndef ∧ namelen = MAX_NAME_LENGTH ∧ is_Some mem
  end.
Proof.
  intros Hk Hh (Hc & Hi & Hx) Hm Hp Hpr.
  apply (thread_fork_wp L R (λ c, c = CUndef ∧ namelen = MAX_NAME_LENGTH ∧ is_Some mem)
    s a k x namelen mem stack proc p
    (λ _ s', ∃ t a', namelen < MAX_NAME_LENGTH ∧ mem = Some t ∧ stack = true ∧ forked L R s a k t p s' a')
    (λ e s', e = ENOMEM ∧ (MAX_NAME_LENGTH < namelen ∨ mem = None ∨ stack = false) ∧
      kinv ∅ s' a ∧ k_threads s' = k_threads s ∧ thread_count s' = thread_count s)); try done.
  intros t s' a' Hnl Ht Hst Hf. by exists t, a'.
Qed.

(** [thread_exit] takes the thread out of its process and off the processor:
    it is a zombie while the processor idles, and gone once another thread
    runs. *)
Theorem thread_exit_spec s a k x p :
  kinv ∅ s a → k_held s = ∅ → running s k x → t_proc x = Some p →
  ∃ o s' a', thread_exit s = Ok (true, o) s' ∧ exited L R s a k o s' a'.
Proof.
  intros Hk Hh (Hc & Hi & Hx) Hp.
  destruct (wp_ok thread_exit (λ r s', ∃ a', r.1 = true ∧ exited L R s a k r.2 s' a') s)
    as ([b o] & s' & Hr & a' & Hb & He); [|cbn in *; subst; by exists o, s', a'].
  eapply thread_exit_wp; try done. intros o s' a' He. by exists a'.
Qed.

(** C21: Migration loses no thread: only the processor that a thread is for
    changes.  The first [share_of] threads of the own queue stay where they
    are, and no other list changes but for run queues, which do not grow beyond
    that share.  The operation is run as one step: other processors do not act
    between its critical sections. *)
Theorem migration_spec s a k rs :
  kinv ∅ s a → k_held s = ∅ → k_cpus s !! curcpu s = Some k → lists a !! c_runqueue k = Some rs →
  ∃ s' a', thread_consider_migration s = Ok tt s' ∧ migrated L R (share_of s a) k rs s a s' a'.
Proof.
  intros Hk Hh Hc Hrs.
  destruct (wp_ok thread_consider_migration (λ _ s', ∃ a', migrated L R (share_of s a) k rs s a s' a') s)
    as ([] & s' & Hr & a' & H); [|by exists s', a'].
  eapply thread_consider_migration_wp; try done. intros s' a' H. by exists a'.
Qed.
End system.

(** ** A machine

    Processor 1 runs thread 100 and has two more on its queue, processor 2
    runs thread 101; thread 103 sleeps. *)

Definition machine_lists : M threadlist unit :=
  threadlist_init 11 ;;; threadlist_init 12 ;;; threadlist_init 21 ;;; threadlist_init 22 ;;;
  threadlist_init 31 ;;; threadlist_init 32 ;;; threadlist_init 33 ;;;
  threadlistnode_init 100 ;;; threadlistnode_init 101 ;;; threadlistnode_init 102 ;;;
  threadlistnode_init 103 ;;; threadlistnode_init 104 ;;;
  threadlist_addtail 11 102 ;;; threadlist_addtail 33 103 ;;; threadlist_addtail 11 104.

Definition machine : kstate :=
  KState (match machine_lists tl_empty with Ok _ m => m | _ => tl_empty end)
    {[100 := Thread S_RUN (Some 1) (Some 5) false; 101 := Thread S_RUN (Some 2) (Some 5) false;
      102 := Thread S_READY (Some 1) (Some 5) false; 103 := Thread S_SLEEP (Some 2) (Some 5) false;
      104 := Thread S_READY (Some 1) (Some 5) false]}
    {[1 := KCpu 100 12 false 11 41 0 42; 2 := KCpu 101 22 false 21 43 0 44]}
    [1; 2] {[5 := KProc 5 47]} 1 ∅ 5 45 32 31.

Definition machine_locks : gmap Z lockrole :=
  {[41 := LRunq 1; 42 := LIpi 1; 43 := LRunq 2; 44 := LIpi 2; 45 := LWchan; 46 := LWchan; 47 := LProc 5]}.

Definition machine_roles : gmap Z role :=
  {[11 := RunQ 1; 12 := Zomb 1; 21 := RunQ 2; 22 := Zomb 2; 31 := Scratch; 32 := Wchan; 33 := Wchan]}.

Definition machine_abs : tlabs :=
  TLAbs {[11 := [102; 104]; 12 := []; 21 := []; 22 := []; 31 := []; 32 := []; 33 := [103]]} {[100; 101]}.

Lemma refines_wp {A} C (m : M threadlist A) Q E s v a' :
  refines (m s) v a' → (∀ s', tl_repr s' a' → Q v s') → wp C m Q E s.
Proof. intros (s' & Hm & Hr) HQ. unfold wp. rewrite Hm. by apply HQ. Qed.

Ltac by_cases H :=
  repeat (apply lookup_insert_Some in H as [[<- <-]|[_ H]]);
  try (apply lookup_singleton_Some in H as [<- <-]).

Lemma machine_repr : tl_repr (k_tl machine) machine_abs.
Proof.
  assert (Hw : wp no_crash machine_lists (λ _ m, tl_repr m machine_abs) no_err tl_empty).
  { pose proof tl_empty_repr as H. unfold machine_lists.
    do 7 (apply wp_bind; eapply refines_wp; [apply (init_refines _ _ _ H); vm_compute; by intros ? [=]|];
      clear H; intros ? H; cbn beta).
    do 5 (apply wp_bind; eapply refines_wp;
      [apply (node_init_refines _ _ _ H); [done|intros l ts Hl; cbn in Hl;
         repeat (apply lookup_insert_Some in Hl as [[_ <-]|[_ Hl]]); [set_solver..|by apply lookup_empty_Some in Hl]]|];
      clear H; intros ? H; cbn beta).
    do 2 (apply wp_bind; eapply refines_wp;
      [apply (addtail_refines _ _ H); [vm_compute; reflexivity|apply (bool_decide_unpack _); by vm_compute]|];
      clear H; intros ? H; cbn beta).
    eapply refines_wp;
      [apply (addtail_refines _ _ H); [vm_compute; reflexivity|apply (bool_decide_unpack _); by vm_compute]|].
    clear H. intros ? H. match type of H with tl_repr _ ?a => replace machine_abs with a; [exact H|] end.
    by vm_compute. }
  unfold wp in Hw. unfold machine. cbn [k_tl]. by destruct (machine_lists tl_empty).
Qed.

Lemma on_machine l t : on machine_abs l t → (l = 11 ∧ (t = 102 ∨ t = 104)) ∨ (l = 33 ∧ t = 103).
Proof.
  intros (ts & Hl & Ht). cbn in Hl. by_cases Hl; set_solver.
Qed.

Lemma machine_inv : kinv machine_locks machine_roles ∅ machine machine_abs.
Proof.
  split.
  - exact machine_repr.
  - intros l. rewrite <-!elem_of_dom. by vm_compute (dom _).
  - intros c k Hk. cbn in Hk. by_cases Hk; by vm_compute.
  - intros c. rewrite <-elem_of_dom. unfold machine. cbn [allcpus k_cpus]. set_solver.
  - repeat constructor; set_solver.
  - by eexists.
  - by vm_compute.
  - intros t x Hx _. cbn in Hx. by_cases Hx; cbn.
    + split; [set_solver|]. by eexists 1, _.
    + split; [set_solver|]. by eexists 2, _.
    + exists 11, 1. split; [|done]. exists [102; 104]. split; [done|set_solver].
    + exists 33. split; [|done]. exists [103]. split; [done|set_solver].
    + exists 11, 1. split; [|done]. exists [102; 104]. split; [done|set_solver].
  - intros t x Hx. cbn in Hx. by_cases Hx; cbn; eexists; (split; [done|]); by eexists.
  - intros t [Ht|[l Hl%on_machine]].
    + cbn in Ht. assert (t = 100 ∨ t = 101) as [-> | ->] by set_solver; by eexists.
    + destruct Hl as [[_ [-> | ->]]|[_ ->]]; by eexists.
  - intros c k Hk _. cbn in Hk. right. by_cases Hk; by eexists.
  - intros p pr Hp. cbn in Hp. by_cases Hp; by vm_compute.
  - intros t x p Hx Hp. cbn in Hx. by_cases Hx; injection Hp as <-; by eexists.
  - intros t x Hx. cbn in Hx. by_cases Hx; by vm_compute.
Qed.

Lemma machine_sys : sys_inv machine_locks machine_roles machine.
Proof. split; [done|]. exists machine_abs. exact machine_inv. Qed.

Lemma scheduler_safe_witness :
  ∃ s, reach machine_locks machine_roles machine s ∧ curcpu s = 2 ∧
    op_ok machine_locks machine_roles OpExit s ∧
    match run_op OpExit s with Ok _ _ => True | Err e _ => e = ENOMEM | Crash _ => False end.
Proof.
  assert (Hr : reach machine_locks machine_roles machine (set_curcpu 2 machine)).
  { apply (reach_ok _ _ _ machine (OpTurn 2)); [constructor|by eexists|done]. }
  assert (Hok : op_ok machine_locks machine_roles OpExit (set_curcpu 2 machine)).
  { eexists _, _, 5. split; [split; [|split]; vm_compute; reflexivity|done]. }
  exists (set_curcpu 2 machine). split_and!; [done..|].
  exact (proj2 (scheduler_safe machine_locks machine_roles machine _ machine_sys Hr) OpExit Hok).
Defined.

Lemma yield_round_robin_witness :
  ∃ s' qs', yields 2 machine = Ok tt s' ∧ curcpu s' = 1 ∧
    queued machine_locks machine_roles s' 104 qs' ∧ [100; 102; 104] ≡ₚ 104 :: qs'.
Proof.
  apply (yield_round_robin machine_locks machine_roles machine 100 [102; 104] 2 104); [|done].
  split; [done|]. eexists machine_abs, _. split_and!; [exact machine_inv|vm_compute; reflexivity|done..].
Defined.

(** The channel 33 is empty; threads 100 and 102 go to sleep there, and one of
    them is woken. *)
Definition after_op (o : kop) (s : kstate) : kstate := match run_op o s with Ok _ s' => s' | _ => s end.

Lemma after_op_wp o s (Q : unit → kstate → Prop) : wp no_crash (run_op o) Q no_err s → Q tt (after_op o s).
Proof. unfold wp, after_op. by destruct (run_op o s) as [[]| |]. Qed.

Lemma machine_slept : sleepers machine_locks machine_roles (after_op (OpWakeone 33 46) machine) 33 [].
Proof.
  apply (after_op_wp (OpWakeone 33 46) machine (λ _ s, sleepers machine_locks machine_roles s 33 [])).
  eapply wp_mono; [exact (wakeone_woke machine_locks machine_roles machine machine_abs 33 46 [103] machine_inv
    eq_refl eq_refl eq_refl eq_refl)| |done|done].
  intros [] s (_ & Hh & a' & Hk & Hl). split; [exact Hh|]. by exists a'.
Qed.

Lemma wchan_fifo_witness :
  let s0 := after_op (OpWakeone 33 46) machine in
  let s1 := after_op (OpSleep 33 46) (after_op (OpSleep 33 46) s0) in
  let s2 := after_op (OpWakeone 33 46) s1 in
  woke s1 s2 = [100] ∧
  ∃ rest, [100; 102] = [100] ++ rest ∧ sleepers machine_locks machine_roles s2 33 rest ∧
    ∀ lk, machine_locks !! lk = Some LWchan →
      ∃ s', run_op (OpWakeone 33 lk) s2 = Ok tt s' ∧ woke s2 s' = take 1 rest.
Proof.
  intros s0 s1 s2. assert (Hwk : woke s1 s2 = [100]) by (vm_compute; reflexivity). split; [exact Hwk|].
  apply (wchan_fifo machine_locks machine_roles 33 s0).
  - reflexivity.
  - exact machine_slept.
  - change [100] with ([] ++ [100]). rewrite <-Hwk. apply (wt_wake _ _ _ _ _ _ _ 46).
    + change [100; 102] with (([] ++ [100]) ++ [102]).
      eapply (wt_sleep _ _ 33 s0 [100] [] (after_op (OpSleep 33 46) s0) 46 (KCpu 102 12 false 11 41 0 42)).
      * eapply (wt_sleep _ _ 33 s0 [] [] s0 46 (KCpu 100 12 false 11 41 0 42)).
        -- apply wt_start.
        -- split; [reflexivity|]. split; [reflexivity|]. eexists _, (Thread S_RUN (Some 1) (Some 5) false).
        split; [split_and!; vm_compute; reflexivity|reflexivity].
        -- split_and!; vm_compute; reflexivity.
        -- vm_compute; reflexivity.
      * split; [reflexivity|]. split; [reflexivity|]. eexists _, (Thread S_RUN (Some 1) (Some 5) false).
        split; [split_and!; vm_compute; reflexivity|reflexivity].
      * split_and!; vm_compute; reflexivity.
      * vm_compute; reflexivity.
    + by split.
    + vm_compute; reflexivity.
Defined.

Lemma wakeall_all_witness :
  ∃ s', run_op (OpWakeall 33 46) machine = Ok tt s' ∧
    k_threads s' !! 103 = Some (Thread S_READY (Some 2) (Some 5) false).
Proof.
  destruct (wakeall_all machine_locks machine_roles machine machine_abs 33 46 [103])
    as (s' & a' & Hr & _ & _ & _ & Ht); [exact machine_inv|done..|].
  exists s'. split; [done|]. by rewrite Ht.
Defined.

Lemma machine_running :
  running machine (KCpu 100 12 false 11 41 0 42) (Thread S_RUN (Some 1) (Some 5) false).
Proof. by split_and!. Qed.

Lemma thread_fork_spec_witness :
  (∃ s', thread_fork 4 (Some 105) true None machine = Ok tt s' ∧
     k_threads s' !! 105 = Some (Thread S_READY (Some 1) (Some 5) false)) ∧
  (∃ s', thread_fork 4 (Some 105) false None machine = Err ENOMEM s' ∧ k_threads s' = k_threads machine).
Proof.
  assert (Hm : fresh_mem machine (Some 105)) by (by intros t [= <-]).
  split.
  - pose proof (thread_fork_spec machine_locks machine_roles machine machine_abs _ _ 4 (Some 105) true None 5
      machine_inv eq_refl machine_running Hm eq_refl ltac:(by eexists)) as H.
    destruct (thread_fork 4 (Some 105) true None machine) as [[] s'|e s'|c];
      [|by destruct H as (_ & [?|[?|?]] & _)|by destruct H as (_ & ? & _)].
    destruct H as (t & a' & _ & [= <-] & _ & Hf). exists s'. split; [done|apply Hf].
  - pose proof (thread_fork_spec machine_locks machine_roles machine machine_abs _ _ 4 (Some 105) false None 5
      machine_inv eq_refl machine_running Hm eq_refl ltac:(by eexists)) as H.
    destruct (thread_fork 4 (Some 105) false None machine) as [[] s'|e s'|c];
      [by destruct H as (? & ? & _ & _ & ? & _)| |by destruct H as (_ & ? & _)].
    destruct H as (-> & _ & _ & Ht & _). by exists s'.
Defined.

Lemma thread_exit_spec_witness :
  ∃ o s', thread_exit machine = Ok (true, o) s' ∧ thread_count s' = 4 ∧ k_held s' = ∅.
Proof.
  destruct (thread_exit_spec machine_locks machine_roles machine machine_abs _ _ 5
    machine_inv eq_refl machine_running eq_refl) as (o & s' & a' & Hr & He).
  exists o, s'. split_and!; [done|apply He|apply He].
Defined.

Lemma migration_spec_witness :
  ∃ s' a', thread_consider_migration machine = Ok tt s' ∧
    (∃ rest, lists a' !! 11 = Some (102 :: rest)) ∧
    (∃ ts, lists a' !! 21 = Some ts ∧ topped 1 [] ts).
Proof.
  destruct (migration_spec machine_locks machine_roles machine machine_abs (KCpu 100 12 false 11 41 0 42) [102; 104]
    machine_inv eq_refl eq_refl eq_refl) as (s' & a' & Hr & Hm).
  assert (Hshare : share_of machine machine_abs = 1) by (by vm_compute). rewrite Hshare in Hm.
  exists s', a'. split_and!; [done|exact (mg_own _ _ _ _ _ _ _ _ _ Hm)|].
  destruct (mg_others _ _ _ _ _ _ _ _ _ Hm 21 []) as (ts & Hts & Hg & _); [done..|].
  exists ts. split; [exact Hts|exact Hg].
Defined.
