(* ===== verification/Synch.v ===== *)
(** * Semaphores and sleep locks

    [P] and [V] and the operations of locks of kern/thread/synch.c, on top of
    the wait channels and the scheduler of [Thread] and [Sched].  The two kinds
    of objects have the same shape, a count that is guarded by a spinlock and a
    wait channel, which is the class [Waitable]; the theorems are about any
    instance of it.

    A thread that has to wait in [P] stops inside [wchan_sleep]; [sy_wait]
    says for each such thread in which object it stopped, and it goes on from
    there when it runs again. *)

From S2P Require Import Prelude Threadlist Thread Sched.
Open Scope Z_scope.

(** ** Objects that threads wait for *)

Class Waitable (T : Type) := {
  w_wchan : T → Z;
  w_lock : T → Z;
  w_count : T → Z;
  w_set_count : Z → T → T;
  w_count_set n x : w_count (w_set_count n x) = n;
  w_wchan_set n x : w_wchan (w_set_count n x) = w_wchan x;
  w_lock_set n x : w_lock (w_set_count n x) = w_lock x;
}.

(** [struct semaphore] and [struct lock]. *)
Record semaphore := Semaphore { sem_wchan : Z; sem_lock : Z; sem_count : Z }.

Record lock := Lock { lock_thread : Z; lock_wchan : Z; lock_lock : Z; lock_count : Z }.

#[export] Program Instance semaphore_waitable : Waitable semaphore := {|
  w_wchan := sem_wchan; w_lock := sem_lock; w_count := sem_count;
  w_set_count n x := Semaphore (sem_wchan x) (sem_lock x) n;
|}.
Solve All Obligations with done.

#[export] Program Instance lock_waitable : Waitable lock := {|
  w_wchan := lock_wchan; w_lock := lock_lock; w_count := lock_count;
  w_set_count n x := Lock (lock_thread x) (lock_wchan x) (lock_lock x) n;
|}.
Solve All Obligations with done.

(** What was done to the objects, the latest first: thread [t] took object [o]
    or gave it back.  The code keeps no such log. *)
Inductive event := Took (t o : Z) | Gave (t o : Z).

Record sstate (T : Type) := SState {
  sy_k : kstate;
  sy_objs : gmap Z T;
  sy_wait : gmap Z Z;
  sy_log : list event;
}.
Arguments SState {T}.
Arguments sy_k {T}.
Arguments sy_objs {T}.
Arguments sy_wait {T}.
Arguments sy_log {T}.

Section ops.
Context {T : Type} `{!Waitable T}.

Definition set_k (k : kstate) (s : sstate T) : sstate T := SState k (sy_objs s) (sy_wait s) (sy_log s).
Definition set_obj (o : Z) (x : T) (s : sstate T) : sstate T :=
  SState (sy_k s) (<[o := x]> (sy_objs s)) (sy_wait s) (sy_log s).
Definition set_wait (w : gmap Z Z) (s : sstate T) : sstate T := SState (sy_k s) (sy_objs s) w (sy_log s).
Definition log (e : event) (s : sstate T) : sstate T :=
  SState (sy_k s) (sy_objs s) (sy_wait s) (e :: sy_log s).

Definition on_k {A} (m : M kstate A) : M (sstate T) A := zoom sy_k set_k m.
Definition get_obj (o : Z) : M (sstate T) T := s <- get ;; deref (sy_objs s !! o).

(** The loop of [P] and of [lock_acquire], from where the spinlock is taken to
    where the thread has the object or sleeps.  The last thing that
    [wchan_sleep] does when the thread runs again is to take the spinlock, so
    this is also how a thread goes on that slept. *)
Definition wait_loop (o : Z) : M (sstate T) bool :=
  x <- get_obj o ;; cur <- on_k curthread ;;
  on_k (spin_acquire (w_lock x)) ;;;
  if w_count x =? 0 then
    modify (λ s, set_wait (<[cur := o]> (sy_wait s)) s) ;;;
    on_k (wchan_sleep (w_wchan x) (w_lock x)) ;;;
    ret false
  else
    KASSERT (0 <? w_count x) ;;;
    modify (set_obj o (w_set_count (w_count x - 1) x)) ;;;
    on_k (spin_release (w_lock x)) ;;;
    modify (λ s, log (Took cur o) (set_wait (delete cur (sy_wait s)) s)) ;;;
    ret true.

(** [P] and [lock_acquire]; the result is whether the thread did not have to
    sleep. *)
Definition wait (o : Z) : M (sstate T) bool :=
  cur <- on_k curthread ;; t <- on_k (get_thread cur) ;;
  KASSERT (negb (t_in_interrupt t)) ;;;
  wait_loop o.

(** A thread that slept in [wait] runs again. *)
Definition resume : M (sstate T) bool :=
  cur <- on_k curthread ;; s <- get ;;
  o <- deref (sy_wait s !! cur) ;;
  wait_loop o.

(** [V] and [lock_release]. *)
Definition post (o : Z) : M (sstate T) unit :=
  x <- get_obj o ;; cur <- on_k curthread ;;
  on_k (spin_acquire (w_lock x)) ;;;
  let n := u32 (w_count x + 1) in
  modify (set_obj o (w_set_count n x)) ;;;
  KASSERT (0 <? n) ;;;
  on_k (wchan_wakeone (w_wchan x) (w_lock x)) ;;;
  on_k (spin_release (w_lock x)) ;;;
  modify (log (Gave cur o)).
End ops.

Definition P : Z → M (sstate semaphore) bool := wait.
Definition V : Z → M (sstate semaphore) unit := post.

(** [sem_create] with what [kmalloc], [kstrdup] and [wchan_create] return. *)
Definition sem_create (mem name wc : option Z) (initial_count : Z) (lk : Z) : option semaphore :=
  match mem with
  | None => None
  | Some _ =>
      match name with
      | None => None
      | Some _ => match wc with None => None | Some w => Some (Semaphore w lk initial_count) end
      end
  end.

Definition sem_destroy (o : Z) : M (sstate semaphore) unit :=
  x <- get_obj o ;;
  s <- get ;;
  KASSERT (bool_decide (sem_lock x ∉ k_held (sy_k s))) ;;;
  on_k (on_tl (threadlist_cleanup (sem_wchan x))) ;;;
  modify (λ s, SState (sy_k s) (delete o (sy_objs s)) (sy_wait s) (sy_log s)).

Definition lock_acquire : Z → M (sstate lock) bool := wait.
Definition lock_release : Z → M (sstate lock) unit := post.

Definition lock_create (mem name wc : option Z) (curthread lk : Z) : option lock :=
  match mem with
  | None => None
  | Some _ =>
      match name with
      | None => None
      | Some _ => match wc with None => None | Some w => Some (Lock curthread w lk 1) end
      end
  end.

Definition lock_destroy (o : Z) : M (sstate lock) unit :=
  x <- get_obj o ;;
  s <- get ;;
  KASSERT (bool_decide (lock_lock x ∉ k_held (sy_k s))) ;;;
  on_k (on_tl (threadlist_cleanup (lock_wchan x))) ;;;
  modify (λ s, SState (sy_k s) (delete o (sy_objs s)) (sy_wait s) (sy_log s)).

Definition lock_do_i_hold (o : Z) : M (sstate lock) bool :=
  x <- get_obj o ;;
  if lock_count x =? 1 then ret false
  else
    cur <- on_k curthread ;;
    ret (cur =? lock_thread x).

(** ** The system *)

Section system.
Context {T : Type} `{!Waitable T}.
Context (L : gmap Z lockrole) (R : gmap Z role).
#[local] Abbreviation kinv := (kinv L R).
#[local] Abbreviation sstate := (sstate T).

Inductive sop :=
  | SopK (k : kop)
  | SopWait (o : Z)
  | SopResume
  | SopPost (o : Z).

Definition run_sop (p : sop) : M sstate unit :=
  match p with
  | SopK k => on_k (run_op k)
  | SopWait o => wait o ;;; ret tt
  | SopResume => resume ;;; ret tt
  | SopPost o => post o
  end.

(** The thread that the processor runs, outside of interrupt handlers. *)
Definition runs (s : sstate) (t : Z) : Prop :=
  ∃ k x, running (sy_k s) k x ∧ c_curthread k = t ∧ t_in_interrupt x = false.

(** When each operation is called.  A thread that stopped inside [wait] does
    nothing before it has gone on there, other than lose the processor; the
    channels of the objects are used by nobody else; and a count is not
    increased beyond the range of its type. *)
Definition sop_ok (p : sop) (s : sstate) : Prop :=
  match p with
  | SopK k => op_ok L R k (sy_k s) ∧
      (∀ o x, sy_objs s !! o = Some x → ¬ touches k (sy_k s) (w_wchan x)) ∧
      (∀ t, leaves k (sy_k s) t → sy_wait s !! t = None)
  | SopWait o => is_Some (sy_objs s !! o) ∧ ∃ t, runs s t ∧ sy_wait s !! t = None
  | SopResume => ∃ t, runs s t ∧ is_Some (sy_wait s !! t)
  | SopPost o => ∃ x, sy_objs s !! o = Some x ∧ w_count x < 4294967295
  end.

(** The threads that stopped inside [wait] on object [o]. *)
Definition waiters (o : Z) (s : sstate) : gset Z := dom (filter (λ p, p.2 = o) (sy_wait s)).

Lemma elem_waiters o s t : t ∈ waiters o s ↔ sy_wait s !! t = Some o.
Proof.
  unfold waiters. rewrite elem_of_dom. split.
  - intros [o' [Ho He]%map_lookup_filter_Some]. cbn in He. congruence.
  - intros Ho. exists o. by apply map_lookup_filter_Some.
Qed.

Definition took (o : Z) (e : event) : bool :=
  match e with Took _ o' => o' =? o | Gave _ _ => false end.
Definition gave (o : Z) (e : event) : bool :=
  match e with Took _ _ => false | Gave _ o' => o' =? o end.
Definition tally (f : event → bool) (l : list event) : Z := Z.of_nat (length (filter (λ e, f e = true) l)).

(** The invariant: [init] is the count that each object started with. *)
Record syn_inv (init : Z → Z) (s : sstate) (a : tlabs) : Prop := {
  sy_inv : kinv ∅ (sy_k s) a;
  sy_held : k_held (sy_k s) = ∅;
  sy_obj o x : sy_objs s !! o = Some x →
    R !! w_wchan x = Some Wchan ∧ L !! w_lock x = Some LWchan ∧ is_u32 (w_count x);
  sy_distinct o o' x x' : sy_objs s !! o = Some x → sy_objs s !! o' = Some x' →
    w_wchan x = w_wchan x' → o = o';
  sy_waits t o : sy_wait s !! t = Some o → ∃ x y, sy_objs s !! o = Some x ∧
    k_threads (sy_k s) !! t = Some y ∧ (on a (w_wchan x) t ∨ awake y);
  sy_wchan o x t : sy_objs s !! o = Some x → on a (w_wchan x) t → sy_wait s !! t = Some o;
  sy_nolost o x ws : sy_objs s !! o = Some x → lists a !! w_wchan x = Some ws →
    ws = [] ∨ w_count x ≤ Z.of_nat (size (waiters o s ∖ list_to_set ws));
  sy_count o x : sy_objs s !! o = Some x →
    w_count x + tally (took o) (sy_log s) = init o + tally (gave o) (sy_log s);
}.

Definition started (init : Z → Z) (s : sstate) : Prop := ∃ a, syn_inv init s a.

Lemma obj_wchan init s a o x : syn_inv init s a → sy_objs s !! o = Some x → ∃ ws, lists a !! w_wchan x = Some ws.
Proof.
  intros Hs Ho. apply (ki_dom _ _ _ _ _ (sy_inv _ _ _ Hs)).
  destruct (sy_obj _ _ _ Hs _ _ Ho) as (-> & _). by eexists.
Qed.

(** A step of the kernel that leaves the channels of the objects alone. *)
Lemma syn_calm init s a k k' a' :
  syn_inv init s a → sop_ok (SopK k) s → calm L R k (sy_k s) a k' a' → syn_inv init (set_k k' s) a'.
Proof.
  intros Hs (_ & Ht & Hl) Hcm.
  assert (Hls : ∀ o x, sy_objs s !! o = Some x → lists a' !! w_wchan x = lists a !! w_wchan x).
  { intros o x Ho. apply (cm_lists _ _ _ _ _ _ _ Hcm); [|by eapply Ht]. by apply (sy_obj _ _ _ Hs) in Ho as []. }
  split; cbn [sy_k sy_objs sy_wait sy_log set_k].
  - apply Hcm.
  - apply Hcm.
  - apply Hs.
  - apply Hs.
  - intros t o Hw. destruct (sy_waits _ _ _ Hs t o Hw) as (x & y & Ho & Hy & Hor).
    destruct Hor as [(ws & Hws & Hin)|Haw].
    + destruct (ki_known _ _ _ _ _ (cm_inv _ _ _ _ _ _ _ Hcm) t) as [y' Hy'].
      { right. exists (w_wchan x). exists ws. by rewrite (Hls o x Ho). }
      exists x, y'. split_and!; [done..|left]. exists ws. by rewrite (Hls o x Ho).
    + destruct (cm_awake _ _ _ _ _ _ _ Hcm t y Hy Haw) as (y' & Hy' & Haw').
      { intros Hlv. apply Hl in Hlv. congruence. }
      exists x, y'. split_and!; [done..|by right].
  - intros o x t Ho (ws & Hws & Hin). apply (sy_wchan _ _ _ Hs o x t Ho). exists ws.
    by rewrite <-(Hls o x Ho).
  - intros o x ws Ho Hws. rewrite (Hls o x Ho) in Hws. by apply (sy_nolost _ _ _ Hs o x ws Ho).
  - apply Hs.
Qed.

Lemma tally_cons f e l : tally f (e :: l) = (if f e then 1 else 0) + tally f l.
Proof. unfold tally. rewrite filter_cons. case_decide as He; [rewrite He|apply not_true_is_false in He; rewrite He]; cbn; lia. Qed.

Lemma waiters_delete o t s l w :
  waiters o (log l (set_wait (delete t (sy_wait s)) w)) = waiters o s ∖ {[t]}.
Proof.
  apply set_eq. intros t'. rewrite elem_of_difference, elem_of_singleton, !elem_waiters. cbn.
  rewrite lookup_delete_Some. naive_solver.
Qed.

Lemma size_without (A B : gset Z) t : (size (A ∖ B) ≤ S (size ((A ∖ {[t]}) ∖ B)))%nat.
Proof.
  trans (size ((A ∖ {[t]}) ∖ B ∪ {[t]})).
  - apply subseteq_size. intros x Hx. destruct (decide (x = t)); set_solver.
  - rewrite size_union_alt. assert (size ({[t]} ∖ ((A ∖ {[t]}) ∖ B)) ≤ size ({[t]} : gset Z))%nat.
    { apply subseteq_size. set_solver. }
    rewrite size_singleton in *. lia.
Qed.

(** The objects after the count of [o] changed by [d]. *)
Lemma set_count_obj (objs : gmap Z T) o x d o' x' :
  objs !! o = Some x → <[o := w_set_count (w_count x + d) x]> objs !! o' = Some x' →
  ∃ x0, objs !! o' = Some x0 ∧ w_wchan x' = w_wchan x0 ∧ w_lock x' = w_lock x0 ∧
    w_count x' = w_count x0 + (if o =? o' then d else 0).
Proof.
  intros Ho [[<- <-]|[Hne Hx']]%lookup_insert_Some.
  - exists x. rewrite w_wchan_set, w_lock_set, w_count_set, Z.eqb_refl. by split_and!.
  - exists x'. rewrite (proj2 (Z.eqb_neq o o')) by done. split_and!; [done..|lia].
Qed.

Lemma set_count_back (objs : gmap Z T) o x n o' x0 :
  objs !! o = Some x → objs !! o' = Some x0 →
  ∃ x', <[o := w_set_count n x]> objs !! o' = Some x' ∧ w_wchan x' = w_wchan x0.
Proof.
  intros Ho Ho'. destruct (decide (o = o')) as [<-|Hd].
  - exists (w_set_count n x). rewrite lookup_insert_eq, w_wchan_set. split; [done|]. congruence.
  - exists x0. by rewrite lookup_insert_ne.
Qed.

(** The channels of the objects other than the one that a step touches. *)
Lemma other_lists init s a k k' a' o x o' x' :
  syn_inv init s a → calm L R k (sy_k s) a k' a' → sy_objs s !! o = Some x →
  (∀ l, touches k (sy_k s) l → l = w_wchan x) → sy_objs s !! o' = Some x' → o' ≠ o →
  lists a' !! w_wchan x' = lists a !! w_wchan x'.
Proof.
  intros Hs Hcm Ho Ht Ho' Hne. apply (cm_lists _ _ _ _ _ _ _ Hcm); [by apply (sy_obj _ _ _ Hs) in Ho' as []|].
  intros He%Ht. apply Hne. by eapply (sy_distinct _ _ _ Hs).
Qed.

(** The running thread [t] takes one unit of object [o]. *)
Lemma syn_take init s a o x t :
  syn_inv init s a → sy_objs s !! o = Some x → 0 < w_count x →
  (sy_wait s !! t = None ∨ sy_wait s !! t = Some o) → (∀ l, ¬ on a l t) →
  syn_inv init (log (Took t o) (set_wait (delete t (sy_wait s))
    (set_obj o (w_set_count (w_count x - 1) x) s))) a.
Proof.
  intros Hs Ho Hpos Hw Hno.
  pose proof (λ o' x', set_count_obj (sy_objs s) o x (-1) o' x' Ho) as Hobj.
  split; cbn [sy_k sy_objs sy_wait sy_log log set_wait set_obj].
  - apply Hs.
  - apply Hs.
  - intros o' x' (x0 & Hx0 & -> & -> & ->)%Hobj. destruct (sy_obj _ _ _ Hs _ _ Hx0) as (? & ? & Hu).
    split_and!; [done..|]. unfold is_u32 in *. destruct (Z.eqb_spec o o') as [<-|]; [rewrite Hx0 in Ho; injection Ho as ->|]; lia.
  - intros o1 o2 x1 x2 (y1 & H1 & -> & _)%Hobj (y2 & H2 & -> & _)%Hobj. by apply (sy_distinct _ _ _ Hs).
  - intros t' o' [Hne Hw']%lookup_delete_Some. destruct (sy_waits _ _ _ Hs _ _ Hw') as (x0 & y & Hx0 & Hy & Hor).
    destruct (set_count_back _ o x (w_count x - 1) o' x0 Ho Hx0) as (x' & Hx' & He).
    exists x', y. by rewrite He.
  - intros o' x' t' (x0 & Hx0 & -> & _)%Hobj Hon. rewrite lookup_delete_ne by (intros ->; by eapply Hno).
    by apply (sy_wchan _ _ _ Hs o' x0).
  - intros o' x' ws (x0 & Hx0 & -> & _ & ->)%Hobj Hws.
    destruct (sy_nolost _ _ _ Hs _ _ _ Hx0 Hws) as [->|Hle]; [by left|right].
    rewrite waiters_delete. destruct (Z.eqb_spec o o') as [<-|Hd].
    + rewrite Hx0 in Ho. injection Ho as ->. pose proof (size_without (waiters o s) (list_to_set ws) t). lia.
    + replace (waiters o' s ∖ {[t]}) with (waiters o' s); [lia|]. apply set_eq. intros t'.
      rewrite elem_of_difference, elem_of_singleton, elem_waiters. naive_solver.
  - intros o' x' (x0 & Hx0 & _ & _ & ->)%Hobj. rewrite !tally_cons. cbn [took gave].
    pose proof (sy_count _ _ _ Hs _ _ Hx0). destruct (o =? o'); lia.
Qed.

(** The running thread [t] goes to sleep in object [o]. *)
Lemma syn_sleep init s a o x t k' a' ws :
  syn_inv init s a → sy_objs s !! o = Some x → w_count x = 0 →
  (sy_wait s !! t = None ∨ sy_wait s !! t = Some o) → (∀ l, ¬ on a l t) →
  lists a !! w_wchan x = Some ws → lists a' !! w_wchan x = Some (ws ++ [t]) →
  (∀ t', leaves (OpSleep (w_wchan x) (w_lock x)) (sy_k s) t' → t' = t) →
  calm L R (OpSleep (w_wchan x) (w_lock x)) (sy_k s) a k' a' →
  syn_inv init (set_k k' (set_wait (<[t := o]> (sy_wait s)) s)) a'.
Proof.
  intros Hs Ho Hz Hw Hno Hws Hws' Hlv Hcm.
  pose proof (λ o' x', other_lists init s a _ k' a' o x o' x' Hs Hcm Ho (λ l Hl, Hl)) as Hls.
  assert (Hon : ∀ o' x' t', sy_objs s !! o' = Some x' → on a (w_wchan x') t' → on a' (w_wchan x') t').
  { intros o' x' t' Ho' (us & Hus & Hin). destruct (decide (o' = o)) as [->|Hne].
    - simplify_eq. exists (ws ++ [t]). split; [done|set_solver].
    - exists us. by rewrite (Hls o' x'). }
  assert (Hkn : ∀ l t', on a' l t' → is_Some (k_threads k' !! t')).
  { intros l t' Ht'. apply (ki_known _ _ _ _ _ (cm_inv _ _ _ _ _ _ _ Hcm)). right. by exists l. }
  split; cbn [sy_k sy_objs sy_wait sy_log set_k set_wait].
  - apply Hcm.
  - apply Hcm.
  - apply Hs.
  - apply Hs.
  - intros t' o' [[<- <-]|[Hne Hw']]%lookup_insert_Some.
    { assert (Hin : on a' (w_wchan x) t) by (exists (ws ++ [t]); split; [done|set_solver]).
      destruct (Hkn _ _ Hin) as [y Hy]. exists x, y. by split_and!; [..|left]. }
    destruct (sy_waits _ _ _ Hs t' o' Hw') as (x0 & y & Hx0 & Hy & [Hin|Haw]).
    + apply (Hon _ _ _ Hx0) in Hin. destruct (Hkn _ _ Hin) as [y' Hy']. exists x0, y'. by split_and!; [..|left].
    + destruct (cm_awake _ _ _ _ _ _ _ Hcm t' y Hy Haw) as (y' & Hy' & Haw').
      { intros Hl%Hlv. by subst. }
      exists x0, y'. by split_and!; [..|right].
  - intros o' x' t' Ho' (us & Hus & Hin). destruct (decide (o' = o)) as [->|Hne].
    + rewrite Ho in Ho'. injection Ho' as <-. rewrite Hws' in Hus. injection Hus as <-.
      destruct (decide (t = t')) as [<-|Hd]; [apply lookup_insert_eq|].
      rewrite lookup_insert_ne by done. apply (sy_wchan _ _ _ Hs o x t' Ho). exists ws. split; [done|set_solver].
    + rewrite (Hls o' x') in Hus by done. assert (on a (w_wchan x') t') by (by exists us).
      rewrite lookup_insert_ne by (intros ->; by eapply Hno). by apply (sy_wchan _ _ _ Hs o' x').
  - intros o' x' us Ho' Hus. destruct (decide (o' = o)) as [->|Hne]; [simplify_eq; right; lia|].
    rewrite (Hls o' x') in Hus by done. destruct (sy_nolost _ _ _ Hs o' x' us Ho' Hus) as [->|Hle]; [by left|right].
    replace (waiters o' _) with (waiters o' s); [done|]. apply set_eq. intros t'. rewrite !elem_waiters. cbn.
    rewrite lookup_insert_Some. naive_solver.
  - apply Hs.
Qed.

(** Somebody gives one unit of object [o] back; the first thread that sleeps
    there wakes up. *)
Lemma syn_post init s a o x t ws k' a' :
  syn_inv init s a → sy_objs s !! o = Some x → w_count x < 4294967295 →
  lists a !! w_wchan x = Some ws → lists a' !! w_wchan x = Some (tail ws) →
  (∀ u, head ws = Some u → ∃ y, k_threads k' !! u = Some y ∧ awake y) →
  calm L R (OpWakeone (w_wchan x) (w_lock x)) (sy_k s) a k' a' →
  syn_inv init (log (Gave t o) (set_k k' (set_obj o (w_set_count (w_count x + 1) x) s))) a'.
Proof.
  intros Hs Ho Hlt Hws Hws' Hhd Hcm.
  pose proof (λ o' x', set_count_obj (sy_objs s) o x 1 o' x' Ho) as Hobj.
  pose proof (λ o' x', other_lists init s a _ k' a' o x o' x' Hs Hcm Ho (λ l Hl, Hl)) as Hls.
  split; cbn [sy_k sy_objs sy_wait sy_log log set_k set_obj].
  - apply Hcm.
  - apply Hcm.
  - intros o' x' (x0 & Hx0 & -> & -> & ->)%Hobj. destruct (sy_obj _ _ _ Hs _ _ Hx0) as (? & ? & Hu).
    split_and!; [done..|]. unfold is_u32 in *.
    destruct (Z.eqb_spec o o') as [<-|]; [rewrite Hx0 in Ho; injection Ho as ->|]; lia.
  - intros o1 o2 x1 x2 (y1 & H1 & -> & _)%Hobj (y2 & H2 & -> & _)%Hobj. by apply (sy_distinct _ _ _ Hs).
  - intros t' o' Hw'. destruct (sy_waits _ _ _ Hs t' o' Hw') as (x0 & y & Hx0 & Hy & Hor).
    destruct (set_count_back _ o x (w_count x + 1) o' x0 Ho Hx0) as (x' & Hx' & He).
    assert (Hor' : on a' (w_wchan x0) t' ∨ ∃ y', k_threads k' !! t' = Some y' ∧ awake y').
    { destruct Hor as [(us & Hus & Hin)|Haw]; [|right; eapply (cm_awake _ _ _ _ _ _ _ Hcm); [done..|by intros []]].
      destruct (decide (o' = o)) as [->|Hne]; [|left; exists us; by rewrite (Hls o' x0)].
      rewrite Ho in Hx0. injection Hx0 as <-. rewrite Hws in Hus. injection Hus as <-.
      destruct ws as [|u ws]; [set_solver|]. apply list.elem_of_cons in Hin as [->|Hin]; [right; by apply Hhd|].
      left. by exists ws. }
    destruct Hor' as [Hin|(y' & Hy' & Haw)].
    + destruct (ki_known _ _ _ _ _ (cm_inv _ _ _ _ _ _ _ Hcm) t') as [y' Hy']; [right; by eexists|].
      exists x', y'. rewrite He. by split_and!; [..|left].
    + exists x', y'. by split_and!; [..|right].
  - intros o' x' t' (x0 & Hx0 & -> & _)%Hobj (us & Hus & Hin). apply (sy_wchan _ _ _ Hs o' x0 t' Hx0).
    destruct (decide (o' = o)) as [->|Hne]; [|exists us; by rewrite <-(Hls o' x0)].
    rewrite Ho in Hx0. injection Hx0 as <-. rewrite Hws' in Hus. injection Hus as <-. exists ws.
    split; [done|]. destruct ws; [done|by right].
  - intros o' x' us (x0 & Hx0 & -> & _ & ->)%Hobj Hus. change (waiters o' _) with (waiters o' s).
    destruct (Z.eqb_spec o o') as [<-|Hne].
    2:{ rewrite (Hls o' x0), Z.add_0_r in * by done. by apply (sy_nolost _ _ _ Hs o' x0). }
    rewrite Ho in Hx0. injection Hx0 as <-. rewrite Hws' in Hus. injection Hus as <-.
    destruct ws as [|u ws]; [by left|right].
    destruct (sy_nolost _ _ _ Hs o x _ Ho Hws) as [?|Hle]; [done|]. cbn [tail].
    assert (Hu : u ∈ waiters o s ∧ u ∉ ws).
    { rewrite elem_waiters. split; [apply (sy_wchan _ _ _ Hs o x u Ho); eexists; split; [done|left]|].
      pose proof (wf_nodup _ (repr_wf _ _ (ki_tl _ _ _ _ _ (sy_inv _ _ _ Hs))) _ _ Hws) as Hnd.
      by apply list.NoDup_cons in Hnd as []. }
    replace (waiters o s ∖ list_to_set ws) with ({[u]} ∪ waiters o s ∖ list_to_set (u :: ws)).
    2:{ apply set_eq. intros t'. destruct (decide (t' = u)); set_solver. }
    rewrite size_union, size_singleton by set_solver. lia.
  - intros o' x' (x0 & Hx0 & _ & _ & ->)%Hobj. rewrite !tally_cons. cbn [took gave].
    pose proof (sy_count _ _ _ Hs _ _ Hx0). destruct (o =? o'); lia.
Qed.

(** *** The operations *)

Lemma on_k_eq {A} (m : M kstate A) v k' (s : sstate) : m (sy_k s) = Ok v k' → on_k m s = Ok v (set_k k' s).
Proof. intros H. unfold on_k, zoom. by rewrite H. Qed.

Lemma on_k_read {A} (m : M kstate A) v (s : sstate) : m (sy_k s) = Ok v (sy_k s) → on_k m s = Ok v s.
Proof. intros H. unfold on_k, zoom. rewrite H. by destruct s. Qed.

Lemma get_obj_eq (s : sstate) o x : sy_objs s !! o = Some x → get_obj o s = Ok x s.
Proof. intros H. unfold get_obj, bind, get, deref. by rewrite H. Qed.

Lemma runs_curthread s t : runs s t → on_k curthread s = Ok t s.
Proof.
  intros (k & x & (Hc & _ & _) & <- & _). apply on_k_read. by apply curthread_eq.
Qed.

Lemma runs_off_lists init s a t : syn_inv init s a → runs s t → ∀ l, ¬ on a l t.
Proof.
  intros Hs (k & x & (Hc & Hi & Hx) & <- & _) l (ts & Hts & Hin).
  destruct (kinv_current _ _ _ _ _ _ (sy_inv _ _ _ Hs) Hc Hi) as (_ & _ & _ & _ & Hu).
  by eapply (wf_unlinked _ (repr_wf _ _ (ki_tl _ _ _ _ _ (sy_inv _ _ _ Hs)))).
Qed.

(** The outcomes of [wait]: the thread [t] has object [o], or sleeps for it. *)
Record taken init s a o x t s' : Prop := {
  tk_inv : syn_inv init s' a;
  tk_k : sy_k s' = sy_k s;
  tk_objs : sy_objs s' = <[o := w_set_count (w_count x - 1) x]> (sy_objs s);
  tk_log : sy_log s' = Took t o :: sy_log s;
  tk_wait : sy_wait s' !! t = None;
}.

Record asleep init s o x t s' : Prop := {
  al_inv : ∃ a', syn_inv init s' a' ∧ on a' (w_wchan x) t;
  al_objs : sy_objs s' = sy_objs s;
  al_log : sy_log s' = sy_log s;
  al_wait : sy_wait s' !! t = Some o;
}.

Lemma wait_loop_wp init C s a o x t Q :
  syn_inv init s a → sy_objs s !! o = Some x → runs s t →
  (sy_wait s !! t = None ∨ sy_wait s !! t = Some o) →
  (0 < w_count x → ∀ s', taken init s a o x t s' → Q true s') →
  (w_count x = 0 → ∀ s', asleep init s o x t s' → Q false s') →
  wp C (wait_loop o) Q no_err s.
Proof.
  intros Hs Ho Hrun Hw Htake Hsleep. unfold wait_loop. kstep (get_obj_eq _ _ _ Ho).
  kstep (runs_curthread _ _ Hrun). pose proof (runs_off_lists _ _ _ _ Hs Hrun) as Hoff.
  destruct (sy_obj _ _ _ Hs _ _ Ho) as (HR & HL & Hu). pose proof (sy_held _ _ _ Hs) as Hh.
  kstep (on_k_eq _ tt); [apply spin_acquire_eq; rewrite Hh; set_solver|].
  rewrite Hh, union_empty_l_L. destruct (Z.eqb_spec (w_count x) 0) as [Hz|Hnz].
  - destruct Hrun as (k & y & (Hc & Hi & Hy) & <- & Hint). wps. apply wp_zoom.
    destruct (obj_wchan _ _ _ _ _ Hs Ho) as (ws & Hws).
    destruct (kinv_runqueue _ _ _ _ _ _ _ (sy_inv _ _ _ Hs) Hc) as (rs & Hrs).
    assert (Hk1 : kinv ∅ (set_held {[w_lock x]} (sy_k s)) a) by apply kinv_held, Hs.
    eapply (wchan_sleep_wp L R C _ a k y _ _ rs _ Hk1); [done..|]. intros n k' a' Hsw. wps.
    assert (Hl' : lists a' !! w_wchan x = Some (ws ++ [c_curthread k])) by (by eapply (switched_sleep L R _ a k)).
    apply (Hsleep Hz). split; [|done|done|cbn; by rewrite lookup_insert_eq].
    exists a'. split; [|exists (ws ++ [c_curthread k]); split; [done|set_solver]].
    eapply (syn_sleep init s a o x _ k' a' ws Hs Ho Hz Hw Hoff Hws Hl').
    + intros t'. cbn. rewrite Hc. by intros [= ->].
    + eapply calm_switched; [exact Hk1|exact Hc|exact Hsw|done| |done|right; cbn; by rewrite Hc].
      destruct (switched_inv _ _ _ _ _ _ _ _ _ _ _ Hsw) as (_ & _ & ->). cbn. set_solver.
  - assert (Hpos : 0 < w_count x) by (unfold is_u32 in Hu; lia).
    apply wp_bind, wp_KASSERT; [by apply Z.ltb_lt|]. apply wp_bind. wp_step. cbn beta.
    kstep (on_k_eq _ tt); [apply spin_release_eq; cbn; set_solver|]. wps.
    cbn [sy_k set_obj set_k k_held set_held]. rewrite difference_diag_L, set_held_twice.
    rewrite <-Hh, set_held_id. apply (Htake Hpos). split; [|done|done|done|cbn; apply lookup_delete_eq].
    exact (syn_take init s a o x t Hs Ho Hpos Hw Hoff).
Qed.

Lemma wait_wp init C s a o x t Q :
  syn_inv init s a → sy_objs s !! o = Some x → runs s t → sy_wait s !! t = None →
  (0 < w_count x → ∀ s', taken init s a o x t s' → Q true s') →
  (w_count x = 0 → ∀ s', asleep init s o x t s' → Q false s') →
  wp C (wait o) Q no_err s.
Proof.
  intros Hs Ho Hrun Hw H1 H2. unfold wait. kstep (runs_curthread _ _ Hrun).
  destruct Hrun as (k & y & Hr & <- & Hint).
  kstep (on_k_read _ y); [apply get_thread_eq, Hr|]. apply wp_bind, wp_KASSERT; [by rewrite Hint|].
  eapply (wait_loop_wp init C s a o x (c_curthread k)); try done; [by exists k, y|by left].
Qed.

Lemma resume_wp init C s a o x t Q :
  syn_inv init s a → sy_objs s !! o = Some x → runs s t → sy_wait s !! t = Some o →
  (0 < w_count x → ∀ s', taken init s a o x t s' → Q true s') →
  (w_count x = 0 → ∀ s', asleep init s o x t s' → Q false s') →
  wp C resume Q no_err s.
Proof.
  intros Hs Ho Hrun Hw H1 H2. unfold resume. kstep (runs_curthread _ _ Hrun). apply wp_bind. wp_step. cbn beta.
  apply wp_bind. eapply wp_deref; [done|]. eapply (wait_loop_wp init C s a o x t); try done. by right.
Qed.

Lemma runs_keeps s s' u :
  runs s u → curcpu (sy_k s') = curcpu (sy_k s) →
  (∀ c k, k_cpus (sy_k s) !! c = Some k → ∃ n, k_cpus (sy_k s') !! c = Some (with_ipi n k)) →
  k_threads (sy_k s') !! u = k_threads (sy_k s) !! u → runs s' u.
Proof.
  intros (k & x & (Hc & Hi & Hx) & <- & Hint) Hcur Hcpus Hth. destruct (Hcpus _ _ Hc) as (n & Hn).
  exists (with_ipi n k), x. split_and!; [|done|done]. rewrite <-Hcur in Hn. split_and!; [done|done|].
  cbn. by rewrite Hth.
Qed.

(** The outcome of [post] by the thread [t]. *)
Record given init s o x t s' : Prop := {
  gv_inv : started init s';
  gv_objs : sy_objs s' = <[o := w_set_count (w_count x + 1) x]> (sy_objs s);
  gv_log : sy_log s' = Gave t o :: sy_log s;
  gv_wait : sy_wait s' = sy_wait s;
  gv_runs u : runs s u → runs s' u;
}.

Lemma post_wp init C s a o x k Q :
  syn_inv init s a → sy_objs s !! o = Some x → w_count x < 4294967295 →
  k_cpus (sy_k s) !! curcpu (sy_k s) = Some k →
  (∀ s', given init s o x (c_curthread k) s' → Q tt s') →
  wp C (post o) Q no_err s.
Proof.
  intros Hs Ho Hlt Hc HQ. unfold post. kstep (get_obj_eq _ _ _ Ho).
  kstep (on_k_read _ (c_curthread k)); [by apply curthread_eq|].
  destruct (sy_obj _ _ _ Hs _ _ Ho) as (HR & HL & Hu). pose proof (sy_held _ _ _ Hs) as Hh.
  pose proof (sy_inv _ _ _ Hs) as Hk. destruct (obj_wchan _ _ _ _ _ Hs Ho) as (ws & Hws).
  kstep (on_k_eq _ tt); [apply spin_acquire_eq; rewrite Hh; set_solver|]. cbn zeta.
  rewrite u32_small by (unfold is_u32 in *; lia). apply wp_bind. wp_step. cbn beta.
  apply wp_bind, wp_KASSERT; [apply Z.ltb_lt; unfold is_u32 in Hu; lia|].
  assert (Hfin : ∀ k1 a1, kinv ∅ k1 a1 → keeps (set_held (k_held (sy_k s) ∪ {[w_lock x]}) (sy_k s)) k1 →
    lists a1 !! w_wchan x = Some (tail ws) →
    (∀ u, head ws = Some u → ∃ y, k_threads k1 !! u = Some y ∧ awake y) →
    (∀ u, u ∉ ws → k_threads k1 !! u = k_threads (sy_k s) !! u) →
    calm L R (OpWakeone (w_wchan x) (w_lock x)) (sy_k s) a (set_held ∅ k1) a1 →
    wp C (on_k (spin_release (w_lock x)) ;;; modify (log (Gave (c_curthread k) o))) Q no_err
      (set_k k1 (set_obj o (w_set_count (w_count x + 1) x) (set_k (set_held (k_held (sy_k s) ∪ {[w_lock x]}) (sy_k s)) s)))).
  { intros k1 a1 Hk1 Hkp Hl1 Hhd Hth Hcm.
    kstep (on_k_eq _ tt); [apply spin_release_eq; cbn; rewrite (kp_held _ _ Hkp); cbn; set_solver|]. wps.
    cbn [sy_k set_k set_obj]. rewrite (kp_held _ _ Hkp). cbn [k_held set_held].
    rewrite Hh, union_empty_l_L, difference_diag_L.
    apply HQ. split; [|done|done|done|].
    - exists a1. exact (syn_post init s a o x (c_curthread k) ws (set_held ∅ k1) a1 Hs Ho Hlt Hws Hl1 Hhd Hcm).
    - intros u Hur. apply (runs_keeps s _ u); [done|cbn; by rewrite (kp_curcpu _ _ Hkp)
        |intros c kc Hkc; exact (kp_cpus _ _ Hkp c kc Hkc)|].
      apply Hth. intros Hin. apply (runs_off_lists _ _ _ _ Hs Hur (w_wchan x)). by exists ws. }
  apply wp_bind, wp_zoom. 
  eapply (wchan_wakeone_wp L R C ∅ _ a _ _ ws); [by apply kinv_held|done|apply nocur_empty|cbn; set_solver
    |by apply held_one| |].
  - intros -> k1 Hk1 Hkp Hth. apply (Hfin k1 a); try done.
    + intros u _. by rewrite Hth.
    + apply calm_same; [by apply kinv_held|done|done].
  - intros t ws' k1 y c kc -> Hy Hyc Hkc Hk1 Hkp Hth.
    replace (∅ ∖ {[t]}) with (∅ : gset Z) in Hk1 by set_solver.
    destruct (ki_cpu _ _ _ _ _ Hk _ _ Hkc) as (HRq & _).
    eapply (Hfin k1); [done|done| | | |].
    + unfold abs_wake. cbn. rewrite lookup_insert_ne by congruence. apply lookup_insert_eq.
    + intros u [= <-]. exists (with_state S_READY y). rewrite Hth, lookup_insert_eq. by split; [|right].
    + intros u Hne. rewrite Hth, lookup_insert_ne; [done|]. set_solver.
    + eapply (calm_wakeone L R (sy_k s)); try done; [by apply kinv_held|].
      destruct Hkp. split; try done.
Qed.

(** What an operation adds to the log. *)
Definition logs (p : sop) (s s' : sstate) : Prop :=
  match p with
  | SopK _ => sy_log s' = sy_log s
  | SopWait _ | SopResume => sy_log s' = sy_log s ∨ ∃ t o, sy_log s' = Took t o :: sy_log s
  | SopPost o => ∃ k, k_cpus (sy_k s) !! curcpu (sy_k s) = Some k ∧
      sy_log s' = Gave (c_curthread k) o :: sy_log s
  end.

Lemma run_sop_wp init p s a :
  syn_inv init s a → sop_ok p s →
  wp no_crash (run_sop p) (λ _ s', logs p s s' ∧ ∃ a', syn_inv init s' a')
    (λ e s', e = ENOMEM ∧ sy_log s' = sy_log s ∧ ∃ a', syn_inv init s' a') s.
Proof.
  intros Hs Hok.
  assert (Hno : ∀ m : M sstate unit, wp no_crash m (λ _ s', logs p s s' ∧ ∃ a', syn_inv init s' a') no_err s →
    wp no_crash m (λ _ s', logs p s s' ∧ ∃ a', syn_inv init s' a')
      (λ e s', e = ENOMEM ∧ sy_log s' = sy_log s ∧ ∃ a', syn_inv init s' a') s).
  { intros m Hm. eapply wp_mono; [exact Hm|done..]. }
  destruct p as [k|o| |o]; cbn [run_sop].
  - apply wp_zoom. eapply wp_mono; [apply (run_op_wp L R k); [apply Hs|apply Hs|apply Hok]| | |done].
    + intros [] k' (a' & Hcm). split; [done|]. exists a'. by eapply syn_calm.
    + intros e k' (-> & a' & Hcm). split_and!; [done..|]. exists a'. by eapply syn_calm.
  - destruct Hok as ([x Ho] & t & Hrun & Hw). apply Hno, wp_bind.
    eapply (wait_wp init no_crash s a o x t _ Hs Ho Hrun Hw).
    + intros _ s' [Hs' _ _ Hl _]. wps. split; [right; by exists t, o|by exists a].
    + intros _ s' [(a' & Hs' & _) _ Hl _]. wps. split; [by left|by exists a'].
  - destruct Hok as (t & Hrun & [o Hw]). destruct (sy_waits _ _ _ Hs t o Hw) as (x & _ & Ho & _).
    apply Hno, wp_bind. eapply (resume_wp init no_crash s a o x t _ Hs Ho Hrun Hw).
    + intros _ s' [Hs' _ _ Hl _]. wps. split; [right; by exists t, o|by exists a].
    + intros _ s' [(a' & Hs' & _) _ Hl _]. wps. split; [by left|by exists a'].
  - destruct Hok as (x & Ho & Hlt). destruct (ki_curcpu _ _ _ _ _ (sy_inv _ _ _ Hs)) as [k Hc].
    apply Hno. eapply (post_wp init _ s a o x k _ Hs Ho Hlt Hc). intros s' [Hs' _ Hl _ _].
    split; [by exists k|done].
Qed.

(** The states that sequences of operations lead to that satisfy [ok] too. *)
Inductive sreach (ok : sop → sstate → Prop) (s0 : sstate) : sstate → Prop :=
  | sreach_start : sreach ok s0 s0
  | sreach_ok s p s' : sreach ok s0 s → sop_ok p s → ok p s → run_sop p s = Ok tt s' → sreach ok s0 s'
  | sreach_err s p e s' : sreach ok s0 s → sop_ok p s → ok p s → run_sop p s = Err e s' → sreach ok s0 s'.

Lemma sreach_inv init ok s0 s : started init s0 → sreach ok s0 s → started init s.
Proof.
  intros H0. induction 1 as [|s p s' _ [a IH] Hok _ Hr|s p e s' _ [a IH] Hok _ Hr]; [done|..];
    pose proof (run_sop_wp init p s a IH Hok) as Hw; unfold wp in Hw; rewrite Hr in Hw; by destruct_and! Hw.
Qed.

(** C10: In every state that is reached no operation that is called as it may be (a
    count is not increased beyond its type) panics, fails an assertion or
    deadlocks on a spinlock, and the count of every object is what it started
    with, plus what was given back, minus what was taken: nothing gets lost. *)
Theorem synch_safe init s0 s :
  started init s0 → sreach (λ _ _, True) s0 s →
  (∀ o x, sy_objs s !! o = Some x →
     0 ≤ w_count x ∧ w_count x = init o + tally (gave o) (sy_log s) - tally (took o) (sy_log s)) ∧
  (∀ p, sop_ok p s → match run_sop p s with Ok _ _ => True | Err e _ => e = ENOMEM | Crash _ => False end).
Proof.
  intros H0 Hr. destruct (sreach_inv _ _ _ _ H0 Hr) as [a Hs]. split.
  - intros o x Ho. destruct (sy_obj _ _ _ Hs _ _ Ho) as (_ & _ & [Hu _]).
    pose proof (sy_count _ _ _ Hs _ _ Ho). lia.
  - intros p Hok. pose proof (run_sop_wp init p s a Hs Hok) as Hw. unfold wp in Hw.
    destruct (run_sop p s); [done|by destruct Hw|done].
Qed.

(** C9: No wakeup is lost: whenever an object is available and a thread that
    waits for it is asleep, some thread that waits for the object is awake, on a
    processor or on a run queue. *)
Theorem no_lost_wakeup init s0 s o x t y :
  started init s0 → sreach (λ _ _, True) s0 s →
  sy_objs s !! o = Some x → 0 < w_count x →
  sy_wait s !! t = Some o → k_threads (sy_k s) !! t = Some y → t_state y = S_SLEEP →
  ∃ t' y', sy_wait s !! t' = Some o ∧ k_threads (sy_k s) !! t' = Some y' ∧ awake y'.
Proof.
  intros H0 Hr Ho Hpos Hwt Hy Hsl. destruct (sreach_inv _ _ _ _ H0 Hr) as [a Hs].
  destruct (sy_waits _ _ _ Hs _ _ Hwt) as (x1 & y1 & Ho1 & Hy1 & Hor). simplify_eq.
  destruct Hor as [(ws & Hws & Hin)|[Haw|Haw]]; [|congruence..].
  destruct (sy_nolost _ _ _ Hs _ _ _ Ho Hws) as [->|Hle]; [set_solver|].
  destruct (size_pos_elem_of (waiters o s ∖ list_to_set ws)) as (t' & [Ht' Hn]%elem_of_difference); [lia|].
  apply elem_waiters in Ht'. destruct (sy_waits _ _ _ Hs _ _ Ht') as (x' & y' & Ho' & Hy' & Hor).
  exists t', y'. split_and!; [done..|]. destruct Hor as [(us & Hus & Hin')|Haw]; [|done].
  exfalso. apply Hn, elem_of_list_to_set. congruence.
Qed.

(** A thread that waited and runs again while the object is available takes
    it; while it is not, the thread sleeps again, behind those that came
    before. *)
Theorem resume_takes init s t o x :
  started init s → runs s t → sy_wait s !! t = Some o → sy_objs s !! o = Some x →
  ∃ s', resume s = Ok (bool_decide (0 < w_count x)) s' ∧ started init s' ∧
    (if bool_decide (0 < w_count x) then sy_wait s' !! t = None ∧ sy_log s' = Took t o :: sy_log s
     else sy_wait s' !! t = Some o ∧ sy_log s' = sy_log s).
Proof.
  intros [a Hs] Hrun Hw Ho.
  destruct (wp_ok resume (λ b s', b = bool_decide (0 < w_count x) ∧ started init s' ∧
    (if bool_decide (0 < w_count x) then sy_wait s' !! t = None ∧ sy_log s' = Took t o :: sy_log s
     else sy_wait s' !! t = Some o ∧ sy_log s' = sy_log s)) s) as (b & s' & Hr & -> & H); [|by exists s'].
  eapply (resume_wp init _ s a o x t _ Hs Ho Hrun Hw).
  - intros Hpos s' [Hs' _ _ Hl Hw']. rewrite bool_decide_eq_true_2 by done. split_and!; [done|by exists a|done..].
  - intros Hz s' [(a' & Hs' & _) _ Hl Hw']. rewrite bool_decide_eq_false_2 by lia. split_and!; [done|by exists a'|done..].
Qed.

(** *** Holding an object *)

Fixpoint remove_one (t : Z) (l : list Z) : list Z :=
  match l with
  | [] => []
  | u :: l => if u =? t then l else u :: remove_one t l
  end.

(** The threads that took [o] and have not given it back. *)
Fixpoint owners (o : Z) (l : list event) : list Z :=
  match l with
  | [] => []
  | Took t o' :: l => if o' =? o then t :: owners o l else owners o l
  | Gave t o' :: l => if o' =? o then remove_one t (owners o l) else owners o l
  end.

Lemma remove_one_length t l : t ∈ l → S (length (remove_one t l)) = length l.
Proof.
  induction l as [|u l IH]; intros Ht; [set_solver|]. cbn. destruct (Z.eqb_spec u t); [done|].
  cbn. rewrite IH; [done|]. set_solver.
Qed.

(** Only a thread that holds an object gives it back, which is what the
    documentation of locks asks for. *)
Definition gives_own (p : sop) (s : sstate) : Prop :=
  match p with
  | SopPost o => ∀ k, k_cpus (sy_k s) !! curcpu (sy_k s) = Some k → c_curthread k ∈ owners o (sy_log s)
  | _ => True
  end.

Definition balanced (s : sstate) : Prop :=
  ∀ o, Z.of_nat (length (owners o (sy_log s))) = tally (took o) (sy_log s) - tally (gave o) (sy_log s).

Lemma logs_balanced p s s' : logs p s s' → gives_own p s → balanced s → balanced s'.
Proof.
  intros Hl Hg Hb o. specialize (Hb o).
  assert (Htook : ∀ t o', sy_log s' = Took t o' :: sy_log s →
    Z.of_nat (length (owners o (sy_log s'))) = tally (took o) (sy_log s') - tally (gave o) (sy_log s')).
  { intros t o' ->. rewrite !tally_cons. cbn. destruct (o' =? o); cbn; lia. }
  destruct p as [k|o'| |o']; cbn in Hl.
  - by rewrite Hl.
  - destruct Hl as [->|(t & o1 & He)]; [done|by eapply Htook].
  - destruct Hl as [->|(t & o1 & He)]; [done|by eapply Htook].
  - destruct Hl as (k & Hk & ->). specialize (Hg k Hk). rewrite !tally_cons. cbn [owners took gave].
    destruct (Z.eqb_spec o' o) as [->|Hne]; [|lia].
    pose proof (remove_one_length _ _ Hg). lia.
Qed.

Lemma sreach_balanced init s0 s :
  started init s0 → balanced s0 → sreach gives_own s0 s → balanced s.
Proof.
  intros H0 Hb Hr. assert (Hi := λ s, sreach_inv init gives_own s0 s H0).
  induction Hr as [|s p s' Hr IH Hok Hg Hs|s p e s' Hr IH Hok Hg Hs]; [done|..];
    destruct (Hi s Hr) as [a Ha]; pose proof (run_sop_wp init p s a Ha Hok) as Hw; unfold wp in Hw; rewrite Hs in Hw.
  - destruct Hw as (Hl & _). by eapply logs_balanced.
  - destruct Hw as (_ & Hl & _). intros o. rewrite Hl. apply IH.
Qed.
End system.

(** C11: Mutual exclusion: as long as only the thread that holds a lock releases it,
    no two threads hold it, and it is held exactly when its count is 0. *)
Theorem lock_mutex L R init (s0 s : sstate lock) o x :
  started L R init s0 → balanced s0 → sreach L R gives_own s0 s →
  sy_objs s !! o = Some x → init o = 1 →
  (length (owners o (sy_log s)) ≤ 1)%nat ∧ (lock_count x = 0 ↔ ∃ t, owners o (sy_log s) = [t]).
Proof.
  intros H0 Hb Hr Ho Hi. destruct (sreach_inv _ _ _ _ _ _ H0 Hr) as [a Hs].
  pose proof (sreach_balanced _ _ _ _ _ H0 Hb Hr o) as Hlen.
  pose proof (sy_count _ _ _ _ _ Hs _ _ Ho) as Hc. cbn [w_count lock_waitable] in Hc.
  destruct (sy_obj _ _ _ _ _ Hs _ _ Ho) as (_ & _ & [Hu _]). cbn [w_count lock_waitable] in Hu.
  split; [lia|]. split.
  - intros Hz. destruct (owners o (sy_log s)) as [|t [|]]; cbn in Hlen; [lia|by exists t|lia].
  - intros [t Ht]. rewrite Ht in Hlen. cbn in Hlen. lia.
Qed.

(** ** A machine with an object

    Object 7 is taken; thread 103 of the machine sleeps there. *)

Lemma machine_syn {T} `{!Waitable T} (x : T) (init : Z → Z) l :
  w_wchan x = 33 → w_lock x = 46 → w_count x = 0 →
  tally (took 7) l = init 7 + tally (gave 7) l →
  started machine_locks machine_roles init (SState machine {[7 := x]} {[103 := 7]} l).
Proof.
  intros Hw Hl Hc Ht. exists machine_abs.
  split; cbn [sy_k sy_objs sy_wait sy_log].
  - exact machine_inv.
  - done.
  - intros o y [<- <-]%lookup_singleton_Some. rewrite Hw, Hl, Hc. by vm_compute.
  - intros o o' y y' [<- _]%lookup_singleton_Some [<- _]%lookup_singleton_Some. done.
  - intros t o [<- <-]%lookup_singleton_Some. eexists x, _. split_and!; [done|vm_compute; reflexivity|left].
    exists [103]. rewrite Hw. split; [done|set_solver].
  - intros o y t [<- <-]%lookup_singleton_Some. rewrite Hw. intros [[? _]|[_ ->]]%on_machine; done.
  - intros o y ws [<- <-]%lookup_singleton_Some _. right. rewrite Hc. lia.
  - intros o y [<- <-]%lookup_singleton_Some. lia.
Qed.

Definition sem_machine : sstate semaphore := SState machine {[7 := Semaphore 33 46 0]} {[103 := 7]} [].
Definition lock_machine : sstate lock := SState machine {[7 := Lock 100 33 46 0]} {[103 := 7]} [Took 100 7].

(** The state after an operation that succeeds. *)
Definition after {T} `{!Waitable T} (s : sstate T) (p : sop) : sstate T :=
  match run_sop p s with Ok _ s' => s' | _ => s end.

(** C12: The release of a lock is not checked: on the machine, thread 101 releases
    the lock that thread 100 holds, and takes it itself; then both hold it. *)
Theorem lock_release_unchecked :
  ∃ s, sreach machine_locks machine_roles (λ _ _, True) lock_machine s ∧
    owners 7 (sy_log lock_machine) = [100] ∧ owners 7 (sy_log s) = [101; 100].
Proof.
  set (s1 := after lock_machine (SopK (OpTurn 2))).
  set (s2 := after s1 (SopPost 7)). set (s3 := after s2 (SopWait 7)).
  exists s3. split; [|split; by vm_compute].
  apply (sreach_ok _ _ _ _ s2 (SopWait 7)); [|split; [by eexists|]|done|by vm_compute].
  2:{ exists 101. split; [|by vm_compute]. eexists _, _. split; [split_and!; vm_compute; reflexivity|by split; vm_compute]. }
  apply (sreach_ok _ _ _ _ s1 (SopPost 7)); [|by eexists; split; [vm_compute; reflexivity|]|done|by vm_compute].
  apply (sreach_ok _ _ _ _ lock_machine (SopK (OpTurn 2))); [constructor| |done|by vm_compute].
  split; [by eexists|]. split; [intros ?? _ []|intros ? []].
Qed.

Lemma sem_machine_started : started machine_locks machine_roles (λ _, 0) sem_machine.
Proof. by apply machine_syn. Qed.

(** One V from processor 1. *)
Lemma sem_machine_posted :
  sreach machine_locks machine_roles (λ _ _, True) sem_machine (after sem_machine (SopPost 7)).
Proof.
  apply (sreach_ok _ _ _ _ sem_machine (SopPost 7)); [constructor| |done|by vm_compute].
  eexists. split; [vm_compute; reflexivity|done].
Qed.

Lemma synch_safe_witness :
  ∃ x, sy_objs (after sem_machine (SopPost 7)) !! 7 = Some x ∧ 0 ≤ sem_count x.
Proof.
  assert (Ho : sy_objs (after sem_machine (SopPost 7)) !! 7 = Some (Semaphore 33 46 1)) by (by vm_compute).
  exists (Semaphore 33 46 1). split; [exact Ho|].
  apply (proj1 (synch_safe machine_locks machine_roles (λ _, 0) sem_machine _
    sem_machine_started sem_machine_posted) 7 _ Ho).
Defined.

(** Thread 100 waits too, and then there is one V: the semaphore is available
    while thread 100 sleeps, and thread 103 is awake. *)
Definition sem_machine_two : sstate semaphore := after (after sem_machine (SopWait 7)) (SopPost 7).

Lemma sem_machine_two_reached : sreach machine_locks machine_roles (λ _ _, True) sem_machine sem_machine_two.
Proof.
  apply (sreach_ok _ _ _ _ (after sem_machine (SopWait 7)) (SopPost 7)); [| |done|by vm_compute].
  - apply (sreach_ok _ _ _ _ sem_machine (SopWait 7)); [constructor| |done|by vm_compute].
    split; [by eexists|]. exists 100. split; [|by vm_compute].
    eexists _, _. split; [split_and!; vm_compute; reflexivity|by split; vm_compute].
  - eexists. split; [vm_compute; reflexivity|done].
Qed.

Lemma no_lost_wakeup_witness :
  sem_count <$> sy_objs sem_machine_two !! 7 = Some 1 ∧ sy_wait sem_machine_two !! 100 = Some 7 ∧
  t_state <$> k_threads (sy_k sem_machine_two) !! 100 = Some S_SLEEP ∧
  ∃ t' y', sy_wait sem_machine_two !! t' = Some 7 ∧
    k_threads (sy_k sem_machine_two) !! t' = Some y' ∧ awake y'.
Proof.
  split; [vm_compute; reflexivity|]. split; [vm_compute; reflexivity|]. split; [vm_compute; reflexivity|].
  apply (no_lost_wakeup machine_locks machine_roles (λ _, 0) sem_machine sem_machine_two 7
    (Semaphore 33 46 1) 100 (Thread S_SLEEP (Some 1) (Some 5) false)).
  - exact sem_machine_started.
  - exact sem_machine_two_reached.
  - vm_compute; reflexivity.
  - reflexivity.
  - vm_compute; reflexivity.
  - vm_compute; reflexivity.
  - reflexivity.
Defined.

(** Processor 2 runs the thread that the V woke up. *)
Definition sem_machine_woken : sstate semaphore :=
  after (after (after sem_machine (SopPost 7)) (SopK (OpTurn 2))) (SopK OpYield).

Lemma sem_machine_reached : started machine_locks machine_roles (λ _, 0) sem_machine_woken.
Proof.
  eapply (sreach_inv _ _ _ (λ _ _, True)); [exact sem_machine_started|].
  apply (sreach_ok _ _ _ _ (after (after sem_machine (SopPost 7)) (SopK (OpTurn 2))) (SopK OpYield));
    [|split; [done|split; [intros ?? _ []|intros ? []]]|done|by vm_compute].
  apply (sreach_ok _ _ _ _ (after sem_machine (SopPost 7)) (SopK (OpTurn 2)));
    [exact sem_machine_posted| |done|by vm_compute].
  split; [by eexists|]. split; [intros ?? _ []|intros ? []].
Qed.

Lemma resume_takes_witness :
  ∃ s', resume sem_machine_woken = Ok true s' ∧ sy_wait s' !! 103 = None.
Proof.
  assert (Hrun : runs sem_machine_woken 103).
  { eexists _, _. split; [split_and!; vm_compute; reflexivity|by split; vm_compute]. }
  assert (Hw : sy_wait sem_machine_woken !! 103 = Some 7) by (by vm_compute).
  assert (Ho : sy_objs sem_machine_woken !! 7 = Some (Semaphore 33 46 1)) by (by vm_compute).
  destruct (resume_takes machine_locks machine_roles (λ _, 0) sem_machine_woken 103 7 (Semaphore 33 46 1)
    sem_machine_reached Hrun Hw Ho) as (s' & Hr & _ & H).
  rewrite (bool_decide_eq_true_2 (0 < w_count (Semaphore 33 46 1))) in Hr, H by done.
  exists s'. split; [exact Hr|exact (proj1 H)].
Defined.

Lemma lock_mutex_witness :
  (length (owners 7 (sy_log (after lock_machine (SopPost 7)))) ≤ 1)%nat.
Proof.
  apply (lock_mutex machine_locks machine_roles (λ _, 1) lock_machine (after lock_machine (SopPost 7)) 7
    (Lock 100 33 46 1)).
  - by apply machine_syn.
  - intros o. change (sy_log lock_machine) with [Took 100 7]. rewrite !tally_cons. cbn [owners took gave].
    by destruct (7 =? o).
  - apply (sreach_ok _ _ _ _ lock_machine (SopPost 7)); [constructor| | |by vm_compute].
    + eexists. split; [vm_compute; reflexivity|done].
    + intros k Hk. vm_compute in Hk. injection Hk as <-. cbn. left.
  - by vm_compute.
  - done.
Defined.
