(* ===== verification/Lhd.v ===== *)
(** * The disk driver

    kern/dev/lamebus/lhd.c: the driver of the LAMEbus hard disk, the device
    SFS volumes live on.  The hardware is not part of the sources: what it does
    with a command is the parameter [hw_exec] of the model.  The registers, the
    two semaphores and the interrupt handler are modelled, first for one
    request at a time and then for any number of threads, with the disk and its
    interrupt interleaved in every possible way.

    Two assumptions about the disk are used, and the theorems say which.
    [DiskAnswers]: every command ends with one of the status codes of lhd.c.
    [WorkingDisk]: on a sector that the disk has, that code is [LHD_OK] and the
    data are transferred.  The second is an assumption about a particular disk
    only: lhd.c allows for [LHD_MEDIA], a media error, at any time. *)

From S2P Require Import Prelude CopyInOut Uio.
Open Scope Z_scope.

Definition LHD_SECTSIZE : Z := 512.
Definition LHD_IDLE : Z := 0.
Definition LHD_WORKING : Z := 1.
Definition LHD_OK : Z := 4.
Definition LHD_INVSECT : Z := 12.
Definition LHD_MEDIA : Z := 20.
Definition LHD_ISWRITE : Z := 2.
Definition LHD_STATEMASK : Z := 0x1d.

(** The disk: [hw_exec statval sect buf d] does the operation [statval] (the
    value written to the status register) on sector [sect] with [buf] in the
    on-card buffer; it gives the status of the operation when it has ended, the
    buffer, and the disk afterwards. *)
Class DiskHw (HW : Type) := {
  hw_exec : Z → Z → list Z → HW → Z * list Z * HW;
  hw_sector : HW → Z → list Z;        (* what is recorded in a sector *)
  hw_nsect : HW → Z;                  (* the register LHD_REG_NSECT *)
}.

(** [struct lhd_softc], with the registers [LHD_REG_SECT] and [LHD_REG_STAT] of
    the card.  The semaphores are their counts; [lh_result] is 0 or an error
    code. *)
Record lhd_softc (HW : Type) := LhdSoftc {
  lh_buf : list Z;
  lh_result : option errno;
  lh_clear : Z;
  lh_done : Z;
  d_blocks : Z;
  lh_sect : Z;
  lh_stat : Z;
  lh_hw : HW;
}.
Arguments LhdSoftc {HW}.
Arguments lh_buf {HW}.
Arguments lh_result {HW}.
Arguments lh_clear {HW}.
Arguments lh_done {HW}.
Arguments d_blocks {HW}.
Arguments lh_sect {HW}.
Arguments lh_stat {HW}.
Arguments lh_hw {HW}.

Section lhd.
Context {HW : Type} `{!DiskHw HW}.
#[local] Abbreviation softc := (lhd_softc HW).

(** The request being served and the device. *)
Record lhdst := LhdSt { ls_u : uiost; ls_dev : softc }.

Definition on_uio {A} (m : M uiost A) : M lhdst A :=
  zoom ls_u (λ u s, LhdSt u (ls_dev s)) m.

Definition on_softc {A} (m : M softc A) : M lhdst A :=
  zoom ls_dev (λ d s, LhdSt (ls_u s) d) m.

Definition set_lh_buf (b : list Z) (d : softc) : softc :=
  LhdSoftc b (lh_result d) (lh_clear d) (lh_done d) (d_blocks d) (lh_sect d) (lh_stat d) (lh_hw d).
Definition set_lh_result (r : option errno) (d : softc) : softc :=
  LhdSoftc (lh_buf d) r (lh_clear d) (lh_done d) (d_blocks d) (lh_sect d) (lh_stat d) (lh_hw d).
Definition set_lh_clear (n : Z) (d : softc) : softc :=
  LhdSoftc (lh_buf d) (lh_result d) n (lh_done d) (d_blocks d) (lh_sect d) (lh_stat d) (lh_hw d).
Definition set_lh_done (n : Z) (d : softc) : softc :=
  LhdSoftc (lh_buf d) (lh_result d) (lh_clear d) n (d_blocks d) (lh_sect d) (lh_stat d) (lh_hw d).
Definition set_lh_sect (n : Z) (d : softc) : softc :=
  LhdSoftc (lh_buf d) (lh_result d) (lh_clear d) (lh_done d) (d_blocks d) n (lh_stat d) (lh_hw d).
Definition set_lh_stat (n : Z) (d : softc) : softc :=
  LhdSoftc (lh_buf d) (lh_result d) (lh_clear d) (lh_done d) (d_blocks d) (lh_sect d) n (lh_hw d).

(** ** The registers and the interrupt *)

Inductive lhd_reg := LHD_REG_NSECT | LHD_REG_STAT | LHD_REG_SECT.

Definition lhd_rdreg (reg : lhd_reg) : M softc Z :=
  d <- get ;;
  ret match reg with
      | LHD_REG_NSECT => hw_nsect (lh_hw d)
      | LHD_REG_STAT => lh_stat d
      | LHD_REG_SECT => lh_sect d
      end.

Definition lhd_wreg (reg : lhd_reg) (val : Z) : M softc unit :=
  match reg with
  | LHD_REG_NSECT => ret tt
  | LHD_REG_STAT => modify (set_lh_stat val)
  | LHD_REG_SECT => modify (set_lh_sect val)
  end.

Definition V_clear : M softc unit := d <- get ;; put (set_lh_clear (lh_clear d + 1) d).
Definition V_done : M softc unit := d <- get ;; put (set_lh_done (lh_done d + 1) d).

(** [None] is 0. *)
Definition lhd_code_to_errno (code : Z) : option errno :=
  let st := Z.land code LHD_STATEMASK in
  if st =? LHD_OK then None
  else if st =? LHD_INVSECT then Some EINVAL
  else if st =? LHD_MEDIA then Some EIO
  else Some EAGAIN.

Definition lhd_iodone (err : option errno) : M softc unit :=
  modify (set_lh_result err) ;;; V_done.

Definition lhd_irq : M softc unit :=
  val <- lhd_rdreg LHD_REG_STAT ;;
  let st := Z.land val LHD_STATEMASK in
  if (st =? LHD_IDLE) || (st =? LHD_WORKING) then ret tt
  else if (st =? LHD_OK) || (st =? LHD_INVSECT) || (st =? LHD_MEDIA) then
    lhd_wreg LHD_REG_STAT 0 ;;;
    lhd_iodone (lhd_code_to_errno val)
  else ret tt.

(** The disk ends the operation it works on: this is what the hardware does,
    not the driver. *)
Definition lhd_finish : M softc unit :=
  d <- get ;;
  if Z.land (lh_stat d) LHD_STATEMASK =? LHD_WORKING then
    let '(val, buf, hw) := hw_exec (lh_stat d) (lh_sect d) (lh_buf d) (lh_hw d) in
    put (LhdSoftc buf (lh_result d) (lh_clear d) (lh_done d) (d_blocks d) (lh_sect d) val hw)
  else ret tt.

(** ** Requests *)

(** [P(lh->lh_clear)] when only this thread uses the device: on a count of 0
    it sleeps for good. *)
Definition P_clear : M softc unit :=
  d <- get ;; if lh_clear d =? 0 then loops else put (set_lh_clear (lh_clear d - 1) d).

(** [P(lh->lh_done)]: on a count of 0 the thread sleeps, the disk ends the
    operation, and its interrupt runs [lhd_irq], which is what can wake the
    thread.  If the count is still 0, it sleeps for good. *)
Definition P_done : M softc unit :=
  d <- get ;;
  (if lh_done d =? 0 then lhd_finish ;;; lhd_irq else ret tt) ;;;
  d <- get ;; if lh_done d =? 0 then loops else put (set_lh_done (lh_done d - 1) d).

Definition lhd_eachopen (openflags : Z) : M softc unit := ret tt.
Definition lhd_ioctl (op data : Z) : M softc unit := fail EIOCTL.

(** [uiomove(lh->lh_buf, LHD_SECTSIZE, uio)] *)
Definition lhd_uiomove : M lhdst unit :=
  s <- get ;;
  b <- on_uio (uiomove (lh_buf (ls_dev s))) ;;
  on_softc (modify (set_lh_buf b)).

(** The loop of [lhd_io] between its two waits: fill the on-card buffer, and
    start the operation. *)
Definition lhd_begin (statval sect : Z) : M lhdst unit :=
  s <- get ;;
  (if decide (uio_rw (us_uio (ls_u s)) = UIO_WRITE) then
     r <- attempt lhd_uiomove ;;
     match r with
     | inl e => on_softc V_clear ;;; fail e
     | inr _ => ret tt
     end
   else ret tt) ;;;
  on_softc (lhd_wreg LHD_REG_SECT sect ;;; lhd_wreg LHD_REG_STAT statval).

(** ... and after the second: take the result, and let the next thread go. *)
Definition lhd_end : M lhdst unit :=
  s <- get ;;
  r <- match lh_result (ls_dev s) with
       | Some e => ret (inl e)
       | None => if decide (uio_rw (us_uio (ls_u s)) = UIO_READ) then attempt lhd_uiomove
                 else ret (inr tt)
       end ;;
  on_softc V_clear ;;;
  match r with
  | inl e => fail e
  | inr _ => ret tt
  end.

(** An iteration of the loop of [lhd_io]: the sector [sector + i]. *)
Definition lhd_io_sector (statval sector i : Z) : M lhdst unit :=
  on_softc P_clear ;;;
  lhd_begin statval (u32 (sector + i)) ;;;
  on_softc P_done ;;;
  lhd_end.

(** What [lhd_io] computes before its loop: the value for the status register,
    the first sector and the number of sectors. *)
Definition lhd_setup (u : uio) (d_blocks : Z) : errno + (Z * Z * Z) :=
  let sector := u32 (Z.quot (uio_offset u) LHD_SECTSIZE) in
  let sectoff := u32 (Z.rem (uio_offset u) LHD_SECTSIZE) in
  let len := uio_resid u / LHD_SECTSIZE in
  let lenoff := uio_resid u mod LHD_SECTSIZE in
  if negb (sectoff =? 0) || negb (lenoff =? 0) then inl EINVAL
  else if d_blocks <? u32 (sector + len) then inl EINVAL
  else
    let statval := if decide (uio_rw u = UIO_WRITE)
                   then Z.lor LHD_WORKING LHD_ISWRITE else LHD_WORKING in
    inr (statval, sector, len).

Definition lhd_io : M lhdst unit :=
  s <- get ;;
  match lhd_setup (us_uio (ls_u s)) (d_blocks (ls_dev s)) with
  | inl e => fail e
  | inr (statval, sector, len) => for_range (Z.to_nat len) 0 (lhd_io_sector statval sector)
  end.

(** [config_lhd] up to the registration with the VFS layer: [mem1] and [mem2]
    say whether the two semaphores can be allocated. *)
Definition config_lhd (mem1 mem2 : bool) (buf : list Z) (hw : HW) : errno + softc :=
  if mem1 then
    if mem2 then inr (LhdSoftc buf None 1 0 (hw_nsect hw) 0 LHD_IDLE hw)
    else inl ENOMEM
  else inl ENOMEM.

End lhd.
Arguments lhdst HW : clear implicits.

(** ** What is assumed of the hardware *)

(** A disk that always answers with one of its status codes, errors included. *)
Class DiskAnswers (HW : Type) `{!DiskHw HW} := {
  hw_answers : ∀ st k buf (d : HW),
    Z.land (hw_exec st k buf d).1.1 LHD_STATEMASK = LHD_OK ∨
    Z.land (hw_exec st k buf d).1.1 LHD_STATEMASK = LHD_INVSECT ∨
    Z.land (hw_exec st k buf d).1.1 LHD_STATEMASK = LHD_MEDIA;
}.

(** A disk without faults: an operation on a sector the disk has ends with
    status [LHD_OK]; a read delivers the recorded sector and a write records
    the buffer, and neither touches another sector.  This excludes media
    errors, which real disks have. *)
Class WorkingDisk (HW : Type) `{!DiskHw HW} := {
  hw_sector_len : ∀ (d : HW) k, length (hw_sector d k) = 512%nat;
  hw_read_ok : ∀ (d : HW) k buf, 0 ≤ k < hw_nsect d →
    ∃ val d', hw_exec LHD_WORKING k buf d = (val, hw_sector d k, d') ∧
      Z.land val LHD_STATEMASK = LHD_OK ∧ hw_nsect d' = hw_nsect d ∧
      ∀ j, hw_sector d' j = hw_sector d j;
  hw_write_ok : ∀ (d : HW) k buf, 0 ≤ k < hw_nsect d → length buf = 512%nat →
    ∃ val buf' d',
      hw_exec (Z.lor LHD_WORKING LHD_ISWRITE) k buf d = (val, buf', d') ∧
      length buf' = 512%nat ∧
      Z.land val LHD_STATEMASK = LHD_OK ∧ hw_nsect d' = hw_nsect d ∧
      ∀ j, hw_sector d' j = if j =? k then buf else hw_sector d j;
}.

(** ** Two disks

    [ramdisk] works; [flakydisk] reports a media error for each
    operation its list says so. *)

Definition zero_sector : list Z := replicate 512 0.

Definition fit_sector (b : list Z) : list Z := take 512 (b ++ zero_sector).

Record ramdisk := RamDisk { rd_nsect : Z; rd_data : gmap Z (list Z) }.

Definition rd_sector (d : ramdisk) (k : Z) : list Z :=
  fit_sector (default zero_sector (rd_data d !! k)).

#[global] Instance ramdisk_hw : DiskHw ramdisk := {|
  hw_exec st k buf d :=
    if (0 <=? k) && (k <? rd_nsect d) then
      if Z.land st LHD_ISWRITE =? 0 then (LHD_OK, rd_sector d k, d)
      else (LHD_OK, fit_sector buf, RamDisk (rd_nsect d) (<[k := buf]> (rd_data d)))
    else (LHD_INVSECT, buf, d);
  hw_sector := rd_sector;
  hw_nsect := rd_nsect;
|}.

Record flakydisk := FlakyDisk { fd_disk : ramdisk; fd_fails : list bool }.

#[global] Instance flakydisk_hw : DiskHw flakydisk := {|
  hw_exec st k buf d :=
    match fd_fails d with
    | true :: rest => (LHD_MEDIA, buf, FlakyDisk (fd_disk d) rest)
    | _ => let '(val, buf', d') := hw_exec st k buf (fd_disk d) in
           (val, buf', FlakyDisk d' (tail (fd_fails d)))
    end;
  hw_sector d := rd_sector (fd_disk d);
  hw_nsect d := rd_nsect (fd_disk d);
|}.

Lemma fit_sector_len b : length (fit_sector b) = 512%nat.
Proof.
  unfold fit_sector, zero_sector. rewrite length_take, length_app, length_replicate.
  lia.
Qed.

Lemma fit_sector_id b : length b = 512%nat → fit_sector b = b.
Proof. intros H. unfold fit_sector. by apply take_app_length'. Qed.

#[global] Instance ramdisk_laws : WorkingDisk ramdisk.
Proof.
  split.
  - intros d k. apply fit_sector_len.
  - intros d k buf Hk. cbn in *.
    rewrite (proj2 (Z.leb_le 0 k)), (proj2 (Z.ltb_lt k _)) by lia. cbn.
    by eexists _, _.
  - intros d k buf Hk Hl. cbn in *.
    rewrite (proj2 (Z.leb_le 0 k)), (proj2 (Z.ltb_lt k _)) by lia. cbn.
    eexists _, _, _. split; [done|]. split; [apply fit_sector_len|].
    split; [done|]. split; [done|]. intros j. unfold rd_sector. cbn.
    destruct (Z.eqb_spec j k) as [->|].
    + rewrite lookup_insert_eq. by apply fit_sector_id.
    + by rewrite lookup_insert_ne.
Qed.

#[global] Instance flakydisk_answers : DiskAnswers flakydisk.
Proof.
  split. intros st k buf [d fails]. cbn.
  destruct fails as [|[] fails]; cbn; auto;
    (destruct ((0 <=? k) && (k <? rd_nsect d)); [|by auto]);
    destruct (Z.land st LHD_ISWRITE =? 0); by left.
Qed.

(** ** Threads, the disk and its interrupt

    Any number of threads are inside [lhd_io], each at one of four points of its
    loop.  A thread goes on from a [P] only when the count is positive; the disk
    may end its operation and the interrupt handler may run at any time. *)

Inductive lpc := AtClear | AtBegin | AtDone | AtEnd | Returned (r : option errno).

Section handshake.
Context {HW : Type} `{!DiskHw HW}.

(** A thread in [lhd_io], at sector [lt_sector + lt_i]. *)
Record lthread := LThread {
  lt_pc : lpc;
  lt_u : uiost;
  lt_statval : Z;
  lt_sector : Z;
  lt_len : Z;
  lt_i : Z;
}.

Record lsys := LSys { ly_dev : lhd_softc HW; ly_threads : gmap Z lthread }.

Definition lt_sect (th : lthread) : Z := u32 (lt_sector th + lt_i th).

Definition goto (pc : lpc) (u : uiost) (th : lthread) : lthread :=
  LThread pc u (lt_statval th) (lt_sector th) (lt_len th) (lt_i th).

Definition set_thread (t : Z) (th : lthread) (d : lhd_softc HW) (s : lsys) : lsys :=
  LSys d (<[t := th]> (ly_threads s)).

(** The end of an iteration. *)
Definition next_sector (u : uiost) (th : lthread) : lthread :=
  if lt_i th + 1 <? lt_len th
  then LThread AtClear u (lt_statval th) (lt_sector th) (lt_len th) (lt_i th + 1)
  else goto (Returned None) u th.

Inductive lstep (s : lsys) : lsys → Prop :=
  | step_call t u statval sector len :
      (∀ th, ly_threads s !! t = Some th → ∃ r, lt_pc th = Returned r) →
      lhd_setup (us_uio u) (d_blocks (ly_dev s)) = inr (statval, sector, len) → 0 < len →
      lstep s (set_thread t (LThread AtClear u statval sector len 0) (ly_dev s) s)
  | step_clear t th :
      ly_threads s !! t = Some th → lt_pc th = AtClear → 0 < lh_clear (ly_dev s) →
      lstep s (set_thread t (goto AtBegin (lt_u th) th)
                 (set_lh_clear (lh_clear (ly_dev s) - 1) (ly_dev s)) s)
  | step_begin t th u d :
      ly_threads s !! t = Some th → lt_pc th = AtBegin →
      lhd_begin (lt_statval th) (lt_sect th) (LhdSt (lt_u th) (ly_dev s)) = Ok tt (LhdSt u d) →
      lstep s (set_thread t (goto AtDone u th) d s)
  | step_begin_err t th e u d :
      ly_threads s !! t = Some th → lt_pc th = AtBegin →
      lhd_begin (lt_statval th) (lt_sect th) (LhdSt (lt_u th) (ly_dev s)) = Err e (LhdSt u d) →
      lstep s (set_thread t (goto (Returned (Some e)) u th) d s)
  | step_done t th :
      ly_threads s !! t = Some th → lt_pc th = AtDone → 0 < lh_done (ly_dev s) →
      lstep s (set_thread t (goto AtEnd (lt_u th) th)
                 (set_lh_done (lh_done (ly_dev s) - 1) (ly_dev s)) s)
  | step_end t th u d :
      ly_threads s !! t = Some th → lt_pc th = AtEnd →
      lhd_end (LhdSt (lt_u th) (ly_dev s)) = Ok tt (LhdSt u d) →
      lstep s (set_thread t (next_sector u th) d s)
  | step_end_err t th e u d :
      ly_threads s !! t = Some th → lt_pc th = AtEnd →
      lhd_end (LhdSt (lt_u th) (ly_dev s)) = Err e (LhdSt u d) →
      lstep s (set_thread t (goto (Returned (Some e)) u th) d s)
  | step_disk d :
      lhd_finish (ly_dev s) = Ok tt d → lstep s (LSys d (ly_threads s))
  | step_irq d :
      lhd_irq (ly_dev s) = Ok tt d → lstep s (LSys d (ly_threads s)).

(** The steps of the disk and of its interrupt alone. *)
Inductive hwstep (s : lsys) : lsys → Prop :=
  | hw_disk d : lhd_finish (ly_dev s) = Ok tt d → hwstep s (LSys d (ly_threads s))
  | hw_irq d : lhd_irq (ly_dev s) = Ok tt d → hwstep s (LSys d (ly_threads s)).

(** A thread that has the device. *)
Definition busy (th : lthread) : Prop :=
  lt_pc th = AtBegin ∨ lt_pc th = AtDone ∨ lt_pc th = AtEnd.

(** No operation runs and no completion is pending. *)
Definition quiet (d : lhd_softc HW) : Prop := lh_done d = 0 ∧ lh_stat d = LHD_IDLE.

(** The buffer and the disk are those that the operation of [th] left, with
    status [val]. *)
Definition ran (th : lthread) (val : Z) (d : lhd_softc HW) : Prop :=
  ∃ buf hw, hw_exec (lt_statval th) (lt_sect th) buf hw = (val, lh_buf d, lh_hw d).

(** The operation of [th] runs, has ended with the interrupt to come, or is
    reported. *)
Definition inflight (th : lthread) (d : lhd_softc HW) : Prop :=
  lh_done d = 0 ∧ lh_stat d = lt_statval th ∧ lh_sect d = lt_sect th ∨
  lh_done d = 0 ∧ ran th (lh_stat d) d ∨
  lh_done d = 1 ∧ lh_stat d = LHD_IDLE ∧ ∃ val, ran th val d ∧ lh_result d = lhd_code_to_errno val.

Definition phase (th : lthread) (d : lhd_softc HW) : Prop :=
  match lt_pc th with
  | AtDone => inflight th d
  | AtEnd => quiet d ∧ ∃ val, ran th val d ∧ lh_result d = lhd_code_to_errno val
  | _ => quiet d
  end.

Record linv (s : lsys) : Prop := LInv {
  li_stat : ∀ t th, ly_threads s !! t = Some th → Z.land (lt_statval th) LHD_STATEMASK = LHD_WORKING;
  li_one : ∀ t t' th th', ly_threads s !! t = Some th → ly_threads s !! t' = Some th' →
    busy th → busy th' → t = t';
  li_clear : lh_clear (ly_dev s) = 1 ∧ quiet (ly_dev s) ∧ (∀ t th, ly_threads s !! t = Some th → ¬ busy th) ∨
    lh_clear (ly_dev s) = 0 ∧ ∃ t th, ly_threads s !! t = Some th ∧ busy th ∧ phase th (ly_dev s);
}.

(** *** What the parts of the loop do to the device *)

Definition same_dev (c : Z) (d d' : lhd_softc HW) : Prop :=
  lh_clear d' = lh_clear d + c ∧ lh_done d' = lh_done d ∧ lh_stat d' = lh_stat d.

Lemma lhd_uiomove_dev u d :
  wp (λ _, True) lhd_uiomove (λ _ s, same_dev 0 d (ls_dev s)) (λ _ s, same_dev 0 d (ls_dev s)) (LhdSt u d).
Proof.
  unfold lhd_uiomove, on_uio. wps. unfold wp, same_dev.
  destruct (uiomove _ _); cbn; try done; lia.
Qed.

Lemma V_clear_dev C c d s :
  same_dev c d (ls_dev s) → wp C (on_softc V_clear) (λ _ s', same_dev (c + 1) d (ls_dev s')) no_err s.
Proof. unfold wp, same_dev. cbn. intros (-> & ? & ?). split; [lia|done]. Qed.

Lemma lhd_begin_dev st k u d :
  wp (λ _, True) (lhd_begin st k)
    (λ _ s, lh_clear (ls_dev s) = lh_clear d ∧ lh_done (ls_dev s) = lh_done d ∧
       lh_stat (ls_dev s) = st ∧ lh_sect (ls_dev s) = k)
    (λ _ s, same_dev 1 d (ls_dev s)) (LhdSt u d).
Proof.
  unfold lhd_begin. wps.
  eapply (wp_mono (λ _, True) _ _ (λ _ s, same_dev 0 d (ls_dev s)) _ (λ _ s, same_dev 1 d (ls_dev s))).
  - destruct (decide _); [|wps; by split; [cbn; lia|]]. wps.
    wp_call lhd_uiomove_dev; [by intros []| |done]. intros err s Hs. wps.
    wp_call (V_clear_dev (λ _, True) 0); [exact Hs|by intros []|done|done].
  - intros [] s (Hc & Hd & _). unfold wp. cbn. split_and!; [lia|done..].
  - done.
  - done.
Qed.

Lemma lhd_end_dev u d :
  wp (λ _, True) lhd_end (λ _ s, same_dev 1 d (ls_dev s)) (λ _ s, same_dev 1 d (ls_dev s)) (LhdSt u d).
Proof.
  unfold lhd_end. wps.
  eapply (wp_mono (λ _, True) _ _ (λ _ s, same_dev 0 d (ls_dev s)) _ no_err).
  - assert (H0 : same_dev 0 d d) by (split; [lia|done]). cbn. destruct (lh_result d); [by wps|].
    destruct (decide _); [|by wps]. wps. by wp_call lhd_uiomove_dev.
  - intros r s Hs. wps. wp_call (V_clear_dev (λ _, True) 0); [exact Hs| |done|done].
    intros [] s' Hs'. destruct r; by wps.
  - done.
  - done.
Qed.

(** *** The invariant is kept *)

Lemma linv_busy s t th :
  linv s → ly_threads s !! t = Some th → busy th → lh_clear (ly_dev s) = 0 ∧ phase th (ly_dev s).
Proof.
  intros Hi Ht Hb. destruct (li_clear _ Hi) as [(_ & _ & Hno)|(Hc & t' & th' & Ht' & Hb' & Hp)].
  - by destruct (Hno t th).
  - assert (t' = t) as -> by (by eapply (li_one _ Hi)). rewrite Ht in Ht'. by injection Ht' as <-.
Qed.

(** The thread that has the device goes on. *)
Lemma linv_go s t th th' d' :
  linv s → ly_threads s !! t = Some th → busy th → lt_statval th' = lt_statval th →
  (busy th' ∧ lh_clear d' = 0 ∧ phase th' d' ∨ ¬ busy th' ∧ lh_clear d' = 1 ∧ quiet d') →
  linv (set_thread t th' d' s).
Proof.
  intros Hi Ht Hb Hst Hor.
  assert (Hoth : ∀ t' th2, ly_threads s !! t' = Some th2 → t' ≠ t → ¬ busy th2).
  { intros t' th2 H2 Hne Hb2. apply Hne. by eapply (li_one _ Hi). }
  split; cbn [set_thread ly_threads ly_dev].
  - intros t' th2 [[<- <-]|[_ H2]]%lookup_insert_Some; [rewrite Hst|]; by eapply (li_stat _ Hi).
  - intros t1 t2 th1 th2 [[<- <-]|[Hn1 H1]]%lookup_insert_Some [[<- <-]|[Hn2 H2]]%lookup_insert_Some Hb1 Hb2.
    + done.
    + by destruct (Hoth t2 th2).
    + by destruct (Hoth t1 th1).
    + by destruct (Hoth t1 th1).
  - destruct Hor as [(Hb' & Hc & Hp)|(Hnb & Hc & Hq)]; [right|left].
    + split; [done|]. exists t, th'. by rewrite lookup_insert_eq.
    + split_and!; [done..|]. intros t' th2 [[<- <-]|[Hne H2]]%lookup_insert_Some; [done|].
      by eapply Hoth.
Qed.

(** A thread that does not have the device. *)
Lemma linv_idle s t th' :
  linv s → (∀ th, ly_threads s !! t = Some th → ¬ busy th) → ¬ busy th' →
  Z.land (lt_statval th') LHD_STATEMASK = LHD_WORKING → linv (set_thread t th' (ly_dev s) s).
Proof.
  intros Hi Hold Hnb Hst. split; cbn [set_thread ly_threads ly_dev].
  - intros t' th2 [[<- <-]|[_ H2]]%lookup_insert_Some; [done|]. by eapply (li_stat _ Hi).
  - intros t1 t2 th1 th2 [[<- <-]|[Hn1 H1]]%lookup_insert_Some [[<- <-]|[Hn2 H2]]%lookup_insert_Some Hb1 Hb2;
      [done..|]. by eapply (li_one _ Hi).
  - destruct (li_clear _ Hi) as [(Hc & Hq & Hno)|(Hc & t' & th & Ht & Hb & Hp)]; [left|right].
    + split_and!; [done..|]. intros t' th2 [[<- <-]|[Hne H2]]%lookup_insert_Some; [done|by eapply Hno].
    + split; [done|]. exists t', th. rewrite lookup_insert_ne; [done|]. intros ->. by apply (Hold th).
Qed.

Lemma setup_statval u n st sector len :
  lhd_setup u n = inr (st, sector, len) → Z.land st LHD_STATEMASK = LHD_WORKING.
Proof.
  unfold lhd_setup. destruct (_ || _); [done|]. destruct (_ <? _); [done|].
  intros [= <- _ _]. by destruct (decide _).
Qed.

Context `{!DiskAnswers HW}.

Lemma answers_code th val d :
  ran th val d → Z.land val LHD_STATEMASK = LHD_OK ∨ Z.land val LHD_STATEMASK = LHD_INVSECT ∨
    Z.land val LHD_STATEMASK = LHD_MEDIA.
Proof.
  intros (buf & hw & Hx). pose proof (hw_answers (lt_statval th) (lt_sect th) buf hw) as Ha.
  by rewrite Hx in Ha.
Qed.

Lemma quiet_hw d d' :
  quiet d → lhd_finish d = Ok tt d' ∨ lhd_irq d = Ok tt d' → d' = d.
Proof.
  intros [_ Hs]. unfold lhd_finish, lhd_irq, lhd_rdreg, bind, get, ret. rewrite Hs. cbn.
  by intros [[= ->]|[= ->]].
Qed.

(** An operation that ended: the handler reports it. *)
Lemma irq_ended th d d' :
  lh_done d = 0 → ran th (lh_stat d) d → lhd_irq d = Ok tt d' →
  lh_clear d' = lh_clear d ∧ lh_done d' = 1 ∧ lh_stat d' = LHD_IDLE ∧
  ran th (lh_stat d) d' ∧ lh_result d' = lhd_code_to_errno (lh_stat d).
Proof.
  intros Hd Hr. pose proof (answers_code _ _ _ Hr) as Ha.
  unfold lhd_irq, lhd_rdreg, bind, get, ret.
  replace ((_ =? LHD_IDLE) || (_ =? LHD_WORKING)) with false
    by (by destruct Ha as [->|[->| ->]]).
  replace ((_ =? LHD_OK) || (_ =? LHD_INVSECT) || (_ =? LHD_MEDIA)) with true
    by (by destruct Ha as [->|[->| ->]]).
  cbn. rewrite Hd. intros [= <-]. split_and!; [done..| |done].
  destruct Hr as (buf & hw & Hx). by exists buf, hw.
Qed.

(** The disk ends what it works on. *)
Lemma finish_working th d :
  Z.land (lt_statval th) LHD_STATEMASK = LHD_WORKING →
  lh_done d = 0 → lh_stat d = lt_statval th → lh_sect d = lt_sect th →
  ∃ d', lhd_finish d = Ok tt d' ∧ lh_clear d' = lh_clear d ∧ lh_done d' = 0 ∧ ran th (lh_stat d') d'.
Proof.
  intros Hw Hd Hs Hk. unfold lhd_finish, bind, get. rewrite Hs, Hw. cbn [Z.eqb LHD_WORKING Pos.eqb].
  destruct (hw_exec _ _ _ _) as [[val buf] hw] eqn:Hx. eexists. split; [reflexivity|].
  split_and!; [done..|]. exists (lh_buf d), (lh_hw d). cbn. by rewrite <-Hk.
Qed.

Lemma busy_hw th d d' :
  Z.land (lt_statval th) LHD_STATEMASK = LHD_WORKING → phase th d →
  lhd_finish d = Ok tt d' ∨ lhd_irq d = Ok tt d' → lh_clear d' = lh_clear d ∧ phase th d'.
Proof.
  intros Hw Hp Hstep. unfold phase in *. destruct (lt_pc th);
    try (by rewrite (quiet_hw d d' Hp Hstep)); [|by rewrite (quiet_hw d d' (proj1 Hp) Hstep)].
  destruct Hp as [(Hd & Hs & Hk)|[(Hd & Hr)|(Hd & Hs & Hv)]].
  - destruct Hstep as [Hf|Hirq].
    + destruct (finish_working th d Hw Hd Hs Hk) as (d1 & H1 & Hc & Hd1 & Hr1).
      rewrite H1 in Hf. injection Hf as <-. split; [done|]. right. by left.
    + assert (d' = d) as ->; [|split; [done|by left]].
      unfold lhd_irq, lhd_rdreg, bind, get, ret in Hirq. rewrite Hs, Hw in Hirq. by injection Hirq.
  - destruct Hstep as [Hf|Hirq].
    + assert (d' = d) as ->; [|split; [done|right; by left]].
      pose proof (answers_code _ _ _ Hr) as Ha. unfold lhd_finish, bind, get in Hf.
      replace (_ =? LHD_WORKING) with false in Hf by (by destruct Ha as [->|[->| ->]]).
      by injection Hf.
    + destruct (irq_ended th d d' Hd Hr Hirq) as (? & ? & ? & Hr' & He). split; [done|].
      right; right. split_and!; [done..|]. by exists (lh_stat d).
  - assert (d' = d) as ->; [|split; [done|right; right; done]].
    unfold lhd_finish, lhd_irq, lhd_rdreg, bind, get, ret in Hstep. rewrite Hs in Hstep. cbn in Hstep.
    by destruct Hstep as [[= ->]|[= ->]].
Qed.

Lemma linv_hw s d :
  linv s → lhd_finish (ly_dev s) = Ok tt d ∨ lhd_irq (ly_dev s) = Ok tt d →
  linv (LSys d (ly_threads s)).
Proof.
  intros Hi Hstep. split; [apply Hi|apply Hi|]. cbn [ly_dev ly_threads].
  destruct (li_clear _ Hi) as [(Hc & Hq & Hno)|(Hc & t & th & Ht & Hb & Hp)]; [left|right].
  - by rewrite (quiet_hw _ _ Hq Hstep).
  - destruct (busy_hw th _ d (li_stat _ Hi t th Ht) Hp Hstep) as [-> Hp']. split; [done|]. by exists t, th.
Qed.

Lemma not_busy_returned r u th : ¬ busy (goto (Returned r) u th).
Proof. intros [|[|]]; done. Qed.

Lemma linv_step s s' : linv s → lstep s s' → linv s'.
Proof.
  intros Hi Hstep. destruct Hstep as [t u st sector len Ht Hs Hl|t th Ht Hpc Hc|t th u d Ht Hpc Hr
    |t th e u d Ht Hpc Hr|t th Ht Hpc Hd|t th u d Ht Hpc Hr|t th e u d Ht Hpc Hr|d Hd|d Hd].
  - apply linv_idle; [done|by intros th [r Hr]%Ht [Hb|[Hb|Hb]]; rewrite Hr in Hb|by intros [|[|]]|]. cbn. by eapply setup_statval.
  - destruct (li_clear _ Hi) as [(Hc1 & Hq & Hno)|(Hc0 & _)]; [|lia].
    split; cbn [set_thread ly_threads ly_dev].
    + intros t' th2 [[<- <-]|[_ H2]]%lookup_insert_Some; [exact (li_stat _ Hi t th Ht)|by eapply (li_stat _ Hi)].
    + intros t1 t2 th1 th2 [[<- <-]|[Hn1 H1]]%lookup_insert_Some [[<- <-]|[Hn2 H2]]%lookup_insert_Some Hb1 Hb2;
        [done|by destruct (Hno t2 th2)|by destruct (Hno t1 th1)|by destruct (Hno t1 th1)].
    + right. split; [cbn; lia|]. exists t, (goto AtBegin (lt_u th) th). rewrite lookup_insert_eq.
      split; [done|]. split; [by left|]. exact Hq.
  - assert (Hb : busy th) by (by left). destruct (linv_busy s t th Hi Ht Hb) as [Hc Hp].
    unfold phase in Hp. rewrite Hpc in Hp. pose proof (lhd_begin_dev (lt_statval th) (lt_sect th) (lt_u th) (ly_dev s)) as Hw.
    unfold wp in Hw. rewrite Hr in Hw. destruct Hw as (Hc' & Hd' & Hs' & Hk').
    eapply linv_go; [done..|]. left. split; [right; by left|]. cbn in *. split; [lia|].
    left. cbn. destruct Hp. split_and!; [lia|done|done].
  - assert (Hb : busy th) by (by left). destruct (linv_busy s t th Hi Ht Hb) as [Hc Hp].
    unfold phase in Hp. rewrite Hpc in Hp. pose proof (lhd_begin_dev (lt_statval th) (lt_sect th) (lt_u th) (ly_dev s)) as Hw.
    unfold wp in Hw. rewrite Hr in Hw. destruct Hw as (Hc' & Hd' & Hs'). cbn in *.
    eapply linv_go; [done..|]. right. split; [apply not_busy_returned|]. destruct Hp.
    split; [lia|]. split; congruence.
  - assert (Hb : busy th) by (right; by left). destruct (linv_busy s t th Hi Ht Hb) as [Hc Hp].
    unfold phase in Hp. rewrite Hpc in Hp. eapply linv_go; [done..|]. left. split; [right; by right|].
    cbn. split; [done|]. destruct Hp as [(? & _)|[(? & _)|(Hd1 & Hs & Hv)]]; [lia..|].
    split; [split; cbn; [lia|done]|exact Hv].
  - assert (Hb : busy th) by (right; by right). destruct (linv_busy s t th Hi Ht Hb) as [Hc Hp].
    unfold phase in Hp. rewrite Hpc in Hp. destruct Hp as [Hq _].
    pose proof (lhd_end_dev (lt_u th) (ly_dev s)) as Hw. unfold wp in Hw. rewrite Hr in Hw.
    destruct Hw as (Hc' & Hd' & Hs'). cbn in *. destruct Hq.
    eapply linv_go; [done..|unfold next_sector; by destruct (_ <? _)|].
    right. split; [|split; [lia|split; congruence]]. unfold next_sector.
    destruct (_ <? _); [by intros [|[|]]|apply not_busy_returned].
  - assert (Hb : busy th) by (right; by right). destruct (linv_busy s t th Hi Ht Hb) as [Hc Hp].
    unfold phase in Hp. rewrite Hpc in Hp. destruct Hp as [Hq _].
    pose proof (lhd_end_dev (lt_u th) (ly_dev s)) as Hw. unfold wp in Hw. rewrite Hr in Hw.
    destruct Hw as (Hc' & Hd' & Hs'). cbn in *. destruct Hq.
    eapply linv_go; [done..|]. right. split; [apply not_busy_returned|]. split; [lia|split; congruence].
  - apply linv_hw; [done|by left].
  - apply linv_hw; [done|by right].
Qed.

(** The device as [config_lhd] sets it up, and no thread in [lhd_io]. *)
Definition lstart (s : lsys) : Prop :=
  lh_clear (ly_dev s) = 1 ∧ quiet (ly_dev s) ∧ ly_threads s = ∅.

Lemma lreach_inv s0 s : lstart s0 → rtc lstep s0 s → linv s.
Proof.
  intros (Hc & Hq & He) Hr. assert (H0 : linv s0).
  { split; [rewrite He; done..|]. left. split_and!; [done..|]. intros t th Hx. by rewrite He, lookup_empty in Hx. }
  clear Hc Hq He. induction Hr as [|s1 s2 s3 Hs _ IH]; [done|]. apply IH. by eapply linv_step.
Qed.

(** Whatever the disk was doing, after at most two steps of the hardware the
    thread is told. *)
Lemma inflight_told s t th :
  linv s → ly_threads s !! t = Some th → lt_pc th = AtDone →
  ∃ s', rtc hwstep s s' ∧ ly_threads s' = ly_threads s ∧ lh_done (ly_dev s') = 1.
Proof.
  intros Hi Ht Hpc. assert (Hb : busy th) by (right; by left).
  destruct (linv_busy s t th Hi Ht Hb) as [_ Hp]. unfold phase in Hp. rewrite Hpc in Hp.
  assert (Hirq : ∀ d, lh_done d = 0 → ran th (lh_stat d) d → ∃ d', lhd_irq d = Ok tt d' ∧ lh_done d' = 1).
  { intros d Hd Hr. destruct (lhd_irq d) as [[] d'|e d'|c] eqn:He.
    - exists d'. split; [done|]. by destruct (irq_ended th d d' Hd Hr He) as (_ & ? & _).
    - unfold lhd_irq, lhd_rdreg, bind, get, ret in He.
      destruct (_ || _) in He; [done|]. by destruct (_ || _) in He.
    - unfold lhd_irq, lhd_rdreg, bind, get, ret in He.
      destruct (_ || _) in He; [done|]. by destruct (_ || _) in He. }
  destruct Hp as [(Hd & Hs & Hk)|[(Hd & Hr)|(Hd & _)]].
  - destruct (finish_working th (ly_dev s) (li_stat _ Hi t th Ht) Hd Hs Hk) as (d1 & H1 & _ & Hd1 & Hr1).
    destruct (Hirq d1 Hd1 Hr1) as (d2 & H2 & Hd2). exists (LSys d2 (ly_threads s)). split; [|done].
    eapply rtc_l; [by apply hw_disk|]. apply rtc_once. by apply (hw_irq (LSys d1 (ly_threads s))).
  - destruct (Hirq (ly_dev s) Hd Hr) as (d2 & H2 & Hd2). exists (LSys d2 (ly_threads s)). split; [|done].
    apply rtc_once. by apply hw_irq.
  - by exists s.
Qed.

(** C29: the protocol of the driver with its disk, for any number of threads in
    [lhd_io] and any order of their steps, of the disk's and of its interrupt's.
    At most one thread is between its two semaphores, and the device is free
    when none is: every way out of the loop, errors included, gives it back.  The interrupt that a
    thread waits for has come, or the disk and its interrupt bring it without
    the help of any other thread: no completion is lost.  And what a thread
    finds in the result and in the buffer is what its own operation left
    there. *)
Theorem lhd_handshake s0 s :
  lstart s0 → rtc lstep s0 s →
  (∀ t t' th th', ly_threads s !! t = Some th → ly_threads s !! t' = Some th' →
     busy th → busy th' → t = t') ∧
  (lh_clear (ly_dev s) = 1 ∨ ∃ t th, ly_threads s !! t = Some th ∧ busy th) ∧
  (∀ t th, ly_threads s !! t = Some th → lt_pc th = AtDone →
     ∃ s', rtc hwstep s s' ∧ ly_threads s' = ly_threads s ∧ lh_done (ly_dev s') = 1) ∧
  (∀ t th, ly_threads s !! t = Some th → lt_pc th = AtEnd →
     ∃ val, ran th val (ly_dev s) ∧ lh_result (ly_dev s) = lhd_code_to_errno val).
Proof.
  intros H0 Hr. pose proof (lreach_inv s0 s H0 Hr) as Hi. split_and!.
  - apply (li_one _ Hi).
  - destruct (li_clear _ Hi) as [[Hc _]|(_ & t & th & Ht & Hb & _)]; [by left|right]. by exists t, th.
  - intros t th Ht Hpc. by apply (inflight_told s t th).
  - intros t th Ht Hpc. assert (Hb : busy th) by (right; by right).
    destruct (linv_busy s t th Hi Ht Hb) as [_ Hp]. unfold phase in Hp. rewrite Hpc in Hp. apply Hp.
Qed.

End handshake.

(** ** One request at a time *)

Section alone.
Context {HW : Type} `{!DiskHw HW}.

Lemma ok_errno val : Z.land val LHD_STATEMASK = LHD_OK → lhd_code_to_errno val = None.
Proof. unfold lhd_code_to_errno. by intros ->. Qed.

Lemma media_errno val : Z.land val LHD_STATEMASK = LHD_MEDIA → lhd_code_to_errno val = Some EIO.
Proof. unfold lhd_code_to_errno. by intros ->. Qed.

(** Nobody uses the device. *)
Definition dev_idle (d : lhd_softc HW) : Prop := lh_clear d = 1 ∧ quiet d.

Lemma P_clear_wp C (Q : unit → lhdst HW → Prop) E u d :
  lh_clear d = 1 → Q tt (LhdSt u (set_lh_clear 0 d)) → wp C (on_softc P_clear) Q E (LhdSt u d).
Proof.
  intros Hc HQ. apply wp_zoom. unfold P_clear. wps. cbn. rewrite Hc. cbn. by wps.
Qed.

(** A finished operation with status [val]. *)
Definition ended (k val : Z) (buf : list Z) (hw : HW) (d : lhd_softc HW) : lhd_softc HW :=
  LhdSoftc buf (lhd_code_to_errno val) (lh_clear d) 0 (d_blocks d) k LHD_IDLE hw.

(** Starting an operation and waiting for it. *)
Lemma P_done_wp C st k d val buf' hw' (Q : unit → lhd_softc HW → Prop) E :
  lh_done d = 0 → Z.land st LHD_STATEMASK = LHD_WORKING →
  hw_exec st k (lh_buf d) (lh_hw d) = (val, buf', hw') →
  Z.land val LHD_STATEMASK = LHD_OK ∨ Z.land val LHD_STATEMASK = LHD_MEDIA →
  Q tt (ended k val buf' hw' d) → wp C P_done Q E (set_lh_stat st (set_lh_sect k d)).
Proof.
  intros Hd Hst Hx Hv HQ. unfold P_done. wps.
  cbn [ls_dev lh_done set_lh_stat set_lh_sect]. rewrite Hd. cbn [Z.eqb].
  unfold lhd_finish. wps. cbn [lh_stat lh_sect lh_buf lh_hw set_lh_stat set_lh_sect].
  rewrite Hst, Hx. cbn [Z.eqb LHD_WORKING Pos.eqb]. wps. unfold lhd_irq, lhd_rdreg. wps. cbn [lh_stat].
  replace ((_ =? LHD_IDLE) || (_ =? LHD_WORKING)) with false by (by destruct Hv as [->| ->]).
  replace ((_ =? LHD_OK) || (_ =? LHD_INVSECT) || (_ =? LHD_MEDIA)) with true
    by (by destruct Hv as [->| ->]).
  unfold lhd_wreg, lhd_iodone, V_done. wps. cbn. rewrite Hd. cbn. by wps.
Qed.

End alone.

(** ** A working disk *)

Section working.
Context {HW : Type} `{!DiskHw HW, !WorkingDisk HW}.

(** The device between two operations. *)
Record dev_ok (d : lhd_softc HW) : Prop := DevOk {
  dv_idle : dev_idle d;
  dv_buf : length (lh_buf d) = 512%nat;
  dv_blocks : d_blocks d = hw_nsect (lh_hw d);
  dv_u32 : is_u32 (d_blocks d);
}.

Definition sector (d : lhd_softc HW) (k : Z) : list Z := hw_sector (lh_hw d) k.

(** [d'] is [d] with sector [k] holding [data]. *)
Definition disk_upd (k : Z) (data : list Z) (d d' : lhd_softc HW) : Prop :=
  d_blocks d' = d_blocks d ∧
  ∀ j, sector d' j = if j =? k then data else sector d j.

Definition same_disk (d d' : lhd_softc HW) : Prop :=
  d_blocks d' = d_blocks d ∧ ∀ j, sector d' j = sector d j.

Definition space_ok (u : uio) (sp : Z) : Prop :=
  if decide (uio_segflg u = UIO_SYSSPACE) then uio_space u = 0 else uio_space u = sp.

(** A request for the sector [k]. *)
Record sector_req (k : Z) (rw : uio_rw_t) (u : uio) (vm : vmstate) (sp : Z)
    (d : lhd_softc HW) : Prop := SectorReq {
  rq_rw : uio_rw u = rw;
  rq_off : uio_offset u = k * 512;
  rq_resid : uio_resid u = 512;
  rq_k : 0 ≤ k < d_blocks d;
  rq_sp : space_ok u sp;
  rq_pre : move_pre (replicate 512 0) u vm;
}.

Lemma move_pre_length b1 b2 u vm :
  length b1 = length b2 → move_pre b1 u vm → move_pre b2 u vm.
Proof. intros Hl []. split; rewrite <-?Hl; auto. Qed.

(** [lhd_io] on a request for one sector. *)
Lemma lhd_io_one k rw u vm sp d :
  sector_req k rw u vm sp d → dev_ok d →
  lhd_io (LhdSt (UioSt u vm sp) d) =
  lhd_io_sector (if decide (rw = UIO_WRITE) then Z.lor LHD_WORKING LHD_ISWRITE
                 else LHD_WORKING) k 0 (LhdSt (UioSt u vm sp) d).
Proof.
  intros [Hrw Ho Hr Hk _ _] [_ _ _ H32]. unfold is_u32 in H32.
  unfold lhd_io, bind at 1, get. cbn [ls_u ls_dev us_uio].
  unfold lhd_setup, LHD_SECTSIZE. rewrite Ho, Hr, Hrw, Z.quot_mul, Z.rem_mul by lia.
  change (512 / 512) with 1. change (512 mod 512) with 0.
  rewrite (u32_small k), (u32_small (k + 1)) by (unfold is_u32; lia).
  change (u32 0) with 0. cbn [negb orb Z.eqb].
  rewrite (proj2 (Z.ltb_ge _ _)) by lia.
  change (Z.to_nat 1) with 1%nat. cbn [for_range]. unfold bind, ret.
  by destruct (lhd_io_sector _ _ _ _) as [[]| |].
Qed.

Lemma lhd_uiomove_ok C u vm sp d (Q : unit → lhdst HW → Prop) E :
  move_pre (lh_buf d) u vm → space_ok u sp →
  (∀ buf' u' vm', moved (Z.of_nat (length (lh_buf d))) u u' →
     transferred u vm (lh_buf d) buf' vm' → length buf' = length (lh_buf d) →
     tm_badfaultfunc vm' = false →
     Q tt (LhdSt (UioSt u' vm' sp) (set_lh_buf buf' d))) →
  wp C lhd_uiomove Q E (LhdSt (UioSt u vm sp) d).
Proof.
  intros Hpre Hsp HQ. unfold lhd_uiomove, on_uio. wps. cbn [ls_u ls_dev].
  destruct (uiomove_spec (lh_buf d) u vm sp Hpre Hsp)
    as (buf' & u' & vm' & He & Hm & Ht & Hl & Hbf).
  eapply wp_of_ok; [done|]. unfold wp. cbn. by apply HQ.
Qed.

(** A write of one sector, on any disk that ends it with [LHD_OK] or with
    [LHD_MEDIA]. *)
Lemma lhd_sector_write C k u vm sp d (Q : unit → lhdst HW → Prop) (E : errno → lhdst HW → Prop) :
  sector_req k UIO_WRITE u vm sp d → dev_ok d →
  (∀ data u', moved 512 u u' → length data = 512%nat →
     holds (seg_mem (uio_segflg u) vm) (take 512 (addrs u)) data →
     ∃ val buf' hw', hw_exec (Z.lor LHD_WORKING LHD_ISWRITE) k data (lh_hw d) = (val, buf', hw') ∧
       let d' := LhdSoftc buf' (lhd_code_to_errno val) 1 0 (d_blocks d) k LHD_IDLE hw' in
       (Z.land val LHD_STATEMASK = LHD_OK ∧ Q tt (LhdSt (UioSt u' vm sp) d') ∨
        Z.land val LHD_STATEMASK = LHD_MEDIA ∧ E EIO (LhdSt (UioSt u' vm sp) d'))) →
  wp C (lhd_io_sector (Z.lor LHD_WORKING LHD_ISWRITE) k 0) Q E (LhdSt (UioSt u vm sp) d).
Proof.
  intros [Hrw Ho Hr Hk Hsp Hpre] [[Hc Hq] Hb Hbl H32] HQ. unfold is_u32 in H32.
  unfold lhd_io_sector. rewrite Z.add_0_r, u32_small by (unfold is_u32; lia).
  apply wp_bind, P_clear_wp; [done|]. unfold lhd_begin. wps. cbn [ls_u us_uio].
  rewrite Hrw, decide_True by done. apply wp_bind, wp_attempt, lhd_uiomove_ok; [|done|].
  { eapply move_pre_length; [|exact Hpre]. cbn. by rewrite Hb. }
  cbn [lh_buf set_lh_clear]. rewrite Hb. intros data u' vm' Hm Ht Hl Hbf.
  unfold transferred in Ht. cbn [lh_buf set_lh_clear] in Ht. rewrite Hrw, Hb in Ht. destruct Ht as [-> Hh].
  destruct (HQ data u' Hm Hl Hh) as (val & buf' & hw' & Hx & Hor). cbn [lhd_wreg]. unfold on_softc at 1 2. wps.
  cbn [ls_dev ls_u].
  apply (P_done_wp _ _ k (set_lh_buf data (set_lh_clear 0 d)) val buf' hw'); [apply Hq|done|exact Hx| |].
  { by destruct Hor as [[? _]|[? _]]; [left|right]. }
  unfold lhd_end. wps. cbn [ls_dev ls_u us_uio lh_result ended]. rewrite (mv_rw _ _ _ Hm), Hrw.
  destruct Hor as [[Hv H]|[Hv H]].
  - rewrite (ok_errno _ Hv) in *. rewrite decide_False by done. wps. unfold ended. by rewrite (ok_errno _ Hv).
  - rewrite (media_errno _ Hv) in *. wps. unfold ended. by rewrite (media_errno _ Hv).
Qed.

(** Reading a sector delivers what the disk has recorded there. *)
Lemma lhd_io_read C k u vm sp d :
  sector_req k UIO_READ u vm sp d → dev_ok d →
  wp C lhd_io (λ _ s, ∃ u' vm' d', s = LhdSt (UioSt u' vm' sp) d' ∧
      dev_ok d' ∧ same_disk d d' ∧ moved 512 u u' ∧
      transferred u vm (sector d k) (sector d k) vm' ∧
      tm_badfaultfunc vm' = false) no_err (LhdSt (UioSt u vm sp) d).
Proof.
  intros Hrq Hd. eapply wp_eq; [by apply (lhd_io_one k UIO_READ)|].
  destruct Hrq as [Hrw Ho Hr Hk Hsp Hpre]. destruct Hd as [[Hc Hq] Hb Hbl H32].
  destruct (hw_read_ok (lh_hw d) k (lh_buf d)) as (val & hw' & Hx & Hv & Hns & Hsec);
    [lia|]. unfold is_u32 in H32. rewrite decide_False by done.
  unfold lhd_io_sector. rewrite Z.add_0_r, u32_small by (unfold is_u32; lia).
  apply wp_bind, P_clear_wp; [done|]. unfold lhd_begin. wps. cbn [ls_u us_uio].
  rewrite Hrw, decide_False by done. wps. cbn [lhd_wreg]. unfold on_softc at 1 2. wps. cbn [ls_dev ls_u].
  apply (P_done_wp _ _ k (set_lh_clear 0 d) val (hw_sector (lh_hw d) k) hw'); [apply Hq|done|exact Hx|by left|].
  unfold lhd_end. wps. cbn [ls_dev ls_u us_uio lh_result ended]. rewrite (ok_errno _ Hv), Hrw.
  rewrite decide_True by done. apply wp_attempt, lhd_uiomove_ok; [|done|].
  { eapply move_pre_length; [|exact Hpre]. cbn. by rewrite hw_sector_len. }
  cbn [lh_buf ended]. rewrite hw_sector_len. intros buf' u' vm' Hm Ht Hl Hbf. wps. cbn.
  unfold transferred in *. rewrite Hrw in *. destruct Ht as [-> Ht].
  eexists u', vm', _. split; [done|]. split; [|split; [|done]].
  - split; cbn; [done|done|by rewrite Hns|done].
  - split; [done|]. exact Hsec.
Qed.

(** Writing a sector records what the request's memory holds. *)
Lemma lhd_io_write C k u vm sp d :
  sector_req k UIO_WRITE u vm sp d → dev_ok d →
  wp C lhd_io (λ _ s, ∃ u' d' data, s = LhdSt (UioSt u' vm sp) d' ∧
      dev_ok d' ∧ disk_upd k data d d' ∧ moved 512 u u' ∧ length data = 512%nat ∧
      holds (seg_mem (uio_segflg u) vm) (take 512 (addrs u)) data)
    no_err (LhdSt (UioSt u vm sp) d).
Proof.
  intros Hrq Hd. eapply wp_eq; [by apply (lhd_io_one k UIO_WRITE)|].
  apply lhd_sector_write; [done|done|]. intros data u' Hm Hl Hh.
  destruct Hd as [[Hc Hq] Hb Hbl H32].
  destruct (hw_write_ok (lh_hw d) k data) as (val & buf' & hw' & Hx & Hl' & Hv & Hns & Hsec);
    [rewrite <-Hbl; apply Hrq|done|].
  exists val, buf', hw'. split; [done|]. left. split; [done|]. eexists u', _, data. split; [done|].
  split; [split; cbn; [done|done|by rewrite Hns|done]|].
  split; [split; [done|exact Hsec]|]. by split.
Qed.

End working.

(** ** Running the protocol

    The steps as a function, for concrete runs. *)

Inductive lact := DoCall (t : Z) (u : uiost) | DoThread (t : Z) | DoDisk | DoIrq.

Section lrun.
Context {HW : Type} `{!DiskHw HW}.

Definition ldo_thread (t : Z) (th : lthread) (s : lsys (HW := HW)) : option lsys :=
  let d := ly_dev s in
  let st := LhdSt (lt_u th) d in
  match lt_pc th with
  | AtClear => if 0 <? lh_clear d
      then Some (set_thread t (goto AtBegin (lt_u th) th) (set_lh_clear (lh_clear d - 1) d) s) else None
  | AtBegin => match lhd_begin (lt_statval th) (lt_sect th) st with
      | Ok _ st' => Some (set_thread t (goto AtDone (ls_u st') th) (ls_dev st') s)
      | Err e st' => Some (set_thread t (goto (Returned (Some e)) (ls_u st') th) (ls_dev st') s)
      | Crash _ => None end
  | AtDone => if 0 <? lh_done d
      then Some (set_thread t (goto AtEnd (lt_u th) th) (set_lh_done (lh_done d - 1) d) s) else None
  | AtEnd => match lhd_end st with
      | Ok _ st' => Some (set_thread t (next_sector (ls_u st') th) (ls_dev st') s)
      | Err e st' => Some (set_thread t (goto (Returned (Some e)) (ls_u st') th) (ls_dev st') s)
      | Crash _ => None end
  | Returned _ => None
  end.

Definition ldo (a : lact) (s : lsys (HW := HW)) : option lsys :=
  match a with
  | DoCall t u => match ly_threads s !! t, lhd_setup (us_uio u) (d_blocks (ly_dev s)) with
      | None, inr (statval, sector, len) => if 0 <? len
          then Some (set_thread t (LThread AtClear u statval sector len 0) (ly_dev s) s) else None
      | _, _ => None end
  | DoThread t => th ← ly_threads s !! t; ldo_thread t th s
  | DoDisk => match lhd_finish (ly_dev s) with Ok _ d => Some (LSys d (ly_threads s)) | _ => None end
  | DoIrq => match lhd_irq (ly_dev s) with Ok _ d => Some (LSys d (ly_threads s)) | _ => None end
  end.

Fixpoint lrun (l : list lact) (s : lsys (HW := HW)) : option lsys :=
  match l with
  | [] => Some s
  | a :: l' => s' ← ldo a s; lrun l' s'
  end.

Lemma ldo_thread_step t th s s' :
  ly_threads s !! t = Some th → ldo_thread t th s = Some s' → lstep s s'.
Proof.
  intros Ht. unfold ldo_thread. destruct (lt_pc th) eqn:Hpc.
  - destruct (0 <? _) eqn:Hc; intros [= <-]. apply step_clear; [done..|lia].
  - destruct (lhd_begin _ _ _) as [[] []|e []|] eqn:He; intros [= <-].
    + by eapply step_begin.
    + by eapply step_begin_err.
  - destruct (0 <? _) eqn:Hc; intros [= <-]. apply step_done; [done..|lia].
  - destruct (lhd_end _) as [[] []|e []|] eqn:He; intros [= <-].
    + by eapply step_end.
    + by eapply step_end_err.
  - done.
Qed.

Lemma lrun_steps l s s' : lrun l s = Some s' → rtc lstep s s'.
Proof.
  revert s. induction l as [|a l IH]; intros s; cbn; [by intros [= ->]|].
  destruct (ldo a s) as [s1|] eqn:Ha; [|done]. cbn. intros Hr. eapply rtc_l; [|by apply IH]. clear Hr IH.
  destruct a as [t u|t| |]; unfold ldo in Ha.
  - destruct (ly_threads s !! t) eqn:Ht; [done|].
    destruct (lhd_setup _ _) as [|[[statval sector] len]] eqn:Hs; [done|].
    destruct (0 <? len) eqn:Hl; [|done]. injection Ha as <-.
    apply step_call; [by rewrite Ht|done|lia].
  - destruct (ly_threads s !! t) as [th|] eqn:Ht; [|done]. by eapply ldo_thread_step.
  - destruct (lhd_finish _) as [[] d| |] eqn:He; [|done..]. injection Ha as <-. by apply step_disk.
  - destruct (lhd_irq _) as [[] d| |] eqn:He; [|done..]. injection Ha as <-. by apply step_irq.
Qed.

End lrun.

(** Two threads write, on a disk whose first operation fails. *)
Definition lhd_demo_u : uiost :=
  UioSt (Uio [Iovec 4096 512] 1 0 512 UIO_SYSSPACE UIO_WRITE 0)
    (VmState (list_to_map (zip (seqZ 4096 512) (replicate 512 7))) ∅ false) 0.

Definition lhd_demo : lsys (HW := flakydisk) :=
  LSys (LhdSoftc zero_sector None 1 0 64 0 LHD_IDLE (FlakyDisk (RamDisk 64 ∅) [true])) ∅.

Definition lhd_demo_run : list lact :=
  [DoCall 1 lhd_demo_u; DoCall 2 lhd_demo_u; DoThread 1; DoIrq; DoThread 1; DoDisk].

Definition lhd_demo_end (l : list lact) : lsys (HW := flakydisk) := default lhd_demo (lrun l lhd_demo).

(** The second thread waits for the device, the first one for the interrupt,
    which comes; its write has failed, and the error it finds is its own. *)
Lemma lhd_handshake_witness :
  let s := lhd_demo_end lhd_demo_run in
  let s2 := lhd_demo_end (lhd_demo_run ++ [DoIrq; DoThread 1]) in
  lt_pc <$> ly_threads s !! 1 = Some AtDone ∧ lt_pc <$> ly_threads s !! 2 = Some AtClear ∧
  lh_done (ly_dev s) = 0 ∧
  (∃ s', rtc hwstep s s' ∧ ly_threads s' = ly_threads s ∧ lh_done (ly_dev s') = 1) ∧
  lt_pc <$> ly_threads s2 !! 1 = Some AtEnd ∧ lh_result (ly_dev s2) = Some EIO ∧
  ∃ th val, ran th val (ly_dev s2) ∧ lh_result (ly_dev s2) = lhd_code_to_errno val.
Proof.
  intros s s2.
  assert (Hr : rtc lstep lhd_demo s) by (apply (lrun_steps lhd_demo_run); vm_compute; reflexivity).
  assert (Hr2 : rtc lstep lhd_demo s2)
    by (apply (lrun_steps (lhd_demo_run ++ [DoIrq; DoThread 1])); vm_compute; reflexivity).
  assert (H0 : lstart lhd_demo) by done.
  destruct (lhd_handshake lhd_demo s H0 Hr) as (_ & _ & Htold & _).
  destruct (lhd_handshake lhd_demo s2 H0 Hr2) as (_ & _ & _ & Hend).
  assert (H1 : lt_pc <$> ly_threads s !! 1 = Some AtDone) by (vm_compute; reflexivity).
  assert (H2 : lt_pc <$> ly_threads s2 !! 1 = Some AtEnd) by (vm_compute; reflexivity).
  split; [exact H1|]. split; [vm_compute; reflexivity|]. split; [vm_compute; reflexivity|].
  split; [|split; [exact H2|split; [vm_compute; reflexivity|]]].
  - apply fmap_Some in H1 as (th & Ht & Hp). exact (Htold 1 th Ht (eq_sym Hp)).
  - apply fmap_Some in H2 as (th & Ht & Hp). exists th. exact (Hend 1 th Ht (eq_sym Hp)).
Defined.
