(* ===== verification/Lock.v ===== *)
(** * The big lock as one thread sees it

    The recursive lock [vfs_biglock] of kern/vfs/vfslist.c that every file
    system operation takes, and the sleep lock under it, as one thread sees them
    between two context switches: there are no other threads here, and going to
    sleep ends the computation in [Crash CLoop].  This is the view that the file
    system files use.  The lock itself, with the scheduler and all the threads,
    is modelled in [Synch] and [BigLock], where it is proved that the
    operations below do what those do as long as the thread does not sleep, and
    end in [CLoop] exactly when it does. *)

From S2P Require Import Prelude.
Open Scope Z_scope.

(** [struct lock]: the fields that the operations test. *)
Record lock := Lock { lock_thread : Z; lock_count : Z }.

Definition lock_create (curthread : Z) : lock := Lock curthread 1.

(** Once around the loop of [lock_acquire]: [None] is going to sleep. *)
Definition lock_try (l : lock) : option lock :=
  if lock_count l =? 0 then None
  else Some (Lock (lock_thread l) (lock_count l - 1)).

Definition lock_acquire : M lock unit :=
  l <- get ;;
  match lock_try l with
  | None => loops
  | Some l' => put l'
  end.

Definition lock_release : M lock unit :=
  l <- get ;;
  let n := u32 (lock_count l + 1) in
  put (Lock (lock_thread l) n) ;;;
  KASSERT (0 <? n).

Definition lock_do_i_hold (curthread : Z) (l : lock) : bool :=
  if lock_count l =? 1 then false
  else curthread =? lock_thread l.

(** The globals of vfslist.c, with the thread that runs. *)
Record vfslock := VfsLock {
  curthread : Z;
  vfs_biglock : lock;
  vfs_biglock_depth : Z;
}.

Definition on_biglock {A} (m : M lock A) : M vfslock A :=
  zoom vfs_biglock (λ l s, VfsLock (curthread s) l (vfs_biglock_depth s)) m.

Definition set_depth (n : Z) : M vfslock unit :=
  modify (λ s, VfsLock (curthread s) (vfs_biglock s) n).

Definition vfs_biglock_do_i_hold : M vfslock bool :=
  gets (λ s, lock_do_i_hold (curthread s) (vfs_biglock s)).

Definition vfs_biglock_acquire : M vfslock unit :=
  held <- vfs_biglock_do_i_hold ;;
  (if held then ret tt else on_biglock lock_acquire) ;;;
  s <- get ;; set_depth (u32 (vfs_biglock_depth s + 1)).

Definition vfs_biglock_release : M vfslock unit :=
  held <- vfs_biglock_do_i_hold ;;
  KASSERT held ;;;
  s <- get ;;
  KASSERT (0 <? vfs_biglock_depth s) ;;;
  set_depth (vfs_biglock_depth s - 1) ;;;
  if vfs_biglock_depth s - 1 =? 0 then on_biglock lock_release else ret tt.

(** ** The big lock in the thread that created it

    Held [n] times by the thread that runs, which is also the one that
    created the lock. *)
Definition held (n : Z) (s : vfslock) : Prop :=
  curthread s = lock_thread (vfs_biglock s) ∧
  lock_count (vfs_biglock s) = (if n =? 0 then 1 else 0) ∧
  vfs_biglock_depth s = n ∧ 0 ≤ n < 4294967295.

Lemma held_do_i_hold n s : held n s → vfs_biglock_do_i_hold s = Ok (negb (n =? 0)) s.
Proof.
  intros (Hc & Hn & _ & _). unfold vfs_biglock_do_i_hold, gets, lock_do_i_hold.
  rewrite Hn, Hc, Z.eqb_refl. by destruct (n =? 0).
Qed.

(** The lock once more held. *)
Definition bump (s : vfslock) : vfslock :=
  VfsLock (curthread s) (Lock (lock_thread (vfs_biglock s)) 0) (vfs_biglock_depth s + 1).

Lemma held_bump n s : held n s → n < 4294967294 → held (n + 1) (bump s).
Proof.
  intros (Hc & Hn & Hd & Hr) Hlt. unfold held, bump. cbn.
  rewrite (proj2 (Z.eqb_neq (n + 1) 0)) by lia. repeat split; try done; lia.
Qed.

Lemma biglock_acquire_held n s :
  held n s → n < 4294967294 → vfs_biglock_acquire s = Ok tt (bump s).
Proof.
  intros Hh Hlt. unfold vfs_biglock_acquire, bind. rewrite (held_do_i_hold n s Hh).
  destruct Hh as (Hc & Hn & Hd & Hr). destruct s as [cur [th cnt] d]. cbn in *. subst.
  unfold bump. cbn. destruct (Z.eqb_spec n 0) as [->|Hne]; cbn.
  - done.
  - unfold set_depth, modify. cbn. by rewrite u32_small by (unfold is_u32; lia).
Qed.

Lemma biglock_release_held n s :
  held n s → vfs_biglock_release (bump s) = Ok tt s.
Proof.
  intros Hh. destruct Hh as (Hc & Hn & Hd & Hr). destruct s as [cur [th cnt] d].
  cbn in *. subst. unfold vfs_biglock_release, bump, bind, vfs_biglock_do_i_hold, gets,
    lock_do_i_hold. cbn. rewrite Z.eqb_refl. unfold KASSERT, ret, get.
  rewrite (proj2 (Z.ltb_lt 0 _)) by (cbn; lia). unfold set_depth, modify. cbn.
  replace (n + 1 - 1) with n by lia. destruct (Z.eqb_spec n 0) as [->|]; done.
Qed.

Lemma biglock_lock_acquire cur th cnt d :
  on_biglock lock_acquire (VfsLock cur (Lock th cnt) d) =
  if cnt =? 0 then Crash CLoop else Ok tt (VfsLock cur (Lock th (cnt - 1)) d).
Proof.
  unfold on_biglock, zoom, lock_acquire, lock_try, bind, get. cbn [vfs_biglock lock_count].
  by destruct (cnt =? 0).
Qed.

(** in the thread that created it the big lock is recursive: acquiring and
    releasing it nest to any depth and bring the lock back. *)
Theorem biglock_recursive n s :
  held n s → n < 4294967294 →
  ∃ s' s'', vfs_biglock_acquire s = Ok tt s' ∧ vfs_biglock_do_i_hold s' = Ok true s' ∧
    vfs_biglock_release s' = Ok tt s'' ∧ held n s''.
Proof.
  intros Hh Hlt. exists (bump s), s. rewrite (biglock_acquire_held n) by done.
  rewrite (biglock_release_held n) by done.
  rewrite (held_do_i_hold (n + 1)) by (by apply held_bump).
  pose proof Hh as (_ & _ & _ & Hr). by rewrite (proj2 (Z.eqb_neq _ 0)) by lia.
Qed.

Lemma biglock_recursive_witness :
  ∃ s' s'', vfs_biglock_acquire (VfsLock 7 (lock_create 7) 0) = Ok tt s' ∧
    vfs_biglock_do_i_hold s' = Ok true s' ∧
    vfs_biglock_release s' = Ok tt s'' ∧ held 0 s''.
Proof. apply (biglock_recursive 0); [by repeat split|lia]. Defined.
