(* ===== verification/BigLock.v ===== *)
(** * The big lock of the VFS layer

    [vfs_biglock] of kern/vfs/vfslist.c, the recursive lock that every file
    system operation takes, on top of the sleep locks of [Synch], the scheduler
    and all the threads of the system.  The file system files use the lock as
    one thread sees it between two context switches, which is [Lock]; the
    theorem [vfs_biglock_refines] says that this view is right. *)

From S2P Require Import Prelude Threadlist Thread Sched Lock Synch.
Open Scope Z_scope.

(** The globals of vfslist.c in the system of [Synch]: [v_lock] is the object
    that [vfs_biglock] points to. *)
Record vstate := VState {
  v_sy : sstate Synch.lock;
  v_lock : Z;
  v_depth : Z;
}.

Definition on_sy {A} (m : M (sstate Synch.lock) A) : M vstate A :=
  zoom v_sy (λ y s, VState y (v_lock s) (v_depth s)) m.

Definition set_depth (n : Z) : M vstate unit :=
  modify (λ s, VState (v_sy s) (v_lock s) n).

Definition vfs_biglock_do_i_hold : M vstate bool :=
  s <- get ;; on_sy (Synch.lock_do_i_hold (v_lock s)).

(** What [vfs_biglock_acquire] does after [lock_acquire], unless the thread
    went to sleep there. *)
Definition biglock_deeper (got : bool) : M vstate bool :=
  (if got then s <- get ;; set_depth (u32 (v_depth s + 1)) else ret tt) ;;;
  ret got.

(** The result is whether the thread did not have to sleep. *)
Definition vfs_biglock_acquire : M vstate bool :=
  held <- vfs_biglock_do_i_hold ;;
  s <- get ;;
  got <- (if held then ret true else on_sy (Synch.lock_acquire (v_lock s))) ;;
  biglock_deeper got.

(** A thread that slept in [vfs_biglock_acquire] runs again. *)
Definition vfs_biglock_resume : M vstate bool :=
  got <- on_sy resume ;; biglock_deeper got.

Definition vfs_biglock_release : M vstate unit :=
  held <- vfs_biglock_do_i_hold ;;
  KASSERT held ;;;
  s <- get ;;
  KASSERT (0 <? v_depth s) ;;;
  set_depth (v_depth s - 1) ;;;
  if v_depth s - 1 =? 0 then on_sy (Synch.lock_release (v_lock s)) else ret tt.

Section biglock.
Context (L : gmap Z lockrole) (R : gmap Z role) (init : Z → Z).

(** The thread [t] runs and does not wait for anything; [x] is the lock. *)
Record in_thread (s : vstate) (t : Z) (x : Synch.lock) : Prop := InThread {
  us_started : started L R init (v_sy s);
  us_obj : sy_objs (v_sy s) !! v_lock s = Some x;
  us_runs : runs (v_sy s) t;
  us_wait : sy_wait (v_sy s) !! t = None;
}.

Definition holds_it (t : Z) (x : Synch.lock) : bool :=
  if Synch.lock_count x =? 1 then false else t =? Synch.lock_thread x.

Lemma do_i_hold_eq s t x : in_thread s t x → vfs_biglock_do_i_hold s = Ok (holds_it t x) s.
Proof.
  intros [_ Ho Hr _]. unfold vfs_biglock_do_i_hold, bind at 1, get. unfold on_sy, zoom.
  assert (He : Synch.lock_do_i_hold (v_lock s) (v_sy s) = Ok (holds_it t x) (v_sy s)).
  { unfold Synch.lock_do_i_hold, bind. rewrite (get_obj_eq _ _ _ Ho). unfold holds_it.
    destruct (_ =? 1); [done|]. by rewrite (runs_curthread _ _ Hr). }
  rewrite He. by destruct s.
Qed.

Lemma acquire_wp C s t x Q :
  in_thread s t x →
  (holds_it t x = true → Q true (VState (v_sy s) (v_lock s) (u32 (v_depth s + 1)))) →
  (holds_it t x = false → 0 < Synch.lock_count x → ∀ a y, taken L R init (v_sy s) a (v_lock s) x t y →
     Q true (VState y (v_lock s) (u32 (v_depth s + 1)))) →
  (holds_it t x = false → Synch.lock_count x = 0 → ∀ y, asleep L R init (v_sy s) (v_lock s) x t y →
     Q false (VState y (v_lock s) (v_depth s))) →
  wp C vfs_biglock_acquire Q no_err s.
Proof.
  intros Hu H1 H2 H3. unfold vfs_biglock_acquire. kstep (do_i_hold_eq _ _ _ Hu). wps.
  destruct Hu as [[a Hs] Ho Hr Hw]. unfold biglock_deeper, set_depth.
  destruct (holds_it t x); [wps; by apply H1|]. unfold on_sy. wps.
  eapply (wait_wp L R init C (v_sy s) a (v_lock s) x t _ Hs Ho Hr Hw).
  - intros Hpos y Hy. wps. by eapply H2.
  - intros Hz y Hy. wps. by apply H3.
Qed.

(** The thread is on the channel of the lock it waits for. *)
Lemma asleep_state y o x t y' :
  asleep L R init y o x t y' → sy_objs y !! o = Some x →
  ∃ th, k_threads (sy_k y') !! t = Some th ∧ t_state th = S_SLEEP.
Proof.
  intros [(a & Hs & Hon) Hobj _ _] Ho. pose proof (sy_inv _ _ _ _ _ Hs) as Hk.
  destruct (ki_known _ _ _ _ _ Hk t) as [th Hth]; [right; by eexists|]. exists th. split; [done|].
  rewrite <-Hobj in Ho. destruct (sy_obj _ _ _ _ _ Hs _ _ Ho) as (HR & _).
  exact (kinv_state _ _ ∅ _ a _ t th Wchan Hk Hon Hth (not_elem_of_empty _) HR).
Qed.

(** ** The view of one thread *)

Definition view (s : vstate) (t : Z) (x : Synch.lock) : vfslock :=
  VfsLock t (Lock.Lock (Synch.lock_thread x) (Synch.lock_count x)) (v_depth s).

Lemma taken_in_thread s t x a y d :
  in_thread s t x → taken L R init (v_sy s) a (v_lock s) x t y →
  in_thread (VState y (v_lock s) d) t (w_set_count (w_count x - 1) x).
Proof.
  intros [_ Ho (k & th & Hr & Hc & Hint) _] [Hs Hk Hobj _ Hw]. split; cbn.
  - by exists a.
  - rewrite Hobj. apply lookup_insert_eq.
  - exists k, th. by rewrite Hk.
  - done.
Qed.

Lemma view_acquire s t x :
  Lock.vfs_biglock_acquire (view s t x) =
  if holds_it t x then Ok tt (VfsLock t (vfs_biglock (view s t x)) (u32 (v_depth s + 1)))
  else if Synch.lock_count x =? 0 then Crash CLoop
  else Ok tt (VfsLock t (Lock.Lock (Synch.lock_thread x) (Synch.lock_count x - 1)) (u32 (v_depth s + 1))).
Proof.
  unfold Lock.vfs_biglock_acquire, Lock.vfs_biglock_do_i_hold, bind, gets.
  change (Lock.lock_do_i_hold _ _) with (holds_it t x). destruct (holds_it t x); [done|].
  unfold view at 1. rewrite biglock_lock_acquire. by destruct (_ =? 0).
Qed.

Lemma view_release s t x :
  Lock.vfs_biglock_release (view s t x) =
  if holds_it t x && (0 <? v_depth s) then
    if v_depth s - 1 =? 0 then
      let n := u32 (Synch.lock_count x + 1) in
      if 0 <? n then Ok tt (VfsLock t (Lock.Lock (Synch.lock_thread x) n) (v_depth s - 1)) else Crash CPanic
    else Ok tt (VfsLock t (vfs_biglock (view s t x)) (v_depth s - 1))
  else Crash CPanic.
Proof.
  unfold Lock.vfs_biglock_release, Lock.vfs_biglock_do_i_hold, bind, gets, KASSERT.
  change (Lock.lock_do_i_hold _ _) with (holds_it t x). destruct (holds_it t x); [|done].
  unfold ret, get. cbn [vfs_biglock_depth view andb]. destruct (0 <? v_depth s); [|done].
  unfold Lock.set_depth, modify. destruct (v_depth s - 1 =? 0); [|done].
  unfold on_biglock, zoom, Lock.lock_release, bind, get, put, KASSERT, ret. cbn.
  by destruct (0 <? _).
Qed.

Lemma release_wp s t x :
  in_thread s t x → Synch.lock_count x < 4294967295 → holds_it t x = true → 0 < v_depth s →
  wp no_crash vfs_biglock_release (λ _ s', if v_depth s - 1 =? 0 then ∃ y,
      s' = VState y (v_lock s) 0 ∧ given L R init (v_sy s) (v_lock s) x t y
    else s' = VState (v_sy s) (v_lock s) (v_depth s - 1)) no_err s.
Proof.
  intros Hu Hlt Hh Hd. unfold vfs_biglock_release. kstep (do_i_hold_eq _ _ _ Hu). rewrite Hh.
  apply wp_bind, wp_KASSERT; [done|]. wps. apply wp_KASSERT; [by apply Z.ltb_lt|].
  unfold set_depth. wps. destruct (Z.eqb_spec (v_depth s - 1) 0) as [He|]; [|by wps].
  unfold on_sy. wps. destruct Hu as [[a Hs] Ho (k & th & (Hc & Hi & Hth) & <- & Hint) Hw].
  eapply (post_wp L R init _ (v_sy s) a (v_lock s) x k _ Hs Ho Hlt Hc). intros y Hy.
  exists y. cbn. by rewrite He.
Qed.

(** [Lock.vfs_biglock_acquire] and the others say what happens as long as the
    thread runs: they succeed, with the same lock and depth, and panic exactly
    when the operations of the whole system do, and end in [CLoop] exactly when
    the thread goes to sleep for the lock. *)
Theorem vfs_biglock_refines s t x :
  in_thread s t x → Synch.lock_count x < 4294967295 →
  (∃ b, Lock.vfs_biglock_do_i_hold (view s t x) = Ok b (view s t x) ∧ vfs_biglock_do_i_hold s = Ok b s) ∧
  match Lock.vfs_biglock_acquire (view s t x) with
  | Ok _ v => ∃ s' x', vfs_biglock_acquire s = Ok true s' ∧ in_thread s' t x' ∧ view s' t x' = v
  | Crash CLoop => ∃ y, vfs_biglock_acquire s = Ok false (VState y (v_lock s) (v_depth s)) ∧
      asleep L R init (v_sy s) (v_lock s) x t y
  | _ => False
  end ∧
  match Lock.vfs_biglock_release (view s t x) with
  | Ok _ v => ∃ s' x', vfs_biglock_release s = Ok tt s' ∧ in_thread s' t x' ∧ view s' t x' = v
  | Crash CPanic => vfs_biglock_release s = Crash CPanic
  | _ => False
  end.
Proof.
  intros Hu Hlt. split; [|split].
  - exists (holds_it t x). split; [done|by apply do_i_hold_eq].
  - rewrite view_acquire. destruct (holds_it t x) eqn:Hh; [|destruct (Z.eqb_spec (Synch.lock_count x) 0) as [Hz|Hz]].
    + destruct (wp_ok vfs_biglock_acquire (λ b s', b = true ∧ s' = VState (v_sy s) (v_lock s) (u32 (v_depth s + 1))) s)
        as (b & s' & Hr & -> & ->).
      { by apply (acquire_wp _ _ _ _ _ Hu); [|congruence..]. }
      eexists _, x. split; [done|]. split; [|done]. by destruct Hu.
    + destruct (wp_ok vfs_biglock_acquire (λ b s', b = false ∧ ∃ y, s' = VState y (v_lock s) (v_depth s) ∧
        asleep L R init (v_sy s) (v_lock s) x t y) s) as (b & s' & Hr & -> & y & -> & Hy); [|by exists y].
      apply (acquire_wp _ _ _ _ _ Hu); [congruence|lia|]. intros _ _ y Hy. split; [done|]. by exists y.
    + destruct (wp_ok vfs_biglock_acquire (λ b s', b = true ∧ ∃ a y, s' = VState y (v_lock s) (u32 (v_depth s + 1)) ∧
        taken L R init (v_sy s) a (v_lock s) x t y) s) as (b & s' & Hr & -> & a & y & -> & Hy).
      { apply (acquire_wp _ _ _ _ _ Hu); [congruence| |lia]. intros _ _ a y Hy. split; [done|]. by exists a, y. }
      eexists _, _. split; [done|]. split; [by eapply taken_in_thread|done].
  - rewrite view_release. destruct (holds_it t x) eqn:Hh; cbn [andb].
    2: { unfold vfs_biglock_release, bind. by rewrite (do_i_hold_eq _ _ _ Hu), Hh. }
    destruct (Z.ltb_spec 0 (v_depth s)) as [Hd|Hd].
    2: { unfold vfs_biglock_release, bind. rewrite (do_i_hold_eq _ _ _ Hu), Hh. unfold KASSERT, ret, get.
         by rewrite (proj2 (Z.ltb_ge _ _)). }
    destruct (wp_ok _ _ _ (release_wp s t x Hu Hlt Hh Hd)) as ([] & s' & Hr & Hs').
    destruct (Z.eqb_spec (v_depth s - 1) 0) as [He|He].
    + destruct Hs' as (y & -> & Hy). pose proof Hy as [Hst Hobj _ Hwt Hru].
      assert (H32 : 0 ≤ Synch.lock_count x).
      { destruct (us_started _ _ _ Hu) as [a Ha]. by destruct (sy_obj _ _ _ _ _ Ha _ _ (us_obj _ _ _ Hu)) as (_ & _ & ? & _). }
      rewrite u32_small, (proj2 (Z.ltb_lt 0 _)) by (unfold is_u32; lia).
      exists (VState y (v_lock s) 0), (w_set_count (w_count x + 1) x).
      split; [done|]. split; [|unfold view; cbn; by rewrite He].
      split; [done| |apply Hru, Hu|cbn; rewrite Hwt; apply Hu]. cbn. rewrite Hobj. apply lookup_insert_eq.
    + subst s'. eexists _, x. split; [done|]. split; [|done]. by destruct Hu.
Qed.

(** C35: the big lock does not work in a thread other than the one that created it.
    The lock is free; such a thread takes it and is then told that it does not
    hold it, so that releasing it panics, and taking it once more puts the
    thread to sleep on the lock that it holds itself. *)
Theorem biglock_broken s t x :
  in_thread s t x → t ≠ Synch.lock_thread x → Synch.lock_count x = 1 →
  ∃ s1, vfs_biglock_acquire s = Ok true s1 ∧
    Synch.lock_count <$> sy_objs (v_sy s1) !! v_lock s1 = Some 0 ∧
    vfs_biglock_do_i_hold s1 = Ok false s1 ∧ vfs_biglock_release s1 = Crash CPanic ∧
    ∃ s2 th, vfs_biglock_acquire s1 = Ok false s2 ∧ sy_wait (v_sy s2) !! t = Some (v_lock s) ∧
      k_threads (sy_k (v_sy s2)) !! t = Some th ∧ t_state th = S_SLEEP ∧
      sy_log (v_sy s2) = Took t (v_lock s) :: sy_log (v_sy s).
Proof.
  intros Hu Hne Hc. assert (Hno : ∀ n, holds_it t (w_set_count n x) = false).
  { intros n. unfold holds_it. cbn. rewrite (proj2 (Z.eqb_neq t _)) by done. by destruct (_ =? 1). }
  destruct (wp_ok vfs_biglock_acquire (λ b s', b = true ∧ ∃ a y, s' = VState y (v_lock s) (u32 (v_depth s + 1)) ∧
    taken L R init (v_sy s) a (v_lock s) x t y) s) as (b & s1 & Hr & -> & a & y & -> & Hy).
  { apply (acquire_wp _ _ _ _ _ Hu); [|intros _ _ a y Hy; split; [done|]; by exists a, y|lia].
    intros Hh. unfold holds_it in Hh. by rewrite Hc in Hh. }
  pose proof (taken_in_thread s t x a y (u32 (v_depth s + 1)) Hu Hy) as Hu1.
  pose proof (do_i_hold_eq _ _ _ Hu1) as Hd. rewrite Hno in Hd.
  eexists. split; [done|]. split; [rewrite (us_obj _ _ _ Hu1); cbn; by rewrite Hc|]. split; [done|].
  split; [unfold vfs_biglock_release, bind; by rewrite Hd|].
  destruct (wp_ok vfs_biglock_acquire (λ b s', b = false ∧ ∃ y', s' = VState y' (v_lock s) (u32 (v_depth s + 1)) ∧
    asleep L R init y (v_lock s) (w_set_count (w_count x - 1) x) t y')
    (VState y (v_lock s) (u32 (v_depth s + 1)))) as (b & s2 & Hr2 & -> & y' & -> & Hy').
  { apply (acquire_wp _ _ _ _ _ Hu1); [by rewrite Hno|cbn; lia|].
    intros _ _ y' Hy'. split; [done|]. by exists y'. }
  destruct (asleep_state _ _ _ _ _ Hy' (us_obj _ _ _ Hu1)) as (th & Hth & Hsl).
  eexists _, th. split; [done|]. pose proof Hy' as [_ _ Hlog Hwt]. split_and!; [done..|].
  cbn. rewrite Hlog. apply (tk_log _ _ _ _ _ _ _ _ _ Hy).
Qed.
End biglock.

(** ** The machine

    Thread 100 of the machine has just released a lock that thread 1 created;
    it is going to use it again. *)

Definition big_start : sstate Synch.lock :=
  SState machine {[7 := Synch.Lock 1 33 46 0]} {[103 := 7]} [Took 100 7].

Definition big_machine : vstate := VState (Synch.after big_start (SopPost 7)) 7 0.

Lemma big_machine_thread :
  in_thread machine_locks machine_roles (λ _, 1) big_machine 100 (Synch.Lock 1 33 46 1).
Proof.
  split; [| |exists (KCpu 100 12 false 11 41 0 42), (Thread S_RUN (Some 1) (Some 5) false)|].
  - eapply (sreach_inv _ _ _ (λ _ _, True) big_start); [by apply machine_syn|].
    apply (sreach_ok _ _ _ _ big_start (SopPost 7)); [constructor| |done|by vm_compute].
    eexists. split; [vm_compute; reflexivity|done].
  - vm_compute; reflexivity.
  - split; [split_and!; vm_compute; reflexivity|]. split; vm_compute; reflexivity.
  - vm_compute; reflexivity.
Qed.

Lemma biglock_broken_witness :
  ∃ s1, vfs_biglock_acquire big_machine = Ok true s1 ∧
    Synch.lock_count <$> sy_objs (v_sy s1) !! v_lock s1 = Some 0 ∧
    vfs_biglock_do_i_hold s1 = Ok false s1 ∧ vfs_biglock_release s1 = Crash CPanic ∧
    ∃ s2 th, vfs_biglock_acquire s1 = Ok false s2 ∧ sy_wait (v_sy s2) !! 100 = Some 7 ∧
      k_threads (sy_k (v_sy s2)) !! 100 = Some th ∧ t_state th = S_SLEEP ∧
      sy_log (v_sy s2) = Took 100 7 :: sy_log (v_sy big_machine).
Proof.
  apply (biglock_broken machine_locks machine_roles (λ _, 1) big_machine 100 (Synch.Lock 1 33 46 1));
    [exact big_machine_thread|done|reflexivity].
Defined.
