(* ===== verification/SfsTypes.v ===== *)
(** * The on-disk structures of SFS

    kern/include/kern/sfs.h.  The code reads a block into a [struct] and
    writes a [struct] out as a block; on the big-endian machine the kernel
    runs on that is the encoding below. *)

From S2P Require Import Prelude Endian.
Open Scope Z_scope.

Definition SFS_MAGIC : Z := 0xabadf001.
Definition SFS_BLOCKSIZE : Z := 512.
Definition SFS_VOLNAME_SIZE : Z := 32.
Definition SFS_NDIRECT : Z := 15.
Definition SFS_NINDIRECT : Z := 1.
Definition SFS_DBPERIDB : Z := 128.
Definition SFS_NAMELEN : Z := 60.
Definition SFS_SUPER_BLOCK : Z := 0.
Definition SFS_FREEMAP_START : Z := 2.
Definition SFS_NOINO : Z := 0.
Definition SFS_ROOTDIR_INO : Z := 1.
Definition SFS_BITSPERBLOCK : Z := SFS_BLOCKSIZE * 8.

(** [SFS_ROUNDUP], on [unsigned] operands. *)
Definition SFS_ROUNDUP (a b : Z) : Z := u32 (u32 (u32 (a + b) - 1) / b * b).
Definition SFS_FREEMAPBITS (nblocks : Z) : Z := SFS_ROUNDUP nblocks SFS_BITSPERBLOCK.
Definition SFS_FREEMAPBLOCKS (nblocks : Z) : Z :=
  SFS_FREEMAPBITS nblocks / SFS_BITSPERBLOCK.

Definition SFS_TYPE_INVAL : Z := 0.
Definition SFS_TYPE_FILE : Z := 1.
Definition SFS_TYPE_DIR : Z := 2.

Record sfs_superblock := SfsSuperblock {
  sb_magic : Z;
  sb_nblocks : Z;
  sb_volname : list Z;
  sb_reserved : list Z;
}.

Record sfs_dinode := SfsDinode {
  sfi_size : Z;
  sfi_type : Z;
  sfi_linkcount : Z;
  sfi_direct : list Z;
  sfi_indirect : Z;
  sfi_waste : list Z;
}.

Record sfs_direntry := SfsDirentry { sfd_ino : Z; sfd_name : list Z }.

(** ** As bytes *)

Definition superblock_encode (sb : sfs_superblock) : list Z :=
  be_encode 4 (sb_magic sb) ++ be_encode 4 (sb_nblocks sb) ++ sb_volname sb ++
  encode_u32s (sb_reserved sb).

Definition superblock_decode (b : list Z) : sfs_superblock :=
  SfsSuperblock (be_decode (slice b 0 4)) (be_decode (slice b 4 4)) (slice b 8 32)
    (decode_u32s 118 (drop 40 b)).

Definition dinode_encode (i : sfs_dinode) : list Z :=
  be_encode 4 (sfi_size i) ++ be_encode 2 (sfi_type i) ++
  be_encode 2 (sfi_linkcount i) ++ encode_u32s (sfi_direct i) ++
  be_encode 4 (sfi_indirect i) ++ encode_u32s (sfi_waste i).

Definition dinode_decode (b : list Z) : sfs_dinode :=
  SfsDinode (be_decode (slice b 0 4)) (be_decode (slice b 4 2))
    (be_decode (slice b 6 2)) (decode_u32s 15 (slice b 8 60))
    (be_decode (slice b 68 4)) (decode_u32s 110 (drop 72 b)).

Definition direntry_encode (d : sfs_direntry) : list Z :=
  be_encode 4 (sfd_ino d) ++ sfd_name d.

Definition direntry_decode (b : list Z) : sfs_direntry :=
  SfsDirentry (be_decode (slice b 0 4)) (slice b 4 60).

(** The structures that fit their C types. *)
Record superblock_ok (sb : sfs_superblock) : Prop := SuperblockOk {
  sbo_magic : is_u32 (sb_magic sb);
  sbo_nblocks : is_u32 (sb_nblocks sb);
  sbo_volname : length (sb_volname sb) = 32%nat ∧ Forall is_u8 (sb_volname sb);
  sbo_reserved : length (sb_reserved sb) = 118%nat ∧ Forall is_u32 (sb_reserved sb);
}.

Record dinode_ok (i : sfs_dinode) : Prop := DinodeOk {
  dio_size : is_u32 (sfi_size i);
  dio_type : is_u16 (sfi_type i);
  dio_linkcount : is_u16 (sfi_linkcount i);
  dio_direct : length (sfi_direct i) = 15%nat ∧ Forall is_u32 (sfi_direct i);
  dio_indirect : is_u32 (sfi_indirect i);
  dio_waste : length (sfi_waste i) = 110%nat ∧ Forall is_u32 (sfi_waste i);
}.

Record direntry_ok (d : sfs_direntry) : Prop := DirentryOk {
  deo_ino : is_u32 (sfd_ino d);
  deo_name : length (sfd_name d) = 60%nat ∧ Forall is_u8 (sfd_name d);
}.

(** ** Arrays of words *)

Lemma encode_u32s_length l : length (encode_u32s l) = (4 * length l)%nat.
Proof.
  induction l as [|x l IH]; [done|]. cbn [encode_u32s fmap list_fmap mjoin list_join].
  change (mjoin (be_encode 4 <$> l)) with (encode_u32s l).
  rewrite length_app, be_encode_length, IH. cbn. lia.
Qed.

Lemma encode_u32s_cons x l : encode_u32s (x :: l) = be_encode 4 x ++ encode_u32s l.
Proof. done. Qed.

Lemma be_decode4 x : is_u32 x → be_decode (be_encode 4 x) = x.
Proof. intros H. rewrite be_decode_encode. by apply Z.mod_small. Qed.

Lemma be_decode2 x : is_u16 x → be_decode (be_encode 2 x) = x.
Proof. intros H. rewrite be_decode_encode. by apply Z.mod_small. Qed.

Lemma decode_encode_u32s l rest :
  Forall is_u32 l → decode_u32s (length l) (encode_u32s l ++ rest) = l.
Proof.
  induction l as [|x l IH]; intros Hl; [done|].
  apply Forall_cons_iff in Hl as [Hx Hl]. rewrite encode_u32s_cons, <-app_assoc.
  cbn [length decode_u32s].
  rewrite take_app_length', drop_app_length' by (by rewrite be_encode_length).
  by rewrite be_decode4, IH.
Qed.

Lemma decode_encode_words n l :
  length l = n → Forall is_u32 l → decode_u32s n (encode_u32s l) = l.
Proof.
  intros <- Hl. rewrite <-(app_nil_r (encode_u32s l)). by apply decode_encode_u32s.
Qed.

Lemma encode_decode_u32s n b :
  length b = (4 * n)%nat → Forall is_u8 b → encode_u32s (decode_u32s n b) = b.
Proof.
  revert b. induction n as [|n IH]; intros b Hl Hb.
  - destruct b; [done|cbn in Hl; lia].
  - cbn [decode_u32s]. rewrite encode_u32s_cons, IH.
    + assert (H4 : length (take 4 b) = 4%nat) by (rewrite length_take; lia).
      rewrite <-H4 at 1. rewrite be_encode_decode by (by apply Forall_take).
      apply take_drop.
    + rewrite length_drop. lia.
    + by apply Forall_drop.
Qed.

Lemma decode_u32s_length n b : length (decode_u32s n b) = n.
Proof. revert b. induction n as [|n IH]; intros b; cbn; [done|by rewrite IH]. Qed.

Lemma be_decode_word l : length l = 4%nat → Forall is_u8 l → is_u32 (be_decode l).
Proof. intros Hl Hb. pose proof (be_decode_range l Hb) as H. by rewrite Hl in H. Qed.

Lemma be_decode_half l : length l = 2%nat → Forall is_u8 l → is_u16 (be_decode l).
Proof. intros Hl Hb. pose proof (be_decode_range l Hb) as H. by rewrite Hl in H. Qed.

Lemma decode_u32s_range n b :
  length b = (4 * n)%nat → Forall is_u8 b → Forall is_u32 (decode_u32s n b).
Proof.
  revert b. induction n as [|n IH]; intros b Hl Hb; cbn; constructor.
  - apply be_decode_word; [rewrite length_take; lia|by apply Forall_take].
  - apply IH; [rewrite length_drop; lia|by apply Forall_drop].
Qed.

Lemma encode_u32s_bytes l : Forall is_u8 (encode_u32s l).
Proof.
  induction l as [|x l IH]; [constructor|]. rewrite encode_u32s_cons.
  apply Forall_app. split; [apply be_encode_bytes|done].
Qed.

Lemma decode_u32s_lookup n b i :
  (i < n)%nat → decode_u32s n b !! i = Some (be_decode (slice b (4 * i) 4)).
Proof.
  revert b i. induction n as [|n IH]; intros b i Hi; [lia|].
  destruct i as [|i]; cbn [decode_u32s lookup list_lookup]; [done|].
  rewrite IH by lia. unfold slice. rewrite drop_drop.
  by replace (4 * S i)%nat with (4 + 4 * i)%nat by lia.
Qed.

Lemma decode_zero_u32s n m :
  (4 * n ≤ m)%nat → decode_u32s n (replicate m 0) = replicate n 0.
Proof.
  revert m. induction n as [|n IH]; intros m Hm; [done|].
  cbn [decode_u32s replicate]. f_equal.
  - by do 4 (destruct m as [|m]; [lia|]).
  - rewrite drop_replicate. apply IH. lia.
Qed.

(** ** Round trips *)

(** A field of a concatenation. *)
Lemma slice_field {A} (p x q : list A) i n :
  length p = i → length x = n → slice (p ++ x ++ q) i n = x.
Proof.
  intros Hp Hx. unfold slice. by rewrite drop_app_length', take_app_length'.
Qed.

Lemma slice_field0 {A} (x q : list A) n : length x = n → slice (x ++ q) 0 n = x.
Proof. apply (slice_field []). done. Qed.

Lemma slice_bytes b i n : Forall is_u8 b → Forall is_u8 (slice b i n).
Proof. intros H. by apply Forall_take, Forall_drop. Qed.

Lemma slice_cons_drop {A} (b : list A) i n :
  drop i b = slice b i n ++ drop (i + n) b.
Proof. unfold slice. by rewrite <-drop_drop, take_drop. Qed.

Create Rewrite HintDb oslen.
#[export] Hint Rewrite @length_app @length_drop be_encode_length encode_u32s_length
  @length_replicate decode_u32s_length : oslen.

Ltac oslen := autorewrite with oslen in *; try lia.

Lemma dinode_encode_length i : dinode_ok i → length (dinode_encode i) = 512%nat.
Proof. intros [? ? ? [Hd _] ? [Hw _]]. unfold dinode_encode. oslen. Qed.

Lemma dinode_decode_encode i : dinode_ok i → dinode_decode (dinode_encode i) = i.
Proof.
  intros [Hs Ht Hl [Hd1 Hd2] Hi [Hw1 Hw2]]. unfold dinode_decode, dinode_encode.
  set (a := be_encode 4 (sfi_size i)). set (b := be_encode 2 (sfi_type i)).
  set (c := be_encode 2 (sfi_linkcount i)). set (d := encode_u32s (sfi_direct i)).
  set (e := be_encode 4 (sfi_indirect i)). set (f := encode_u32s (sfi_waste i)).
  assert (La : length a = 4%nat) by apply be_encode_length.
  assert (Lb : length b = 2%nat) by apply be_encode_length.
  assert (Lc : length c = 2%nat) by apply be_encode_length.
  assert (Ld : length d = 60%nat) by (unfold d; oslen).
  assert (Le : length e = 4%nat) by apply be_encode_length.
  rewrite (slice_field0 a), (slice_field a b) by done.
  rewrite (app_assoc a b), (slice_field (a ++ b) c) by oslen.
  rewrite (app_assoc (a ++ b)), (slice_field ((a ++ b) ++ c) d) by oslen.
  rewrite (app_assoc ((a ++ b) ++ c)), (slice_field (((a ++ b) ++ c) ++ d) e) by oslen.
  rewrite (app_assoc (((a ++ b) ++ c) ++ d)), drop_app_length' by oslen.
  unfold a, b, c, d, e, f. rewrite !be_decode4, !be_decode2 by done.
  rewrite !decode_encode_words by done. by destruct i.
Qed.

Lemma dinode_encode_decode b :
  length b = 512%nat → Forall is_u8 b → dinode_encode (dinode_decode b) = b.
Proof.
  intros Hl Hb. unfold dinode_encode, dinode_decode.
  cbn [sfi_size sfi_type sfi_linkcount sfi_direct sfi_indirect sfi_waste].
  assert (He : ∀ i n, (i + n ≤ 512)%nat → be_encode n (be_decode (slice b i n)) = slice b i n).
  { intros i n Hi. rewrite <-(slice_length b i n) at 1 by lia.
    by apply be_encode_decode, slice_bytes. }
  rewrite !He by lia. rewrite !encode_decode_u32s.
  - etransitivity; [|apply (drop_0 b)].
    rewrite (slice_cons_drop b 0 4), (slice_cons_drop b (0 + 4) 2).
    rewrite (slice_cons_drop b (0 + 4 + 2) 2), (slice_cons_drop b (0 + 4 + 2 + 2) 60).
    by rewrite (slice_cons_drop b (0 + 4 + 2 + 2 + 60) 4).
  - oslen.
  - by apply Forall_drop.
  - by rewrite slice_length by lia.
  - by apply slice_bytes.
Qed.

Lemma dinode_decode_ok b :
  length b = 512%nat → Forall is_u8 b → dinode_ok (dinode_decode b).
Proof.
  intros Hl Hb. split; cbn -[slice drop decode_u32s].
  - apply be_decode_word; [by rewrite slice_length by lia|by apply slice_bytes].
  - apply be_decode_half; [by rewrite slice_length by lia|by apply slice_bytes].
  - apply be_decode_half; [by rewrite slice_length by lia|by apply slice_bytes].
  - split; [by rewrite decode_u32s_length|]. apply decode_u32s_range;
      [by rewrite slice_length by lia|by apply slice_bytes].
  - apply be_decode_word; [by rewrite slice_length by lia|by apply slice_bytes].
  - split; [by rewrite decode_u32s_length|]. apply decode_u32s_range;
      [oslen|by apply Forall_drop].
Qed.

Lemma superblock_encode_length sb :
  superblock_ok sb → length (superblock_encode sb) = 512%nat.
Proof. intros [? ? [Hv _] [Hr _]]. unfold superblock_encode. oslen. Qed.

Lemma superblock_decode_encode sb :
  superblock_ok sb → superblock_decode (superblock_encode sb) = sb.
Proof.
  intros [Hm Hn [Hv1 Hv2] [Hr1 Hr2]]. unfold superblock_decode, superblock_encode.
  set (a := be_encode 4 (sb_magic sb)). set (b := be_encode 4 (sb_nblocks sb)).
  assert (La : length a = 4%nat) by apply be_encode_length.
  assert (Lb : length b = 4%nat) by apply be_encode_length.
  rewrite (slice_field0 a), (slice_field a b) by done.
  rewrite (app_assoc a b), (slice_field (a ++ b) _) by oslen.
  rewrite (app_assoc (a ++ b)), drop_app_length' by oslen.
  unfold a, b. rewrite !be_decode4 by done.
  rewrite decode_encode_words by done. by destruct sb.
Qed.

Lemma direntry_encode_length d : direntry_ok d → length (direntry_encode d) = 64%nat.
Proof. intros [? [Hn _]]. unfold direntry_encode. oslen. Qed.

Lemma direntry_decode_encode d :
  direntry_ok d → direntry_decode (direntry_encode d) = d.
Proof.
  intros [Hi [Hn _]]. unfold direntry_decode, direntry_encode.
  rewrite slice_field0 by apply be_encode_length.
  rewrite <-(app_nil_r (sfd_name d)).
  rewrite (slice_field (be_encode 4 (sfd_ino d))) by (by rewrite ?be_encode_length).
  rewrite be_decode4 by done. by destruct d.
Qed.

Lemma direntry_encode_decode b :
  length b = 64%nat → Forall is_u8 b → direntry_encode (direntry_decode b) = b.
Proof.
  intros Hl Hb. unfold direntry_encode, direntry_decode. cbn -[be_encode slice].
  rewrite <-(slice_length b 0 4) at 1 by lia.
  rewrite be_encode_decode by (by apply slice_bytes).
  etransitivity; [|apply (drop_0 b)]. rewrite (slice_cons_drop b 0 4). f_equal.
  unfold slice. apply take_ge. rewrite length_drop. lia.
Qed.

(** These are not to be unfolded on blocks of fixed size. *)
#[global] Arguments decode_u32s : simpl never.
#[global] Arguments be_encode : simpl never.
