(* ===== verification/SfsBlock.v ===== *)
(** * Blocks of an SFS volume

    The block-level I/O of kern/fs/sfs/sfs_io.c and the block allocator
    kern/fs/sfs/sfs_balloc.c, over the disk driver. *)

From S2P Require Import Prelude Bitmap CopyInOut Uio Lhd Lock SfsTypes.
Open Scope Z_scope.

(** [struct sfs_fs], without the table of loaded vnodes; [vfs_lock] is the
    big lock that serialises the operations. *)
Record sfs_fs (HW : Type) := SfsFs {
  sfs_sb : sfs_superblock;
  sfs_superdirty : bool;
  sfs_device : lhd_softc HW;
  sfs_freemap : bitmap;
  sfs_freemapdirty : bool;
  vfs_lock : vfslock;
}.
Arguments SfsFs {HW}.
Arguments sfs_sb {HW}.
Arguments sfs_superdirty {HW}.
Arguments sfs_device {HW}.
Arguments sfs_freemap {HW}.
Arguments sfs_freemapdirty {HW}.
Arguments vfs_lock {HW}.

Section sfs_block.
Context {HW : Type} `{!DiskHw HW}.
#[local] Abbreviation fs_t := (sfs_fs HW).

Definition set_device (d : lhd_softc HW) (fs : fs_t) : fs_t :=
  SfsFs (sfs_sb fs) (sfs_superdirty fs) d (sfs_freemap fs) (sfs_freemapdirty fs)
    (vfs_lock fs).
Definition set_freemap (b : bitmap) (fs : fs_t) : fs_t :=
  SfsFs (sfs_sb fs) (sfs_superdirty fs) (sfs_device fs) b (sfs_freemapdirty fs)
    (vfs_lock fs).
Definition set_freemapdirty (x : bool) (fs : fs_t) : fs_t :=
  SfsFs (sfs_sb fs) (sfs_superdirty fs) (sfs_device fs) (sfs_freemap fs) x
    (vfs_lock fs).
Definition set_superdirty (x : bool) (fs : fs_t) : fs_t :=
  SfsFs (sfs_sb fs) x (sfs_device fs) (sfs_freemap fs) (sfs_freemapdirty fs)
    (vfs_lock fs).
Definition set_lock (l : vfslock) (fs : fs_t) : fs_t :=
  SfsFs (sfs_sb fs) (sfs_superdirty fs) (sfs_device fs) (sfs_freemap fs)
    (sfs_freemapdirty fs) l.

Definition on_freemap {A} (m : M bitmap A) : M fs_t A :=
  zoom sfs_freemap set_freemap m.
Definition on_lock {A} (m : M vfslock A) : M fs_t A := zoom vfs_lock set_lock m.

(** A volume and the request it serves. *)
Record rwst := RwSt { rw_fs : fs_t; rw_u : uiost }.

Definition DEVOP_IO : M rwst unit :=
  zoom (λ s, LhdSt (rw_u s) (sfs_device (rw_fs s)))
       (λ l s, RwSt (set_device (ls_dev l) (rw_fs s)) (ls_u l)) lhd_io.

(** The code from the label [retry] on; [left] is 10 minus [tries]. *)
Fixpoint sfs_rwblock_retry (left : nat) : M rwst unit :=
  r <- attempt DEVOP_IO ;;
  match r with
  | inr _ => ret tt
  | inl EINVAL => panic
  | inl EIO => match left with
               | O => fail EIO
               | S left' => sfs_rwblock_retry left'
               end
  | inl e => fail e
  end.

Definition on_rw_fs {A} (m : M fs_t A) : M rwst A :=
  zoom rw_fs (λ fs s, RwSt fs (rw_u s)) m.

Definition sfs_rwblock : M rwst unit :=
  held <- on_rw_fs (on_lock vfs_biglock_do_i_hold) ;;
  KASSERT held ;;;
  sfs_rwblock_retry 10.

(** A kernel buffer that holds [data]. *)
Definition kbuf (data : list Z) : vmstate := VmState (write_bytes ∅ 0 data) ∅ false.

Definition sfs_readblock (block : Z) : M fs_t (list Z) := λ fs,
  match sfs_rwblock (RwSt fs (UioSt (uio_kinit 0 SFS_BLOCKSIZE (block * SFS_BLOCKSIZE)
                       UIO_READ) (kbuf (replicate 512 0)) 0)) with
  | Ok _ s => match read_bytes (kmem (us_vm (rw_u s))) 0 512 with
              | Some data => Ok data (rw_fs s)
              | None => Crash CUndef
              end
  | Err e s => Err e (rw_fs s)
  | Crash c => Crash c
  end.

Definition sfs_writeblock (block : Z) (data : list Z) : M fs_t unit := λ fs,
  if Z.of_nat (length data) =? SFS_BLOCKSIZE then
    match sfs_rwblock (RwSt fs (UioSt (uio_kinit 0 SFS_BLOCKSIZE (block * SFS_BLOCKSIZE)
                         UIO_WRITE) (kbuf data) 0)) with
    | Ok _ s => Ok tt (rw_fs s)
    | Err e s => Err e (rw_fs s)
    | Crash c => Crash c
    end
  else Crash CPanic.

(** ** sfs_balloc.c *)

Definition sfs_clearblock (block : Z) : M fs_t unit :=
  sfs_writeblock block (replicate 512 0).

Definition sfs_balloc : M fs_t Z :=
  diskblock <- on_freemap bitmap_alloc ;;
  modify (set_freemapdirty true) ;;;
  fs <- get ;;
  (if sb_nblocks (sfs_sb fs) <=? diskblock then panic else ret tt) ;;;
  r <- attempt (sfs_clearblock diskblock) ;;
  match r with
  | inl e => on_freemap (bitmap_unmark diskblock) ;;; fail e
  | inr _ => ret diskblock
  end.

Definition sfs_bfree (diskblock : Z) : M fs_t unit :=
  on_freemap (bitmap_unmark diskblock) ;;;
  modify (set_freemapdirty true).

Definition sfs_bused (diskblock : Z) : M fs_t bool :=
  fs <- get ;;
  (if sb_nblocks (sfs_sb fs) <=? diskblock then panic else ret tt) ;;;
  on_freemap (bitmap_isset diskblock).

End sfs_block.
Arguments rwst HW : clear implicits.

(** ** A volume as its blocks and its free map *)

Section volume.
Context {HW : Type} `{!DiskHw HW, !WorkingDisk HW}.
#[local] Abbreviation fs_t := (sfs_fs HW).
Implicit Types (fs : fs_t) (b j : Z).

Definition blk fs b : list Z := sector (sfs_device fs) b.
Definition used fs b : bool := bit (sfs_freemap fs) b.
Definition nblocks fs : Z := sb_nblocks (sfs_sb fs).

(** A mounted volume on a working disk: the free map covers the volume, and
    says that block 0 and what lies past the end are in use. *)
Record vol_ok fs : Prop := VolOk {
  vo_dev : dev_ok (sfs_device fs);
  vo_n : 0 < nblocks fs ≤ d_blocks (sfs_device fs);
  vo_map : bm_wf (sfs_freemap fs);
  vo_bits : nblocks fs ≤ nbits (sfs_freemap fs);
  vo_over : ∀ b, nblocks fs ≤ b < nbits (sfs_freemap fs) → used fs b = true;
  vo_zero : used fs 0 = true;
  vo_bytes : ∀ b, 0 ≤ b < nblocks fs → Forall is_u8 (blk fs b);
}.

Definition locked fs : Prop := ∃ n, 0 < n ∧ held n (vfs_lock fs).

(** What the block operations leave alone. *)
Record frame fs fs' : Prop := Frame {
  fr_sb : sfs_sb fs' = sfs_sb fs;
  fr_superdirty : sfs_superdirty fs' = sfs_superdirty fs;
  fr_lock : vfs_lock fs' = vfs_lock fs;
  fr_dblocks : d_blocks (sfs_device fs') = d_blocks (sfs_device fs);
  fr_nbits : nbits (sfs_freemap fs') = nbits (sfs_freemap fs);
}.

(** [fs'] is again a good volume, with block contents [B] and free map [U]. *)
Record fs_upd (B : Z → list Z) (U : Z → bool) fs fs' : Prop := FsUpd {
  fu_ok : vol_ok fs';
  fu_frame : frame fs fs';
  fu_blk : ∀ j, blk fs' j = B j;
  fu_used : ∀ j, 0 ≤ j → used fs' j = U j;
}.

Definition put_blk b data (B : Z → list Z) : Z → list Z :=
  λ j, if j =? b then data else B j.
Definition put_used b (x : bool) (U : Z → bool) : Z → bool :=
  λ j, if j =? b then x else U j.

Lemma frame_refl fs : frame fs fs.
Proof. done. Qed.

Lemma frame_trans fs1 fs2 fs3 : frame fs1 fs2 → frame fs2 fs3 → frame fs1 fs3.
Proof. intros [] []. split; congruence. Qed.

Lemma frame_nblocks fs fs' : frame fs fs' → nblocks fs' = nblocks fs.
Proof. intros []. unfold nblocks. congruence. Qed.

Lemma frame_locked fs fs' : frame fs fs' → locked fs → locked fs'.
Proof. intros [] (n & Hn & Hh). exists n. by rewrite fr_lock0. Qed.

Lemma fs_upd_refl fs : vol_ok fs → fs_upd (blk fs) (used fs) fs fs.
Proof. intros H. by split. Qed.

(** ** Single blocks *)

Lemma addrs_kinit a n pos rw : addrs (uio_kinit a n pos rw) = seqZ a n.
Proof. unfold addrs, uio_kinit. cbn [uio_iov]. cbn -[seqZ]. by rewrite app_nil_r. Qed.

Lemma take_seqZ_all a n : take n (seqZ a (Z.of_nat n)) = seqZ a (Z.of_nat n).
Proof. apply take_ge. rewrite length_seqZ. lia. Qed.

Lemma take_kinit pos rw :
  take 512 (addrs (uio_kinit 0 SFS_BLOCKSIZE pos rw)) = seqZ 0 512.
Proof. rewrite addrs_kinit. apply (take_seqZ_all 0 512). Qed.

Lemma store_block m l :
  length l = 512%nat → store_at m (seqZ 0 512) l = write_bytes m 0 l.
Proof. intros Hl. rewrite <-store_at_seqZ. by rewrite Hl. Qed.

Lemma read_block m l :
  length l = 512%nat → read_bytes (write_bytes m 0 l) 0 512 = Some l.
Proof. intros Hl. pose proof (write_bytes_read m 0 l) as H. by rewrite Hl in H. Qed.

Lemma kbuf_req data b rw fs :
  length data = 512%nat → 0 ≤ b < d_blocks (sfs_device fs) →
  sector_req b rw (uio_kinit 0 SFS_BLOCKSIZE (b * SFS_BLOCKSIZE) rw) (kbuf data) 0
    (sfs_device fs).
Proof.
  intros Hl Hb. split; [done|done|done|done|done|].
  split; [split| | | |]; rewrite ?addrs_kinit, ?length_replicate.
  - by constructor.
  - done.
  - done.
  - done.
  - done.
  - done.
  - rewrite length_seqZ. unfold SFS_BLOCKSIZE. lia.
  - intros a Ha. apply elem_of_take in Ha as (i & Ha & _).
    apply list_elem_of_lookup_2, elem_of_seqZ in Ha. split; [|done]. cbn [seg_mem uio_kinit
      uio_segflg kbuf kmem].
    unfold SFS_BLOCKSIZE in Ha. rewrite write_bytes_lookup, decide_True by lia.
    apply lookup_lt_is_Some. lia.
Qed.

Lemma holds_kbuf data data' :
  length data' = length data →
  holds (kmem (kbuf data)) (seqZ 0 (Z.of_nat (length data))) data' → data' = data.
Proof.
  intros Hl Hh. apply list_eq_same_length with (length data); [done|done|].
  intros i x y Hi Hx Hy. unfold holds in Hh. rewrite Forall2_lookup in Hh.
  specialize (Hh i). rewrite Hx, lookup_seqZ_lt in Hh by lia.
  inversion_clear Hh as [? ? Hm|]. cbn in Hm.
  rewrite write_bytes_lookup, decide_True in Hm by lia.
  replace (Z.to_nat (0 + Z.of_nat i - 0)) with i in Hm by lia. congruence.
Qed.

Lemma locked_do_i_hold fs : locked fs → vfs_biglock_do_i_hold (vfs_lock fs) = Ok true (vfs_lock fs).
Proof.
  intros (n & Hn & Hh). rewrite (held_do_i_hold n) by done.
  by rewrite (proj2 (Z.eqb_neq n 0)) by lia.
Qed.

Lemma set_lock_id fs : set_lock (vfs_lock fs) fs = fs.
Proof. by destruct fs. Qed.

(** One successful transfer is all [sfs_rwblock] needs. *)
Lemma sfs_rwblock_once C (Q : unit → rwst HW → Prop) E fs u :
  locked fs →
  wp C lhd_io (λ _ l, Q tt (RwSt (set_device (ls_dev l) fs) (ls_u l))) no_err
    (LhdSt u (sfs_device fs)) →
  wp C sfs_rwblock Q E (RwSt fs u).
Proof.
  intros Hl Hio. unfold sfs_rwblock, on_rw_fs, on_lock. wps.
  eapply wp_of_ok; [by apply locked_do_i_hold|]. wps. cbn [rw_fs rw_u].
  rewrite set_lock_id. apply wp_KASSERT; [done|].
  unfold sfs_rwblock_retry. wps. unfold DEVOP_IO. wps. cbn.
  eapply wp_mono; [exact Hio| | |]; cbn; [|done..]. intros [] l Hl'. by wps.
Qed.

Lemma upd_of_device fs d' (B : Z → list Z) :
  vol_ok fs → dev_ok d' → d_blocks d' = d_blocks (sfs_device fs) →
  (∀ j, sector d' j = B j) → (∀ j, 0 ≤ j < nblocks fs → Forall is_u8 (B j)) →
  fs_upd B (used fs) fs (set_device d' fs).
Proof.
  intros [] Hd Hn HB Hby. split; [split| | |]; try done.
  - cbn. by rewrite Hn.
  - intros b Hb. unfold blk. cbn. rewrite HB. by apply Hby.
Qed.

Lemma sfs_readblock_wp C b (Q : list Z → fs_t → Prop) E fs :
  vol_ok fs → locked fs → 0 ≤ b < nblocks fs →
  (∀ fs', fs_upd (blk fs) (used fs) fs fs' → Q (blk fs b) fs') →
  wp C (sfs_readblock b) Q E fs.
Proof.
  intros Hok Hl Hb HQ. pose proof (vo_n fs Hok) as Hn. unfold wp, sfs_readblock.
  pose proof (hw_sector_len (lh_hw (sfs_device fs)) b) as H512.
  destruct (wp_ok sfs_rwblock (λ _ s, ∃ d',
    rw_fs s = set_device d' fs ∧ dev_ok d' ∧ same_disk (sfs_device fs) d' ∧
    read_bytes (kmem (us_vm (rw_u s))) 0 512 = Some (blk fs b))
    (RwSt fs (UioSt (uio_kinit 0 SFS_BLOCKSIZE (b * SFS_BLOCKSIZE) UIO_READ)
       (kbuf (replicate 512 0)) 0))) as (? & s & -> & d' & -> & Hd & [Hsn Hs] & ->).
  - apply sfs_rwblock_once; [done|]. eapply wp_mono; [apply (lhd_io_read _ b)| |done|done].
    + apply kbuf_req; [done|lia].
    + apply Hok.
    + intros [] l (u' & vm' & d' & -> & Hd & Hs & Hm & Ht & _).
      exists d'. cbn [rw_fs rw_u ls_u ls_dev us_vm]. do 3 (split; [done|]).
      destruct Ht as [_ ->]. cbn [set_seg_mem kmem uio_segflg uio_kinit].
      unfold sector. rewrite H512, take_kinit, store_block by done. by apply read_block.
  - apply HQ, upd_of_device; [done..|]. apply Hok.
Qed.

Lemma sfs_writeblock_wp C b data (Q : unit → fs_t → Prop) E fs :
  vol_ok fs → locked fs → 0 ≤ b < nblocks fs →
  length data = 512%nat → Forall is_u8 data →
  (∀ fs', fs_upd (put_blk b data (blk fs)) (used fs) fs fs' → Q tt fs') →
  wp C (sfs_writeblock b data) Q E fs.
Proof.
  intros Hok Hl Hb Hlen Hby HQ. pose proof (vo_n fs Hok) as Hn.
  unfold wp, sfs_writeblock. rewrite Hlen. change (_ =? _) with true. cbv iota.
  destruct (wp_ok sfs_rwblock (λ _ s, ∃ d',
    rw_fs s = set_device d' fs ∧ dev_ok d' ∧ disk_upd b data (sfs_device fs) d')
    (RwSt fs (UioSt (uio_kinit 0 SFS_BLOCKSIZE (b * SFS_BLOCKSIZE) UIO_WRITE)
       (kbuf data) 0))) as (? & s & -> & d' & -> & Hd & [Hsn Hs]).
  - apply sfs_rwblock_once; [done|]. eapply wp_mono; [apply (lhd_io_write _ b)| |done|done].
    + apply kbuf_req; [done|lia].
    + apply Hok.
    + intros [] l (u' & d' & data' & -> & Hd & Hs & Hm & Hl' & Hh).
      exists d'. cbn [rw_fs rw_u ls_u ls_dev]. do 2 (split; [done|]).
      rewrite take_kinit in Hh.
      assert (data' = data) as ->; [|done].
      apply (holds_kbuf data); [lia|]. by rewrite Hlen.
  - apply HQ, upd_of_device; [done..|]. intros j Hj. unfold put_blk.
    destruct (_ =? _); [done|by apply Hok].
Qed.

(** ** The allocator *)

Lemma vol_nbits fs b : vol_ok fs → 0 ≤ b < nblocks fs → 0 ≤ b < nbits (sfs_freemap fs).
Proof. intros [] ?. lia. Qed.

(** A volume whose free map changed at the block [b]. *)
Lemma vol_ok_freemap fs bm b x dirty :
  vol_ok fs → 0 < b < nblocks fs → bm_wf bm → nbits bm = nbits (sfs_freemap fs) →
  (∀ j, 0 ≤ j → bit bm j = put_used b x (used fs) j) →
  fs_upd (blk fs) (put_used b x (used fs)) fs
    (set_freemapdirty dirty (set_freemap bm fs)).
Proof.
  intros [] Hb Hwf Hn Hbits. split; [split| | |]; try done.
  - cbn. by rewrite Hn.
  - intros j Hj. change (nblocks fs ≤ j < nbits bm) in Hj.
    change (bit bm j = true). rewrite Hbits by lia. unfold put_used.
    rewrite (proj2 (Z.eqb_neq j b)) by lia. apply vo_over0. lia.
  - unfold used. cbn. rewrite Hbits by lia. unfold put_used.
    by rewrite (proj2 (Z.eqb_neq 0 b)) by lia.
Qed.

Lemma fs_upd_trans fs1 fs2 fs3 B2 U2 B3 U3 :
  fs_upd B2 U2 fs1 fs2 → fs_upd B3 U3 fs2 fs3 → fs_upd B3 U3 fs1 fs3.
Proof.
  intros [] []. split; [done| |done|done]. by eapply frame_trans.
Qed.

Lemma fs_upd_ext B U B' U' fs fs' :
  fs_upd B U fs fs' → (∀ j, B' j = B j) → (∀ j, 0 ≤ j → U' j = U j) →
  fs_upd B' U' fs fs'.
Proof.
  intros [] HB HU. split; [done|done| |].
  - intros j. by rewrite HB.
  - intros j Hj. by rewrite HU, fu_used0.
Qed.

(** What a volume looks like once [b] has been handed out. *)
Definition allocated b fs fs' : Prop :=
  0 < b < nblocks fs ∧ used fs b = false ∧
  fs_upd (put_blk b (replicate 512 0) (blk fs)) (put_used b true (used fs)) fs fs'.

Definition full fs : Prop := ∀ b, 0 ≤ b < nblocks fs → used fs b = true.

Lemma zeros_bytes n : Forall is_u8 (replicate n 0).
Proof. apply Forall_replicate. by split. Qed.

Lemma sfs_balloc_wp C (Q : Z → fs_t → Prop) (E : errno → fs_t → Prop) fs :
  vol_ok fs → locked fs →
  (∀ b fs', allocated b fs fs' → Q b fs') →
  (full fs → E ENOSPC fs) →
  wp C sfs_balloc Q E fs.
Proof.
  intros Hok Hl HQ HE. unfold sfs_balloc, on_freemap. wps.
  pose proof (bitmap_alloc_spec _ (vo_map fs Hok)) as Ha.
  unfold alloc_post in Ha. unfold wp at 1.
  destruct (bitmap_alloc _) as [b bm|e bm|]; [| |done].
  - destruct Ha as (Hb & Hfree & _ & ->).
    assert (Hbn : 0 < b < nblocks fs).
    { split.
      - destruct (decide (b = 0)) as [->|]; [|lia].
        pose proof (vo_zero fs Hok) as Hz. unfold used in Hz. congruence.
      - destruct (decide (nblocks fs ≤ b)); [|lia].
        pose proof (vo_over fs Hok b) as Ho. unfold used in Ho.
        rewrite Ho in Hfree by lia. done. }
    pose proof (vol_ok_freemap fs (bm_set (sfs_freemap fs) b) b true true Hok Hbn) as Hu.
    destruct Hu as [Hok1 Hfr1 Hblk1 Hused1].
    { apply bm_set_wf; [apply Hok|done]. }
    { done. }
    { intros j Hj. rewrite bit_set by (try apply Hok; done). unfold put_used, used.
      destruct (_ =? _); [apply orb_true_r|apply orb_false_r]. }
    wps. set (fs1 := set_freemapdirty _ _) in *. change (sb_nblocks (sfs_sb fs1)) with (nblocks fs).
    rewrite (proj2 (Z.leb_gt _ _)) by lia. wps.
    apply sfs_writeblock_wp; [done| |rewrite (frame_nblocks _ _ Hfr1); lia|done|
      apply zeros_bytes|].
    { by eapply frame_locked. }
    intros fs' Hfs'. wps. apply HQ. split; [done|]. split; [done|].
    eapply fs_upd_ext; [eapply fs_upd_trans; [by split|exact Hfs']| |].
    + intros j. unfold put_blk. destruct (_ =? _); [done|]. by rewrite Hblk1.
    + intros j Hj. by rewrite Hused1.
  - destruct Ha as (-> & -> & Hall).
    replace (set_freemap (sfs_freemap fs) fs) with fs by (by destruct fs).
    apply HE. intros b Hb. apply Hall. by apply vol_nbits.
Qed.

Lemma sfs_bfree_wp C b (Q : unit → fs_t → Prop) E fs :
  vol_ok fs → 0 < b < nblocks fs → used fs b = true →
  (∀ fs', fs_upd (blk fs) (put_used b false (used fs)) fs fs' → Q tt fs') →
  wp C (sfs_bfree b) Q E fs.
Proof.
  intros Hok Hb Hused HQ. unfold sfs_bfree, on_freemap. wps.
  assert (Hb' : 0 ≤ b < nbits (sfs_freemap fs)) by (apply vol_nbits; [done|lia]).
  eapply wp_of_ok.
  { rewrite bitmap_unmark_spec by (try apply Hok; done). unfold used in Hused.
    by rewrite Hused. }
  wps. apply HQ, vol_ok_freemap; [done|done| |done|].
  - apply bm_clear_wf; [apply Hok|done].
  - intros j Hj. rewrite bit_clear by (try apply Hok; done). unfold put_used, used.
    destruct (_ =? _); [apply andb_false_r|apply andb_true_r].
Qed.

Lemma sfs_bused_wp C b (Q : bool → fs_t → Prop) E fs :
  vol_ok fs → 0 ≤ b < nblocks fs → Q (used fs b) fs → wp C (sfs_bused b) Q E fs.
Proof.
  intros Hok Hb HQ. unfold sfs_bused, on_freemap. wps.
  change (sb_nblocks (sfs_sb fs)) with (nblocks fs).
  rewrite (proj2 (Z.leb_gt _ _)) by lia. wps.
  eapply wp_of_ok; [apply bitmap_isset_spec; [apply Hok|by apply vol_nbits]|].
  by replace (set_freemap (sfs_freemap fs) fs) with fs by (by destruct fs).
Qed.

End volume.

(** ** Any disk *)

Section any_disk.
Context {HW : Type} `{!DiskHw HW}.

(** Transfers do not touch the free map. *)
Lemma sfs_rwblock_freemap C n :
  ∀ s, (∀ c, C c) → wp C (sfs_rwblock_retry n)
    (λ _ s', sfs_freemap (rw_fs s') = sfs_freemap (rw_fs s))
    (λ _ s', sfs_freemap (rw_fs s') = sfs_freemap (rw_fs s)) (s : rwst HW).
Proof.
  induction n as [|n IH]; intros s HC; cbn [sfs_rwblock_retry]; wps;
    unfold DEVOP_IO; wps; unfold wp at 1;
    (destruct (lhd_io _) as [[] l|e l|]; [by wps| |by apply HC]);
    destruct e; wps; try done; try apply HC.
  wp_call IH; done.
Qed.

Lemma sfs_writeblock_freemap b data (fs : sfs_fs HW) :
  match sfs_writeblock b data fs with
  | Ok _ fs' | Err _ fs' => sfs_freemap fs' = sfs_freemap fs
  | Crash _ => True
  end.
Proof.
  unfold sfs_writeblock. destruct (_ =? _); [|done].
  set (s := RwSt _ _).
  assert (H : wp (λ _, True) sfs_rwblock
    (λ _ s', sfs_freemap (rw_fs s') = sfs_freemap (rw_fs s))
    (λ _ s', sfs_freemap (rw_fs s') = sfs_freemap (rw_fs s)) s).
  { unfold sfs_rwblock, on_rw_fs, on_lock. wps. unfold vfs_biglock_do_i_hold. wps.
    unfold KASSERT. destruct (lock_do_i_hold _ _); [|done]. wps.
    by wp_call (sfs_rwblock_freemap (λ _, True) 10). }
  unfold wp in H. by destruct (sfs_rwblock s).
Qed.

(** when [sfs_balloc] fails, whether because the volume is full or because
    the disk could not clear the block, no block stays allocated. *)
Theorem sfs_balloc_error_restores (fs fs' : sfs_fs HW) e :
  bm_wf (sfs_freemap fs) → sfs_balloc fs = Err e fs' →
  sfs_freemap fs' = sfs_freemap fs.
Proof.
  intros Hwf. unfold sfs_balloc, on_freemap, bind at 1, zoom at 1.
  pose proof (bitmap_alloc_spec _ Hwf) as Ha. unfold alloc_post in Ha.
  destruct (bitmap_alloc _) as [b bm|e' bm|]; [| |done].
  - destruct Ha as (Hb & Hfree & _ & ->).
    unfold bind, modify, get. destruct (_ <=? b); [done|]. unfold ret, attempt.
    set (fs1 := set_freemapdirty _ _).
    pose proof (sfs_writeblock_freemap b (replicate 512 0) fs1) as Hw.
    unfold sfs_clearblock. destruct (sfs_writeblock _ _ _) as [|e2 fs2|]; [done| |done].
    unfold zoom. rewrite Hw. change (sfs_freemap fs1) with (bm_set (sfs_freemap fs) b).
    rewrite bitmap_unmark_spec by (try apply bm_set_wf; done).
    rewrite bit_set, Z.eqb_refl, orb_true_r by (done || lia).
    rewrite bm_clear_set by done. unfold fail. intros H. by simplify_eq.
  - destruct Ha as (-> & -> & _). intros H. by simplify_eq.
Qed.

End any_disk.

(** ** A volume to try things on

    Sixteen blocks on a 64-sector disk: the superblock, the inode of the root
    directory and the free map are in use. *)

Definition small_sb : sfs_superblock :=
  SfsSuperblock SFS_MAGIC 16 (replicate 32 0) (replicate 118 0).

Definition small_fs {HW} `{!DiskHw HW} (hw : HW) : sfs_fs HW :=
  SfsFs small_sb false (LhdSoftc zero_sector None 1 0 (hw_nsect hw) 0 LHD_IDLE hw)
    (Bitmap 16 [7; 0]) false (VfsLock 1 (Lock 1 0) 1).

Definition small_disk : ramdisk := RamDisk 64 ∅.

Lemma small_locked {HW} `{!DiskHw HW} (hw : HW) : locked (small_fs hw).
Proof. exists 1. split; [lia|]. repeat split; cbn; lia. Qed.

Lemma small_freemap_wf : bm_wf (Bitmap 16 [7; 0]).
Proof.
  split; [done|done| |].
  - repeat constructor; lia.
  - cbn. intros i Hi. lia.
Qed.

Lemma small_vol_ok : vol_ok (small_fs small_disk).
Proof.
  split; [| |apply small_freemap_wf| | |done|].
  - split; [done|apply length_replicate|done|done].
  - done.
  - done.
  - unfold nblocks. cbn. lia.
  - intros b Hb. change (Forall is_u8 (fit_sector zero_sector)).
    rewrite fit_sector_id by apply length_replicate. apply zeros_bytes.
Qed.

(** C6: a block that [sfs_balloc] hands out is a block of the volume that was
    free; it is marked in use and holds zeros, and every other block and every
    other bit of the free map is as before.  It fails only when the volume is
    full.  The disk is a working one (no media errors) and the thread holds the
    big lock. *)
Theorem sfs_balloc_correct {HW} `{!DiskHw HW, !WorkingDisk HW} (fs : sfs_fs HW) :
  vol_ok fs → locked fs →
  match sfs_balloc fs with
  | Ok b fs' => 0 < b < nblocks fs ∧ used fs b = false ∧
      fs_upd (put_blk b (replicate 512 0) (blk fs)) (put_used b true (used fs)) fs fs'
  | Err e fs' => e = ENOSPC ∧ fs' = fs ∧ full fs
  | Crash _ => False
  end.
Proof.
  intros Hok Hl.
  cut (wp no_crash sfs_balloc (λ b fs', allocated b fs fs')
         (λ e fs', e = ENOSPC ∧ fs' = fs ∧ full fs) fs).
  { unfold wp. by destruct (sfs_balloc fs). }
  by apply sfs_balloc_wp.
Qed.

Lemma sfs_balloc_correct_witness :
  match sfs_balloc (small_fs small_disk) with
  | Ok b fs' => 0 < b < nblocks (small_fs small_disk) ∧
      used (small_fs small_disk) b = false ∧
      fs_upd (put_blk b (replicate 512 0) (blk (small_fs small_disk)))
        (put_used b true (used (small_fs small_disk))) (small_fs small_disk) fs'
  | Err e fs' => e = ENOSPC ∧ fs' = small_fs small_disk ∧ full (small_fs small_disk)
  | Crash _ => False
  end.
Proof. apply sfs_balloc_correct; [exact small_vol_ok|exact (small_locked small_disk)]. Defined.

Definition full_fs : sfs_fs ramdisk := set_freemap (Bitmap 16 [255; 255]) (small_fs small_disk).

Lemma sfs_balloc_error_restores_witness :
  sfs_balloc full_fs = Err ENOSPC full_fs ∧ sfs_freemap full_fs = Bitmap 16 [255; 255].
Proof.
  split; [vm_compute; reflexivity|].
  apply (sfs_balloc_error_restores full_fs full_fs ENOSPC); [|vm_compute; reflexivity].
  split; [done|done|repeat constructor; lia|cbn; intros i Hi; lia].
Defined.

(** ** Write errors

    [lhd_io] has used up the request by the time the disk reports that a
    write failed, so the retry finds nothing left to write. *)

Section lost_write.
Context {HW : Type} `{!DiskHw HW}.

(** The error comes back with the request used up. *)
Lemma lhd_io_write_media b u vm sp (d : lhd_softc HW) val buf' hw' :
  sector_req b UIO_WRITE u vm sp d → dev_ok d →
  (∀ data, length data = 512%nat →
     holds (seg_mem (uio_segflg u) vm) (take 512 (addrs u)) data →
     hw_exec (Z.lor LHD_WORKING LHD_ISWRITE) b data (lh_hw d) = (val, buf', hw')) →
  Z.land val LHD_STATEMASK = LHD_MEDIA →
  ∃ u' d', lhd_io (LhdSt (UioSt u vm sp) d) = Err EIO (LhdSt (UioSt u' vm sp) d') ∧
    moved 512 u u' ∧ lh_hw d' = hw' ∧ d_blocks d' = d_blocks d.
Proof.
  intros Hrq Hd Hx Hv. cut (wp no_crash lhd_io (λ _ _, False) (λ e s, e = EIO ∧
    ∃ u' d', s = LhdSt (UioSt u' vm sp) d' ∧ moved 512 u u' ∧ lh_hw d' = hw' ∧
    d_blocks d' = d_blocks d) (LhdSt (UioSt u vm sp) d)).
  { unfold wp. destruct (lhd_io _); [done| |done]. intros (-> & u' & d' & -> & H).
    by exists u', d'. }
  eapply wp_eq; [by apply (lhd_io_one b UIO_WRITE)|].
  apply lhd_sector_write; [done|done|]. intros data u' Hm Hl Hh. exists val, buf', hw'.
  split; [by apply Hx|]. right. split; [done|]. split; [done|]. by eexists u', _.
Qed.

(** A request with nothing left is served at once. *)
Lemma lhd_io_nothing u vm sp (d : lhd_softc HW) k :
  uio_resid u = 0 → uio_offset u = k * 512 → 0 ≤ k ≤ d_blocks d → is_u32 (d_blocks d) →
  lhd_io (LhdSt (UioSt u vm sp) d) = Ok tt (LhdSt (UioSt u vm sp) d).
Proof.
  intros Hr Ho Hk H32. unfold is_u32 in H32. unfold lhd_io, lhd_setup, bind, get.
  cbn [ls_u us_uio ls_dev]. unfold LHD_SECTSIZE.
  rewrite Ho, Hr, Z.quot_mul, Z.rem_mul by lia. change (u32 0) with 0.
  change (0 / 512) with 0. change (0 mod 512) with 0.
  rewrite Z.add_0_r, !u32_small by (unfold is_u32; rewrite ?u32_small; unfold is_u32; lia).
  cbn [negb orb Z.eqb]. by rewrite (proj2 (Z.ltb_ge _ _)) by lia.
Qed.

(** C36: a media error on a write is not reported: whatever the disk does with
    the block, [sfs_writeblock] returns success after the failed attempt and
    does not write the block again. *)
Theorem sfs_writeblock_hides_error b data (fs : sfs_fs HW) val buf' hw' :
  dev_ok (sfs_device fs) → locked fs → 0 ≤ b < d_blocks (sfs_device fs) →
  length data = 512%nat →
  hw_exec (Z.lor LHD_WORKING LHD_ISWRITE) b data (lh_hw (sfs_device fs)) =
    (val, buf', hw') →
  Z.land val LHD_STATEMASK = LHD_MEDIA →
  ∃ fs', sfs_writeblock b data fs = Ok tt fs' ∧ lh_hw (sfs_device fs') = hw'.
Proof.
  intros Hd Hl Hb Hlen Hx Hv. unfold sfs_writeblock. rewrite Hlen.
  change (_ =? _) with true. cbv iota. set (u := uio_kinit _ _ _ _).
  destruct (lhd_io_write_media b u (kbuf data) 0 (sfs_device fs) val buf' hw')
    as (u' & d' & He & Hm & Hhw & Hdb); [by apply kbuf_req|done| |done|].
  { intros data' Hl' Hh. unfold u in Hh. rewrite take_kinit in Hh.
    assert (data' = data) as ->; [|done].
    apply (holds_kbuf data); [lia|]. by rewrite Hlen. }
  unfold sfs_rwblock, on_rw_fs, on_lock, bind at 1, zoom at 1 2. cbn [rw_fs].
  rewrite locked_do_i_hold by done. rewrite set_lock_id. cbn [rw_u].
  unfold bind at 1, KASSERT, ret at 1. cbn [sfs_rwblock_retry].
  unfold bind, attempt, DEVOP_IO, zoom. cbn [rw_u rw_fs]. rewrite He.
  cbn [rw_u rw_fs ls_u ls_dev sfs_device set_device].
  rewrite (lhd_io_nothing u' (kbuf data) 0 d' (b + 1)).
  - cbn. by eexists.
  - rewrite (mv_resid _ _ _ Hm). done.
  - rewrite (mv_off _ _ _ Hm). cbn. unfold SFS_BLOCKSIZE. lia.
  - lia.
  - rewrite Hdb. apply Hd.
Qed.

End lost_write.

Lemma sfs_writeblock_hides_error_witness :
  let fs := small_fs (FlakyDisk small_disk [true]) in
  ∃ fs', sfs_writeblock 5 (replicate 512 1) fs = Ok tt fs' ∧
    lh_hw (sfs_device fs') = FlakyDisk small_disk [].
Proof.
  apply (sfs_writeblock_hides_error 5 (replicate 512 1)
    (small_fs (FlakyDisk small_disk [true])) LHD_MEDIA (replicate 512 1)).
  - split; [done|apply length_replicate|done|done].
  - exact (small_locked (FlakyDisk small_disk [true])).
  - done.
  - apply length_replicate.
  - reflexivity.
  - reflexivity.
Defined.
