(* ===== verification/SfsBmap.v ===== *)
(** * File blocks

    kern/fs/sfs/sfs_bmap.c: the map from the blocks of a file to the blocks
    of the disk, and truncation. *)

From S2P Require Import Prelude Endian Bitmap Lhd Lock SfsTypes SfsBlock.
Open Scope Z_scope.

Inductive sfs_ops := sfs_fileops | sfs_dirops.

(** [struct sfs_vnode], with the fields of the [struct vnode] in it. *)
Record sfs_vnode := SfsVnode {
  vn_refcount : Z;
  vn_ops : sfs_ops;
  sv_i : sfs_dinode;
  sv_ino : Z;
  sv_dirty : bool;
}.

Definition set_i (f : sfs_dinode → sfs_dinode) (sv : sfs_vnode) : sfs_vnode :=
  SfsVnode (vn_refcount sv) (vn_ops sv) (f (sv_i sv)) (sv_ino sv) (sv_dirty sv).
Definition set_sv_dirty (x : bool) (sv : sfs_vnode) : sfs_vnode :=
  SfsVnode (vn_refcount sv) (vn_ops sv) (sv_i sv) (sv_ino sv) x.

Definition set_direct (k b : Z) (i : sfs_dinode) : sfs_dinode :=
  SfsDinode (sfi_size i) (sfi_type i) (sfi_linkcount i)
    (<[Z.to_nat k := b]> (sfi_direct i)) (sfi_indirect i) (sfi_waste i).
Definition set_indirect (b : Z) (i : sfs_dinode) : sfs_dinode :=
  SfsDinode (sfi_size i) (sfi_type i) (sfi_linkcount i) (sfi_direct i) b (sfi_waste i).
Definition set_size (n : Z) (i : sfs_dinode) : sfs_dinode :=
  SfsDinode n (sfi_type i) (sfi_linkcount i) (sfi_direct i) (sfi_indirect i) (sfi_waste i).
Definition set_linkcount (n : Z) (i : sfs_dinode) : sfs_dinode :=
  SfsDinode (sfi_size i) (sfi_type i) n (sfi_direct i) (sfi_indirect i) (sfi_waste i).
Definition set_type (n : Z) (i : sfs_dinode) : sfs_dinode :=
  SfsDinode (sfi_size i) n (sfi_linkcount i) (sfi_direct i) (sfi_indirect i) (sfi_waste i).

(** A vnode and the volume it is on ([sv->sv_absvn.vn_fs->fs_data]). *)
Record svst (HW : Type) := SvSt { st_fs : sfs_fs HW; st_sv : sfs_vnode }.
Arguments SvSt {HW}.
Arguments st_fs {HW}.
Arguments st_sv {HW}.

Section sfs_bmap.
Context {HW : Type} `{!DiskHw HW}.

Definition on_fs {A} (m : M (sfs_fs HW) A) : M (svst HW) A :=
  zoom st_fs (λ fs s, SvSt fs (st_sv s)) m.

(** [sv->sv_i.... = ...; sv->sv_dirty = true;] *)
Definition update_i (f : sfs_dinode → sfs_dinode) : M (svst HW) unit :=
  modify (λ s, SvSt (st_fs s) (set_sv_dirty true (set_i f (st_sv s)))).

(** The check before a block number is handed back. *)
Definition sfs_check_used (block : Z) : M (svst HW) unit :=
  if block =? 0 then ret tt
  else inuse <- on_fs (sfs_bused block) ;; if inuse : bool then ret tt else panic.

Definition sfs_bmap (fileblock : Z) (doalloc : bool) : M (svst HW) Z :=
  held <- on_fs (on_lock vfs_biglock_do_i_hold) ;;
  KASSERT held ;;;
  s <- get ;;
  let i := sv_i (st_sv s) in
  if fileblock <? SFS_NDIRECT then
    block <- deref (sfi_direct i !! Z.to_nat fileblock) ;;
    block <- (if (block =? 0) && doalloc then
                block <- on_fs sfs_balloc ;;
                update_i (set_direct fileblock block) ;;;
                ret block
              else ret block) ;;
    sfs_check_used block ;;;
    ret block
  else
    let fileblock := fileblock - SFS_NDIRECT in
    let idnum := fileblock / SFS_DBPERIDB in
    let idoff := fileblock mod SFS_DBPERIDB in
    if SFS_NINDIRECT <=? idnum then fail EFBIG
    else
      let idblock := sfi_indirect i in
      if (idblock =? 0) && negb doalloc then ret 0
      else
        p <- (if idblock =? 0 then
                idblock <- on_fs sfs_balloc ;;
                update_i (set_indirect idblock) ;;;
                ret (idblock, replicate 128 0)
              else
                b <- on_fs (sfs_readblock idblock) ;;
                ret (idblock, decode_u32s 128 b)) ;;
        let '(idblock, idbuf) := (p : Z * list Z) in
        block <- deref (idbuf !! Z.to_nat idoff) ;;
        block <- (if (block =? 0) && doalloc then
                    block <- on_fs sfs_balloc ;;
                    on_fs (sfs_writeblock idblock
                      (encode_u32s (<[Z.to_nat idoff := block]> idbuf))) ;;;
                    ret block
                  else ret block) ;;
        sfs_check_used block ;;;
        ret block.

(** The first loop of [sfs_itrunc]: the direct blocks from [i] on. *)
Definition itrunc_direct (blocklen : Z) : M (svst HW) unit :=
  for_range 15 0 (λ i,
    s <- get ;;
    block <- deref (sfi_direct (sv_i (st_sv s)) !! Z.to_nat i) ;;
    if (blocklen <=? i) && negb (block =? 0) then
      on_fs (sfs_bfree block) ;;;
      update_i (set_direct i 0)
    else ret tt).

(** The second loop, over the words of the indirect block from [j] on: the
    words after it, [hasnonzero] and [iddirty]. *)
Fixpoint itrunc_indirect (blocklen j : Z) (idbuf : list Z) :
    M (sfs_fs HW) (list Z * bool * bool) :=
  match idbuf with
  | [] => ret ([], false, false)
  | w :: rest =>
      if (blocklen <? SFS_NDIRECT + j) && negb (w =? 0) then
        sfs_bfree w ;;;
        r <- itrunc_indirect blocklen (j + 1) rest ;;
        let '(rest', hasnonzero, iddirty) := (r : list Z * bool * bool) in
        ret (0 :: rest', hasnonzero, true)
      else
        r <- itrunc_indirect blocklen (j + 1) rest ;;
        let '(rest', hasnonzero, iddirty) := (r : list Z * bool * bool) in
        ret (w :: rest', negb (w =? 0) || hasnonzero, iddirty)
  end.

(** [result = m; if (result) { vfs_biglock_release(); return result; }] *)
Definition or_release {A} (m : M (svst HW) A) : M (svst HW) A :=
  r <- attempt m ;;
  match r with
  | inl e => on_fs (on_lock vfs_biglock_release) ;;; fail e
  | inr a => ret a
  end.

(** The part of [sfs_itrunc] that deals with the indirect block [idblock]. *)
Definition itrunc_words (blocklen idblock : Z) : M (svst HW) unit :=
  b <- or_release (on_fs (sfs_readblock idblock)) ;;
  r <- on_fs (itrunc_indirect blocklen 0 (decode_u32s 128 b)) ;;
  let '(idbuf, hasnonzero, iddirty) := (r : list Z * bool * bool) in
  if negb hasnonzero then
    on_fs (sfs_bfree idblock) ;;;
    update_i (set_indirect 0)
  else if iddirty : bool then
    or_release (on_fs (sfs_writeblock idblock (encode_u32s idbuf)))
  else ret tt.

Definition sfs_itrunc (len : Z) : M (svst HW) unit :=
  let blocklen := u32 (Z.quot (len + SFS_BLOCKSIZE - 1) SFS_BLOCKSIZE) in
  on_fs (on_lock vfs_biglock_acquire) ;;;
  itrunc_direct blocklen ;;;
  s <- get ;;
  let idblock := sfi_indirect (sv_i (st_sv s)) in
  let highblock := SFS_NDIRECT + SFS_DBPERIDB - 1 in
  (if (blocklen <? highblock) && negb (idblock =? 0)
   then itrunc_words blocklen idblock else ret tt) ;;;
  update_i (set_size (u32 len)) ;;;
  on_fs (on_lock vfs_biglock_release).

End sfs_bmap.

(** ** The blocks of a file

    A file has 143 block numbers, 15 in the inode and 128 in the indirect
    block; the number of the indirect block itself is in slot -1. *)

Section file.
Context {HW : Type} `{!DiskHw HW, !WorkingDisk HW}.
Implicit Types (fs : sfs_fs HW) (i : sfs_dinode) (k j b : Z).

Definition idwords fs i : list Z := decode_u32s 128 (blk fs (sfi_indirect i)).

Definition slot fs i k : Z :=
  if k =? -1 then sfi_indirect i
  else if k <? 15 then default 0 (sfi_direct i !! Z.to_nat k)
  else if sfi_indirect i =? 0 then 0
  else default 0 (idwords fs i !! Z.to_nat (k - 15)).

Definition is_slot k : Prop := -1 ≤ k < 143.

(** What the [k]-th block of the file reads as. *)
Definition fdata fs i k : list Z :=
  if slot fs i k =? 0 then replicate 512 0 else blk fs (slot fs i k).

(** The blocks of a file are blocks of the volume, in use, and no two slots
    share a block. *)
Record file_ok fs i : Prop := FileOk {
  fo_inode : dinode_ok i;
  fo_used : ∀ k, is_slot k → slot fs i k ≠ 0 →
            0 < slot fs i k < nblocks fs ∧ used fs (slot fs i k) = true;
  fo_inj : ∀ j k, is_slot j → is_slot k → slot fs i j ≠ 0 →
           slot fs i j = slot fs i k → j = k;
}.

Definition same_meta i i' : Prop :=
  sfi_size i' = sfi_size i ∧ sfi_type i' = sfi_type i ∧
  sfi_linkcount i' = sfi_linkcount i ∧ sfi_waste i' = sfi_waste i.

(** The block [b] belongs to the file. *)
Definition owned fs i b : Prop := b ≠ 0 ∧ ∃ k, is_slot k ∧ slot fs i k = b.

(** The file has at most got new blocks: it reads as before, it keeps the
    blocks it had, and blocks of others are not touched. *)
Record grows fs i fs' i' : Prop := Grows {
  gr_ok : vol_ok fs';
  gr_frame : frame fs fs';
  gr_file : file_ok fs' i';
  gr_meta : same_meta i i';
  gr_keep : ∀ k, is_slot k → slot fs i k ≠ 0 → slot fs' i' k = slot fs i k;
  gr_data : ∀ k, 0 ≤ k < 143 → fdata fs' i' k = fdata fs i k;
  gr_used : ∀ b, 0 ≤ b → used fs b = true → used fs' b = true;
  gr_others : ∀ b, 0 ≤ b → used fs b = true → ¬ owned fs i b →
    blk fs' b = blk fs b ∧ ¬ owned fs' i' b;
  gr_new : ∀ b, 0 ≤ b → used fs' b = true → used fs b = true ∨ owned fs' i' b;
}.

Lemma grows_refl fs i : vol_ok fs → file_ok fs i → grows fs i fs i.
Proof. intros Hv Hf. by split; auto using frame_refl. Qed.

Lemma same_meta_trans i1 i2 i3 : same_meta i1 i2 → same_meta i2 i3 → same_meta i1 i3.
Proof. intros (?&?&?&?) (?&?&?&?). repeat split; congruence. Qed.

Lemma grows_keep_owned fs i fs' i' b : grows fs i fs' i' → owned fs i b → owned fs' i' b.
Proof.
  intros Hg [Hb (k & Hk & Hs)]. split; [done|]. exists k. split; [done|].
  rewrite (gr_keep _ _ _ _ Hg) by (by rewrite ?Hs). done.
Qed.

Lemma grows_trans fs1 i1 fs2 i2 fs3 i3 :
  grows fs1 i1 fs2 i2 → grows fs2 i2 fs3 i3 → grows fs1 i1 fs3 i3.
Proof.
  intros H1 H2. split.
  - apply H2.
  - eapply frame_trans; [apply H1|apply H2].
  - apply H2.
  - eapply same_meta_trans; [apply H1|apply H2].
  - intros k Hk Hn. pose proof (gr_keep _ _ _ _ H1 k Hk Hn) as E1.
    rewrite <-E1 in Hn |- *. by apply (gr_keep _ _ _ _ H2).
  - intros k Hk. rewrite (gr_data _ _ _ _ H2) by done. by apply (gr_data _ _ _ _ H1).
  - intros b Hb Hu. by apply (gr_used _ _ _ _ H2), (gr_used _ _ _ _ H1).
  - intros b Hb Hu Hno. destruct (gr_others _ _ _ _ H1 b Hb Hu Hno) as (Hb2 & Hno2).
    destruct (gr_others _ _ _ _ H2 b Hb) as (Hb3 & Hno3);
      [by apply (gr_used _ _ _ _ H1)|done|].
    by rewrite Hb3.
  - intros b Hb Hu. destruct (gr_new _ _ _ _ H2 b Hb Hu) as [Hu2|]; [|by right].
    destruct (gr_new _ _ _ _ H1 b Hb Hu2) as [|Ho]; [by left|right].
    by eapply grows_keep_owned.
Qed.

(** Slot [k] gets the new block [b]. *)
Lemma grows_alloc fs i fs' i' k b :
  vol_ok fs → file_ok fs i → vol_ok fs' → frame fs fs' → dinode_ok i' → same_meta i i' →
  is_slot k → slot fs i k = 0 → 0 < b < nblocks fs → used fs b = false →
  (∀ j, 0 ≤ j → used fs' j = put_used b true (used fs) j) →
  blk fs' b = replicate 512 0 →
  (∀ j, j ≠ b → j ≠ sfi_indirect i ∨ sfi_indirect i = 0 → blk fs' j = blk fs j) →
  slot fs' i' k = b → (∀ j, is_slot j → j ≠ k → slot fs' i' j = slot fs i j) →
  grows fs i fs' i'.
Proof.
  intros Hv Hf Hv' Hfr Hi Hm Hk Hk0 Hb Hfree Hu Hz Hblk Hsk Hsj.
  pose proof (frame_nblocks _ _ Hfr) as Hn.
  assert (Hnb : ∀ j, is_slot j → j ≠ k → slot fs i j ≠ b).
  { intros j Hj _ Heq. destruct (fo_used fs i Hf j Hj) as [_ Hx]; [lia|]. congruence. }
  assert (Hu' : ∀ j, 0 ≤ j → used fs j = true → used fs' j = true).
  { intros j Hj Hx. rewrite Hu by done. unfold put_used. by destruct (_ =? _). }
  split; [exact Hv'|exact Hfr| |exact Hm| | |exact Hu'| |].
  - split; [done| |].
    + intros j Hj. rewrite Hn. destruct (decide (j = k)) as [->|Hne].
      * rewrite Hsk. intros _. split; [done|]. rewrite Hu by lia. unfold put_used.
        by rewrite Z.eqb_refl.
      * rewrite Hsj by done. intros Hnz. destruct (fo_used fs i Hf j Hj Hnz) as [Hx1 Hx2].
        split; [done|]. apply Hu'; [lia|done].
    + intros j l Hj Hl. destruct (decide (j = k)) as [->|Hjk], (decide (l = k)) as [->|Hlk].
      * done.
      * rewrite Hsk, (Hsj l) by done. intros _ Heq. destruct (Hnb l Hl Hlk). done.
      * rewrite Hsk, (Hsj j) by done. intros _ Heq. destruct (Hnb j Hj Hjk). done.
      * rewrite !Hsj by done. by apply Hf.
  - intros j Hj Hnz. apply Hsj; [done|]. by intros ->.
  - intros j Hj. unfold fdata. destruct (decide (j = k)) as [->|Hne].
    + rewrite Hsk, Hk0, Hz. by destruct (_ =? _).
    + assert (Hsl : is_slot j) by (unfold is_slot; lia). rewrite Hsj by done.
      destruct (Z.eqb_spec (slot fs i j) 0) as [|Hnz]; [done|]. apply Hblk; [by apply Hnb|].
      destruct (decide (sfi_indirect i = 0)); [by right|left]. intros Heq.
      assert (j = -1); [|lia]. apply (fo_inj fs i Hf); [done|by split|done|].
      by rewrite Heq.
  - intros x Hx Hxu Hno. split.
    + apply Hblk; [by intros ->; congruence|].
      destruct (decide (sfi_indirect i = 0)); [by right|left]. intros ->.
      apply Hno. split; [done|]. exists (-1). by split.
    + intros [Hx0 (l & Hl & Hs)]. destruct (decide (l = k)) as [->|Hlk]; [congruence|].
      rewrite Hsj in Hs by done. apply Hno. split; [done|]. by exists l.
  - intros x Hx. rewrite Hu by done. unfold put_used.
    destruct (Z.eqb_spec x b) as [->|]; [|by left]. intros _. right.
    split; [lia|]. by exists k.
Qed.

(** ** New blocks in the three kinds of slots *)

Lemma dinode_ok_direct i k b : dinode_ok i → is_u32 b → dinode_ok (set_direct k b i).
Proof.
  intros [? ? ? [Hl Hf] ? ?] Hb. split; cbn; auto.
  split; [by rewrite length_insert|]. by apply Forall_insert.
Qed.

Lemma dinode_ok_indirect i b : dinode_ok i → is_u32 b → dinode_ok (set_indirect b i).
Proof. intros [] Hb. by split. Qed.

Lemma slot_set_direct fs fs' i k b j :
  length (sfi_direct i) = 15%nat → 0 ≤ k < 15 → is_slot j →
  (sfi_indirect i ≠ 0 → blk fs' (sfi_indirect i) = blk fs (sfi_indirect i)) →
  slot fs' (set_direct k b i) j = if j =? k then b else slot fs i j.
Proof.
  intros Hl Hk Hj Hblk. unfold slot, idwords. cbn.
  destruct (Z.eqb_spec j (-1)) as [->|]; [by rewrite (proj2 (Z.eqb_neq _ k)) by lia|].
  unfold is_slot in Hj. destruct (Z.ltb_spec j 15).
  - destruct (Z.eqb_spec j k) as [->|].
    + by rewrite list_lookup_insert_eq by lia.
    + rewrite list_lookup_insert_ne by lia. done.
  - rewrite (proj2 (Z.eqb_neq _ k)) by lia.
    destruct (Z.eqb_spec (sfi_indirect i) 0); [done|]. by rewrite Hblk.
Qed.

Lemma allocated_u32 b fs fs' : vol_ok fs → allocated b fs fs' → is_u32 b.
Proof.
  intros Hv (Hb & _ & _). pose proof (vo_n fs Hv). pose proof (dv_u32 _ (vo_dev fs Hv)).
  unfold is_u32 in *. lia.
Qed.

Lemma put_blk_ne b data (B : Z → list Z) j : j ≠ b → put_blk b data B j = B j.
Proof. intros H. unfold put_blk. by rewrite (proj2 (Z.eqb_neq j b)). Qed.

Lemma put_blk_eq b data (B : Z → list Z) : put_blk b data B b = data.
Proof. unfold put_blk. by rewrite Z.eqb_refl. Qed.

Lemma owned_used fs i b : file_ok fs i → owned fs i b → 0 < b < nblocks fs ∧ used fs b = true.
Proof. intros Hf [Hb (k & Hk & <-)]. by apply Hf. Qed.

Lemma indirect_used fs i :
  file_ok fs i → sfi_indirect i ≠ 0 →
  0 < sfi_indirect i < nblocks fs ∧ used fs (sfi_indirect i) = true.
Proof. intros Hf Hi. apply (owned_used fs i); [done|]. split; [done|]. by exists (-1). Qed.

Lemma allocated_ne b fs fs' x : allocated b fs fs' → used fs x = true → x ≠ b.
Proof. intros (_ & Hf & _) Hx ->. congruence. Qed.

Lemma grows_direct fs i fs' k b :
  vol_ok fs → file_ok fs i → 0 ≤ k < 15 → slot fs i k = 0 → allocated b fs fs' →
  grows fs i fs' (set_direct k b i).
Proof.
  intros Hv Hf Hk Hk0 Ha. pose proof (allocated_u32 _ _ _ Hv Ha) as Hb32.
  pose proof (fo_inode fs i Hf) as Hi. pose proof Ha as (Hb & Hfree & [Hv' Hfr Hblk Hu]).
  assert (Hind : sfi_indirect i ≠ 0 → blk fs' (sfi_indirect i) = blk fs (sfi_indirect i)).
  { intros Hn. rewrite Hblk. apply put_blk_ne. eapply allocated_ne; [done|].
    by apply indirect_used. }
  apply (grows_alloc _ _ _ _ k b); [exact Hv|exact Hf|exact Hv'|exact Hfr| | | |
    exact Hk0|exact Hb|exact Hfree|exact Hu| | | |].
  - by apply dinode_ok_direct.
  - done.
  - unfold is_slot. lia.
  - rewrite Hblk. apply put_blk_eq.
  - intros j Hj _. rewrite Hblk. by apply put_blk_ne.
  - rewrite (slot_set_direct fs) by (try apply Hi; unfold is_slot; auto; lia).
    by rewrite Z.eqb_refl.
  - intros j Hj Hne. rewrite (slot_set_direct fs) by (try apply Hi; auto).
    by rewrite (proj2 (Z.eqb_neq _ _)).
Qed.

Lemma idwords_zero fs i :
  blk fs (sfi_indirect i) = replicate 512 0 → idwords fs i = replicate 128 0.
Proof. intros H. unfold idwords. rewrite H. apply (decode_zero_u32s 128 512). lia. Qed.

Lemma default_replicate n m : default 0 (replicate n 0 !! m) = 0.
Proof.
  destruct (replicate n 0 !! m) eqn:E; [|done]. by apply lookup_replicate in E as [-> _].
Qed.

Lemma grows_indirect fs i fs' b :
  vol_ok fs → file_ok fs i → sfi_indirect i = 0 → allocated b fs fs' →
  grows fs i fs' (set_indirect b i).
Proof.
  intros Hv Hf Hk0 Ha. pose proof (allocated_u32 _ _ _ Hv Ha) as Hb32.
  pose proof (fo_inode fs i Hf) as Hi. pose proof Ha as (Hb & Hfree & [Hv' Hfr Hblk Hu]).
  assert (Hz : blk fs' b = replicate 512 0) by (rewrite Hblk; apply put_blk_eq).
  apply (grows_alloc _ _ _ _ (-1) b); [exact Hv|exact Hf|exact Hv'|exact Hfr| | | |
    exact Hk0|exact Hb|exact Hfree|exact Hu|exact Hz| |reflexivity|].
  - by apply dinode_ok_indirect.
  - done.
  - done.
  - intros j Hj _. rewrite Hblk. by apply put_blk_ne.
  - intros j Hj Hne. unfold slot. cbn [set_indirect sfi_indirect sfi_direct].
    rewrite (proj2 (Z.eqb_neq j (-1))) by done.
    destruct (_ <? _); [done|]. rewrite Hk0. rewrite (proj2 (Z.eqb_neq b 0)) by lia.
    rewrite idwords_zero by done. apply default_replicate.
Qed.

(** The words of an indirect block, and the block with one of them changed. *)
Lemma indirect_words fs i :
  vol_ok fs → file_ok fs i → sfi_indirect i ≠ 0 →
  length (idwords fs i) = 128%nat ∧ Forall is_u32 (idwords fs i).
Proof.
  intros Hv Hf Hi. destruct (indirect_used fs i Hf Hi) as [Hr _]. split.
  - apply decode_u32s_length.
  - apply decode_u32s_range; [apply hw_sector_len|]. apply Hv. lia.
Qed.

Lemma slot_indirect fs i k :
  15 ≤ k < 143 → sfi_indirect i ≠ 0 →
  slot fs i k = default 0 (idwords fs i !! Z.to_nat (k - 15)).
Proof.
  intros Hk Hi. unfold slot. rewrite (proj2 (Z.eqb_neq k (-1))) by lia.
  rewrite (proj2 (Z.ltb_ge k 15)) by lia. by rewrite (proj2 (Z.eqb_neq _ 0)).
Qed.

Lemma slot_set_word fs fs' i k b j :
  vol_ok fs → file_ok fs i → sfi_indirect i ≠ 0 → 15 ≤ k < 143 → is_slot j → is_u32 b →
  blk fs' (sfi_indirect i) = encode_u32s (<[Z.to_nat (k - 15) := b]> (idwords fs i)) →
  slot fs' i j = if j =? k then b else slot fs i j.
Proof.
  intros Hv Hf Hi Hk Hj Hb Hblk. unfold is_slot in Hj.
  destruct (indirect_words fs i Hv Hf Hi) as [Hl H32].
  assert (Hw : idwords fs' i = <[Z.to_nat (k - 15) := b]> (idwords fs i)).
  { unfold idwords at 1. rewrite Hblk. apply decode_encode_words.
    - by rewrite length_insert.
    - by apply Forall_insert. }
  destruct (decide (j < 15)) as [Hlt|Hge].
  - rewrite (proj2 (Z.eqb_neq j k)) by lia. unfold slot.
    destruct (_ =? -1); [done|]. by rewrite (proj2 (Z.ltb_lt j 15)) by done.
  - rewrite !slot_indirect by (done || lia). rewrite Hw.
    destruct (Z.eqb_spec j k) as [->|].
    + by rewrite list_lookup_insert_eq by lia.
    + by rewrite list_lookup_insert_ne by lia.
Qed.

Lemma grows_word fs i fs1 fs2 k b :
  vol_ok fs → file_ok fs i → 15 ≤ k < 143 → slot fs i k = 0 → sfi_indirect i ≠ 0 →
  allocated b fs fs1 →
  fs_upd (put_blk (sfi_indirect i)
            (encode_u32s (<[Z.to_nat (k - 15) := b]> (idwords fs i))) (blk fs1))
    (used fs1) fs1 fs2 →
  grows fs i fs2 i.
Proof.
  intros Hv Hf Hk Hk0 Hi Ha [Hv2 Hfr2 Hblk2 Hu2].
  pose proof (allocated_u32 _ _ _ Hv Ha) as Hb32.
  pose proof Ha as (Hb & Hfree & [Hv1 Hfr1 Hblk1 Hu1]).
  assert (Hne : sfi_indirect i ≠ b).
  { eapply allocated_ne; [done|]. by apply indirect_used. }
  assert (Hs : ∀ j, is_slot j → slot fs2 i j = if j =? k then b else slot fs i j).
  { intros j Hj. apply slot_set_word; auto. rewrite Hblk2. apply put_blk_eq. }
  apply (grows_alloc _ _ _ _ k b); [exact Hv|exact Hf|exact Hv2| | | | |
    exact Hk0|exact Hb|exact Hfree| | | | |].
  - by eapply frame_trans.
  - apply Hf.
  - done.
  - unfold is_slot. lia.
  - intros j Hj. rewrite Hu2 by done. by apply Hu1.
  - rewrite Hblk2, put_blk_ne by done. rewrite Hblk1. apply put_blk_eq.
  - intros j Hj [Hji|]; [|done]. rewrite Hblk2, put_blk_ne by done.
    rewrite Hblk1. by apply put_blk_ne.
  - rewrite Hs by (unfold is_slot; lia). by rewrite Z.eqb_refl.
  - intros j Hj Hne'. rewrite Hs by done. by rewrite (proj2 (Z.eqb_neq _ _)).
Qed.

(** Reading changes nothing. *)
Lemma slot_read fs fs' i k :
  fs_upd (blk fs) (used fs) fs fs' → slot fs' i k = slot fs i k.
Proof. intros [_ _ Hb _]. unfold slot, idwords. by rewrite Hb. Qed.

Lemma grows_read fs fs' i :
  vol_ok fs → file_ok fs i → fs_upd (blk fs) (used fs) fs fs' → grows fs i fs' i.
Proof.
  intros Hv Hf Hu. pose proof Hu as [Hv' Hfr Hb Hus].
  pose proof (slot_read fs fs' i) as Hs.
  split; [exact Hv'|exact Hfr| |done| | | | |].
  - destruct Hf as [Hi Hfu Hinj]. split; [done| |].
    + intros k Hk. rewrite Hs by done. intros Hnz. rewrite (frame_nblocks _ _ Hfr).
      destruct (Hfu k Hk Hnz). rewrite Hus by lia. done.
    + intros j k. rewrite !Hs by done. apply Hinj.
  - intros k Hk Hnz. by apply Hs.
  - intros k Hk. unfold fdata. by rewrite Hs, Hb.
  - intros b Hb0 Hx. by rewrite Hus.
  - intros b Hb0 _ Hno. split; [done|]. intros [Hnz (k & Hk & Hsk)]. apply Hno.
    split; [done|]. exists k. by rewrite <-(Hs k Hu).
  - intros b Hb0. rewrite Hus by done. by left.
Qed.

(** ** [sfs_bmap] *)

(** What stays the same of the vnode; a changed inode is marked dirty. *)
Definition same_vn (sv sv' : sfs_vnode) : Prop :=
  vn_refcount sv' = vn_refcount sv ∧ vn_ops sv' = vn_ops sv ∧ sv_ino sv' = sv_ino sv ∧
  (sv' = sv ∨ sv_dirty sv' = true).

Lemma same_vn_refl sv : same_vn sv sv.
Proof. repeat split; auto. Qed.

Lemma same_vn_trans sv1 sv2 sv3 : same_vn sv1 sv2 → same_vn sv2 sv3 → same_vn sv1 sv3.
Proof.
  intros (?&?&?&[->|Hd]) (?&?&?&[->|Hd']); repeat split; try congruence; auto.
Qed.

Lemma sfs_check_used_wp C b (Q : unit → svst HW → Prop) E fs sv :
  vol_ok fs → (b ≠ 0 → 0 < b < nblocks fs ∧ used fs b = true) → Q tt (SvSt fs sv) →
  wp C (sfs_check_used b) Q E (SvSt fs sv).
Proof.
  intros Hv Hb HQ. unfold sfs_check_used, on_fs. destruct (Z.eqb_spec b 0) as [|Hne]; wps; [done|].
  destruct (Hb Hne) as [Hr Hu]. apply sfs_bused_wp; [done|cbn; lia|]. cbn. rewrite Hu. by wps.
Qed.

Definition bmap_post fs sv (k : Z) (doalloc : bool) (b : Z) (s : svst HW) : Prop :=
  let i' := sv_i (st_sv s) in
  grows fs (sv_i sv) (st_fs s) i' ∧ same_vn sv (st_sv s) ∧
  b = slot (st_fs s) i' k ∧
  (doalloc = false → st_sv s = sv ∧ fs_upd (blk fs) (used fs) fs (st_fs s)) ∧
  (doalloc = true → b ≠ 0).

Definition bmap_err fs sv (k : Z) (doalloc : bool) (e : errno) (s : svst HW) : Prop :=
  e = ENOSPC ∧ doalloc = true ∧ full (st_fs s) ∧
  grows fs (sv_i sv) (st_fs s) (sv_i (st_sv s)) ∧ same_vn sv (st_sv s) ∧
  slot fs (sv_i sv) k = 0.

Lemma check_used_slot C fs sv k (Q : Z → svst HW → Prop) E b :
  vol_ok fs → file_ok fs (sv_i sv) → is_slot k → b = slot fs (sv_i sv) k →
  Q b (SvSt fs sv) →
  wp C (sfs_check_used b) (λ _, wp C (ret b) Q E) E (SvSt fs sv).
Proof.
  intros Hv Hf Hk -> HQ. apply sfs_check_used_wp; [done| |by wps]. by apply Hf.
Qed.

(** The direct blocks. *)
Lemma bmap_direct C fs sv k doalloc b :
  vol_ok fs → locked fs → file_ok fs (sv_i sv) → 0 ≤ k < 15 → b = slot fs (sv_i sv) k →
  wp C (block <- (if (b =? 0) && doalloc then
                    block <- on_fs sfs_balloc ;;
                    update_i (set_direct k block) ;;; ret block
                  else ret b) ;; sfs_check_used block ;;; ret block)
    (bmap_post fs sv k doalloc) (bmap_err fs sv k doalloc) (SvSt fs sv).
Proof.
  intros Hv Hl Hf Hk Hb. assert (Hsk : is_slot k) by (unfold is_slot; lia).
  apply wp_bind. destruct ((b =? 0) && doalloc) eqn:Hc.
  - apply andb_true_iff in Hc as [Hb0 ->]. apply Z.eqb_eq in Hb0.
    unfold on_fs at 1. wps. apply sfs_balloc_wp; [done|done| |].
    + intros nb fs' Ha. cbn [st_fs] in Ha. unfold update_i. wps. cbn.
      pose proof (grows_direct fs (sv_i sv) fs' k nb Hv Hf Hk ltac:(congruence) Ha) as Hg.
      assert (Hnb : slot fs' (set_direct k nb (sv_i sv)) k = nb).
      { destruct Ha as (Hnb & _ & _). unfold slot. cbn.
        rewrite (proj2 (Z.eqb_neq k (-1))) by lia. rewrite (proj2 (Z.ltb_lt k 15)) by lia.
        rewrite list_lookup_insert_eq; [done|].
        rewrite (proj1 (dio_direct _ (fo_inode _ _ Hf))). lia. }
      apply (check_used_slot _ _ _ k); [apply Hg|apply Hg|done|by symmetry|].
      split; [exact Hg|]. cbn. split; [by repeat split; auto|]. split; [by symmetry|].
      split; [done|]. intros _. destruct Ha as (? & _). lia.
    + intros Hfull. split; [done|]. split; [done|]. split; [exact Hfull|]. cbn.
      split; [by apply grows_refl|]. split; [apply same_vn_refl|congruence].
  - wps. apply (check_used_slot _ _ _ k); [done..|].
    split; [by apply grows_refl|]. cbn. split; [apply same_vn_refl|]. split; [done|].
    split; [intros _; split; [done|by apply fs_upd_refl]|]. intros ->. rewrite andb_true_r in Hc.
    by apply Z.eqb_neq.
Qed.

(** The indirect blocks, once the indirect block is there. *)
Lemma bmap_word C fs0 sv0 fs sv k doalloc :
  grows fs0 (sv_i sv0) fs (sv_i sv) → same_vn sv0 sv → locked fs →
  15 ≤ k < 143 → sfi_indirect (sv_i sv) ≠ 0 →
  (doalloc = false → sv = sv0 ∧ fs_upd (blk fs0) (used fs0) fs0 fs) →
  wp C (block <- deref (idwords fs (sv_i sv) !! Z.to_nat (k - 15)) ;;
        block <- (if (block =? 0) && doalloc then
                    block <- on_fs sfs_balloc ;;
                    on_fs (sfs_writeblock (sfi_indirect (sv_i sv))
                      (encode_u32s (<[Z.to_nat (k - 15) := block]> (idwords fs (sv_i sv))))) ;;;
                    ret block
                  else ret block) ;;
        sfs_check_used block ;;; ret block)
    (bmap_post fs0 sv0 k doalloc) (bmap_err fs0 sv0 k doalloc) (SvSt fs sv).
Proof.
  intros Hg Hsv Hl Hk Hi Hro. pose proof (gr_ok _ _ _ _ Hg) as Hv.
  pose proof (gr_file _ _ _ _ Hg) as Hf. set (b := slot fs (sv_i sv) k).
  assert (Hsk : is_slot k) by (unfold is_slot; lia).
  destruct (indirect_words fs (sv_i sv) Hv Hf Hi) as [Hwl Hw32].
  destruct (indirect_used _ _ Hf Hi) as [Hir Hiu].
  apply wp_bind, (wp_deref _ _ _ _ _ b).
  { unfold b. rewrite slot_indirect by done.
    destruct (lookup_lt_is_Some_2 (idwords fs (sv_i sv)) (Z.to_nat (k - 15))) as [w Hw]; [lia|].
    by rewrite Hw. }
  apply wp_bind. destruct ((b =? 0) && doalloc) eqn:Hc.
  - apply andb_true_iff in Hc as [Hb0 ->]. apply Z.eqb_eq in Hb0.
    unfold on_fs. wps. apply sfs_balloc_wp; [done|done| |].
    + intros nb fs1 Ha. cbn [st_fs] in Ha. wps. cbn [st_fs st_sv]. pose proof Ha as (Hnb & _ & [Hv1 Hfr1 _ _]).
      pose proof (allocated_u32 _ _ _ Hv Ha) as Hb32.
      apply sfs_writeblock_wp; [done|by eapply frame_locked| | | |].
      { rewrite (frame_nblocks _ _ Hfr1). lia. }
      { rewrite encode_u32s_length, length_insert, Hwl. done. }
      { apply encode_u32s_bytes. }
      intros fs2 Hu2. wps.
      pose proof (grows_word _ _ _ _ k nb Hv Hf Hk Hb0 Hi Ha Hu2) as Hg2.
      assert (Hnbs : nb = slot fs2 (sv_i sv) k).
      { rewrite (slot_set_word fs fs2 (sv_i sv) k nb k) by
          (auto; rewrite (fu_blk _ _ _ _ Hu2); apply put_blk_eq).
        by rewrite Z.eqb_refl. }
      apply (check_used_slot _ _ _ k); [apply Hg2|apply Hg2|done|done|].
      split; [by eapply grows_trans|]. split; [done|]. split; [done|].
      split; [done|]. intros _. lia.
    + intros Hfull. do 3 (split; [done|]). split; [exact Hg|]. split; [exact Hsv|].
      destruct (decide (slot fs0 (sv_i sv0) k = 0)) as [|Hn0]; [done|].
      pose proof (gr_keep _ _ _ _ Hg k Hsk Hn0). unfold b in Hb0. congruence.
  - wps. apply (check_used_slot _ _ _ k); [done..|].
    split; [done|]. split; [done|]. split; [done|]. split; [done|]. intros ->.
    rewrite andb_true_r in Hc. by apply Z.eqb_neq.
Qed.

Lemma sfs_bmap_wp C fs sv k doalloc :
  vol_ok fs → locked fs → file_ok fs (sv_i sv) → 0 ≤ k < 143 →
  wp C (sfs_bmap k doalloc) (bmap_post fs sv k doalloc) (bmap_err fs sv k doalloc) (SvSt fs sv).
Proof.
  intros Hv Hl Hf Hk. unfold sfs_bmap. unfold on_fs at 1, on_lock at 1. wps.
  eapply wp_of_ok; [by apply locked_do_i_hold|]. wps. cbn [st_fs st_sv]. rewrite set_lock_id.
  apply wp_KASSERT; [done|]. wps. cbn [st_sv st_fs]. unfold SFS_NDIRECT, SFS_DBPERIDB, SFS_NINDIRECT.
  destruct (Z.ltb_spec k 15) as [Hlt|Hge].
  - apply wp_bind, (wp_deref _ _ _ _ _ (slot fs (sv_i sv) k)).
    { unfold slot. rewrite (proj2 (Z.eqb_neq k (-1))), (proj2 (Z.ltb_lt k 15)) by lia.
      destruct (lookup_lt_is_Some_2 (sfi_direct (sv_i sv)) (Z.to_nat k)) as [w Hw].
      { rewrite (proj1 (dio_direct _ (fo_inode _ _ Hf))). lia. }
      by rewrite Hw. }
    apply bmap_direct; auto; lia.
  - rewrite Z.div_small, Z.mod_small by lia. cbn [Z.leb].
    change (1 <=? 0) with false. cbv iota.
    destruct (Z.eqb_spec (sfi_indirect (sv_i sv)) 0) as [Hi0|Hi0]; [destruct doalloc|];
      cbn [negb andb].
    + unfold on_fs at 1. wps. apply sfs_balloc_wp; [done|done| |].
      * intros nb fs' Ha. cbn [st_fs] in Ha. unfold update_i. wps. cbn [st_fs st_sv].
        pose proof (grows_indirect fs (sv_i sv) fs' nb Hv Hf Hi0 Ha) as Hg.
        pose proof Ha as (Hnb & _ & [Hv1 Hfr1 Hblk1 _]).
        rewrite <-(idwords_zero fs' (set_indirect nb (sv_i sv)))
          by (cbn; rewrite Hblk1; apply put_blk_eq).
        eapply wp_unbind, (bmap_word C fs sv fs' (set_sv_dirty true (set_i (set_indirect nb) sv)));
          [done|by repeat split; auto|by eapply frame_locked|lia|cbn; lia|done].
      * intros Hfull. split; [done|]. split; [done|]. split; [done|]. cbn.
        split; [by apply grows_refl|]. split; [apply same_vn_refl|].
        unfold slot. rewrite (proj2 (Z.eqb_neq k (-1))), (proj2 (Z.ltb_ge k 15)) by lia.
        by rewrite Hi0.
    + wps. split; [by apply grows_refl|]. cbn. split; [apply same_vn_refl|].
      split; [|by split; [split; [done|by apply fs_upd_refl]|]].
      unfold slot. rewrite (proj2 (Z.eqb_neq k (-1))), (proj2 (Z.ltb_ge k 15)) by lia.
      by rewrite Hi0.
    + destruct (indirect_used _ _ Hf Hi0) as [Hir Hiu].
      unfold on_fs at 1. wps. apply sfs_readblock_wp; [done|done|cbn; lia|].
      intros fs' Hu. wps. cbn [st_fs st_sv]. pose proof Hu as [Hv' Hfr' Hb' _].
      replace (decode_u32s 128 (blk fs (sfi_indirect (sv_i sv)))) with (idwords fs' (sv_i sv))
        by (unfold idwords; by rewrite Hb').
      eapply wp_unbind, (bmap_word C fs sv fs' sv); [by apply grows_read|apply same_vn_refl|
        by eapply frame_locked|lia|done|done].
Qed.

(** Past the last slot. *)
Lemma sfs_bmap_efbig C fs sv k doalloc :
  locked fs → 143 ≤ k →
  wp C (sfs_bmap k doalloc) (λ _ _, False) (λ e s, e = EFBIG ∧ s = SvSt fs sv) (SvSt fs sv).
Proof.
  intros Hl Hk. unfold sfs_bmap. unfold on_fs at 1, on_lock at 1. wps.
  eapply wp_of_ok; [by apply locked_do_i_hold|]. wps. cbn [st_fs st_sv]. rewrite set_lock_id.
  apply wp_KASSERT; [done|]. wps. cbn [st_sv st_fs].
  unfold SFS_NDIRECT, SFS_DBPERIDB, SFS_NINDIRECT.
  rewrite (proj2 (Z.ltb_ge k 15)) by lia.
  rewrite (proj2 (Z.leb_le 1 _)); [by wps|]. apply Z.div_le_lower_bound; lia.
Qed.

(** ** Giving blocks back *)

(** The blocks of [fl] are returned to the volume. *)
Definition freeing (fl : list Z) fs fs' : Prop :=
  fs_upd (blk fs) (λ b, used fs b && negb (bool_decide (b ∈ fl))) fs fs'.

Definition freeable (fl : list Z) fs : Prop :=
  NoDup fl ∧ ∀ w, w ∈ fl → 0 < w < nblocks fs ∧ used fs w = true.

Lemma freeing_nil fs : vol_ok fs → freeing [] fs fs.
Proof.
  intros Hv. eapply fs_upd_ext; [by apply fs_upd_refl|done|].
  intros j _. rewrite bool_decide_false by apply not_elem_of_nil. apply andb_true_r.
Qed.

Lemma freeing_app fl1 fl2 fs1 fs2 fs3 :
  freeing fl1 fs1 fs2 → freeing fl2 fs2 fs3 → freeing (fl1 ++ fl2) fs1 fs3.
Proof.
  intros H1 H2. eapply fs_upd_ext; [by eapply fs_upd_trans| |].
  - intros j. by rewrite (fu_blk _ _ _ _ H1).
  - intros j Hj. cbn beta. rewrite (fu_used _ _ _ _ H1) by done.
    rewrite <-andb_assoc. f_equal. rewrite <-negb_orb. f_equal. rewrite <-bool_decide_or. apply bool_decide_ext.
    apply elem_of_app.
Qed.

Lemma freeable_app fl1 fl2 fs fs' :
  freeable (fl1 ++ fl2) fs → freeing fl1 fs fs' → freeable fl2 fs'.
Proof.
  intros [Hnd Hu] Hf. apply list.NoDup_app in Hnd as (_ & Hdis & Hnd). split; [done|].
  intros w Hw. destruct (Hu w) as [Hr Hx]; [apply elem_of_app; by right|].
  rewrite (frame_nblocks _ _ (fu_frame _ _ _ _ Hf)). split; [done|].
  rewrite (fu_used _ _ _ _ Hf) by lia. rewrite Hx, bool_decide_false; [done|].
  intros Hw1. by apply (Hdis w).
Qed.

Lemma sfs_bfree_freeing C w (Q : unit → sfs_fs HW → Prop) E fs fl :
  vol_ok fs → freeable (w :: fl) fs →
  (∀ fs', freeing [w] fs fs' → Q tt fs') →
  wp C (sfs_bfree w) Q E fs.
Proof.
  intros Hv [_ Hu] HQ. destruct (Hu w) as [Hr Hx]; [by left|].
  apply sfs_bfree_wp; [done|done|done|]. intros fs' Hfs. apply HQ.
  eapply fs_upd_ext; [exact Hfs|done|]. intros j _. unfold put_used.
  destruct (Z.eqb_spec j w) as [->|Hne].
  - rewrite bool_decide_true by (by apply list_elem_of_singleton). apply andb_false_r.
  - rewrite bool_decide_false by (by rewrite list_elem_of_singleton). apply andb_true_r.
Qed.

(** Zeroing the numbers whose position [c] selects, and the blocks that gives
    back. *)
Fixpoint cutl (c : Z → bool) (j : Z) (l : list Z) : list Z :=
  match l with
  | [] => []
  | w :: r => (if c j then 0 else w) :: cutl c (j + 1) r
  end.

Fixpoint cutfree (c : Z → bool) (j : Z) (l : list Z) : list Z :=
  match l with
  | [] => []
  | w :: r => (if c j && negb (w =? 0) then [w] else []) ++ cutfree c (j + 1) r
  end.

Lemma cutl_length c j l : length (cutl c j l) = length l.
Proof. revert j. induction l as [|w l IH]; intros j; cbn; [done|by rewrite IH]. Qed.

Lemma cutl_lookup c j l n :
  cutl c j l !! n = (λ w, if c (j + Z.of_nat n) then 0 else w) <$> l !! n.
Proof.
  revert j n. induction l as [|w l IH]; intros j n; [done|].
  destruct n as [|n]; cbn [cutl lookup list_lookup].
  - by rewrite Z.add_0_r.
  - rewrite IH. by replace (j + 1 + Z.of_nat n) with (j + Z.of_nat (S n)) by lia.
Qed.

Lemma cutl_u32 c j l : Forall is_u32 l → Forall is_u32 (cutl c j l).
Proof.
  intros H. revert j. induction H as [|w l Hw H IH]; intros j; cbn; constructor; auto.
  by destruct (c j).
Qed.

Lemma elem_of_cutfree c j l w :
  w ∈ cutfree c j l ↔ w ≠ 0 ∧ ∃ n, l !! n = Some w ∧ c (j + Z.of_nat n) = true.
Proof.
  revert j. induction l as [|x l IH]; intros j; cbn [cutfree].
  - rewrite elem_of_nil. split; [done|]. by intros (_ & n & H & _).
  - rewrite elem_of_app, IH. split.
    + intros [Hw|(Hw & n & Hn & Hc)].
      * destruct (c j && negb (x =? 0)) eqn:E; [|by apply not_elem_of_nil in Hw].
        apply list_elem_of_singleton in Hw as ->. apply andb_true_iff in E as [E1 E2].
        apply negb_true_iff, Z.eqb_neq in E2. split; [done|]. exists 0%nat.
        by rewrite Z.add_0_r.
      * split; [done|]. exists (S n). split; [done|].
        by replace (j + Z.of_nat (S n)) with (j + 1 + Z.of_nat n) by lia.
    + intros (Hw & [|n] & Hn & Hc).
      * left. cbn in Hn. simplify_eq. rewrite Z.add_0_r in Hc. rewrite Hc.
        rewrite (proj2 (Z.eqb_neq w 0)) by done. by apply list_elem_of_singleton.
      * right. split; [done|]. exists n. split; [done|].
        by replace (j + 1 + Z.of_nat n) with (j + Z.of_nat (S n)) by lia.
Qed.

(** Numbers other than 0 occur once. *)
Definition distinct (l : list Z) : Prop :=
  ∀ m n w, l !! m = Some w → l !! n = Some w → w ≠ 0 → m = n.

Lemma cutfree_NoDup c j l : distinct l → NoDup (cutfree c j l).
Proof.
  revert j. induction l as [|x l IH]; intros j Hd; cbn [cutfree]; [constructor|].
  assert (Hd' : distinct l).
  { intros m n w Hm Hn Hw. assert (S m = S n); [|lia]. by apply (Hd (S m) (S n) w). }
  destruct (c j && negb (x =? 0)) eqn:E; cbn; [|by apply IH].
  apply andb_true_iff in E as [E1 E2]. apply negb_true_iff, Z.eqb_neq in E2.
  constructor; [|by apply IH]. rewrite elem_of_cutfree. intros (_ & n & Hn & _).
  specialize (Hd 0%nat (S n) x eq_refl Hn E2). done.
Qed.

(** ** The loops of [sfs_itrunc] *)

Lemma itrunc_indirect_wp C blocklen l fs :
  ∀ j (Q : list Z * bool * bool → sfs_fs HW → Prop) E,
  let c := λ j, blocklen <? SFS_NDIRECT + j in
  vol_ok fs → freeable (cutfree c j l) fs →
  (∀ fs', freeing (cutfree c j l) fs fs' →
     Q (cutl c j l, existsb (λ w, negb (w =? 0)) (cutl c j l),
        negb (bool_decide (cutfree c j l = []))) fs') →
  wp C (itrunc_indirect blocklen j l) Q E fs.
Proof.
  revert fs. induction l as [|w l IH]; intros fs j Q E c Hv Hfl HQ.
  - cbn. wps. by apply HQ, freeing_nil.
  - cbn [itrunc_indirect cutl cutfree existsb] in *. fold c in HQ |- *.
    change (blocklen <? SFS_NDIRECT + j) with (c j).
    destruct (c j) eqn:Hc; [destruct (Z.eqb_spec w 0) as [->|Hw]|]; cbn [andb negb] in *.
    + wps. apply IH; [done|exact Hfl|]. intros fs' Hf. wps. exact (HQ fs' Hf).
    + wps. eapply sfs_bfree_freeing; [done|exact Hfl|]. intros fs1 H1. wps.
      apply IH; [apply H1|by eapply freeable_app|]. intros fs2 H2. wps.
      rewrite (bool_decide_false ([w] ++ _ = [])) in HQ by done.
      apply HQ. by eapply freeing_app.
    + wps. apply IH; [done|exact Hfl|]. intros fs' Hf. wps. exact (HQ fs' Hf).
Qed.

Definition set_directs (l : list Z) i : sfs_dinode :=
  SfsDinode (sfi_size i) (sfi_type i) (sfi_linkcount i) l (sfi_indirect i) (sfi_waste i).

Lemma take_S_insert (l : list Z) n x :
  (n < length l)%nat → take (S n) (<[n := x]> l) = take n l ++ [x].
Proof.
  intros Hn. rewrite (take_S_r _ n x) by (by apply list_lookup_insert_eq).
  by rewrite take_insert_ge by lia.
Qed.

Lemma itrunc_direct_loop C blocklen n : ∀ lo fs sv (Q : unit → svst HW → Prop) E,
  let c := λ j, blocklen <=? j in
  let l := sfi_direct (sv_i sv) in
  let fl := cutfree c lo (drop (Z.to_nat lo) l) in
  vol_ok fs → length l = 15%nat → 0 ≤ lo → lo + Z.of_nat n = 15 → freeable fl fs →
  (∀ fs' sv', freeing fl fs fs' → same_vn sv sv' →
     sv_i sv' = set_directs (take (Z.to_nat lo) l ++ cutl c lo (drop (Z.to_nat lo) l)) (sv_i sv) →
     Q tt (SvSt fs' sv')) →
  wp C (for_range n lo (λ i : Z,
    s <- get ;;
    block <- deref (sfi_direct (sv_i (st_sv s)) !! Z.to_nat i) ;;
    if (blocklen <=? i) && negb (block =? 0) then
      on_fs (sfs_bfree block) ;;; update_i (set_direct i 0)
    else ret tt)) Q E (SvSt fs sv).
Proof.
  induction n as [|n IH]; intros lo fs sv Q E c l fl Hv Hl Hlo Hn Hfl HQ; cbn [for_range].
  - wps. assert (Hd : drop (Z.to_nat lo) l = []) by (apply drop_ge; lia).
    apply HQ; unfold fl; rewrite ?Hd; [by apply freeing_nil|apply same_vn_refl|].
    cbn. rewrite app_nil_r, take_ge by lia. by destruct (sv_i sv).
  - destruct (lookup_lt_is_Some_2 l (Z.to_nat lo)) as [w Hw]; [lia|].
    assert (Hd : drop (Z.to_nat lo) l = w :: drop (Z.to_nat (lo + 1)) l).
    { rewrite (drop_S l w) by done. do 2 f_equal. lia. }
    assert (HS : Z.to_nat (lo + 1) = S (Z.to_nat lo)) by lia.
    unfold fl in *. rewrite Hd in Hfl, HQ. cbn [cutfree cutl] in Hfl, HQ.
    wps. cbn [st_sv]. apply (wp_deref _ _ _ _ _ w); [done|].
    change (blocklen <=? lo) with (c lo).
    destruct (c lo) eqn:Hc; [destruct (Z.eqb_spec w 0) as [->|Hw0]|]; cbn [andb negb] in *.
    + wps. apply IH; [done|done|lia|lia|exact Hfl|]. intros fs' sv' H1 H2 H3.
      apply HQ; [done|done|]. rewrite H3. f_equal. rewrite HS, (take_S_r _ _ 0) by done.
      by rewrite <-app_assoc.
    + unfold on_fs. wps. eapply sfs_bfree_freeing; [done|exact Hfl|]. intros fs1 H1.
      unfold update_i. wps. cbn [st_fs st_sv].
      assert (Hdr : drop (Z.to_nat (lo + 1)) (<[Z.to_nat lo := 0]> l) = drop (Z.to_nat (lo + 1)) l)
        by (apply drop_insert_lt; lia).
      assert (Hv1 : vol_ok fs1) by apply H1.
      assert (Hfl' := freeable_app _ _ _ _ Hfl H1).
      rewrite <-Hdr in Hfl', HQ.
      apply IH; [done|cbn; by rewrite length_insert|lia|lia|exact Hfl'|].
      cbn. fold l. intros fs' sv' H2 H3 H4. apply HQ.
      * eapply freeing_app; [exact H1|exact H2].
      * eapply same_vn_trans; [|exact H3]. by repeat split; auto.
      * rewrite H4, HS. unfold set_directs. cbn. f_equal. rewrite take_S_insert by lia.
        by rewrite <-app_assoc.
    + wps. apply IH; [done|done|lia|lia|exact Hfl|]. intros fs' sv' H1 H2 H3.
      apply HQ; [done|done|]. rewrite H3. f_equal. rewrite HS, (take_S_r _ _ w) by done.
      by rewrite <-app_assoc.
Qed.

(** ** What truncation does *)

(** The slots that the tests of [sfs_itrunc] select for a length of [bl]
    blocks; the theorem about it is stated with [cut_to] below. *)
Definition cut (bl k : Z) : bool := if k <? 15 then bl <=? k else bl <? k.

Record truncated (bl : Z) fs i fs' i' : Prop := Truncated {
  tr_ok : vol_ok fs';
  tr_frame : frame fs fs';
  tr_file : file_ok fs' i';
  tr_slot : ∀ k, 0 ≤ k < 143 → slot fs' i' k = if cut bl k then 0 else slot fs i k;
  tr_indirect : sfi_indirect i' = sfi_indirect i ∨ sfi_indirect i' = 0;
  tr_emptied : bl < 142 → (∀ k, 15 ≤ k < 143 → slot fs' i' k = 0) → sfi_indirect i' = 0;
  tr_used : ∀ b, 0 ≤ b →
    used fs' b = true ↔ used fs b = true ∧ (owned fs i b → owned fs' i' b);
  tr_blk : ∀ b, b ≠ sfi_indirect i ∨ sfi_indirect i = 0 → blk fs' b = blk fs b;
  tr_type : sfi_type i' = sfi_type i;
  tr_linkcount : sfi_linkcount i' = sfi_linkcount i;
}.

Definition words fs i : list Z := if sfi_indirect i =? 0 then [] else idwords fs i.

Lemma words_slot fs i n w : words fs i !! n = Some w → slot fs i (15 + Z.of_nat n) = w ∧ (n < 128)%nat.
Proof.
  unfold words. intros Hw. destruct (Z.eqb_spec (sfi_indirect i) 0) as [|Hi]; [done|].
  assert (Hn : (n < 128)%nat).
  { apply lookup_lt_Some in Hw. unfold idwords in Hw. by rewrite decode_u32s_length in Hw. }
  split; [|done]. rewrite slot_indirect by (done || lia).
  replace (Z.to_nat (15 + Z.of_nat n - 15)) with n by lia. by rewrite Hw.
Qed.

Lemma slot_words fs i k :
  15 ≤ k < 143 → slot fs i k ≠ 0 → words fs i !! Z.to_nat (k - 15) = Some (slot fs i k).
Proof.
  intros Hk Hnz. assert (Hi : sfi_indirect i ≠ 0).
  { intros Hi. apply Hnz. unfold slot. rewrite (proj2 (Z.eqb_neq k (-1))) by lia.
    rewrite (proj2 (Z.ltb_ge k 15)) by lia. by rewrite Hi. }
  unfold words. rewrite (proj2 (Z.eqb_neq _ 0)) by done.
  rewrite slot_indirect in * by done. destruct (_ !! _); [done|]. by cbn in Hnz.
Qed.

Lemma direct_slot fs i n w :
  length (sfi_direct i) = 15%nat → sfi_direct i !! n = Some w →
  slot fs i (Z.of_nat n) = w ∧ (n < 15)%nat.
Proof.
  intros Hl Hw. pose proof (lookup_lt_Some _ _ _ Hw). split; [|lia].
  unfold slot. rewrite (proj2 (Z.eqb_neq _ (-1))), (proj2 (Z.ltb_lt _ 15)) by lia.
  by rewrite Nat2Z.id, Hw.
Qed.

Lemma slot_direct fs i k :
  0 ≤ k < 15 → slot fs i k = default 0 (sfi_direct i !! Z.to_nat k).
Proof.
  intros Hk. unfold slot. by rewrite (proj2 (Z.eqb_neq k (-1))), (proj2 (Z.ltb_lt k 15)) by lia.
Qed.

Lemma distinct_direct fs i : file_ok fs i → distinct (sfi_direct i).
Proof.
  intros Hf m n w Hm Hn Hw. pose proof (proj1 (dio_direct _ (fo_inode _ _ Hf))) as Hl.
  destruct (direct_slot fs i m w Hl Hm), (direct_slot fs i n w Hl Hn).
  apply Nat2Z.inj, (fo_inj fs i Hf); unfold is_slot; try lia; congruence.
Qed.

Lemma distinct_words fs i : file_ok fs i → distinct (words fs i).
Proof.
  intros Hf m n w Hm Hn Hw.
  destruct (words_slot fs i m w Hm), (words_slot fs i n w Hn).
  assert (15 + Z.of_nat m = 15 + Z.of_nat n); [|lia].
  apply (fo_inj fs i Hf); unfold is_slot; try lia; congruence.
Qed.

(** The blocks given back, in the order they are. *)
Definition cut_direct (bl : Z) i : list Z := cutfree (λ j, bl <=? j) 0 (sfi_direct i).
Definition cut_words (bl : Z) fs i : list Z :=
  cutfree (λ j, bl <? SFS_NDIRECT + j) 0 (words fs i).
Definition cut_indirect i : list Z := if sfi_indirect i =? 0 then [] else [sfi_indirect i].

Lemma elem_of_cut_direct bl fs i w :
  file_ok fs i → w ∈ cut_direct bl i ↔
  w ≠ 0 ∧ ∃ k, 0 ≤ k < 15 ∧ slot fs i k = w ∧ cut bl k = true.
Proof.
  intros Hf. pose proof (proj1 (dio_direct _ (fo_inode _ _ Hf))) as Hl.
  unfold cut_direct. rewrite elem_of_cutfree. split; intros [Hw H]; (split; [done|]).
  - destruct H as (n & Hn & Hc). destruct (direct_slot fs i n w Hl Hn) as [Hs Hlt].
    exists (Z.of_nat n). split; [lia|]. split; [done|]. unfold cut.
    by rewrite (proj2 (Z.ltb_lt _ 15)) by lia.
  - destruct H as (k & Hk & Hs & Hc). exists (Z.to_nat k).
    rewrite slot_direct in Hs by done. unfold cut in Hc.
    rewrite (proj2 (Z.ltb_lt _ 15)) in Hc by lia. rewrite Z2Nat.id, Z.add_0_l by lia.
    split; [|done]. destruct (_ !! _); [by cbn in Hs; congruence|by cbn in Hs].
Qed.

Lemma elem_of_cut_words bl fs i w :
  w ∈ cut_words bl fs i ↔
  w ≠ 0 ∧ ∃ k, 15 ≤ k < 143 ∧ slot fs i k = w ∧ cut bl k = true.
Proof.
  unfold cut_words. rewrite elem_of_cutfree. split; intros [Hw H]; (split; [done|]).
  - destruct H as (n & Hn & Hc). destruct (words_slot fs i n w Hn) as [Hs Hlt].
    exists (15 + Z.of_nat n). split; [lia|]. split; [done|]. unfold cut.
    by rewrite (proj2 (Z.ltb_ge _ 15)) by lia.
  - destruct H as (k & Hk & Hs & Hc). exists (Z.to_nat (k - 15)).
    rewrite slot_words by (done || congruence). split; [by rewrite Hs|].
    unfold cut in Hc. rewrite (proj2 (Z.ltb_ge _ 15)) in Hc by lia.
    unfold SFS_NDIRECT. by replace (15 + (0 + Z.of_nat (Z.to_nat (k - 15)))) with k by lia.
Qed.

Lemma elem_of_cut_indirect fs i w :
  w ∈ cut_indirect i ↔ w ≠ 0 ∧ slot fs i (-1) = w.
Proof.
  unfold cut_indirect. change (slot fs i (-1)) with (sfi_indirect i).
  destruct (Z.eqb_spec (sfi_indirect i) 0) as [->|].
  - rewrite elem_of_nil. split; [done|]. by intros [? <-].
  - rewrite list_elem_of_singleton. split; [by intros ->|]. by intros [_ ->].
Qed.

Lemma file_freeable bl fs i :
  file_ok fs i → freeable (cut_direct bl i ++ cut_words bl fs i ++ cut_indirect i) fs.
Proof.
  intros Hf. split.
  - apply list.NoDup_app. split; [by eapply cutfree_NoDup, distinct_direct|]. split.
    + intros w Hd Hr. apply (elem_of_cut_direct bl fs i w Hf) in Hd as (Hw & k & Hk & Hs & _).
      apply elem_of_app in Hr as [Hr|Hr].
      * apply elem_of_cut_words in Hr as (_ & k' & Hk' & Hs' & _).
        assert (k = k'); [|lia]. apply (fo_inj fs i Hf); unfold is_slot; try lia; congruence.
      * apply (elem_of_cut_indirect fs) in Hr as [_ Hs'].
        assert (k = -1); [|lia]. apply (fo_inj fs i Hf); unfold is_slot; try lia; congruence.
    + apply list.NoDup_app. split; [by eapply cutfree_NoDup, distinct_words|]. split.
      * intros w Hr Hi. apply elem_of_cut_words in Hr as (Hw & k & Hk & Hs & _).
        apply (elem_of_cut_indirect fs) in Hi as [_ Hs'].
        assert (k = -1); [|lia]. apply (fo_inj fs i Hf); unfold is_slot; try lia; congruence.
      * unfold cut_indirect. destruct (_ =? _); [constructor|apply NoDup_singleton].
  - intros w Hw. apply (owned_used fs i); [done|].
    rewrite !elem_of_app, (elem_of_cut_direct bl fs i w Hf), elem_of_cut_words,
      (elem_of_cut_indirect fs) in Hw.
    destruct Hw as [(?&k&?&?&_)|[(?&k&?&?&_)|[? ?]]]; (split; [done|]);
      [exists k|exists k|exists (-1)]; unfold is_slot; (split; [lia|done]).
Qed.

(** A file some of whose slots were emptied and the blocks returned. *)
Lemma shrink_file fs i fs' i' (fl : list Z) :
  file_ok fs i → frame fs fs' → dinode_ok i' →
  (∀ k, is_slot k → slot fs' i' k = 0 ∨ slot fs' i' k = slot fs i k) →
  (∀ b, 0 ≤ b → used fs' b = used fs b && negb (bool_decide (b ∈ fl))) →
  (∀ w, w ∈ fl ↔ w ≠ 0 ∧ ∃ k, is_slot k ∧ slot fs i k = w ∧ slot fs' i' k = 0) →
  file_ok fs' i' ∧
  ∀ b, 0 ≤ b → used fs' b = true ↔ used fs b = true ∧ (owned fs i b → owned fs' i' b).
Proof.
  intros Hf Hfr Hi Hs Hu Hfl. pose proof (frame_nblocks _ _ Hfr) as Hn.
  assert (Hkept : ∀ k, is_slot k → slot fs' i' k ≠ 0 → slot fs' i' k ∉ fl).
  { intros k Hk Hnz [_ (k' & Hk' & Hs1 & Hs2)]%Hfl. destruct (Hs k Hk) as [|Hk2]; [done|].
    assert (k = k') as ->; [|done]. apply (fo_inj fs i Hf); congruence. }
  split.
  - split; [done| |].
    + intros k Hk Hnz. destruct (Hs k Hk) as [|Hk2]; [done|].
      destruct (fo_used fs i Hf k Hk) as [Hr Hx]; [congruence|].
      rewrite Hn, Hu by lia. rewrite bool_decide_false by (by apply Hkept).
      rewrite Hk2, Hx. done.
    + intros j k Hj Hk Hnz Heq. destruct (Hs j Hj) as [|Hj2]; [done|].
      destruct (Hs k Hk) as [|Hk2]; [congruence|].
      apply (fo_inj fs i Hf); congruence.
  - intros b Hb. rewrite Hu, andb_true_iff, negb_true_iff, bool_decide_eq_false by done.
    split; intros [Hx Hy]; (split; [done|]).
    + intros [Hb0 (k & Hk & Hsk)]. split; [done|]. exists k. split; [done|].
      destruct (Hs k Hk) as [H0|]; [|congruence]. destruct Hy. apply Hfl. split; [done|].
      by exists k.
    + intros [Hb0 (k & Hk & Hs1 & Hs2)]%Hfl. destruct Hy as [_ (k' & Hk' & Hs')].
      { split; [done|]. by exists k. }
      destruct (Hs k' Hk') as [|Hk2]; [congruence|].
      assert (k = k') as ->; [|congruence]. apply (fo_inj fs i Hf); congruence.
Qed.

Lemma slot_words_default fs i k :
  15 ≤ k < 143 → slot fs i k = default 0 (words fs i !! Z.to_nat (k - 15)).
Proof.
  intros Hk. unfold words. destruct (Z.eqb_spec (sfi_indirect i) 0) as [Hi|Hi].
  - unfold slot. by rewrite (proj2 (Z.eqb_neq k (-1))), (proj2 (Z.ltb_ge k 15)), Hi by lia.
  - by apply slot_indirect.
Qed.

Definition cutw (bl : Z) fs i : list Z := cutl (λ j, bl <? SFS_NDIRECT + j) 0 (words fs i).
Definition cutd (bl : Z) i : list Z := cutl (λ j, bl <=? j) 0 (sfi_direct i).

Lemma cut_slot_words bl fs i k :
  15 ≤ k < 143 →
  default 0 (cutw bl fs i !! Z.to_nat (k - 15)) = if cut bl k then 0 else slot fs i k.
Proof.
  intros Hk. rewrite slot_words_default by done. unfold cutw. rewrite cutl_lookup.
  unfold cut, SFS_NDIRECT. rewrite (proj2 (Z.ltb_ge k 15)) by lia.
  replace (15 + (0 + Z.of_nat (Z.to_nat (k - 15)))) with k by lia.
  destruct (words fs i !! _); cbn; by destruct (bl <? k).
Qed.

Lemma cut_slot_direct bl fs i k :
  0 ≤ k < 15 →
  default 0 (cutd bl i !! Z.to_nat k) = if cut bl k then 0 else slot fs i k.
Proof.
  intros Hk. rewrite slot_direct by done. unfold cutd. rewrite cutl_lookup.
  unfold cut. rewrite (proj2 (Z.ltb_lt k 15)) by lia. rewrite Z2Nat.id, Z.add_0_l by lia.
  destruct (sfi_direct i !! _); cbn; by destruct (bl <=? k).
Qed.

Lemma truncated_intro bl fs i fs' i' :
  vol_ok fs' → frame fs fs' → file_ok fs i → dinode_ok i' →
  sfi_type i' = sfi_type i → sfi_linkcount i' = sfi_linkcount i →
  sfi_direct i' = cutd bl i →
  (∀ n, default 0 (words fs' i' !! n) = default 0 (cutw bl fs i !! n)) →
  sfi_indirect i' = sfi_indirect i ∨ sfi_indirect i' = 0 →
  (bl < 142 → existsb (λ w, negb (w =? 0)) (cutw bl fs i) = false → sfi_indirect i' = 0) →
  (∀ b, 0 ≤ b → used fs' b = used fs b && negb (bool_decide (b ∈ cut_direct bl i ++
     cut_words bl fs i ++ if sfi_indirect i' =? 0 then cut_indirect i else []))) →
  (∀ b, b ≠ sfi_indirect i ∨ sfi_indirect i = 0 → blk fs' b = blk fs b) →
  truncated bl fs i fs' i'.
Proof.
  intros Hv Hfr Hf Hi Hty Hlc Hd Hw Hind Hemp Hu Hblk.
  assert (Hs : ∀ k, 0 ≤ k < 143 → slot fs' i' k = if cut bl k then 0 else slot fs i k).
  { intros k Hk. destruct (decide (k < 15)).
    - rewrite <-cut_slot_direct by lia. by rewrite slot_direct, Hd by lia.
    - rewrite <-cut_slot_words by lia. by rewrite slot_words_default by lia. }
  assert (Hs1 : ∀ k, is_slot k → slot fs' i' k = 0 ∨ slot fs' i' k = slot fs i k).
  { intros k Hk. destruct (decide (k = -1)) as [->|].
    - change (sfi_indirect i' = 0 ∨ sfi_indirect i' = sfi_indirect i). tauto.
    - unfold is_slot in Hk. rewrite Hs by lia. destruct (cut bl k); auto. }
  destruct (shrink_file fs i fs' i' _ Hf Hfr Hi Hs1 Hu) as [Hf' Hu'].
  { intros w. rewrite !elem_of_app, (elem_of_cut_direct bl fs i w Hf), elem_of_cut_words.
    split.
    - intros [(?&k&?&?&Hc)|[(?&k&?&?&Hc)|Hc]].
      + split; [done|]. exists k. rewrite Hs, Hc by lia. by unfold is_slot; split_and!; try lia.
      + split; [done|]. exists k. rewrite Hs, Hc by lia. by unfold is_slot; split_and!; try lia.
      + destruct (Z.eqb_spec (sfi_indirect i') 0) as [Hz|]; [|by apply elem_of_nil in Hc].
        apply (elem_of_cut_indirect fs) in Hc as [? ?]. split; [done|]. by exists (-1).
    - intros (Hw0 & k & Hk & Hsk & Hz). destruct (decide (k = -1)) as [->|].
      { right; right. change (sfi_indirect i' = 0) in Hz. rewrite Hz. cbn.
        by apply (elem_of_cut_indirect fs). }
      unfold is_slot in Hk. rewrite Hs in Hz by lia.
      destruct (cut bl k) eqn:Hc; [|congruence].
      destruct (decide (k < 15)); [left|right; left]; (split; [done|]); exists k;
        split_and!; try lia; done. }
  split; auto. intros Hbl Hall. apply Hemp; [done|]. apply not_true_is_false.
  intros (w & Hin & Hwz)%existsb_exists. apply list_elem_of_In, list_elem_of_lookup in Hin as [n Hn].
  apply negb_true_iff, Z.eqb_neq in Hwz. apply Hwz.
  assert (Hn128 : (n < 128)%nat).
  { unfold cutw in Hn. rewrite cutl_lookup, fmap_Some in Hn. destruct Hn as (x & Hx & _).
    by eapply words_slot. }
  specialize (Hall (15 + Z.of_nat n) ltac:(lia)).
  rewrite slot_words_default, Hw in Hall by lia.
  replace (Z.to_nat (15 + Z.of_nat n - 15)) with n in Hall by lia. by rewrite Hn in Hall.
Qed.

(** ** [sfs_itrunc] *)

Lemma or_release_wp {A} C (m : M (svst HW) A) (Q : A → svst HW → Prop) E s :
  wp C m Q no_err s → wp C (or_release m) Q E s.
Proof. intros H. unfold or_release. wps. by wp_call H. Qed.

Lemma freeing_read fl fs1 fs2 fs3 :
  freeing fl fs1 fs2 → fs_upd (blk fs2) (used fs2) fs2 fs3 → freeing fl fs1 fs3.
Proof.
  intros H1 H2. eapply fs_upd_ext; [by eapply fs_upd_trans| |].
  - intros j. by rewrite (fu_blk _ _ _ _ H1).
  - intros j Hj. cbn beta. by rewrite (fu_used _ _ _ _ H1).
Qed.

Lemma freeable_read fl fs fs' :
  freeable fl fs → fs_upd (blk fs) (used fs) fs fs' → freeable fl fs'.
Proof.
  intros [Hnd Hu] H. split; [done|]. intros w Hw. destruct (Hu w Hw).
  rewrite (fu_used _ _ _ _ H), (frame_nblocks _ _ (fu_frame _ _ _ _ H)) by lia. done.
Qed.

Lemma cutd_u32 bl fs i : file_ok fs i → dinode_ok (set_directs (cutd bl i) i).
Proof.
  intros Hf. destruct (fo_inode _ _ Hf) as [? ? ? [Hl H32] ? ?]. split; cbn; auto.
  split; [by unfold cutd; rewrite cutl_length|by apply cutl_u32].
Qed.

(** Nothing of the indirect block goes away. *)
Lemma cut_words_nil bl fs i n :
  cut_words bl fs i = [] → default 0 (words fs i !! n) = default 0 (cutw bl fs i !! n).
Proof.
  intros Hnil. unfold cutw. rewrite cutl_lookup.
  destruct (words fs i !! n) as [w|] eqn:Hw; [|done]. cbn.
  destruct (bl <? _) eqn:Hc; [|done]. destruct (decide (w = 0)) as [|Hw0]; [done|].
  exfalso. apply (not_elem_of_nil w). rewrite <-Hnil. apply elem_of_cutfree.
  split; [done|]. by exists n.
Qed.

Lemma words_same fs fs' i i' :
  sfi_indirect i' = sfi_indirect i →
  (sfi_indirect i ≠ 0 → blk fs' (sfi_indirect i) = blk fs (sfi_indirect i)) →
  words fs' i' = words fs i.
Proof.
  intros Hi Hb. unfold words, idwords. rewrite Hi.
  destruct (Z.eqb_spec (sfi_indirect i) 0); [done|]. by rewrite Hb.
Qed.

Lemma freeing_used fl fs fs' b :
  freeing fl fs fs' → 0 ≤ b → used fs' b = used fs b && negb (bool_decide (b ∈ fl)).
Proof. intros H Hb. by rewrite (fu_used _ _ _ _ H). Qed.

(** The indirect block stays as it is. *)
Lemma truncated_direct_only bl fs i fs1 :
  file_ok fs i → freeing (cut_direct bl i) fs fs1 → cut_words bl fs i = [] →
  (sfi_indirect i ≠ 0 → bl < 142 →
   existsb (λ w, negb (w =? 0)) (cutw bl fs i) = true) →
  truncated bl fs i fs1 (set_directs (cutd bl i) i).
Proof.
  intros Hf H1 Hnil Hex. pose proof H1 as [Hv1 Hfr1 Hb1 _].
  apply truncated_intro; auto; cbn [set_directs sfi_indirect].
  - by eapply cutd_u32.
  - intros n. rewrite <-cut_words_nil by done. f_equal. f_equal. by apply words_same.
  - intros Hbl Hno. destruct (decide (sfi_indirect i = 0)); [done|].
    rewrite Hex in Hno by done. done.
  - intros b Hb. rewrite (freeing_used _ _ _ _ H1), Hnil by done. do 2 f_equal.
    destruct (Z.eqb_spec (sfi_indirect i) 0) as [Hz|]; [|by rewrite !app_nil_r].
    unfold cut_indirect. rewrite Hz. cbn. by rewrite !app_nil_r.
Qed.

(** It is written back. *)
Lemma truncated_rewrite bl fs i fs3 fs4 :
  vol_ok fs → file_ok fs i → sfi_indirect i ≠ 0 →
  freeing (cut_direct bl i ++ cut_words bl fs i) fs fs3 →
  existsb (λ w, negb (w =? 0)) (cutw bl fs i) = true →
  fs_upd (put_blk (sfi_indirect i) (encode_u32s (cutw bl fs i)) (blk fs3)) (used fs3) fs3 fs4 →
  truncated bl fs i fs4 (set_directs (cutd bl i) i).
Proof.
  intros Hv Hf Hi H3 Hex H4. pose proof H3 as [Hv3 Hfr3 Hb3 _].
  pose proof H4 as [Hv4 Hfr4 Hb4 Hu4].
  assert (Hww : words fs i = idwords fs i).
  { unfold words. by rewrite (proj2 (Z.eqb_neq _ 0)). }
  destruct (indirect_words fs i Hv Hf Hi) as [Hwl Hw32].
  apply truncated_intro; auto; cbn [set_directs sfi_indirect].
  - by eapply frame_trans.
  - by eapply cutd_u32.
  - intros n. do 2 f_equal. unfold words, idwords. cbn.
    rewrite (proj2 (Z.eqb_neq _ 0)) by done. rewrite Hb4, put_blk_eq.
    apply decode_encode_words.
    + unfold cutw. by rewrite cutl_length, Hww.
    + apply cutl_u32. by rewrite Hww.
  - intros _ Hno. congruence.
  - intros b Hb. rewrite (proj2 (Z.eqb_neq _ 0)), app_nil_r, Hu4 by done.
    by apply freeing_used.
  - intros b [Hb|]; [|done]. by rewrite Hb4, put_blk_ne, Hb3 by done.
Qed.

(** It is given back, too. *)
Lemma truncated_free bl fs i fs4 :
  file_ok fs i → sfi_indirect i ≠ 0 →
  freeing (cut_direct bl i ++ cut_words bl fs i ++ cut_indirect i) fs fs4 →
  existsb (λ w, negb (w =? 0)) (cutw bl fs i) = false →
  truncated bl fs i fs4 (set_indirect 0 (set_directs (cutd bl i) i)).
Proof.
  intros Hf Hi H4 Hex. pose proof H4 as [Hv4 Hfr4 Hb4 _].
  apply truncated_intro; auto; cbn [set_indirect set_directs sfi_indirect].
  - apply dinode_ok_indirect; [by eapply cutd_u32|done].
  - intros n. unfold words at 1. cbn.
    destruct (cutw bl fs i !! n) as [w|] eqn:Hw; [|done]. cbn.
    destruct (Z.eqb_spec w 0) as [|Hw0]; [done|].
    apply not_true_iff_false in Hex. destruct Hex. apply existsb_exists. exists w.
    split; [|by apply negb_true_iff, Z.eqb_neq].
    apply list_elem_of_In, list_elem_of_lookup. by exists n.
  - intros b Hb. by apply freeing_used.
Qed.

Lemma freeable_prefix fl1 fl2 fs : freeable (fl1 ++ fl2) fs → freeable fl1 fs.
Proof.
  intros [Hnd Hu]. apply list.NoDup_app in Hnd as [Hnd _]. split; [done|].
  intros w Hw. apply Hu, elem_of_app. by left.
Qed.

Lemma itrunc_words_wp C bl fs i fs1 sv1 (Q : unit → svst HW → Prop) E :
  vol_ok fs → locked fs → file_ok fs i → sfi_indirect i ≠ 0 →
  freeing (cut_direct bl i) fs fs1 → sv_i sv1 = set_directs (cutd bl i) i →
  (∀ fs' sv', truncated bl fs i fs' (sv_i sv') → same_vn sv1 sv' → Q tt (SvSt fs' sv')) →
  wp C (itrunc_words bl (sfi_indirect i)) Q E (SvSt fs1 sv1).
Proof.
  intros Hv Hl Hf Hi0 H1 Hi1 HQ. pose proof (file_freeable bl fs i Hf) as Hfl.
  pose proof H1 as [Hv1 Hfr1 Hb1 _]. pose proof (freeable_app _ _ _ _ Hfl H1) as Hfl1.
  destruct (indirect_used fs i Hf Hi0) as [Hir Hiu].
  assert (Hww : words fs i = idwords fs i) by (unfold words; by rewrite (proj2 (Z.eqb_neq _ 0))).
  unfold itrunc_words. wps. apply or_release_wp. unfold on_fs. wps. cbn [st_fs st_sv].
  apply sfs_readblock_wp; [done|by eapply frame_locked|rewrite (frame_nblocks _ _ Hfr1); lia|].
  intros fs2 H2. cbn [st_fs st_sv]. wps. cbn [st_fs st_sv].
  rewrite Hb1. change (decode_u32s 128 (blk fs (sfi_indirect i))) with (idwords fs i).
  rewrite <-Hww. apply itrunc_indirect_wp; [apply H2| |].
  { eapply freeable_read; [by eapply freeable_prefix|done]. }
  intros fs3 H3. cbn [st_fs st_sv]. fold (cut_words bl fs i) in H3 |- *. fold (cutw bl fs i).
  pose proof (freeing_app _ _ _ _ _ (freeing_read _ _ _ _ H1 H2) H3) as H13.
  pose proof (fu_frame _ _ _ _ H13) as Hfr3. pose proof (fu_ok _ _ _ _ H13) as Hv3.
  destruct (existsb (λ w, negb (w =? 0)) (cutw bl fs i)) eqn:Hex; cbn [negb].
  - destruct (bool_decide (cut_words bl fs i = [])) eqn:Hd; cbn [negb].
    + apply bool_decide_eq_true in Hd. wps. apply HQ; [|apply same_vn_refl]. rewrite Hi1.
      rewrite Hd, app_nil_r in H13. by apply truncated_direct_only.
    + apply or_release_wp. wps. cbn [st_fs st_sv].
      apply sfs_writeblock_wp; [done|by eapply frame_locked| | |apply encode_u32s_bytes|].
      { rewrite (frame_nblocks _ _ Hfr3). lia. }
      { unfold cutw. by rewrite encode_u32s_length, cutl_length, Hww,
          (proj1 (indirect_words fs i Hv Hf Hi0)). }
      intros fs4 H4. apply HQ; [|apply same_vn_refl]. cbn. rewrite Hi1.
      by eapply truncated_rewrite.
  - wps. cbn [st_fs st_sv]. eapply sfs_bfree_freeing; [done| |].
    { rewrite app_assoc in Hfl. pose proof (freeable_app _ _ _ _ Hfl H13) as Hfl3.
      unfold cut_indirect in Hfl3. rewrite (proj2 (Z.eqb_neq _ 0)) in Hfl3 by done. exact Hfl3. }
    intros fs4 H4. unfold update_i. wps. cbn [st_fs st_sv].
    apply HQ; [|by repeat split; auto]. cbn. rewrite Hi1.
    apply truncated_free; try done. rewrite app_assoc. eapply freeing_app; [exact H13|].
    unfold cut_indirect. by rewrite (proj2 (Z.eqb_neq _ 0)).
Qed.

(** [sfs_itrunc] between taking and releasing the lock. *)
Lemma itrunc_middle C bl fs sv (Q : unit → svst HW → Prop) E :
  vol_ok fs → locked fs → file_ok fs (sv_i sv) →
  (∀ fs' sv', truncated bl fs (sv_i sv) fs' (sv_i sv') → same_vn sv sv' →
     Q tt (SvSt fs' sv')) →
  wp C (itrunc_direct bl ;;;
        s <- get ;;
        let idblock := sfi_indirect (sv_i (st_sv s)) in
        if (bl <? SFS_NDIRECT + SFS_DBPERIDB - 1) && negb (idblock =? 0)
        then itrunc_words bl idblock else ret tt) Q E (SvSt fs sv).
Proof.
  intros Hv Hl Hf HQ. set (i := sv_i sv) in *.
  pose proof (file_freeable bl fs i Hf) as Hfl. apply wp_bind. unfold itrunc_direct.
  apply itrunc_direct_loop; [done|apply (fo_inode _ _ Hf)|lia|lia|by eapply freeable_prefix|].
  intros fs1 sv1 H1 Hsv1 Hi1. change (sv_i sv1 = set_directs (cutd bl i) i) in Hi1.
  change (freeing (cut_direct bl i) fs fs1) in H1. wps. cbn [st_fs st_sv]. rewrite Hi1.
  cbn [set_directs sfi_indirect]. change (SFS_NDIRECT + SFS_DBPERIDB - 1) with 142.
  destruct (Z.eqb_spec (sfi_indirect i) 0) as [Hi0|Hi0];
    [rewrite andb_false_r|rewrite andb_true_r].
  { wps. apply HQ; [|done]. rewrite Hi1. apply truncated_direct_only; try done.
    unfold cut_words, words. by rewrite Hi0. }
  destruct (Z.ltb_spec bl 142) as [Hbl|Hbl].
  - eapply itrunc_words_wp; try done. intros fs' sv' Ht Hs. apply HQ; [done|].
    by eapply same_vn_trans.
  - wps. apply HQ; [|done]. rewrite Hi1. apply truncated_direct_only; try done; [|lia].
    destruct (cut_words bl fs i) as [|w l] eqn:Hcw; [done|].
    assert (Hw : w ∈ cut_words bl fs i) by (rewrite Hcw; by left).
    apply elem_of_cut_words in Hw as (_ & k & Hk & _ & Hc). unfold cut in Hc.
    rewrite (proj2 (Z.ltb_ge k 15)) in Hc by lia. apply Z.ltb_lt in Hc. lia.
Qed.

(** The lock does not matter to what a volume and a file are. *)
Lemma vol_ok_lock fs l : vol_ok fs → vol_ok (set_lock l fs).
Proof. intros []. by split. Qed.

Lemma file_ok_lock fs l i : file_ok fs i → file_ok (set_lock l fs) i.
Proof. intros []. by split. Qed.

Lemma truncated_size bl fs i fs' i' n :
  is_u32 n → truncated bl fs i fs' i' → truncated bl fs i fs' (set_size n i').
Proof.
  intros Hn [? ? [[] ? ?] ? ? ? ? ? ? ?]. split; auto. split; [by split|auto|auto].
Qed.

Lemma truncated_unlock bl fs l i fs' i' :
  truncated bl (set_lock l fs) i fs' i' →
  truncated bl fs i (set_lock (vfs_lock fs) fs') i'.
Proof.
  intros [Hv Hfr Hf ? ? ? ? ? ? ?]. split; auto.
  - by apply vol_ok_lock.
  - destruct Hfr. by split.
  - by apply file_ok_lock.
Qed.

Lemma wp_reassoc {S A B} C (m : M S unit) (k : S → M S A) (f : A → M S B) Q E st :
  wp C (m ;;; (s <- get ;; k s)) (λ a, wp C (f a) Q E) E st →
  wp C (m ;;; (s <- get ;; a <- k s ;; f a)) Q E st.
Proof.
  unfold wp, bind, get. destruct (m st) as [[] s'| |]; [|done|done]. by destruct (k s' s').
Qed.

Lemma sfs_itrunc_wp C n len fs sv (Q : unit → svst HW → Prop) E :
  vol_ok fs → held n (vfs_lock fs) → n < 4294967294 → file_ok fs (sv_i sv) →
  (∀ fs' sv', truncated (u32 (Z.quot (len + 511) 512)) fs (sv_i sv) fs' (sv_i sv') →
     sfi_size (sv_i sv') = u32 len → same_vn sv sv' → sv_dirty sv' = true →
     Q tt (SvSt fs' sv')) →
  wp C (sfs_itrunc len) Q E (SvSt fs sv).
Proof.
  intros Hv Hh Hn Hf HQ. unfold sfs_itrunc. apply wp_bind. unfold on_fs at 1, on_lock at 1.
  wps. cbn [st_fs st_sv]. eapply wp_of_ok; [by apply (biglock_acquire_held n)|].
  cbn [st_fs st_sv]. unfold SFS_BLOCKSIZE.
  replace (len + 512 - 1) with (len + 511) by lia. apply wp_reassoc.
  apply itrunc_middle.
  { by apply vol_ok_lock. }
  { exists (n + 1). split; [destruct Hh as (_ & _ & _ & ?); lia|]. by apply held_bump. }
  { by apply file_ok_lock. }
  intros fs' sv' Ht Hsv. unfold update_i. wps. unfold on_fs, on_lock. wps. cbn [st_fs st_sv].
  eapply wp_of_ok.
  { rewrite (fr_lock _ _ (tr_frame _ _ _ _ _ Ht)). cbn. by apply (biglock_release_held n). }
  apply HQ; cbn; [|done| |done].
  - apply truncated_size; [apply u32_range|]. by eapply truncated_unlock.
  - eapply same_vn_trans; [exact Hsv|]. by repeat split; auto.
Qed.

(** ** Operations on one file

    Nothing but the file was touched: blocks in use that are not its own are
    still in use, hold what they held and are not its own now, and a block that
    came into use is. *)
Record only fs i fs' i' : Prop := Only {
  on_ok : vol_ok fs';
  on_frame : frame fs fs';
  on_file : file_ok fs' i';
  on_others : ∀ b, 0 ≤ b → used fs b = true → ¬ owned fs i b →
    used fs' b = true ∧ blk fs' b = blk fs b ∧ ¬ owned fs' i' b;
  on_new : ∀ b, 0 ≤ b → used fs' b = true → owned fs' i' b ∨ used fs b = true ∧ ¬ owned fs i b;
}.

#[export] Instance owned_dec fs i b : Decision (owned fs i b).
Proof.
  refine (cast_if (decide (b ≠ 0 ∧ Exists (λ k, slot fs i k = b) (seqZ (-1) 144)))).
  - destruct a as [Hb (k & Hk & Hs)%list.Exists_exists]. split; [done|]. exists k.
    apply elem_of_seqZ in Hk. unfold is_slot. split; [lia|done].
  - intros [Hb (k & Hk & Hs)]. apply n. split; [done|]. apply list.Exists_exists. exists k.
    split; [|done]. apply elem_of_seqZ. unfold is_slot in Hk. lia.
Defined.

Lemma grows_only fs i fs' i' : grows fs i fs' i' → only fs i fs' i'.
Proof.
  intros Hg. pose proof Hg as [? ? ? _ _ _ Hu Ho Hn]. split; [done..| |].
  - intros b Hb Hx Hno. split; [by apply Hu|by apply Ho].
  - intros b Hb Hx. destruct (decide (owned fs' i' b)) as [|Hno]; [by left|right].
    destruct (Hn b Hb Hx) as [Hus|Hc]; [|done]. split; [done|].
    intros Hc. by apply Hno, (grows_keep_owned fs i).
Qed.

Lemma truncated_only bl fs i fs' i' : truncated bl fs i fs' i' → only fs i fs' i'.
Proof.
  intros [? ? ? Hs Hi _ Hu Hb _ _]. split; [done..| |].
  - intros b Hb0 Hx Hno. split; [by apply Hu|]. split.
    + apply Hb. destruct (decide (sfi_indirect i = 0)) as [|Hne]; [by right|left].
      intros ->. apply Hno. split; [done|]. by exists (-1).
    + intros [Hnz (k & Hk & Hsk)]. apply Hno. split; [done|].
      destruct (decide (k = -1)) as [->|Hk1].
      { exists (-1). split; [done|]. cbn in *. destruct Hi; congruence. }
      exists k. split; [done|]. unfold is_slot in Hk. rewrite Hs in Hsk by lia.
      by destruct (cut bl k).
  - intros b Hb0 Hx. apply Hu in Hx as [Hx Ho]; [|done].
    destruct (decide (owned fs i b)); [left; by apply Ho|by right].
Qed.

Lemma only_size fs i fs' i' n : is_u32 n → only fs i fs' i' → only fs i fs' (set_size n i').
Proof.
  intros Hn [? ? [[] ? ?] ? ?]. split; auto. split; [by split|auto|auto].
Qed.

Lemma only_trans fs1 i1 fs2 i2 fs3 i3 :
  only fs1 i1 fs2 i2 → only fs2 i2 fs3 i3 → only fs1 i1 fs3 i3.
Proof.
  intros [_ Hf1 _ Ho1 Hn1] [H1 Hf2 H2 Ho2 Hn2]. split; [done|by eapply frame_trans|done| |].
  - intros b Hb Hu Hno. destruct (Ho1 b Hb Hu Hno) as (Hu2 & <- & Hno2). by apply Ho2.
  - intros b Hb Hu. destruct (Hn2 b Hb Hu) as [|[Hu2 Hno2]]; [by left|right].
    by destruct (Hn1 b Hb Hu2).
Qed.

End file.

(** ** Truncation, by the length in bytes *)

Section cut_to.
Context {HW : Type} `{!DiskHw HW, !WorkingDisk HW}.
Implicit Types (fs : sfs_fs HW) (sv : sfs_vnode).


Lemma truncated_blk bl fs i fs' i' k :
  file_ok fs i → truncated bl fs i fs' i' → 0 ≤ k < 143 →
  blk fs' (slot fs i k) = blk fs (slot fs i k).
Proof.
  intros Hf Ht Hk. apply (tr_blk _ _ _ _ _ Ht).
  destruct (decide (sfi_indirect i = 0)) as [|Hi]; [by right|left]. intros Heq.
  assert (k = -1); [|lia]. apply (fo_inj _ _ Hf); unfold is_slot; [lia|done|congruence|done].
Qed.


End cut_to.

(** ** The theorems about files *)

(** C5: [sfs_bmap] hands back the block in the slot it was asked for.  Looking
    up changes nothing; with allocation the slot is filled if it was empty, by
    a block that was free and reads as zeros, so that the file reads as before
    and no block of anybody else changes.  It fails when the volume is full,
    and then leaves the file as it reads, and for a slot past the 143rd, and
    then changes nothing.  The disk is a working one (no media errors) and the
    thread holds the big lock. *)
Theorem sfs_bmap_correct {HW} `{!DiskHw HW, !WorkingDisk HW}
    (fs : sfs_fs HW) sv k doalloc :
  vol_ok fs → locked fs → file_ok fs (sv_i sv) → 0 ≤ k →
  match sfs_bmap k doalloc (SvSt fs sv) with
  | Ok b s =>
      k < 143 ∧ grows fs (sv_i sv) (st_fs s) (sv_i (st_sv s)) ∧
      b = slot (st_fs s) (sv_i (st_sv s)) k ∧
      if doalloc then b ≠ 0
      else st_sv s = sv ∧ fs_upd (blk fs) (used fs) fs (st_fs s)
  | Err e s =>
      k < 143 ∧ e = ENOSPC ∧ doalloc = true ∧ full (st_fs s) ∧
        grows fs (sv_i sv) (st_fs s) (sv_i (st_sv s)) ∨
      143 ≤ k ∧ e = EFBIG ∧ s = SvSt fs sv
  | Crash _ => False
  end.
Proof.
  intros Hv Hl Hf Hk. destruct (Z.lt_ge_cases k 143) as [Hlt|Hge].
  - pose proof (sfs_bmap_wp no_crash fs sv k doalloc Hv Hl Hf (conj Hk Hlt)) as H.
    unfold wp, bmap_post, bmap_err in H. destruct (sfs_bmap _ _ _); [|left; tauto|done].
    destruct H as (? & _ & ? & H1 & H2). destruct doalloc; auto.
  - pose proof (sfs_bmap_efbig no_crash fs sv k doalloc Hl Hge) as H.
    unfold wp in H. destruct (sfs_bmap _ _ _); [done| |done]. right. by destruct H as [-> ->].
Qed.


(** C37: truncating a file to a whole number [bl] of blocks, more than the
    inode holds, keeps the block just past the new end: it stays in the file
    and in use.  (On a working disk, for the thread that created the lock.) *)
Theorem sfs_itrunc_keeps_block {HW} `{!DiskHw HW, !WorkingDisk HW}
    n bl (fs : sfs_fs HW) sv :
  vol_ok fs → held n (vfs_lock fs) → n < 4294967294 → file_ok fs (sv_i sv) →
  15 ≤ bl < 143 → slot fs (sv_i sv) bl ≠ 0 →
  ∃ fs' sv', sfs_itrunc (bl * 512) (SvSt fs sv) = Ok tt (SvSt fs' sv') ∧
    sfi_size (sv_i sv') = bl * 512 ∧
    slot fs' (sv_i sv') bl = slot fs (sv_i sv) bl ∧
    used fs' (slot fs (sv_i sv) bl) = true ∧
    blk fs' (slot fs (sv_i sv) bl) = blk fs (slot fs (sv_i sv) bl).
Proof.
  intros Hv Hh Hn Hf Hbl Hnz.
  destruct (wp_ok (sfs_itrunc (bl * 512)) (λ _ s, truncated bl fs
    (sv_i sv) (st_fs s) (sv_i (st_sv s)) ∧ sfi_size (sv_i (st_sv s)) = bl * 512)
    (SvSt fs sv)) as ([] & [fs' sv'] & He & Ht & Hs).
  { eapply sfs_itrunc_wp; try done. intros fs' sv' Ht Hs _ _.
    assert (Hq : u32 (Z.quot (bl * 512 + 511) 512) = bl).
    { rewrite Z.quot_div_nonneg, Z.div_add_l by lia. change (511 / 512) with 0.
      rewrite Z.add_0_r. apply u32_small. unfold is_u32. lia. }
    rewrite Hq in Ht. split; [done|]. cbn. rewrite Hs. apply u32_small. unfold is_u32. lia. }
  cbn in *. assert (Hsl : slot fs' (sv_i sv') bl = slot fs (sv_i sv) bl).
  { rewrite (tr_slot _ _ _ _ _ Ht) by lia. unfold cut.
    by rewrite (proj2 (Z.ltb_ge bl 15)), Z.ltb_irrefl by lia. }
  assert (Hsb : is_slot bl) by (unfold is_slot; lia).
  exists fs', sv'. split; [done|]. split; [done|]. split; [done|].
  destruct (fo_used _ _ (tr_file _ _ _ _ _ Ht) bl Hsb) as [Hr Hu]; [congruence|].
  rewrite Hsl in Hu. split; [done|]. apply (truncated_blk bl fs (sv_i sv) fs' (sv_i sv')); [done|done|lia].
Qed.


(** ** A file to try things on

    Block 4 is the indirect block, and its first word names block 5. *)

Definition small_words : list Z := 5 :: replicate 127 0.

Definition file_fs : sfs_fs ramdisk :=
  SfsFs small_sb false
    (LhdSoftc zero_sector None 1 0 64 0 LHD_IDLE (RamDisk 64 {[ 4 := encode_u32s small_words ]}))
    (Bitmap 16 [0x37; 0]) false (VfsLock 1 (Lock 1 0) 1).

Definition small_inode (indirect : Z) : sfs_dinode :=
  SfsDinode 8192 SFS_TYPE_FILE 1 (replicate 15 0) indirect (replicate 110 0).

Definition small_sv (indirect : Z) : sfs_vnode :=
  SfsVnode 1 sfs_fileops (small_inode indirect) 3 false.

Lemma file_fs_blk b :
  blk file_fs b = if b =? 4 then encode_u32s small_words else replicate 512 0.
Proof.
  unfold blk, sector, file_fs. cbn [sfs_device lh_hw hw_sector ramdisk_hw]. unfold rd_sector.
  cbn [rd_data]. destruct (Z.eqb_spec b 4) as [->|Hne].
  - rewrite lookup_singleton_eq. cbn [default]. apply fit_sector_id.
    rewrite encode_u32s_length. done.
  - rewrite lookup_singleton_ne by done. cbn [default]. apply fit_sector_id.
    apply length_replicate.
Qed.

Lemma file_vol_ok : vol_ok file_fs.
Proof.
  split; [| | | | |done|].
  - split; [done|apply length_replicate|done|done].
  - done.
  - split; [done|done|repeat constructor; lia|cbn; intros i Hi; lia].
  - done.
  - unfold nblocks. cbn. lia.
  - intros b Hb. rewrite file_fs_blk. destruct (_ =? _); [apply encode_u32s_bytes|apply zeros_bytes].
Qed.

Lemma file_locked : locked file_fs.
Proof. exists 1. split; [lia|]. repeat split; cbn; lia. Qed.

Lemma file_slot k : is_slot k →
  slot file_fs (small_inode 4) k = if k =? -1 then 4 else if k =? 15 then 5 else 0.
Proof.
  intros Hk. unfold is_slot in Hk. unfold slot. destruct (Z.eqb_spec k (-1)); [done|].
  destruct (Z.ltb_spec k 15).
  - rewrite (proj2 (Z.eqb_neq k 15)) by lia. cbn [small_inode sfi_direct].
    apply default_replicate.
  - cbn [small_inode sfi_indirect Z.eqb]. unfold idwords. cbn [sfi_indirect small_inode].
    rewrite file_fs_blk, Z.eqb_refl, decode_encode_words.
    + destruct (Z.eqb_spec k 15) as [->|]; [done|].
      replace (Z.to_nat (k - 15)) with (S (Z.to_nat (k - 16))) by lia.
      unfold small_words. cbn [lookup list_lookup]. apply default_replicate.
    + done.
    + constructor; [by split|]. apply Forall_replicate. by split.
Qed.

Lemma small_inode_ok b : is_u32 b → dinode_ok (small_inode b).
Proof.
  intros Hb. split; [by split|by split|by split| |done|];
    (split; [done|by apply Forall_replicate]).
Qed.

Lemma small_file_ok : file_ok file_fs (small_inode 4).
Proof.
  split; [by apply small_inode_ok| |].
  - intros k Hk. rewrite file_slot by done. intros Hnz. unfold nblocks. cbn [file_fs sfs_sb
      sb_nblocks small_sb].
    destruct (k =? -1); [by split|]. destruct (k =? 15); [by split|done].
  - intros j k Hj Hk. rewrite !file_slot by done.
    destruct (Z.eqb_spec j (-1)), (Z.eqb_spec k (-1)), (Z.eqb_spec j 15), (Z.eqb_spec k 15);
      try lia; done.
Qed.

Lemma sfs_bmap_correct_witness :
  match sfs_bmap 16 true (SvSt file_fs (small_sv 4)) with
  | Ok b s =>
      16 < 143 ∧ grows file_fs (small_inode 4) (st_fs s) (sv_i (st_sv s)) ∧
      b = slot (st_fs s) (sv_i (st_sv s)) 16 ∧ b ≠ 0
  | Err e s => 16 < 143 ∧ e = ENOSPC ∧ true = true ∧ full (st_fs s) ∧
      grows file_fs (small_inode 4) (st_fs s) (sv_i (st_sv s)) ∨
      143 ≤ 16 ∧ e = EFBIG ∧ s = SvSt file_fs (small_sv 4)
  | Crash _ => False
  end.
Proof.
  apply (sfs_bmap_correct file_fs (small_sv 4) 16 true);
    [exact file_vol_ok|exact file_locked|exact small_file_ok|lia].
Defined.


Lemma sfs_itrunc_keeps_block_witness :
  ∃ fs' sv', sfs_itrunc (15 * 512) (SvSt file_fs (small_sv 4)) = Ok tt (SvSt fs' sv') ∧
    sfi_size (sv_i sv') = 15 * 512 ∧
    slot fs' (sv_i sv') 15 = slot file_fs (small_inode 4) 15 ∧
    used fs' (slot file_fs (small_inode 4) 15) = true ∧
    blk fs' (slot file_fs (small_inode 4) 15) = blk file_fs (slot file_fs (small_inode 4) 15).
Proof.
  apply (sfs_itrunc_keeps_block 1 15 file_fs (small_sv 4));
    [exact file_vol_ok|by repeat split|lia|exact small_file_ok|lia|].
  rewrite file_slot; [done|split; lia].
Defined.
