(* ===== verification/SfsFile.v ===== *)
(** * File contents

    The file-level I/O of kern/fs/sfs/sfs_io.c: partial blocks, whole blocks,
    requests of any size and place, and metadata. *)

From S2P Require Import Prelude Endian Bitmap CopyInOut Uio Lhd Lock.
From S2P Require Import SfsTypes SfsBlock SfsBmap.
Open Scope Z_scope.

(** A file being read or written: the vnode, its volume and the request. *)
Record iost (HW : Type) := IoSt { io_st : svst HW; io_u : uiost }.
Arguments IoSt {HW}.
Arguments io_st {HW}.
Arguments io_u {HW}.

Section sfs_io.
Context {HW : Type} `{!DiskHw HW}.

Definition on_st {A} (m : M (svst HW) A) : M (iost HW) A :=
  zoom io_st (λ t s, IoSt t (io_u s)) m.
Definition on_io_u {A} (m : M uiost A) : M (iost HW) A :=
  zoom io_u (λ u s, IoSt (io_st s) u) m.
Definition on_rw {A} (m : M (rwst HW) A) : M (iost HW) A :=
  zoom (λ s, RwSt (st_fs (io_st s)) (io_u s))
       (λ r s, IoSt (SvSt (rw_fs r) (st_sv (io_st s))) (rw_u r)) m.

(** [uio->uio_offset = off; uio->uio_resid = resid;] *)
Definition set_pos (off resid : Z) (u : uio) : uio :=
  Uio (uio_iov u) (uio_iovcnt u) off resid (uio_segflg u) (uio_rw u) (uio_space u).

Definition set_uio_pos (off resid : Z) : M (iost HW) unit :=
  on_io_u (modify (λ s, set_uio (set_pos off resid (us_uio s)) s)).

Definition the_uio (s : iost HW) : uio := us_uio (io_u s).

Definition biglock_held : M (svst HW) bool := on_fs (on_lock vfs_biglock_do_i_hold).

Definition sfs_partialio (skipstart len : Z) : M (iost HW) unit :=
  s <- get ;;
  let rw := uio_rw (the_uio s) in
  let doalloc := bool_decide (rw = UIO_WRITE) in
  KASSERT (u32 (skipstart + len) <=? SFS_BLOCKSIZE) ;;;
  held <- on_st biglock_held ;;
  KASSERT held ;;;
  let fileblock := u32 (Z.quot (uio_offset (the_uio s)) SFS_BLOCKSIZE) in
  diskblock <- on_st (sfs_bmap fileblock doalloc) ;;
  iobuf <- (if diskblock =? 0 then
              KASSERT (bool_decide (rw = UIO_READ)) ;;;
              ret (replicate 512 0)
            else on_st (on_fs (sfs_readblock diskblock))) ;;
  piece <- on_io_u (uiomove (slice iobuf (Z.to_nat skipstart) (Z.to_nat len))) ;;
  if decide (rw = UIO_WRITE) then
    on_st (on_fs (sfs_writeblock diskblock (splice iobuf (Z.to_nat skipstart) piece)))
  else ret tt.

Definition sfs_blockio : M (iost HW) unit :=
  s <- get ;;
  let rw := uio_rw (the_uio s) in
  let doalloc := bool_decide (rw = UIO_WRITE) in
  let fileblock := u32 (Z.quot (uio_offset (the_uio s)) SFS_BLOCKSIZE) in
  diskblock <- on_st (sfs_bmap fileblock doalloc) ;;
  if diskblock =? 0 then
    KASSERT (bool_decide (rw = UIO_READ)) ;;;
    on_io_u (uiomovezeros SFS_BLOCKSIZE)
  else
    s <- get ;;
    let saveoff := uio_offset (the_uio s) in
    let diskoff := u32 (diskblock * SFS_BLOCKSIZE) in
    KASSERT (SFS_BLOCKSIZE <=? uio_resid (the_uio s)) ;;;
    let saveres := uio_resid (the_uio s) in
    set_uio_pos diskoff SFS_BLOCKSIZE ;;;
    result <- attempt (on_rw sfs_rwblock) ;;
    s <- get ;;
    set_uio_pos ((uio_offset (the_uio s) - diskoff) + saveoff)
      (u32 ((uio_resid (the_uio s) - SFS_BLOCKSIZE) + saveres)) ;;;
    match result with
    | inl e => fail e
    | inr _ => ret tt
    end.

(** The part of [sfs_io] after the leading partial block, up to the label
    [out]. *)
Definition sfs_io_aligned : M (iost HW) unit :=
  s <- get ;;
  if uio_resid (the_uio s) =? 0 then ret tt
  else
    KASSERT (Z.rem (uio_offset (the_uio s)) SFS_BLOCKSIZE =? 0) ;;;
    let nblocks := uio_resid (the_uio s) / SFS_BLOCKSIZE in
    for_range (Z.to_nat nblocks) 0 (λ _, sfs_blockio) ;;;
    s <- get ;;
    KASSERT (uio_resid (the_uio s) <? SFS_BLOCKSIZE) ;;;
    if 0 <? uio_resid (the_uio s) then sfs_partialio 0 (uio_resid (the_uio s))
    else ret tt.

(** The part of [sfs_io] before the label [out]. *)
Definition sfs_io_blocks : M (iost HW) unit :=
  s <- get ;;
  let blkoff := u32 (Z.rem (uio_offset (the_uio s)) SFS_BLOCKSIZE) in
  (if blkoff =? 0 then ret tt
   else
     let len := SFS_BLOCKSIZE - blkoff in
     let len := if uio_resid (the_uio s) <? len then uio_resid (the_uio s) else len in
     sfs_partialio blkoff len) ;;;
  sfs_io_aligned.

(** The code from the label [out] on. *)
Definition sfs_io_out (origresid extraresid : Z) : M (iost HW) unit :=
  s <- get ;;
  let u := the_uio s in
  (if negb (uio_resid u =? origresid) && bool_decide (uio_rw u = UIO_WRITE) &&
      (sfi_size (sv_i (st_sv (io_st s))) <? uio_offset u)
   then on_st (update_i (set_size (u32 (uio_offset u))))
   else ret tt) ;;;
  set_uio_pos (uio_offset u) (u32 (uio_resid u + extraresid)).

Definition sfs_io_main (origresid extraresid : Z) : M (iost HW) unit :=
  result <- attempt sfs_io_blocks ;;
  sfs_io_out origresid extraresid ;;;
  match result with
  | inl e => fail e
  | inr _ => ret tt
  end.

Definition sfs_io : M (iost HW) unit :=
  s <- get ;;
  let u := the_uio s in
  let origresid := uio_resid u in
  if decide (uio_rw u = UIO_READ) then
    let size := sfi_size (sv_i (st_sv (io_st s))) in
    let endpos := uio_offset u + uio_resid u in
    if size <=? uio_offset u then ret tt
    else if size <? endpos then
      let extraresid := u32 (endpos - size) in
      KASSERT (extraresid <? uio_resid u) ;;;
      set_uio_pos (uio_offset u) (uio_resid u - extraresid) ;;;
      sfs_io_main origresid extraresid
    else sfs_io_main origresid 0
  else sfs_io_main origresid 0.

(** [sfs_metaio(sv, actualpos, data, len, rw)]: [data] is the object, handed
    back as it is afterwards.  An object that crosses the end of the block
    would overrun the buffer. *)
Definition sfs_metaio (actualpos : Z) (data : list Z) (rw : uio_rw_t) :
    M (svst HW) (list Z) :=
  held <- biglock_held ;;
  KASSERT held ;;;
  let vnblock := u32 (Z.quot actualpos SFS_BLOCKSIZE) in
  let blockoffset := u32 (Z.rem actualpos SFS_BLOCKSIZE) in
  let doalloc := bool_decide (rw = UIO_WRITE) in
  diskblock <- sfs_bmap vnblock doalloc ;;
  if diskblock =? 0 then
    KASSERT (bool_decide (rw = UIO_READ)) ;;;
    ret (replicate (length data) 0)
  else
    metaiobuf <- on_fs (sfs_readblock diskblock) ;;
    let off := Z.to_nat blockoffset in
    if decide (off + length data ≤ 512)%nat then
      match rw with
      | UIO_READ => ret (slice metaiobuf off (length data))
      | UIO_WRITE =>
          on_fs (sfs_writeblock diskblock (splice metaiobuf off data)) ;;;
          s <- get ;;
          let endpos := actualpos + Z.of_nat (length data) in
          (if sfi_size (sv_i (st_sv s)) <? endpos
           then update_i (set_size (u32 endpos)) else ret tt) ;;;
          ret data
      end
    else undef.

End sfs_io.

(** ** A file as a string of bytes *)

Definition FILE_MAX : Z := 73216.   (* 143 blocks *)

Section bytes.
Context {HW : Type} `{!DiskHw HW, !WorkingDisk HW}.
Implicit Types (fs : sfs_fs HW) (i : sfs_dinode) (p off k b : Z) (data : list Z).

Definition fbyte fs i p : Z := default 0 (fdata fs i (p / 512) !! Z.to_nat (p mod 512)).

(** The [n] bytes from [off] on. *)
Definition frange fs i off (n : Z) : list Z := fbyte fs i <$> seqZ off n.

(** [data] was stored at [off]; the rest of the file reads as before, it kept
    its blocks, and blocks of others are not touched. *)
Record wrote off data fs i fs' i' : Prop := Wrote {
  wr_ok : vol_ok fs';
  wr_frame : frame fs fs';
  wr_file : file_ok fs' i';
  wr_meta : same_meta i i';
  wr_keep : ∀ k, is_slot k → slot fs i k ≠ 0 → slot fs' i' k = slot fs i k;
  wr_used : ∀ b, 0 ≤ b → used fs b = true → used fs' b = true;
  wr_others : ∀ b, 0 ≤ b → used fs b = true → ¬ owned fs i b →
    blk fs' b = blk fs b ∧ ¬ owned fs' i' b;
  wr_new : ∀ b, 0 ≤ b → used fs' b = true → used fs b = true ∨ owned fs' i' b;
  wr_bytes : ∀ p, 0 ≤ p < FILE_MAX →
    fbyte fs' i' p = if decide (off ≤ p < off + Z.of_nat (length data))
                     then default 0 (data !! Z.to_nat (p - off)) else fbyte fs i p;
}.

Lemma wrote_only off data fs i fs' i' : wrote off data fs i fs' i' → only fs i fs' i'.
Proof.
  intros [? ? ? _ Hk Hu Ho Hn _]. split; [done..| |].
  - intros b Hb Hx Hno. split; [by apply Hu|by apply Ho].
  - intros b Hb Hx. destruct (decide (owned fs' i' b)) as [|Hno]; [by left|right].
    destruct (Hn b Hb Hx) as [Hus|Hc]; [|done]. split; [done|].
    intros [Hnz (k & Hsl & <-)]. apply Hno. split; [done|]. exists k. auto.
Qed.

Lemma fbyte_fdata fs i fs' i' p :
  fdata fs' i' (p / 512) = fdata fs i (p / 512) → fbyte fs' i' p = fbyte fs i p.
Proof. unfold fbyte. by intros ->. Qed.

Lemma block_of p : 0 ≤ p < FILE_MAX → 0 ≤ p / 512 < 143.
Proof.
  unfold FILE_MAX. intros Hp. split; [apply Z.div_pos; lia|].
  apply Z.div_lt_upper_bound; lia.
Qed.

Lemma grows_wrote off fs i fs' i' : grows fs i fs' i' → wrote off [] fs i fs' i'.
Proof.
  intros []. split; auto. intros p Hp. rewrite decide_False by (cbn; lia).
  apply fbyte_fdata. apply gr_data. by apply block_of.
Qed.

Lemma wrote_keep_owned off data fs i fs' i' b :
  wrote off data fs i fs' i' → owned fs i b → owned fs' i' b.
Proof.
  intros Hg [Hb (k & Hk & Hs)]. split; [done|]. exists k. split; [done|].
  rewrite (wr_keep _ _ _ _ _ _ Hg) by (by rewrite ?Hs). done.
Qed.

Lemma wrote_trans off off2 d1 d2 fs1 i1 fs2 i2 fs3 i3 :
  off2 = off + Z.of_nat (length d1) →
  wrote off d1 fs1 i1 fs2 i2 → wrote off2 d2 fs2 i2 fs3 i3 →
  wrote off (d1 ++ d2) fs1 i1 fs3 i3.
Proof.
  intros -> H1 H2. split.
  - apply H2.
  - eapply frame_trans; [apply H1|apply H2].
  - apply H2.
  - eapply same_meta_trans; [apply H1|apply H2].
  - intros k Hk Hn. pose proof (wr_keep _ _ _ _ _ _ H1 k Hk Hn) as E1.
    rewrite <-E1 in Hn |- *. by apply (wr_keep _ _ _ _ _ _ H2).
  - intros b Hb Hu. by apply (wr_used _ _ _ _ _ _ H2), (wr_used _ _ _ _ _ _ H1).
  - intros b Hb Hu Hno. destruct (wr_others _ _ _ _ _ _ H1 b Hb Hu Hno) as (Hb2 & Hno2).
    destruct (wr_others _ _ _ _ _ _ H2 b Hb) as (Hb3 & Hno3);
      [by apply (wr_used _ _ _ _ _ _ H1)|done|]. by rewrite Hb3.
  - intros b Hb Hu. destruct (wr_new _ _ _ _ _ _ H2 b Hb Hu) as [Hu2|]; [|by right].
    destruct (wr_new _ _ _ _ _ _ H1 b Hb Hu2) as [|Ho]; [by left|right].
    by eapply wrote_keep_owned.
  - intros p Hp. rewrite (wr_bytes _ _ _ _ _ _ H2), (wr_bytes _ _ _ _ _ _ H1) by done.
    rewrite length_app, Nat2Z.inj_add. repeat case_decide; try lia.
    + rewrite lookup_app_r by lia. do 2 f_equal. lia.
    + by rewrite lookup_app_l by lia.
Qed.

Lemma fdata_length fs i k : length (fdata fs i k) = 512%nat.
Proof. unfold fdata. destruct (_ =? _); [apply length_replicate|apply hw_sector_len]. Qed.

Lemma fdata_bytes fs i k :
  vol_ok fs → file_ok fs i → 0 ≤ k < 143 → Forall is_u8 (fdata fs i k).
Proof.
  intros Hv Hf Hk. unfold fdata. destruct (Z.eqb_spec (slot fs i k) 0); [apply zeros_bytes|].
  apply Hv. destruct (fo_used fs i Hf k); [unfold is_slot; lia|done|lia].
Qed.

(** A piece of a block, as a piece of the file. *)
Lemma slice_frange fs i k (skip len : nat) :
  (skip + len ≤ 512)%nat →
  slice (fdata fs i k) skip len = frange fs i (k * 512 + Z.of_nat skip) (Z.of_nat len).
Proof.
  intros Hl. apply list_eq. intros n. rewrite lookup_slice. unfold frange.
  rewrite list_lookup_fmap. case_decide as Hn.
  - rewrite lookup_seqZ_lt by lia. cbn. unfold fbyte.
    replace (k * 512 + Z.of_nat skip + Z.of_nat n) with (Z.of_nat (skip + n) + k * 512) by lia.
    rewrite Z.div_add, Z.mod_add by lia. rewrite Z.div_small, Z.mod_small, Nat2Z.id by lia.
    destruct (lookup_lt_is_Some_2 (fdata fs i k) (skip + n)) as [x Hx].
    { rewrite fdata_length. lia. }
    rewrite Z.add_0_l. by rewrite Hx.
  - rewrite lookup_seqZ_ge by lia. done.
Qed.

(** Storing a new content in a block that the file has. *)
Lemma wrote_block fs i fs' k (skip : nat) piece :
  vol_ok fs → file_ok fs i → 0 ≤ k < 143 → slot fs i k ≠ 0 →
  (skip + length piece ≤ 512)%nat →
  fs_upd (put_blk (slot fs i k) (splice (fdata fs i k) skip piece) (blk fs)) (used fs) fs fs' →
  wrote (k * 512 + Z.of_nat skip) piece fs i fs' i.
Proof.
  intros Hv Hf Hk Hnz Hlen [Hv' Hfr Hblk Hu].
  assert (Hsk : is_slot k) by (unfold is_slot; lia).
  assert (Hother : ∀ j, is_slot j → j ≠ k → slot fs i j ≠ 0 → slot fs i j ≠ slot fs i k).
  { intros j Hj Hne Hj0 Heq. apply Hne. by apply (fo_inj fs i Hf). }
  assert (Hs : ∀ j, slot fs' i j = slot fs i j).
  { intros j. unfold slot, idwords. destruct (_ =? -1); [done|]. destruct (_ <? _); [done|].
    destruct (Z.eqb_spec (sfi_indirect i) 0) as [|Hi]; [done|].
    rewrite Hblk, put_blk_ne; [done|]. apply (Hother (-1)); [by split|lia|done]. }
  split; auto.
  - split; [apply Hf| |].
    + intros j Hj. rewrite Hs. intros Hj0. destruct (fo_used fs i Hf j Hj Hj0).
      rewrite (frame_nblocks _ _ Hfr), Hu by lia. done.
    + intros j l. rewrite !Hs. apply Hf.
  - done.
  - intros b Hb Hx. by rewrite Hu.
  - intros b Hb Hx Hno. split.
    + rewrite Hblk. apply put_blk_ne. intros ->. apply Hno. split; [done|]. by exists k.
    + intros [Hb0 (j & Hj & Hsj)]. apply Hno. split; [done|]. exists j. by rewrite <-Hs.
  - intros b Hb. rewrite Hu by done. by left.
  - intros p Hp. pose proof (block_of p Hp) as Hbp.
    pose proof (Z.div_mod p 512 ltac:(lia)) as Hdm.
    pose proof (Z.mod_pos_bound p 512 ltac:(lia)) as Hm.
    destruct (decide (p / 512 = k)) as [Hpk|Hpk].
    + unfold fbyte at 1. unfold fdata. rewrite Hpk, Hs.
      rewrite (proj2 (Z.eqb_neq _ 0)), Hblk, put_blk_eq by done.
      rewrite lookup_splice by (rewrite fdata_length; lia).
      case_decide as Hd1; case_decide as Hd2; try lia.
      * do 2 f_equal. lia.
      * unfold fbyte. by rewrite Hpk.
    + rewrite decide_False by lia. apply fbyte_fdata. unfold fdata. rewrite !Hs.
      destruct (Z.eqb_spec (slot fs i (p / 512)) 0) as [|Hp0]; [done|].
      rewrite Hblk, put_blk_ne; [done|]. apply Hother; [unfold is_slot; lia|done|done].
Qed.

(** ** Metadata *)

Lemma u32_block pos : 0 ≤ pos < FILE_MAX → u32 (Z.quot pos 512) = pos / 512.
Proof.
  intros Hp. rewrite Z.quot_div_nonneg by lia. apply u32_small.
  pose proof (block_of pos Hp). unfold is_u32. lia.
Qed.

Lemma u32_offset pos : 0 ≤ pos → u32 (Z.rem pos 512) = pos mod 512.
Proof.
  intros Hp. rewrite Z.rem_mod_nonneg by lia. apply u32_small.
  pose proof (Z.mod_pos_bound pos 512 ltac:(lia)). unfold is_u32. lia.
Qed.

Lemma biglock_held_wp C (Q : bool → svst HW → Prop) E fs sv :
  locked fs → Q true (SvSt fs sv) → wp C biglock_held Q E (SvSt fs sv).
Proof.
  intros Hl HQ. unfold biglock_held, on_fs, on_lock. wps. cbn [st_fs st_sv].
  eapply wp_of_ok; [by apply locked_do_i_hold|]. cbn [st_fs st_sv]. by rewrite set_lock_id.
Qed.

(** The object is within a block of a file of legal size. *)
Definition meta_pos pos (n : nat) : Prop := 0 ≤ pos < FILE_MAX ∧ pos mod 512 + Z.of_nat n ≤ 512.

Lemma meta_place pos n :
  meta_pos pos n → pos = pos / 512 * 512 + Z.of_nat (Z.to_nat (pos mod 512)).
Proof.
  intros _. pose proof (Z.div_mod pos 512 ltac:(lia)).
  pose proof (Z.mod_pos_bound pos 512 ltac:(lia)). lia.
Qed.

Lemma slot_block pos : 0 ≤ pos < FILE_MAX → is_slot (pos / 512).
Proof. intros Hp. pose proof (block_of pos Hp). unfold is_slot. lia. Qed.

Lemma frange_zero fs i pos n :
  meta_pos pos n → slot fs i (pos / 512) = 0 → replicate n 0 = frange fs i pos (Z.of_nat n).
Proof.
  intros Hp Hs. rewrite (meta_place pos n Hp), <-slice_frange.
  - unfold fdata. rewrite Hs. cbn [Z.eqb]. unfold slice.
    rewrite drop_replicate, take_replicate. f_equal. destruct Hp as [_ Hp].
    pose proof (Z.mod_pos_bound pos 512 ltac:(lia)). lia.
  - destruct Hp as [_ Hp]. pose proof (Z.mod_pos_bound pos 512 ltac:(lia)). lia.
Qed.

Lemma sfs_metaio_read_wp C pos data fs sv (Q : list Z → svst HW → Prop) E :
  vol_ok fs → locked fs → file_ok fs (sv_i sv) → meta_pos pos (length data) →
  (∀ fs', fs_upd (blk fs) (used fs) fs fs' →
     Q (frange fs (sv_i sv) pos (Z.of_nat (length data))) (SvSt fs' sv)) →
  wp C (sfs_metaio pos data UIO_READ) Q E (SvSt fs sv).
Proof.
  intros Hv Hl Hf Hp HQ. pose proof Hp as [Hpr Hpl].
  pose proof (Z.mod_pos_bound pos 512 ltac:(lia)) as Hm.
  unfold sfs_metaio. wps. apply biglock_held_wp; [done|]. wps. apply wp_KASSERT; [done|].
  unfold SFS_BLOCKSIZE. rewrite u32_block, u32_offset by (done || lia).
  wps. rewrite bool_decide_false by done.
  wp_call sfs_bmap_wp; [done|done|done|by apply block_of| |by intros e s (_ & ? & _)|done].
  intros b [fs1 sv1] (_ & _ & -> & Hro & _). cbn [st_fs st_sv] in *.
  destruct (Hro eq_refl) as [-> Hu]. rewrite (slot_read _ _ _ _ Hu).
  destruct (Z.eqb_spec (slot fs (sv_i sv) (pos / 512)) 0) as [Hz|Hnz]; wps.
  - rewrite (frange_zero fs (sv_i sv) pos) by done. by apply HQ.
  - destruct (fo_used _ _ Hf _ (slot_block pos Hpr) Hnz) as [Hr _].
    pose proof Hu as [Hv1 Hfr1 Hb1 _]. unfold on_fs. wps. cbn [st_fs st_sv].
    apply sfs_readblock_wp; [done|by eapply frame_locked| |].
    { rewrite (frame_nblocks _ _ Hfr1). lia. }
    intros fs2 H2. cbn [st_fs st_sv]. rewrite decide_True by lia. wps.
    assert (Hd : blk fs1 (slot fs (sv_i sv) (pos / 512)) = fdata fs (sv_i sv) (pos / 512)).
    { rewrite Hb1. unfold fdata. by rewrite (proj2 (Z.eqb_neq _ 0)). }
    rewrite Hd, slice_frange by lia. rewrite <-(meta_place pos _ Hp). apply HQ.
    eapply fs_upd_ext; [by eapply fs_upd_trans|done|].
    intros j Hj. cbn beta. by rewrite (fu_used _ _ _ _ Hu).
Qed.

(** [off + |data|] is at most the new size. *)
Definition grow_size off data (i i1 : sfs_dinode) : sfs_dinode :=
  if sfi_size i <? off + Z.of_nat (length data)
  then set_size (off + Z.of_nat (length data)) i1 else i1.

Lemma file_ok_size fs i n : is_u32 n → file_ok fs i → file_ok fs (set_size n i).
Proof. intros Hn [[] ? ?]. split; auto. by split. Qed.

(** Writing back a block of the file that was read and changed: [fs1] and [i1]
    are the volume and the inode after [sfs_bmap], [fs2] after the read. *)
Lemma writeback_wp C fs i fs1 i1 fs2 k (skip : nat) piece (Q : unit → sfs_fs HW → Prop) E :
  grows fs i fs1 i1 → locked fs → fs_upd (blk fs1) (used fs1) fs1 fs2 →
  0 ≤ k < 143 → slot fs1 i1 k ≠ 0 → (skip + length piece ≤ 512)%nat → Forall is_u8 piece →
  (∀ fs3, wrote (k * 512 + Z.of_nat skip) piece fs i fs3 i1 → Q tt fs3) →
  wp C (sfs_writeblock (slot fs1 i1 k) (splice (fdata fs1 i1 k) skip piece)) Q E fs2.
Proof.
  intros Hg Hl H2 Hk Hnz Hlen Hby HQ. destruct Hg as [Hv1 Hfr1 Hf1 Hm1 Hk1 Hd1 Hu1 Ho1 Hn1].
  pose proof (grows_read fs1 fs2 i1 Hv1 Hf1 H2) as Hg2.
  pose proof (fdata_length fs1 i1 k) as Hl512. pose proof H2 as [Hv2 Hfr2 Hb2 _].
  assert (Hsk : is_slot k) by (unfold is_slot; lia).
  destruct (fo_used _ _ Hf1 k Hsk Hnz) as [Hr _].
  apply sfs_writeblock_wp; [done|eapply frame_locked; [|exact Hl]; by eapply frame_trans| | | |].
  { rewrite (frame_nblocks _ _ Hfr2). lia. }
  { rewrite splice_length; lia. }
  { pose proof (fdata_bytes fs1 i1 k Hv1 Hf1 Hk). unfold splice.
    apply Forall_app. split; [by apply Forall_take|]. apply Forall_app.
    split; [done|by apply Forall_drop]. }
  intros fs3 H3. apply HQ.
  apply (wrote_trans _ (k * 512 + Z.of_nat skip) [] piece _ _ fs2 i1); [cbn; lia| |].
  - apply grows_wrote. eapply grows_trans; [|exact Hg2]. by split.
  - apply wrote_block; [done|apply Hg2|done| |lia|].
    + by rewrite (slot_read _ _ _ _ H2).
    + by rewrite (slot_read _ _ _ _ H2), (gr_data _ _ _ _ Hg2) by done.
Qed.

Lemma sfs_metaio_write_wp C pos data fs sv (Q : list Z → svst HW → Prop)
    (E : errno → svst HW → Prop) :
  vol_ok fs → locked fs → file_ok fs (sv_i sv) → meta_pos pos (length data) →
  Forall is_u8 data →
  (∀ fs' sv' i1, wrote pos data fs (sv_i sv) fs' i1 →
     sv_i sv' = grow_size pos data (sv_i sv) i1 → same_vn sv sv' → Q data (SvSt fs' sv')) →
  (∀ fs' sv', full fs' → grows fs (sv_i sv) fs' (sv_i sv') → same_vn sv sv' →
     slot fs (sv_i sv) (pos / 512) = 0 → E ENOSPC (SvSt fs' sv')) →
  wp C (sfs_metaio pos data UIO_WRITE) Q E (SvSt fs sv).
Proof.
  intros Hv Hl Hf Hp Hby HQ HE. pose proof Hp as [Hpr Hpl].
  pose proof (Z.mod_pos_bound pos 512 ltac:(lia)) as Hm.
  unfold sfs_metaio. wps. apply biglock_held_wp; [done|]. wps. apply wp_KASSERT; [done|].
  unfold SFS_BLOCKSIZE. rewrite u32_block, u32_offset by (done || lia).
  wps. rewrite bool_decide_true by done.
  wp_call sfs_bmap_wp; [done|done|done|by apply block_of| | |done].
  2: { intros e [fs1 sv1] (-> & _ & Hfull & Hg & Hsv & Hs0). by apply HE. }
  intros b [fs1 sv1] (Hg & Hsv & -> & _ & Hnz). cbn [st_fs st_sv] in *.
  specialize (Hnz eq_refl). rewrite (proj2 (Z.eqb_neq _ 0)) by done. wps.
  pose proof (gr_ok _ _ _ _ Hg) as Hv1. pose proof (gr_file _ _ _ _ Hg) as Hf1.
  pose proof (gr_frame _ _ _ _ Hg) as Hfr1.
  destruct (fo_used _ _ Hf1 _ (slot_block pos Hpr) Hnz) as [Hr _].
  unfold on_fs. wps. cbn [st_fs st_sv].
  assert (Hd : blk fs1 (slot fs1 (sv_i sv1) (pos / 512)) = fdata fs1 (sv_i sv1) (pos / 512)).
  { unfold fdata. by rewrite (proj2 (Z.eqb_neq _ 0)). }
  apply sfs_readblock_wp; [done|by eapply frame_locked|lia|].
  intros fs2 H2. cbn [st_fs st_sv]. rewrite decide_True by lia. wps. cbn [st_fs st_sv].
  rewrite Hd. eapply writeback_wp; [done|done|done|by apply block_of|done|lia|done|].
  intros fs3 Hw. rewrite <-(meta_place pos _ Hp) in Hw. cbn [st_fs st_sv].
  wps. cbn [st_fs st_sv].
  assert (Hsz : sfi_size (sv_i sv1) = sfi_size (sv_i sv)) by apply (gr_meta _ _ _ _ Hg).
  pose proof (dio_size _ (fo_inode _ _ Hf)) as Hsu. unfold is_u32, FILE_MAX in *.
  unfold grow_size in HQ. rewrite Hsz.
  destruct (Z.ltb_spec (sfi_size (sv_i sv)) (pos + Z.of_nat (length data))); wps;
    eapply (HQ _ _ (sv_i sv1)); try done; cbn.
  - by rewrite u32_small by (unfold is_u32; lia).
  - eapply same_vn_trans; [exact Hsv|]. by repeat split; auto.
Qed.

(** ** Requests *)

(** The next [n] bytes of the request can be moved, and the memory they are in
    holds bytes. *)
Record req (n : Z) (u : uio) (vm : vmstate) (sp : Z) : Prop := Req {
  rq_n : 0 ≤ n;
  rq_move : move_pre (replicate (Z.to_nat n) 0) u vm;
  rq_space : space_ok u sp;
  rq_mem : map_Forall (λ _ x, is_u8 x) (seg_mem (uio_segflg u) vm);
}.

Lemma req_prefix n m u vm sp : 0 ≤ n ≤ m → req m u vm sp → req n u vm sp.
Proof.
  intros Hn [Hm Hp Hs Hb]. split; auto; [lia|].
  apply (move_pre_prefix _ (replicate (Z.to_nat (m - n)) 0)).
  rewrite <-replicate_add. by replace (Z.to_nat n + Z.to_nat (m - n))%nat with (Z.to_nat m) by lia.
Qed.

Lemma moved_space n u u' sp : moved n u u' → space_ok u sp → space_ok u' sp.
Proof. intros [] H. unfold space_ok. by rewrite mv_seg, mv_space. Qed.

(** What is left after [n] bytes went from the request to the file. *)
Lemma req_rest_write n m u vm sp u' :
  req (n + m) u vm sp → 0 ≤ n → 0 ≤ m → moved n u u' → req m u' vm sp.
Proof.
  intros [_ [Hok Hbf Hres Hlen Hacc] Hs Hb] Hn Hm Hmv.
  assert (Hrep : ∀ x, 0 ≤ x → length (replicate (Z.to_nat x) 0) = Z.to_nat x)
    by (intros; apply length_replicate).
  rewrite !length_replicate in *. split; [done| |by eapply moved_space|by rewrite (mv_seg _ _ _ Hmv)].
  destruct Hmv. split; rewrite ?length_replicate; auto.
  - lia.
  - rewrite mv_addrs, length_drop. lia.
  - intros a Ha. rewrite mv_seg. apply Hacc. rewrite mv_addrs in Ha.
    apply list_elem_of_lookup in Ha as [l Hi]. apply lookup_take_Some in Hi as [Hi ?].
    rewrite lookup_drop in Hi. apply list_elem_of_lookup. exists (Z.to_nat n + l)%nat.
    apply lookup_take_Some. split; [done|lia].
Qed.

Lemma holds_bytes n u vm sp (l data : list Z) :
  req n u vm sp → holds (seg_mem (uio_segflg u) vm) l data → Forall is_u8 data.
Proof.
  intros [_ _ _ Hb] Hh. unfold holds in Hh. apply Forall_forall. intros x Hx.
  apply list_elem_of_In, list_elem_of_lookup in Hx as [k Hk].
  destruct (Forall2_lookup_r _ _ _ _ _ Hh Hk) as (a & _ & Ha). by apply (Hb a).
Qed.

(** [uiomove] from the memory of a request. *)
Lemma uiomove_write C buf u vm sp (Q : list Z → uiost → Prop) E :
  req (Z.of_nat (length buf)) u vm sp → uio_rw u = UIO_WRITE →
  (∀ data u', moved (Z.of_nat (length buf)) u u' → length data = length buf →
     holds (seg_mem (uio_segflg u) vm) (take (length buf) (addrs u)) data →
     Q data (UioSt u' vm sp)) →
  wp C (uiomove buf) Q E (UioSt u vm sp).
Proof.
  intros [Hn Hp Hs Hb] Hrw HQ. rewrite Nat2Z.id in Hp.
  destruct (uiomove_spec buf u vm sp) as (data & u' & vm' & He & Hm & Ht & Hl & _).
  { eapply move_pre_length; [|exact Hp]. apply length_replicate. }
  { done. }
  eapply wp_of_ok; [done|]. unfold transferred in Ht. rewrite Hrw in Ht.
  destruct Ht as [-> Hh]. by apply HQ.
Qed.

(** ** Writing *)

(** [data] went from the request to the file. *)
Definition wdone (data : list Z) fs sv u vm sp (s : iost HW) : Prop :=
  ∃ fs' sv' u', s = IoSt (SvSt fs' sv') (UioSt u' vm sp) ∧
    wrote (uio_offset u) data fs (sv_i sv) fs' (sv_i sv') ∧ same_vn sv sv' ∧
    moved (Z.of_nat (length data)) u u' ∧
    holds (seg_mem (uio_segflg u) vm) (take (length data) (addrs u)) data ∧
    (data = [] ∨ uio_offset u + Z.of_nat (length data) ≤ FILE_MAX).

Record wpre (n : Z) fs sv u vm sp : Prop := WPre {
  wp_vol : vol_ok fs;
  wp_locked : locked fs;
  wp_small : nblocks fs ≤ 8388608;
  wp_file : file_ok fs (sv_i sv);
  wp_req : req n u vm sp;
  wp_rw : uio_rw u = UIO_WRITE;
  wp_off : 0 ≤ uio_offset u ∧ uio_offset u + n ≤ 2199023255552;
}.

(** The errors a write may end in, and when: the volume is full, or the request
    has come to the largest size of a file. *)
Definition werr (e : errno) (s : iost HW) : Prop :=
  e = ENOSPC ∧ full (st_fs (io_st s)) ∨ e = EFBIG ∧ FILE_MAX ≤ uio_offset (the_uio s).

Lemma moved_zero u : uio_ok u → moved 0 u u.
Proof. intros H. split; auto; cbn; lia. Qed.

Lemma holds_nil m : holds m [] [].
Proof. constructor. Qed.

Lemma wdone_nil fs sv u vm sp fs' sv' :
  uio_ok u → grows fs (sv_i sv) fs' (sv_i sv') → same_vn sv sv' →
  wdone [] fs sv u vm sp (IoSt (SvSt fs' sv') (UioSt u vm sp)).
Proof.
  intros Hu Hg Hsv. exists fs', sv', u. split; [done|]. split; [by apply grows_wrote|].
  split; [done|]. split; [by apply moved_zero|]. split; [apply holds_nil|by left].
Qed.

Lemma wdone_trans d1 d2 fs sv u vm sp fs1 sv1 u1 s :
  wdone d1 fs sv u vm sp (IoSt (SvSt fs1 sv1) (UioSt u1 vm sp)) →
  wdone d2 fs1 sv1 u1 vm sp s → wdone (d1 ++ d2) fs sv u vm sp s.
Proof.
  intros (fs' & sv' & u' & Heq & Hw & Hsv & Hm & Hh & Hx). simplify_eq.
  intros (fs2 & sv2 & u2 & -> & Hw2 & Hsv2 & Hm2 & Hh2 & Hx2).
  exists fs2, sv2, u2. split; [done|]. split; [|split; [|split; [|split]]].
  - eapply wrote_trans; [|exact Hw|exact Hw2]. by rewrite (mv_off _ _ _ Hm).
  - by eapply same_vn_trans.
  - rewrite length_app, Nat2Z.inj_add. eapply moved_trans; [lia|lia|done|done].
  - rewrite (mv_seg _ _ _ Hm), (mv_addrs _ _ _ Hm), Nat2Z.id in Hh2.
    rewrite length_app. unfold holds in *.
    rewrite <-(take_drop (length d1) (take (length d1 + length d2) (addrs u))).
    apply Forall2_app.
    + rewrite take_take. by rewrite Nat.min_l by lia.
    + rewrite skipn_firstn_comm. by replace (length d1 + length d2 - length d1)%nat
        with (length d2) by lia.
  - rewrite length_app, (mv_off _ _ _ Hm) in *. destruct Hx2 as [->|]; [|right; lia].
    rewrite app_nil_r. destruct Hx as [|]; [by left|right; cbn; lia].
Qed.

Lemma wpre_rest n m data fs sv u vm sp fs1 sv1 u1 :
  wpre (n + m) fs sv u vm sp → 0 ≤ m → Z.of_nat (length data) = n →
  wdone data fs sv u vm sp (IoSt (SvSt fs1 sv1) (UioSt u1 vm sp)) →
  wpre m fs1 sv1 u1 vm sp.
Proof.
  intros [Hv Hl Hs Hf Hr Hrw Hoff] Hm Hn (fs' & sv' & u' & Heq & Hw & Hsv & Hmv & Hh & _).
  simplify_eq. pose proof (wr_frame _ _ _ _ _ _ Hw) as Hfr. split.
  - apply Hw.
  - by eapply frame_locked.
  - by rewrite (frame_nblocks _ _ Hfr).
  - apply Hw.
  - eapply req_rest_write; [exact Hr|lia|done|done].
  - by rewrite (mv_rw _ _ _ Hmv).
  - rewrite (mv_off _ _ _ Hmv). lia.
Qed.

(** The result of an attempt to write [n] bytes. *)
Definition wrote_all (n : Z) fs sv u vm sp (_ : unit) (s : iost HW) : Prop :=
  ∃ data, Z.of_nat (length data) = n ∧ wdone data fs sv u vm sp s.
Definition wrote_some (n : Z) fs sv u vm sp (e : errno) (s : iost HW) : Prop :=
  werr e s ∧ ∃ data, Z.of_nat (length data) ≤ n ∧ wdone data fs sv u vm sp s.

Lemma file_block off : 0 ≤ off < 2199023255552 → u32 (Z.quot off 512) = off / 512.
Proof.
  intros H. rewrite Z.quot_div_nonneg by lia. apply u32_small. split.
  - apply Z.div_pos; lia.
  - apply Z.div_lt_upper_bound; lia.
Qed.

Lemma werr_bmap e fs1 sv1 u vm sp :
  0 ≤ uio_offset u → e = ENOSPC ∧ full fs1 ∨ e = EFBIG ∧ 143 ≤ uio_offset u / 512 →
  werr e (IoSt (SvSt fs1 sv1) (UioSt u vm sp)).
Proof.
  intros Ho [[-> Hf]|[-> Hk]]; [by left|right]. split; [done|]. unfold the_uio, FILE_MAX. cbn.
  pose proof (Z.mul_div_le (uio_offset u) 512). lia.
Qed.

(** Finding the block to write to, at file block [k]. *)
Lemma bmap_write_wp C fs sv k (Q : Z → svst HW → Prop) (E : errno → svst HW → Prop) :
  vol_ok fs → locked fs → file_ok fs (sv_i sv) → 0 ≤ k →
  (∀ fs1 sv1, k < 143 → grows fs (sv_i sv) fs1 (sv_i sv1) → same_vn sv sv1 →
     slot fs1 (sv_i sv1) k ≠ 0 → Q (slot fs1 (sv_i sv1) k) (SvSt fs1 sv1)) →
  (∀ e fs1 sv1, e = ENOSPC ∧ full fs1 ∨ e = EFBIG ∧ 143 ≤ k → grows fs (sv_i sv) fs1 (sv_i sv1) → same_vn sv sv1 →
     E e (SvSt fs1 sv1)) →
  wp C (sfs_bmap k true) Q E (SvSt fs sv).
Proof.
  intros Hv Hl Hf Hk HQ HE. destruct (decide (k < 143)) as [Hlt|Hge].
  - wp_call sfs_bmap_wp; [done|done|done|done| | |done].
    + intros b [fs1 sv1] (Hg & Hsv & -> & _ & Hnz). apply HQ; auto.
    + intros e [fs1 sv1] (-> & _ & Hfull & Hg & Hsv & _). apply HE; [left; by split|done|done].
  - wp_call sfs_bmap_efbig; [done|lia|done| |done].
    intros e s [-> ->]. apply HE; [right; split; [done|lia]|by apply grows_refl|apply same_vn_refl].
Qed.

Lemma sfs_partialio_write C skip len fs sv u vm sp :
  wpre len fs sv u vm sp → 0 < len → 0 ≤ skip → skip + len ≤ 512 →
  uio_offset u mod 512 = skip →
  wp C (sfs_partialio skip len) (wrote_all len fs sv u vm sp)
    (wrote_some 0 fs sv u vm sp) (IoSt (SvSt fs sv) (UioSt u vm sp)).
Proof.
  intros [Hv Hl Hs Hf Hr Hrw Hoff] Hlen Hskip Hsl Hmod. unfold sfs_partialio, on_st. wps.
  unfold the_uio. cbn [io_u us_uio io_st]. rewrite Hrw, bool_decide_true by done.
  unfold SFS_BLOCKSIZE. rewrite (u32_small (skip + len)) by (unfold is_u32; lia).
  apply wp_KASSERT; [by apply Z.leb_le|]. wps. cbn [io_st].
  apply biglock_held_wp; [done|]. cbn [io_u]. wps. apply wp_KASSERT; [done|]. wps. cbn [io_st].
  rewrite file_block by lia. set (k := uio_offset u / 512).
  assert (Hoffk : uio_offset u = k * 512 + Z.of_nat (Z.to_nat skip)).
  { pose proof (Z.div_mod (uio_offset u) 512 ltac:(lia)). lia. }
  apply bmap_write_wp; [done|done|done|apply Z.div_pos; lia| |].
  2: { intros e fs1 sv1 He Hg Hsv. split; [by apply werr_bmap; [lia|]|]. exists []. split; [done|].
       apply wdone_nil; [apply (rq_move _ _ _ _ Hr)|done|done]. }
  intros fs1 sv1 Hk Hg Hsv Hnz. assert (0 ≤ k) by (apply Z.div_pos; lia).
  assert (Hsk : is_slot k) by (unfold is_slot; lia).
  rewrite (proj2 (Z.eqb_neq _ 0)) by done. unfold on_fs. wps. cbn [io_st io_u st_fs st_sv].
  destruct (fo_used _ _ (gr_file _ _ _ _ Hg) k Hsk Hnz) as [Hrange _].
  apply sfs_readblock_wp; [apply Hg|by eapply frame_locked, Hl; apply Hg|lia|].
  intros fs2 H2. cbn [io_st io_u st_fs st_sv].
  assert (Hd : blk fs1 (slot fs1 (sv_i sv1) k) = fdata fs1 (sv_i sv1) k).
  { unfold fdata. by rewrite (proj2 (Z.eqb_neq _ 0)). }
  pose proof (fdata_length fs1 (sv_i sv1) k) as H512. rewrite Hd.
  assert (Hll : length (slice (fdata fs1 (sv_i sv1) k) (Z.to_nat skip) (Z.to_nat len)) = Z.to_nat len)
    by (apply slice_length; lia).
  unfold on_io_u. wps. cbn [io_u]. apply uiomove_write; [|done|].
  { rewrite Hll, Z2Nat.id by lia. done. }
  rewrite Hll, Z2Nat.id by lia. intros data u' Hm Hdl Hh.
  rewrite decide_True by done. wps. cbn [io_st st_fs st_sv io_u].
  eapply writeback_wp; [exact Hg|done|done|done|done|lia|by eapply holds_bytes|].
  intros fs3 Hw. cbn [io_st st_fs st_sv io_u]. exists data. split; [lia|].
  exists fs3, sv1, u'. rewrite Hoffk. split; [done|]. split; [done|]. split; [done|].
  rewrite Hdl, Z2Nat.id by lia. split; [done|]. split; [done|right]. unfold FILE_MAX. lia.
Qed.

(** ** Whole blocks *)

Lemma addrs_pos off r u : addrs (set_pos off r u) = addrs u.
Proof. done. Qed.

Lemma uio_ok_pos off r u : uio_ok u → is_u32 r → uio_ok (set_pos off r u).
Proof. intros [] Hr. by split. Qed.

(** The request as [sfs_blockio] passes it to the device. *)
Lemma blockio_req b u vm sp fs :
  move_pre (replicate 512 0) u vm → space_ok u sp → 0 ≤ b < d_blocks (sfs_device fs) →
  sector_req b (uio_rw u) (set_pos (b * 512) 512 u) vm sp (sfs_device fs).
Proof.
  intros [Hok Hbf Hres Hlen Hacc] Hsp Hb. split; try done.
  split; try done. by apply uio_ok_pos.
Qed.

(** ... and as it comes back. *)
Lemma blockio_back d u u' :
  moved 512 (set_pos d 512 u) u' → 512 ≤ uio_resid u → is_u32 (uio_resid u) →
  moved 512 u (set_pos ((uio_offset u' - d) + uio_offset u)
                 (u32 ((uio_resid u' - 512) + uio_resid u)) u').
Proof.
  intros [Hok Ha Ho Hr Hs Hw Hsp] Hres H32. cbn in Ho, Hr, Hs, Hw, Hsp, Ha.
  unfold is_u32 in H32. split; cbn; try done.
  - apply uio_ok_pos; [done|apply u32_range].
  - lia.
  - rewrite Hr, u32_small by (unfold is_u32; lia). lia.
Qed.

Lemma fu_small fs b :
  vol_ok fs → 0 < b < nblocks fs → nblocks fs ≤ 8388608 → u32 (b * 512) = b * 512.
Proof. intros Hv Hb Hs. apply u32_small. unfold is_u32. lia. Qed.

Lemma sfs_rwblock_write_wp C b u vm sp fs (Q : unit → rwst HW → Prop) E :
  vol_ok fs → locked fs → 0 < b < nblocks fs → req 512 u vm sp → uio_rw u = UIO_WRITE →
  (∀ fs' u' data, fs_upd (put_blk b data (blk fs)) (used fs) fs fs' →
     moved 512 (set_pos (b * 512) 512 u) u' → length data = 512%nat →
     holds (seg_mem (uio_segflg u) vm) (take 512 (addrs u)) data →
     Q tt (RwSt fs' (UioSt u' vm sp))) →
  wp C sfs_rwblock Q E (RwSt fs (UioSt (set_pos (b * 512) 512 u) vm sp)).
Proof.
  intros Hv Hl Hb Hr Hrw HQ. pose proof (vo_n fs Hv).
  apply sfs_rwblock_once; [done|]. wp_call (lhd_io_write C b); [|apply Hv| |done|done].
  { rewrite <-Hrw. apply blockio_req; [apply Hr|apply Hr|lia]. }
  intros [] l (u' & d' & data & -> & Hd & [Hn Hs] & Hm & Hlen & Hh). cbn.
  apply (HQ _ _ data); [|done|done|done]. apply upd_of_device; [done|done|done|done|].
  intros j Hj. unfold put_blk. destruct (_ =? _); [by eapply holds_bytes|by apply Hv].
Qed.

Lemma splice_all (l data : list Z) : length data = length l → splice l 0 data = data.
Proof.
  intros Hl. unfold splice. cbn. rewrite drop_ge by lia. by rewrite app_nil_r.
Qed.

Lemma sfs_blockio_write C fs sv u vm sp :
  wpre 512 fs sv u vm sp → uio_offset u mod 512 = 0 →
  wp C sfs_blockio (wrote_all 512 fs sv u vm sp)
    (wrote_some 0 fs sv u vm sp) (IoSt (SvSt fs sv) (UioSt u vm sp)).
Proof.
  intros [Hv Hl Hs Hf Hr Hrw Hoff] Hmod. unfold sfs_blockio, on_st. wps.
  unfold the_uio. cbn [io_u us_uio io_st]. rewrite Hrw, bool_decide_true by done.
  unfold SFS_BLOCKSIZE. rewrite file_block by lia. set (k := uio_offset u / 512).
  assert (Hoffk : uio_offset u = k * 512 + Z.of_nat 0).
  { pose proof (Z.div_mod (uio_offset u) 512 ltac:(lia)). lia. }
  apply bmap_write_wp; [done|done|done|apply Z.div_pos; lia| |].
  2: { intros e fs1 sv1 He Hg Hsv. split; [by apply werr_bmap; [lia|]|]. exists []. split; [done|].
       apply wdone_nil; [apply (rq_move _ _ _ _ Hr)|done|done]. }
  intros fs1 sv1 Hk Hg Hsv Hnz. assert (0 ≤ k) by (apply Z.div_pos; lia).
  assert (Hsk : is_slot k) by (unfold is_slot; lia).
  destruct (fo_used _ _ (gr_file _ _ _ _ Hg) k Hsk Hnz) as [Hrange _].
  pose proof (frame_nblocks _ _ (gr_frame _ _ _ _ Hg)) as Hnn.
  rewrite (proj2 (Z.eqb_neq _ 0)) by done. wps. cbn [io_u us_uio io_st].
  pose proof (rq_move _ _ _ _ Hr) as Hmp. pose proof (mp_resid _ _ _ Hmp) as Hres.
  rewrite length_replicate in Hres. pose proof (uio_res32 _ (mp_ok _ _ _ Hmp)) as H32.
  apply wp_KASSERT; [apply Z.leb_le; lia|]. unfold set_uio_pos, on_io_u, on_rw. wps.
  cbn [io_u us_uio io_st set_uio us_vm us_as st_fs].
  rewrite (fu_small fs1) by first [apply (gr_ok _ _ _ _ Hg)|lia].
  apply sfs_rwblock_write_wp; [apply Hg|by eapply frame_locked, Hl; apply Hg|done|done|done|].
  intros fs2 u' data H2 Hm Hdl Hh. cbn [rw_fs rw_u io_st io_u st_sv]. wps.
  cbn [io_u us_uio set_uio us_vm us_as io_st].
  exists data. split; [lia|]. eexists fs2, sv1, _. split; [done|]. split; [|split; [done|]].
  - rewrite Hoffk. apply (wrote_trans _ (k * 512 + Z.of_nat 0) [] data _ _ fs1 (sv_i sv1));
      [cbn; lia|by apply grows_wrote|].
    apply wrote_block; [apply Hg|apply Hg|lia|done|lia|].
    rewrite splice_all; [done|]. by rewrite fdata_length.
  - rewrite Hdl. split; [by apply (blockio_back (slot fs1 (sv_i sv1) k * 512))|].
    split; [done|right]. unfold FILE_MAX. lia.
Qed.

Lemma wrote_some_trans n m e data fs sv u vm sp fs1 sv1 u1 s :
  Z.of_nat (length data) = n →
  wdone data fs sv u vm sp (IoSt (SvSt fs1 sv1) (UioSt u1 vm sp)) →
  wrote_some m fs1 sv1 u1 vm sp e s → wrote_some (n + m) fs sv u vm sp e s.
Proof.
  intros Hn H1 (He & d2 & Hl & H2). split; [done|]. exists (data ++ d2).
  split; [rewrite length_app; lia|]. by eapply wdone_trans.
Qed.

Lemma wrote_all_trans n m x data fs sv u vm sp fs1 sv1 u1 s :
  Z.of_nat (length data) = n →
  wdone data fs sv u vm sp (IoSt (SvSt fs1 sv1) (UioSt u1 vm sp)) →
  wrote_all m fs1 sv1 u1 vm sp x s → wrote_all (n + m) fs sv u vm sp x s.
Proof.
  intros Hn H1 (d2 & Hl & H2). exists (data ++ d2).
  split; [rewrite length_app; lia|]. by eapply wdone_trans.
Qed.

Lemma wpre_prefix n m fs sv u vm sp : 0 ≤ n ≤ m → wpre m fs sv u vm sp → wpre n fs sv u vm sp.
Proof. intros Hn []. split; auto; [by eapply req_prefix|lia]. Qed.

Lemma wpre_ok n fs sv u vm sp : wpre n fs sv u vm sp → uio_ok u.
Proof. intros [_ _ _ _ [_ [] _ _] _ _]. done. Qed.

Lemma wrote_some_le n m e fs sv u vm sp s :
  n ≤ m → wrote_some n fs sv u vm sp e s → wrote_some m fs sv u vm sp e s.
Proof. intros Hn (He & d & Hl & H). split; [done|]. exists d. split; [lia|done]. Qed.

Lemma wdone_offset data fs sv u vm sp fs1 sv1 u1 :
  wdone data fs sv u vm sp (IoSt (SvSt fs1 sv1) (UioSt u1 vm sp)) →
  uio_offset u1 = uio_offset u + Z.of_nat (length data) ∧
  uio_resid u1 = uio_resid u - Z.of_nat (length data).
Proof.
  intros (fs' & sv' & u' & Heq & _ & _ & Hm & _). simplify_eq.
  split; [by rewrite (mv_off _ _ _ Hm)|by rewrite (mv_resid _ _ _ Hm)].
Qed.

Lemma wdone_shape data fs sv u vm sp s :
  wdone data fs sv u vm sp s → ∃ fs1 sv1 u1, s = IoSt (SvSt fs1 sv1) (UioSt u1 vm sp).
Proof. intros (fs' & sv' & u' & -> & _). by exists fs', sv', u'. Qed.

(** The loop over the whole blocks. *)
Lemma blocks_write C n : ∀ lo fs sv u vm sp,
  wpre (Z.of_nat n * 512) fs sv u vm sp → uio_offset u mod 512 = 0 →
  wp C (for_range n lo (λ _, sfs_blockio)) (wrote_all (Z.of_nat n * 512) fs sv u vm sp)
    (wrote_some (Z.of_nat n * 512) fs sv u vm sp) (IoSt (SvSt fs sv) (UioSt u vm sp)).
Proof.
  induction n as [|n IH]; intros lo fs sv u vm sp Hp Hmod; cbn [for_range].
  - wps. exists []. split; [done|]. apply wdone_nil; [by eapply wpre_ok| |apply same_vn_refl].
    apply grows_refl; apply Hp.
  - replace (Z.of_nat (S n) * 512) with (512 + Z.of_nat n * 512) in * by lia. wps.
    wp_call sfs_blockio_write; [eapply (wpre_prefix 512 (512 + Z.of_nat n * 512)); [lia|exact Hp]|done| | |done].
    + intros [] s (data & Hdl & Hd). destruct (wdone_shape _ _ _ _ _ _ _ Hd) as (fs1 & sv1 & u1 & ->).
      destruct (wdone_offset _ _ _ _ _ _ _ _ _ Hd) as [Ho _].
      wp_call IH; [by eapply wpre_rest; [exact Hp|lia|exact Hdl|exact Hd]| | | |done].
      * rewrite Ho, Hdl, Z.add_mod, Hmod by lia. done.
      * intros x s' Hs'. by eapply wrote_all_trans.
      * intros e s' Hs'. by eapply wrote_some_trans.
    + intros e s Hs. eapply wrote_some_le; [|exact Hs]. lia.
Qed.

(** ** Requests of any size *)

Lemma wrote_all_nil n fs sv u vm sp :
  wpre n fs sv u vm sp →
  wrote_all 0 fs sv u vm sp tt (IoSt (SvSt fs sv) (UioSt u vm sp)).
Proof.
  intros Hp. exists []. split; [done|].
  apply wdone_nil; [by eapply wpre_ok| |apply same_vn_refl]. apply grows_refl; apply Hp.
Qed.

Lemma io_aligned_write C n fs sv u vm sp :
  wpre n fs sv u vm sp → uio_resid u = n →
  (n ≠ 0 → uio_offset u mod 512 = 0) →
  wp C sfs_io_aligned (wrote_all n fs sv u vm sp) (wrote_some n fs sv u vm sp)
    (IoSt (SvSt fs sv) (UioSt u vm sp)).
Proof.
  intros Hp Hr Hmod. unfold sfs_io_aligned. wps. unfold the_uio. cbn [io_u us_uio].
  rewrite Hr. destruct (Z.eqb_spec n 0) as [->|Hn0]; [by wps; eapply wrote_all_nil|].
  specialize (Hmod Hn0). pose proof (rq_n _ _ _ _ (wp_req _ _ _ _ _ _ Hp)) as Hn.
  pose proof (wp_off _ _ _ _ _ _ Hp) as Hoff. unfold SFS_BLOCKSIZE.
  pose proof (Z.div_mod n 512 ltac:(lia)) as Hdm. pose proof (Z.mod_pos_bound n 512 ltac:(lia)).
  assert (0 ≤ n / 512) by (apply Z.div_pos; lia).
  wps. apply wp_KASSERT; [by rewrite Z.rem_mod_nonneg, Hmod by lia|]. wps.
  set (q := n / 512) in *. set (r := n mod 512) in *.
  replace n with (q * 512 + r) in Hp |- * by lia.
  wp_call (blocks_write C (Z.to_nat q)); rewrite ?Z2Nat.id by lia.
  - eapply (wpre_prefix (q * 512)); [|exact Hp]. lia.
  - done.
  - intros [] s (data & Hdl & Hd). destruct (wdone_shape _ _ _ _ _ _ _ Hd) as (fs1 & sv1 & u1 & ->).
    destruct (wdone_offset _ _ _ _ _ _ _ _ _ Hd) as [Ho1 Hr1].
    pose proof (wpre_rest _ _ _ _ _ _ _ _ _ _ _ Hp ltac:(lia) Hdl Hd) as Hp1.
    wps. cbn [io_u us_uio]. apply wp_KASSERT; [apply Z.ltb_lt; lia|].
    replace (uio_resid u1) with r in * by lia. destruct (Z.ltb_spec 0 r).
    + wp_call (sfs_partialio_write C 0 r); [done|lia|lia|lia| | | |done].
      * rewrite Ho1, Hdl, Z.add_mod, Hmod by lia. by rewrite Z.mod_mul.
      * intros x s' Hs'. by eapply wrote_all_trans.
      * intros e s' Hs'. eapply wrote_some_trans; [done|done|].
        eapply wrote_some_le; [|exact Hs']. lia.
    + wps. replace r with 0 in * by lia. eapply wrote_all_trans; [done|done|].
      by eapply wrote_all_nil.
  - intros e s Hs. eapply wrote_some_le; [|exact Hs]. lia.
  - done.
Qed.

Lemma io_blocks_write C n fs sv u vm sp :
  wpre n fs sv u vm sp → uio_resid u = n → 0 < n →
  wp C sfs_io_blocks (wrote_all n fs sv u vm sp) (wrote_some n fs sv u vm sp)
    (IoSt (SvSt fs sv) (UioSt u vm sp)).
Proof.
  intros Hp Hr Hn. unfold sfs_io_blocks. wps. unfold the_uio. cbn [io_u us_uio].
  pose proof (wp_off _ _ _ _ _ _ Hp) as Hoff. rewrite Hr. unfold SFS_BLOCKSIZE.
  rewrite u32_offset by lia. pose proof (Z.mod_pos_bound (uio_offset u) 512 ltac:(lia)).
  destruct (Z.eqb_spec (uio_offset u mod 512) 0) as [H0|H0].
  - wps. by apply io_aligned_write.
  - set (b := uio_offset u mod 512) in *.
    set (len := if n <? 512 - b then n else 512 - b).
    assert (Hlen : 0 < len ≤ n ∧ b + len ≤ 512 ∧ (len ≠ n → b + len = 512)).
    { unfold len. destruct (Z.ltb_spec n (512 - b)); lia. }
    replace n with (len + (n - len)) in Hp by lia.
    wp_call (sfs_partialio_write C b len); [|lia|lia|lia|done| | |done].
    + eapply wpre_prefix; [|exact Hp]. lia.
    + intros [] s (data & Hdl & Hd).
      destruct (wdone_shape _ _ _ _ _ _ _ Hd) as (fs1 & sv1 & u1 & ->).
      destruct (wdone_offset _ _ _ _ _ _ _ _ _ Hd) as [Ho1 Hr1].
      wp_call (io_aligned_write C (n - len)); [| | | | |done].
      * by eapply wpre_rest; [exact Hp|lia|exact Hdl|exact Hd].
      * lia.
      * intros Hne. rewrite Ho1, Hdl, Z.add_mod by lia. fold b.
        rewrite (Z.mod_small len) by lia. by replace (b + len) with 512 by lia.
      * intros x s' Hs'. replace n with (len + (n - len)) by lia. by eapply wrote_all_trans.
      * intros e s' Hs'. replace n with (len + (n - len)) by lia. by eapply wrote_some_trans.
    + intros e s Hs. eapply wrote_some_le; [|exact Hs]. lia.
Qed.

(** [data] went from the request to the file, and the size followed. *)
Definition written data fs sv u vm sp (s : iost HW) : Prop :=
  ∃ fs' sv' u' i1, s = IoSt (SvSt fs' sv') (UioSt u' vm sp) ∧
    wrote (uio_offset u) data fs (sv_i sv) fs' i1 ∧
    sv_i sv' = match data with [] => i1 | _ => grow_size (uio_offset u) data (sv_i sv) i1 end ∧
    same_vn sv sv' ∧ moved (Z.of_nat (length data)) u u' ∧
    holds (seg_mem (uio_segflg u) vm) (take (length data) (addrs u)) data ∧
    (data = [] ∨ uio_offset u + Z.of_nat (length data) ≤ FILE_MAX).

Lemma set_pos_id u : set_pos (uio_offset u) (uio_resid u) u = u.
Proof. by destruct u. Qed.

Lemma sfs_io_out_write C data fs sv u vm sp s (Q : unit → iost HW → Prop) E :
  uio_rw u = UIO_WRITE → 0 ≤ uio_offset u → uio_ok u →
  wdone data fs sv u vm sp s →
  (∀ s', written data fs sv u vm sp s' → (∀ e, werr e s → werr e s') → Q tt s') →
  wp C (sfs_io_out (uio_resid u) 0) Q E s.
Proof.
  intros Hrw Hoff Hu (fs' & sv' & u' & -> & Hw & Hsv & Hm & Hh & Hx) HQ.
  pose proof (uio_res32 _ (mv_ok _ _ _ Hm)) as H32.
  assert (Hsz : sfi_size (sv_i sv') = sfi_size (sv_i sv)) by apply (wr_meta _ _ _ _ _ _ Hw).
  unfold sfs_io_out. wps. unfold the_uio. cbn [io_u us_uio io_st st_sv].
  rewrite (mv_rw _ _ _ Hm), Hrw, bool_decide_true, andb_true_r by done.
  rewrite Z.add_0_r, (u32_small (uio_resid u')) by done.
  rewrite (mv_resid _ _ _ Hm), (mv_off _ _ _ Hm), Hsz.
  assert (Hpos : set_uio (set_pos (uio_offset u + Z.of_nat (length data))
    (uio_resid u - Z.of_nat (length data)) u') (UioSt u' vm sp) = UioSt u' vm sp).
  { unfold set_uio. cbn. f_equal. rewrite <-(mv_off _ _ _ Hm), <-(mv_resid _ _ _ Hm).
    by destruct u'. }
  destruct data as [|x data].
  - rewrite (proj2 (Z.eqb_eq _ _)) by (cbn; lia). cbn [negb andb]. wps.
    unfold set_uio_pos, on_io_u. wps. cbn [io_u us_uio io_st]. rewrite Hpos.
    apply HQ; [|done]. by exists fs', sv', u', (sv_i sv').
  - set (d := x :: data) in *. assert (Hd : 0 < Z.of_nat (length d)) by (cbn; lia).
    destruct Hx as [Hx|Hx]; [done|]. rewrite (proj2 (Z.eqb_neq _ _)) by lia. cbn [negb andb].
    unfold set_uio_pos, on_io_u, on_st, update_i.
    destruct (Z.ltb_spec (sfi_size (sv_i sv)) (uio_offset u + Z.of_nat (length d))) as [Hlt|Hge];
      wps; cbn [io_u us_uio io_st st_fs st_sv]; rewrite Hpos; (apply HQ; [|done]).
    + eexists fs', _, u', (sv_i sv'). split; [done|]. split; [done|].
      split; [|split; [|auto]].
      * unfold grow_size. rewrite (proj2 (Z.ltb_lt _ _)) by done.
        unfold FILE_MAX in Hx. by rewrite u32_small by (unfold is_u32; lia).
      * eapply same_vn_trans; [exact Hsv|]. by repeat split; auto.
    + exists fs', sv', u', (sv_i sv'). split; [done|]. split; [done|].
      split; [|auto]. unfold grow_size. by rewrite (proj2 (Z.ltb_ge _ _)) by done.
Qed.

Lemma sfs_io_write C n fs sv u vm sp :
  wpre n fs sv u vm sp → uio_resid u = n → 0 < n →
  wp C sfs_io (λ _ s, ∃ data, Z.of_nat (length data) = n ∧ written data fs sv u vm sp s)
    (λ e s, werr e s ∧ ∃ data, Z.of_nat (length data) ≤ n ∧ written data fs sv u vm sp s)
    (IoSt (SvSt fs sv) (UioSt u vm sp)).
Proof.
  intros Hp Hr Hn. unfold sfs_io. wps. unfold the_uio. cbn [io_u us_uio].
  pose proof (wp_rw _ _ _ _ _ _ Hp) as Hrw. pose proof (wp_off _ _ _ _ _ _ Hp) as Hoff.
  rewrite decide_False by (by rewrite Hrw). unfold sfs_io_main. wps.
  wp_call (io_blocks_write C n); [done|done|done| | |done].
  - intros [] s (data & Hdl & Hd). wps.
    eapply sfs_io_out_write; [done|lia|by eapply wpre_ok|exact Hd|].
    intros s' Hs' _. wps. by exists data.
  - intros e s (He & data & Hdl & Hd). wps.
    eapply sfs_io_out_write; [done|lia|by eapply wpre_ok|exact Hd|].
    intros s' Hs' He'. wps. split; [by apply He'|]. by exists data.
Qed.

(** ** Reading *)

(** The next [n] bytes of the file went to the memory of the request. *)
Definition rdone (n : Z) fs sv u vm sp (s : iost HW) : Prop :=
  ∃ fs' u' vm', s = IoSt (SvSt fs' sv) (UioSt u' vm' sp) ∧
    fs_upd (blk fs) (used fs) fs fs' ∧ moved n u u' ∧
    transferred u vm (frange fs (sv_i sv) (uio_offset u) n)
      (frange fs (sv_i sv) (uio_offset u) n) vm' ∧
    tm_badfaultfunc vm' = false.

Record rpre (n : Z) fs sv u vm sp : Prop := RPre {
  rp_vol : vol_ok fs;
  rp_locked : locked fs;
  rp_small : nblocks fs ≤ 8388608;
  rp_file : file_ok fs (sv_i sv);
  rp_n : 0 ≤ n;
  rp_move : move_pre (replicate (Z.to_nat n) 0) u vm;
  rp_space : space_ok u sp;
  rp_rw : uio_rw u = UIO_READ;
  rp_off : 0 ≤ uio_offset u ∧ (n = 0 ∨ uio_offset u + n ≤ 2199023255552);
}.

(** The result of an attempt to read [n] bytes: all of them, or those before the
    largest size of a file. *)
Definition rall (n : Z) fs sv u vm sp (_ : unit) (s : iost HW) : Prop :=
  (n = 0 ∨ uio_offset u + n ≤ FILE_MAX) ∧ rdone n fs sv u vm sp s.
Definition rsome (n : Z) fs sv u vm sp (e : errno) (s : iost HW) : Prop :=
  e = EFBIG ∧ 0 < n ∧ FILE_MAX < uio_offset u + n ∧
  rdone (Z.max 0 (FILE_MAX - uio_offset u)) fs sv u vm sp s.

Lemma frange_length fs i off n : 0 ≤ n → length (frange fs i off n) = Z.to_nat n.
Proof. intros Hn. unfold frange. by rewrite length_fmap, length_seqZ. Qed.

Lemma frange_app fs i off n m :
  0 ≤ n → 0 ≤ m →
  frange fs i off (n + m) = frange fs i off n ++ frange fs i (off + n) m.
Proof. intros Hn Hm. unfold frange. by rewrite seqZ_app, fmap_app by lia. Qed.

(** Reading depends on what the blocks hold only. *)
Lemma frange_read fs fs' i off n :
  fs_upd (blk fs) (used fs) fs fs' → frange fs' i off n = frange fs i off n.
Proof.
  intros H. unfold frange. apply list_fmap_ext. intros _ p _. apply fbyte_fdata.
  unfold fdata. by rewrite (slot_read _ _ _ _ H), (fu_blk _ _ _ _ H).
Qed.

Lemma file_ok_read fs fs' i :
  vol_ok fs → fs_upd (blk fs) (used fs) fs fs' → file_ok fs i → file_ok fs' i.
Proof. intros Hv H Hf. by eapply grows_read. Qed.

Lemma rpre_prefix n m fs sv u vm sp : 0 ≤ n ≤ m → rpre m fs sv u vm sp → rpre n fs sv u vm sp.
Proof.
  intros Hn []. split; auto; try lia.
  apply (move_pre_prefix _ (replicate (Z.to_nat (m - n)) 0)). rewrite <-replicate_add.
  by replace (Z.to_nat n + Z.to_nat (m - n))%nat with (Z.to_nat m) by lia.
Qed.

Lemma rdone_nil fs sv u vm sp fs' :
  uio_ok u → uio_rw u = UIO_READ → tm_badfaultfunc vm = false →
  fs_upd (blk fs) (used fs) fs fs' →
  rdone 0 fs sv u vm sp (IoSt (SvSt fs' sv) (UioSt u vm sp)).
Proof.
  intros Hu Hrw Hbf H. exists fs', u, vm. split; [done|]. split; [done|].
  split; [by apply moved_zero|]. split; [|done]. unfold transferred. rewrite Hrw.
  split; [done|]. symmetry. exact (set_seg_mem_id (uio_segflg u) vm).
Qed.

Lemma rpre_rest n m fs sv u vm sp fs1 u1 vm1 :
  rpre (n + m) fs sv u vm sp → 0 ≤ n → 0 ≤ m →
  rdone n fs sv u vm sp (IoSt (SvSt fs1 sv) (UioSt u1 vm1 sp)) →
  rpre m fs1 sv u1 vm1 sp.
Proof.
  intros [Hv Hl Hs Hf _ Hmp Hsp Hrw Hoff] Hn Hm (fs' & u' & vm' & Heq & Hu & Hmv & Ht & Hbf).
  simplify_eq. pose proof Hu as [Hv' Hfr Hb _]. split; auto.
  - by eapply frame_locked.
  - by rewrite (frame_nblocks _ _ Hfr).
  - by apply (file_ok_read fs).
  - eapply (move_pre_rest (frange fs (sv_i sv) (uio_offset u) n) _ u vm); auto.
    + eapply move_pre_length; [|exact Hmp].
      rewrite length_app, !length_replicate, frange_length by lia. lia.
    + rewrite frange_length, Z2Nat.id by lia. done.
  - by eapply moved_space.
  - by rewrite (mv_rw _ _ _ Hmv).
  - rewrite (mv_off _ _ _ Hmv). lia.
Qed.

Lemma rdone_trans n m fs sv u vm sp fs1 u1 vm1 s :
  rpre (n + m) fs sv u vm sp → 0 ≤ n → 0 ≤ m →
  rdone n fs sv u vm sp (IoSt (SvSt fs1 sv) (UioSt u1 vm1 sp)) →
  rdone m fs1 sv u1 vm1 sp s → rdone (n + m) fs sv u vm sp s.
Proof.
  intros Hp Hn Hm (fs' & u' & vm' & Heq & Hu & Hmv & Ht & Hbf). simplify_eq.
  intros (fs2 & u2 & vm2 & -> & Hu2 & Hmv2 & Ht2 & Hbf2). exists fs2, u2, vm2.
  split; [done|]. split; [|split; [|split; [|done]]].
  - eapply fs_upd_ext; [by eapply fs_upd_trans| |].
    + intros j. by rewrite (fu_blk _ _ _ _ Hu).
    + intros j Hj. cbn beta. by rewrite (fu_used _ _ _ _ Hu).
  - by eapply moved_trans.
  - rewrite frange_app by done. rewrite (frange_read _ _ _ _ _ Hu), (mv_off _ _ _ Hmv) in Ht2.
    eapply (transferred_app u vm n); [| | | | | |exact Ht|exact Ht2].
    + by apply frange_length.
    + done.
    + by rewrite (mv_addrs _ _ _ Hmv), take_drop.
    + pose proof (mp_addrs _ _ _ (rp_move _ _ _ _ _ _ Hp)) as Hl.
      rewrite length_replicate in Hl. lia.
    + apply (mv_seg _ _ _ Hmv).
    + apply (mv_rw _ _ _ Hmv).
Qed.

Lemma uiomove_read C buf u vm sp (Q : list Z → uiost → Prop) E :
  move_pre buf u vm → space_ok u sp → uio_rw u = UIO_READ →
  (∀ u' vm', moved (Z.of_nat (length buf)) u u' → transferred u vm buf buf vm' →
     tm_badfaultfunc vm' = false → Q buf (UioSt u' vm' sp)) →
  wp C (uiomove buf) Q E (UioSt u vm sp).
Proof.
  intros Hp Hs Hrw HQ.
  destruct (uiomove_spec buf u vm sp Hp Hs) as (buf' & u' & vm' & He & Hm & Ht & _ & Hbf).
  eapply wp_of_ok; [done|]. pose proof Ht as Ht'. unfold transferred in Ht'.
  rewrite Hrw in Ht'. destruct Ht' as [-> _]. by apply HQ.
Qed.

(** Looking up the block to read. *)
Lemma bmap_read_wp C fs sv k (Q : Z → svst HW → Prop) (E : errno → svst HW → Prop) :
  vol_ok fs → locked fs → file_ok fs (sv_i sv) → 0 ≤ k →
  (∀ fs1, k < 143 → fs_upd (blk fs) (used fs) fs fs1 → Q (slot fs (sv_i sv) k) (SvSt fs1 sv)) →
  (143 ≤ k → E EFBIG (SvSt fs sv)) →
  wp C (sfs_bmap k false) Q E (SvSt fs sv).
Proof.
  intros Hv Hl Hf Hk HQ HE. destruct (Z.lt_ge_cases k 143) as [Hlt|Hge].
  - wp_call sfs_bmap_wp; [done..| |by intros e s (_ & ? & _)|done].
    intros b [fs1 sv1] (_ & _ & -> & Hro & _). cbn [st_fs st_sv] in *.
    destruct (Hro eq_refl) as [-> Hu]. rewrite (slot_read _ _ _ _ Hu). by apply HQ.
  - wp_call sfs_bmap_efbig; [done|lia|done| |done]. intros e s [-> ->]. by apply HE.
Qed.

Lemma fs_upd_read_trans fs1 fs2 fs3 :
  fs_upd (blk fs1) (used fs1) fs1 fs2 → fs_upd (blk fs2) (used fs2) fs2 fs3 →
  fs_upd (blk fs1) (used fs1) fs1 fs3.
Proof.
  intros H1 H2. eapply fs_upd_ext; [by eapply fs_upd_trans| |].
  - intros j. by rewrite (fu_blk _ _ _ _ H1).
  - intros j Hj. cbn beta. by rewrite (fu_used _ _ _ _ H1).
Qed.

Lemma read_block_off n fs sv u vm sp :
  rpre n fs sv u vm sp → 0 < n →
  u32 (Z.quot (uio_offset u) 512) = uio_offset u / 512 ∧ 0 ≤ uio_offset u / 512.
Proof.
  intros Hp Hn. pose proof (rp_off _ _ _ _ _ _ Hp).
  split; [apply file_block; lia|apply Z.div_pos; lia].
Qed.

(** A block that no file has. *)
Lemma rsome_here n fs sv u vm sp :
  rpre n fs sv u vm sp → 0 < n → 143 ≤ uio_offset u / 512 →
  rsome n fs sv u vm sp EFBIG (IoSt (SvSt fs sv) (UioSt u vm sp)).
Proof.
  intros [Hv _ _ _ _ [] _ Hrw _] Hn Hk. pose proof (Z.mul_div_le (uio_offset u) 512 ltac:(lia)).
  unfold rsome, FILE_MAX. split; [done|]. split; [done|]. split; [lia|].
  rewrite Z.max_l by lia. apply rdone_nil; auto. by apply fs_upd_refl.
Qed.

Lemma sfs_partialio_read C skip len fs sv u vm sp :
  rpre len fs sv u vm sp → 0 < len → skip + len ≤ 512 → uio_offset u mod 512 = skip →
  wp C (sfs_partialio skip len) (rall len fs sv u vm sp) (rsome len fs sv u vm sp)
    (IoSt (SvSt fs sv) (UioSt u vm sp)).
Proof.
  intros Hp Hlen Hsl Hmod. pose proof (Z.mod_pos_bound (uio_offset u) 512 ltac:(lia)) as Hm.
  destruct (read_block_off _ _ _ _ _ _ Hp Hlen) as [Hbk Hk0].
  pose proof (rsome_here _ _ _ _ _ _ Hp Hlen) as Herr.
  destruct Hp as [Hv Hl Hs Hf _ Hmp Hsp Hrw Hoff]. unfold sfs_partialio, on_st. wps.
  unfold the_uio. cbn [io_u us_uio io_st]. rewrite Hrw, bool_decide_false by done.
  unfold SFS_BLOCKSIZE. rewrite (u32_small (skip + len)) by (unfold is_u32; lia).
  apply wp_KASSERT; [by apply Z.leb_le|]. wps. cbn [io_st].
  apply biglock_held_wp; [done|]. cbn [io_u]. wps. apply wp_KASSERT; [done|]. wps. cbn [io_st].
  rewrite Hbk. set (k := uio_offset u / 512) in *.
  assert (Hoffk : uio_offset u = k * 512 + Z.of_nat (Z.to_nat skip)).
  { pose proof (Z.div_mod (uio_offset u) 512 ltac:(lia)). lia. }
  apply bmap_read_wp; [done..| |exact Herr]. intros fs1 Hk H1. cbn [io_u].
  set (b := slot fs (sv_i sv) k). apply wp_bind.
  eapply (wp_mono C _ _ (λ iobuf s, iobuf = fdata fs (sv_i sv) k ∧ ∃ fs2,
    s = IoSt (SvSt fs2 sv) (UioSt u vm sp) ∧ fs_upd (blk fs) (used fs) fs fs2) _ no_err).
  - destruct (Z.eqb_spec b 0) as [Hz|Hnz]; wps.
    + rewrite bool_decide_true by done. wps. split; [|by exists fs1].
      unfold fdata. fold b. by rewrite Hz.
    + unfold on_fs. wps. cbn [io_st st_fs st_sv].
      destruct (fo_used _ _ Hf k) as [Hr _]; [unfold is_slot; lia|done|].
      apply sfs_readblock_wp; [apply H1|by eapply frame_locked, Hl; apply H1| |].
      { rewrite (frame_nblocks _ _ (fu_frame _ _ _ _ H1)). fold b in Hr. lia. }
      intros fs2 H2. split; [|exists fs2; split; [done|by eapply fs_upd_read_trans]].
      rewrite (fu_blk _ _ _ _ H1). unfold fdata. fold b. by rewrite (proj2 (Z.eqb_neq b 0)).
  - intros iobuf s (-> & fs2 & -> & H2). unfold on_io_u. wps. cbn [io_u].
    rewrite slice_frange, <-Hoffk, Z2Nat.id by lia.
    apply uiomove_read; [|done|done|].
    { eapply move_pre_length; [|exact Hmp]. rewrite length_replicate, frange_length by lia. done. }
    rewrite frange_length, Z2Nat.id by lia.
    intros u' vm' Hmv Ht Hbf. rewrite decide_False by done. wps.
    split; [right; unfold FILE_MAX; lia|]. by exists fs2, u', vm'.
  - done.
  - done.
Qed.

Lemma sfs_rwblock_read_wp C b u vm sp fs (Q : unit → rwst HW → Prop) E :
  vol_ok fs → locked fs → 0 < b < nblocks fs → move_pre (replicate 512 0) u vm →
  space_ok u sp → uio_rw u = UIO_READ →
  (∀ fs' u' vm', fs_upd (blk fs) (used fs) fs fs' →
     moved 512 (set_pos (b * 512) 512 u) u' → transferred u vm (blk fs b) (blk fs b) vm' →
     tm_badfaultfunc vm' = false → Q tt (RwSt fs' (UioSt u' vm' sp))) →
  wp C sfs_rwblock Q E (RwSt fs (UioSt (set_pos (b * 512) 512 u) vm sp)).
Proof.
  intros Hv Hl Hb Hmp Hsp Hrw HQ. pose proof (vo_n fs Hv).
  apply sfs_rwblock_once; [done|]. wp_call (lhd_io_read C b); [|apply Hv| |done|done].
  { rewrite <-Hrw. apply blockio_req; [done|done|lia]. }
  intros [] l (u' & vm' & d' & -> & Hd & [Hn Hs] & Hm & Ht & Hbf). cbn.
  apply HQ; [|done|done|done]. apply upd_of_device; [done|done|done|done|].
  intros j Hj. by apply Hv.
Qed.

Lemma frange_block fs i k :
  frange fs i (k * 512) 512 = fdata fs i k.
Proof.
  pose proof (slice_frange fs i k 0 512 ltac:(lia)) as H. cbn [Z.of_nat] in H.
  rewrite Z.add_0_r in H. rewrite <-(H : _ = frange fs i (k * 512) 512).
  unfold slice. cbn [drop]. apply take_ge. by rewrite fdata_length.
Qed.

Lemma sfs_blockio_read C fs sv u vm sp :
  rpre 512 fs sv u vm sp → uio_offset u mod 512 = 0 →
  wp C sfs_blockio (rall 512 fs sv u vm sp) (rsome 512 fs sv u vm sp) (IoSt (SvSt fs sv) (UioSt u vm sp)).
Proof.
  intros Hp Hmod. destruct (read_block_off _ _ _ _ _ _ Hp ltac:(lia)) as [Hbk Hk0].
  pose proof (rsome_here _ _ _ _ _ _ Hp ltac:(lia)) as Herr.
  destruct Hp as [Hv Hl Hs Hf _ Hmp Hsp Hrw Hoff]. unfold sfs_blockio, on_st. wps.
  unfold the_uio. cbn [io_u us_uio io_st]. rewrite Hrw, bool_decide_false by done.
  unfold SFS_BLOCKSIZE. rewrite Hbk. set (k := uio_offset u / 512) in *.
  assert (Hoffk : uio_offset u = k * 512).
  { pose proof (Z.div_mod (uio_offset u) 512 ltac:(lia)). lia. }
  apply bmap_read_wp; [done..| |exact Herr]. intros fs1 Hk H1. cbn [io_u].
  assert (Hmax : 512 = 0 ∨ uio_offset u + 512 ≤ FILE_MAX) by (right; unfold FILE_MAX; lia).
  set (b := slot fs (sv_i sv) k). pose proof (mp_resid _ _ _ Hmp) as Hres.
  rewrite length_replicate in Hres. pose proof (uio_res32 _ (mp_ok _ _ _ Hmp)) as H32.
  destruct (Z.eqb_spec b 0) as [Hz|Hnz]; wps.
  - apply wp_KASSERT; [by apply bool_decide_true|]. unfold on_io_u. wps. cbn [io_u io_st].
    unfold uiomovezeros. wps. apply wp_KASSERT; [by apply bool_decide_true|].
    destruct (uiomovezeros_loop_ok (Z.to_nat 512) 512 u vm sp Hmp Hrw Hsp ltac:(lia))
      as (u' & vm' & He & Hm & Ht & Hbf).
    eapply wp_of_ok; [exact He|]. split; [exact Hmax|]. exists fs1, u', vm'. split; [done|]. split; [done|].
    split; [done|]. split; [|done]. rewrite Hoffk, frange_block. unfold fdata. fold b.
    rewrite Hz. exact Ht.
  - cbn [io_u us_uio io_st]. apply wp_KASSERT; [apply Z.leb_le; lia|].
    unfold set_uio_pos, on_io_u, on_rw. wps. cbn [io_u us_uio io_st set_uio us_vm us_as st_fs].
    destruct (fo_used _ _ Hf k) as [Hr _]; [unfold is_slot; lia|done|]. fold b in Hr.
    pose proof (frame_nblocks _ _ (fu_frame _ _ _ _ H1)) as Hnn.
    rewrite (fu_small fs) by first [exact Hv|lia].
    apply sfs_rwblock_read_wp; [apply H1|by eapply frame_locked, Hl; apply H1|lia|done|done|done|].
    intros fs2 u' vm' H2 Hm Ht Hbf. cbn [rw_fs rw_u io_st io_u st_sv]. wps.
    cbn [io_u us_uio set_uio us_vm us_as io_st]. split; [exact Hmax|]. eexists fs2, _, vm'. split; [done|].
    split; [by eapply fs_upd_read_trans|]. split; [by apply (blockio_back (b * 512))|].
    split; [|done]. rewrite Hoffk, frange_block. unfold fdata. fold b.
    rewrite (proj2 (Z.eqb_neq b 0)) by done. by rewrite (fu_blk _ _ _ _ H1) in Ht.
Qed.

Lemma rdone_shape n fs sv u vm sp s :
  rdone n fs sv u vm sp s → ∃ fs1 u1 vm1, s = IoSt (SvSt fs1 sv) (UioSt u1 vm1 sp) ∧
    uio_offset u1 = uio_offset u + n ∧ uio_resid u1 = uio_resid u - n.
Proof.
  intros (fs' & u' & vm' & -> & _ & Hm & _). exists fs', u', vm'.
  by rewrite (mv_off _ _ _ Hm), (mv_resid _ _ _ Hm).
Qed.

Lemma rdone_here n fs sv u vm sp :
  rpre n fs sv u vm sp → rdone 0 fs sv u vm sp (IoSt (SvSt fs sv) (UioSt u vm sp)).
Proof.
  intros [Hv _ _ _ _ [] _ Hrw _]. apply rdone_nil; auto. by apply fs_upd_refl.
Qed.

Lemma rall_here n fs sv u vm sp :
  rpre n fs sv u vm sp → rall 0 fs sv u vm sp tt (IoSt (SvSt fs sv) (UioSt u vm sp)).
Proof. intros Hp. split; [by left|by eapply rdone_here]. Qed.

(** Reading [n] bytes and then, with [m], [m] more. *)
Lemma read_then C n m fs sv u vm sp (m1 m2 : M (iost HW) unit) :
  rpre (n + m) fs sv u vm sp → 0 ≤ n → 0 ≤ m →
  wp C m1 (rall n fs sv u vm sp) (rsome n fs sv u vm sp) (IoSt (SvSt fs sv) (UioSt u vm sp)) →
  (∀ fs1 u1 vm1, rpre m fs1 sv u1 vm1 sp → uio_offset u1 = uio_offset u + n →
     uio_resid u1 = uio_resid u - n →
     wp C m2 (rall m fs1 sv u1 vm1 sp) (rsome m fs1 sv u1 vm1 sp) (IoSt (SvSt fs1 sv) (UioSt u1 vm1 sp))) →
  wp C (m1 ;;; m2) (rall (n + m) fs sv u vm sp) (rsome (n + m) fs sv u vm sp)
    (IoSt (SvSt fs sv) (UioSt u vm sp)).
Proof.
  intros Hp Hn Hm H1 H2. wps. wp_call H1; [| |done].
  2: { intros e s (-> & ? & ? & Hs). split; [done|]. by split_and!; [lia|lia|]. }
  intros [] s [Hx Hs]. destruct (rdone_shape _ _ _ _ _ _ _ Hs) as (fs1 & u1 & vm1 & -> & Ho & Hr).
  wp_call H2; [by eapply rpre_rest|done|done| | |done].
  - intros [] s' [Hx' Hs']. split; [lia|]. by eapply rdone_trans.
  - intros e s' (-> & ? & ? & Hs'). split; [done|]. split; [lia|]. split; [lia|].
    replace (Z.max 0 (FILE_MAX - uio_offset u)) with (n + Z.max 0 (FILE_MAX - uio_offset u1)) by lia.
    eapply rdone_trans; [|done|lia|exact Hs|done]. eapply rpre_prefix; [|exact Hp]. lia.
Qed.

Lemma blocks_read C n : ∀ lo fs sv u vm sp,
  rpre (Z.of_nat n * 512) fs sv u vm sp → uio_offset u mod 512 = 0 →
  wp C (for_range n lo (λ _, sfs_blockio)) (rall (Z.of_nat n * 512) fs sv u vm sp) (rsome (Z.of_nat n * 512) fs sv u vm sp)
    (IoSt (SvSt fs sv) (UioSt u vm sp)).
Proof.
  induction n as [|n IH]; intros lo fs sv u vm sp Hp Hmod; cbn [for_range].
  - wps. by eapply rall_here.
  - replace (Z.of_nat (S n) * 512) with (512 + Z.of_nat n * 512) in * by lia.
    apply read_then; [done|lia|lia| |].
    + apply sfs_blockio_read; [|done]. eapply rpre_prefix; [|exact Hp]. lia.
    + intros fs1 u1 vm1 Hp1 Ho _. apply IH; [done|]. by rewrite Ho, Z.add_mod, Hmod by lia.
Qed.

Lemma io_aligned_read C n fs sv u vm sp :
  rpre n fs sv u vm sp → uio_resid u = n → (n ≠ 0 → uio_offset u mod 512 = 0) →
  wp C sfs_io_aligned (rall n fs sv u vm sp) (rsome n fs sv u vm sp) (IoSt (SvSt fs sv) (UioSt u vm sp)).
Proof.
  intros Hp Hr Hmod. unfold sfs_io_aligned. apply wp_bind. wps. unfold the_uio. cbn [io_u us_uio].
  rewrite Hr. destruct (Z.eqb_spec n 0) as [->|Hn0]; [by wps; eapply rall_here|].
  specialize (Hmod Hn0). pose proof (rp_n _ _ _ _ _ _ Hp) as Hn.
  pose proof (rp_off _ _ _ _ _ _ Hp) as Hoff. unfold SFS_BLOCKSIZE.
  pose proof (Z.div_mod n 512 ltac:(lia)) as Hdm. pose proof (Z.mod_pos_bound n 512 ltac:(lia)).
  assert (0 ≤ n / 512) by (apply Z.div_pos; lia).
  apply wp_bind, wp_KASSERT; [by rewrite Z.rem_mod_nonneg, Hmod by lia|].
  set (q := n / 512) in *. set (r := n mod 512) in *.
  replace n with (q * 512 + r) in Hp |- * by lia.
  apply read_then; [done|lia|lia| |].
  - pose proof (blocks_read C (Z.to_nat q) 0 fs sv u vm sp) as Hb.
    rewrite Z2Nat.id in Hb by lia. apply Hb; [|done]. eapply rpre_prefix; [|exact Hp]. lia.
  - intros fs1 u1 vm1 Hp1 Ho1 Hr1. wps. unfold the_uio. cbn [io_u us_uio].
    replace (uio_resid u1) with r by lia. apply wp_KASSERT; [apply Z.ltb_lt; lia|].
    destruct (Z.ltb_spec 0 r).
    + apply sfs_partialio_read; [done|lia|lia|].
      rewrite Ho1, Z.add_mod, Hmod by lia. by rewrite Z.mod_mul.
    + wps. replace r with 0 in * by lia. by eapply rall_here.
Qed.

Lemma io_blocks_read C n fs sv u vm sp :
  rpre n fs sv u vm sp → uio_resid u = n → 0 < n →
  wp C sfs_io_blocks (rall n fs sv u vm sp) (rsome n fs sv u vm sp) (IoSt (SvSt fs sv) (UioSt u vm sp)).
Proof.
  intros Hp Hr Hn. unfold sfs_io_blocks. apply wp_bind. wps. unfold the_uio. cbn [io_u us_uio].
  pose proof (rp_off _ _ _ _ _ _ Hp) as Hoff. rewrite Hr. unfold SFS_BLOCKSIZE.
  rewrite u32_offset by lia. pose proof (Z.mod_pos_bound (uio_offset u) 512 ltac:(lia)).
  destruct (Z.eqb_spec (uio_offset u mod 512) 0) as [H0|H0].
  - wps. by apply io_aligned_read.
  - set (b := uio_offset u mod 512) in *.
    set (len := if n <? 512 - b then n else 512 - b).
    assert (Hlen : 0 < len ≤ n ∧ b + len ≤ 512 ∧ (len ≠ n → b + len = 512)).
    { unfold len. destruct (Z.ltb_spec n (512 - b)); lia. }
    replace n with (len + (n - len)) in Hp |- * by lia.
    eapply wp_unbind, read_then; [done|lia|lia| |].
    + apply sfs_partialio_read; [|lia|lia|done]. eapply rpre_prefix; [|exact Hp]. lia.
    + intros fs1 u1 vm1 Hp1 Ho1 Hr1. apply io_aligned_read; [done|lia|].
      intros Hne. rewrite Ho1, Z.add_mod by lia. fold b.
      rewrite (Z.mod_small len) by lia. by replace (b + len) with 512 by lia.
Qed.

(** The number of bytes a read request gets. *)
Definition avail i (u : uio) : Z := Z.max 0 (Z.min (uio_resid u) (sfi_size i - uio_offset u)).

Lemma move_pre_pos n off r u vm :
  0 ≤ n ≤ r → is_u32 r → move_pre (replicate (Z.to_nat n) 0) u vm →
  move_pre (replicate (Z.to_nat n) 0) (set_pos off r u) vm.
Proof.
  intros Hn Hr [Hok Hbf Hres Hlen Hacc]. split; auto.
  - by apply uio_ok_pos.
  - cbn. rewrite length_replicate. lia.
Qed.

(** The end of [sfs_io] after reading [m] of the [n] bytes asked for. *)
Lemma sfs_io_out_read C n m fs sv u vm sp s (Q : unit → iost HW → Prop) E :
  uio_rw u = UIO_READ → uio_ok u → 0 ≤ m ≤ n ∧ n ≤ uio_resid u →
  rdone m fs sv (set_pos (uio_offset u) n u) vm sp s →
  (∀ s', rdone m fs sv u vm sp s' → Q tt s') →
  wp C (sfs_io_out (uio_resid u) (uio_resid u - n)) Q E s.
Proof.
  intros Hrw0 Hok Hn (fs' & u' & vm' & -> & Hu & Hm & Ht & Hbf) HQ.
  pose proof (uio_res32 _ Hok) as H32. unfold is_u32 in H32. unfold sfs_io_out, set_uio_pos, on_io_u.
  wps. unfold the_uio. cbn [io_u us_uio io_st].
  assert (Hrw : uio_rw u' = UIO_READ) by (by rewrite (mv_rw _ _ _ Hm)).
  rewrite Hrw, bool_decide_false by done. rewrite andb_false_r. cbn [andb]. wps. wps.
  cbn [io_u us_uio io_st set_uio us_vm us_as]. apply HQ. eexists fs', _, vm'. split; [done|].
  split; [done|]. split; [|done]. destruct Hm. cbn in *. split; cbn; try done.
  - apply uio_ok_pos; [done|apply u32_range].
  - rewrite mv_resid, u32_small by (unfold is_u32; lia). lia.
Qed.

Lemma sfs_io_main_read C n fs sv u vm sp :
  rpre n fs sv u vm sp → 0 < n ≤ uio_resid u →
  wp C (sfs_io_main (uio_resid u) (uio_resid u - n)) (rall n fs sv u vm sp) (rsome n fs sv u vm sp)
    (IoSt (SvSt fs sv) (UioSt (set_pos (uio_offset u) n u) vm sp)).
Proof.
  intros Hp Hn. pose proof (mp_ok _ _ _ (rp_move _ _ _ _ _ _ Hp)) as Hok.
  pose proof (uio_res32 _ Hok) as H32. unfold is_u32 in H32.
  unfold sfs_io_main. wps. wp_call (io_blocks_read C n); [|done|lia| | |done].
  - destruct Hp. split; auto. apply move_pre_pos; [lia|unfold is_u32; lia|done].
  - intros [] s [Hx Hs]. cbn [set_pos uio_offset] in Hx. wps.
    eapply sfs_io_out_read; [apply Hp|done| |exact Hs|]; [lia|]. intros s' Hs'. by wps.
  - intros e s (-> & H0 & Hx & Hs). cbn [set_pos uio_offset] in *. wps.
    eapply sfs_io_out_read; [apply Hp|done| |exact Hs|]; [lia|]. intros s' Hs'. by wps.
Qed.

Lemma sfs_io_read C fs sv u vm sp :
  rpre (avail (sv_i sv) u) fs sv u vm sp → 0 < uio_resid u →
  wp C sfs_io (rall (avail (sv_i sv) u) fs sv u vm sp)
    (rsome (avail (sv_i sv) u) fs sv u vm sp)
    (IoSt (SvSt fs sv) (UioSt u vm sp)).
Proof.
  intros Hp Hr. pose proof (rp_off _ _ _ _ _ _ Hp) as Hoff.
  pose proof (uio_res32 _ (mp_ok _ _ _ (rp_move _ _ _ _ _ _ Hp))) as H32. unfold is_u32 in H32.
  unfold sfs_io. wps. unfold the_uio. cbn [io_u us_uio io_st st_sv].
  rewrite decide_True by apply Hp. set (n := avail (sv_i sv) u) in *.
  destruct (Z.leb_spec (sfi_size (sv_i sv)) (uio_offset u)) as [Hle|Hlt].
  { wps. replace n with 0 in * by (unfold n, avail; lia). by eapply rall_here. }
  assert (Hn : n = Z.min (uio_resid u) (sfi_size (sv_i sv) - uio_offset u))
    by (unfold n, avail; lia).
  destruct (Z.ltb_spec (sfi_size (sv_i sv)) (uio_offset u + uio_resid u)) as [Hx|Hx].
  - rewrite u32_small by (unfold is_u32; lia).
    replace (uio_offset u + uio_resid u - sfi_size (sv_i sv)) with (uio_resid u - n) by lia.
    wps. apply wp_KASSERT; [apply Z.ltb_lt; lia|]. unfold set_uio_pos, on_io_u. wps.
    cbn [io_u us_uio io_st set_uio us_vm us_as].
    replace (uio_resid u - (uio_resid u - n)) with n by lia.
    apply sfs_io_main_read; [done|lia].
  - replace 0 with (uio_resid u - n) by lia.
    replace (UioSt u vm sp) with (UioSt (set_pos (uio_offset u) n u) vm sp).
    + apply sfs_io_main_read; [done|lia].
    + f_equal. replace n with (uio_resid u) by lia. by destruct u.
Qed.

Lemma written_ok data fs sv u vm sp s :
  0 ≤ uio_offset u → written data fs sv u vm sp s →
  vol_ok (st_fs (io_st s)) ∧ file_ok (st_fs (io_st s)) (sv_i (st_sv (io_st s))).
Proof.
  intros Hoff (fs' & sv' & u' & i1 & -> & Hw & Hi & _ & _ & _ & Hx). cbn. split; [apply Hw|].
  rewrite Hi. destruct data as [|x data]; [apply Hw|]. unfold grow_size.
  destruct (_ <? _); [|apply Hw]. apply file_ok_size; [|apply Hw].
  destruct Hx as [|Hx]; [done|]. unfold FILE_MAX in Hx. unfold is_u32. lia.
Qed.

Lemma rpre_avail fs sv u vm sp :
  vol_ok fs → locked fs → nblocks fs ≤ 8388608 → file_ok fs (sv_i sv) →
  move_pre (replicate (Z.to_nat (avail (sv_i sv) u)) 0) u vm → space_ok u sp →
  uio_rw u = UIO_READ → 0 ≤ uio_offset u → rpre (avail (sv_i sv) u) fs sv u vm sp.
Proof.
  intros Hv Hl Hs Hf Hmp Hsp Hrw Ho. split; auto; [unfold avail; lia|]. split; [done|].
  pose proof (dio_size _ (fo_inode _ _ Hf)) as H32. unfold is_u32 in H32. unfold avail. lia.
Qed.

Lemma written_frange data fs sv u vm sp fs' sv' u' :
  0 ≤ uio_offset u → data ≠ [] →
  written data fs sv u vm sp (IoSt (SvSt fs' sv') (UioSt u' vm sp)) →
  frange fs' (sv_i sv') (uio_offset u) (Z.of_nat (length data)) = data ∧
  uio_offset u + Z.of_nat (length data) ≤ sfi_size (sv_i sv') ∧
  uio_offset u + Z.of_nat (length data) ≤ FILE_MAX.
Proof.
  intros Hoff Hne (fs1 & sv1 & u1 & i1 & Heq & Hw & Hi & _ & _ & _ & Hx). simplify_eq.
  destruct Hx as [|Hx]; [done|]. destruct data as [|x data]; [done|]. set (d := x :: data) in *.
  assert (Hfb : ∀ p, fbyte fs1 (sv_i sv1) p = fbyte fs1 i1 p).
  { intros p. rewrite Hi. unfold grow_size. by destruct (_ <? _). }
  split; [|split; [|done]].
  - apply list_eq. intros k. unfold frange. rewrite list_lookup_fmap.
    destruct (decide (k < length d)%nat) as [Hk|Hk].
    + rewrite lookup_seqZ_lt by lia. cbn -[fbyte]. rewrite Hfb.
      rewrite (wr_bytes _ _ _ _ _ _ Hw), decide_True by lia.
      replace (Z.to_nat (uio_offset u + Z.of_nat k - uio_offset u)) with k by lia.
      destruct (lookup_lt_is_Some_2 d k Hk) as [y Hy]. by rewrite Hy.
    + rewrite lookup_seqZ_ge by lia. symmetry. apply lookup_ge_None_2. lia.
  - rewrite Hi. unfold grow_size. destruct (Z.ltb_spec (sfi_size (sv_i sv))
      (uio_offset u + Z.of_nat (length d))); [done|].
    by destruct (wr_meta _ _ _ _ _ _ Hw) as [-> _].
Qed.

End bytes.

(** ** The theorems about file contents *)

(** C1: a write request of [n] bytes stores the [n] bytes of its memory at its
    offset; every other byte of the file reads as before, the size grows to
    the end of the data if that is further, and the blocks of others keep
    their contents.  It ends early only with ENOSPC, the volume being full, or
    with EFBIG, having come to the largest size of a file; then a prefix is
    stored and the request says how long it is.  The disk is a working one (no
    media errors), the thread holds the big lock, the memory of the request can
    be read, the volume has at most 2^23 blocks (the offset of a block on the
    disk is computed in 32 bits), and the request ends at 2^41 or before (so
    are the numbers of file blocks). *)
Theorem sfs_io_write_correct {HW} `{!DiskHw HW, !WorkingDisk HW}
    n (fs : sfs_fs HW) sv u vm sp :
  vol_ok fs → locked fs → nblocks fs ≤ 2 ^ 23 → file_ok fs (sv_i sv) →
  req n u vm sp → uio_rw u = UIO_WRITE → uio_resid u = n → 0 < n →
  0 ≤ uio_offset u → uio_offset u + n ≤ 2 ^ 41 →
  match sfs_io (IoSt (SvSt fs sv) (UioSt u vm sp)) with
  | Ok _ s => (∃ data, Z.of_nat (length data) = n ∧ written data fs sv u vm sp s) ∧
      vol_ok (st_fs (io_st s)) ∧ file_ok (st_fs (io_st s)) (sv_i (st_sv (io_st s)))
  | Err e s => (e = ENOSPC ∧ full (st_fs (io_st s)) ∨ e = EFBIG ∧ FILE_MAX ≤ uio_offset (the_uio s)) ∧
      (∃ data, Z.of_nat (length data) ≤ n ∧ written data fs sv u vm sp s) ∧
      vol_ok (st_fs (io_st s)) ∧ file_ok (st_fs (io_st s)) (sv_i (st_sv (io_st s)))
  | Crash _ => False
  end.
Proof.
  intros Hv Hl Hs Hf Hrq Hrw Hr Hn Ho1 Ho2.
  assert (Hp : wpre n fs sv u vm sp) by (by split).
  pose proof (sfs_io_write no_crash n fs sv u vm sp Hp Hr Hn) as H. unfold wp in H.
  destruct (sfs_io _) as [[] s|e s|]; [| |done].
  - destruct H as (data & Hdl & H). split; [by exists data|]. by apply (written_ok data fs sv u vm sp).
  - destruct H as (He & data & Hdl & H). split; [exact He|]. split; [by exists data|].
    by apply (written_ok data fs sv u vm sp).
Qed.

(** C2: a read request gets the bytes of the file from its offset on, as many
    as it asks for and the file has, and nothing changes.  A size can be set
    past the largest size of a file, 143 blocks; a request that reaches there
    gets the bytes before, and EFBIG.  The disk is a working one (no media
    errors), the thread holds the big lock, the memory of the request can be
    written, the volume has at most 2^23 blocks, and the request ends before
    2^63. *)
Theorem sfs_io_read_correct {HW} `{!DiskHw HW, !WorkingDisk HW}
    (fs : sfs_fs HW) sv u vm sp :
  vol_ok fs → locked fs → nblocks fs ≤ 2 ^ 23 → file_ok fs (sv_i sv) →
  move_pre (replicate (Z.to_nat (avail (sv_i sv) u)) 0) u vm → space_ok u sp →
  uio_rw u = UIO_READ → 0 < uio_resid u → 0 ≤ uio_offset u → uio_offset u + uio_resid u < 2 ^ 63 →
  let n := avail (sv_i sv) u in
  let m := Z.min n (Z.max 0 (FILE_MAX - uio_offset u)) in
  let bytes := frange fs (sv_i sv) (uio_offset u) m in
  ∃ fs' u' vm', sfs_io (IoSt (SvSt fs sv) (UioSt u vm sp)) =
      (if n =? m then Ok tt else Err EFBIG) (IoSt (SvSt fs' sv) (UioSt u' vm' sp)) ∧
    fs_upd (blk fs) (used fs) fs fs' ∧ moved m u u' ∧ transferred u vm bytes bytes vm'.
Proof.
  intros Hv Hl Hs Hf Hmp Hsp Hrw Hr Ho _ n m bytes.
  pose proof (sfs_io_read no_crash fs sv u vm sp ltac:(by apply rpre_avail) Hr) as H.
  fold n in H. unfold wp in H. destruct (sfs_io _) as [[] s|e s|]; [| |done].
  - destruct H as [Hx H]. assert (Hm : n = m) by (unfold m; lia). rewrite Hm in H.
    destruct H as (fs' & u' & vm' & -> & H1 & H2 & H3 & _). exists fs', u', vm'.
    by rewrite (proj2 (Z.eqb_eq n m)).
  - destruct H as (-> & Hn & Hx & H).
    assert (Hm : Z.max 0 (FILE_MAX - uio_offset u) = m ∧ n ≠ m) by (unfold m; lia).
    destruct Hm as [Hm Hnm]. rewrite Hm in H.
    destruct H as (fs' & u' & vm' & -> & H1 & H2 & H3 & _). exists fs', u', vm'.
    by rewrite (proj2 (Z.eqb_neq n m)).
Qed.

(** C13: what a successful write stored is what a read of the same place
    delivers.  The write fails only on a full volume or at the largest size of
    a file.  The disk is a working one (no media errors), the thread holds the
    big lock, the memory of both requests can be used, the volume has at most
    2^23 blocks and the requests end at 2^41 or before. *)
Theorem sfs_io_write_read {HW} `{!DiskHw HW, !WorkingDisk HW}
    n (fs : sfs_fs HW) sv u vm sp u2 vm2 :
  vol_ok fs → locked fs → nblocks fs ≤ 2 ^ 23 → file_ok fs (sv_i sv) →
  req n u vm sp → uio_rw u = UIO_WRITE → uio_resid u = n → 0 < n →
  0 ≤ uio_offset u → uio_offset u + n ≤ 2 ^ 41 →
  uio_offset u2 = uio_offset u → uio_resid u2 = n → uio_rw u2 = UIO_READ →
  move_pre (replicate (Z.to_nat n) 0) u2 vm2 → space_ok u2 sp →
  match sfs_io (IoSt (SvSt fs sv) (UioSt u vm sp)) with
  | Ok _ s1 => ∃ data s2,
      holds (seg_mem (uio_segflg u) vm) (take (Z.to_nat n) (addrs u)) data ∧
      sfs_io (IoSt (io_st s1) (UioSt u2 vm2 sp)) = Ok tt s2 ∧
      transferred u2 vm2 data data (us_vm (io_u s2))
  | Err e s1 => e = ENOSPC ∧ full (st_fs (io_st s1)) ∨ e = EFBIG ∧ FILE_MAX ≤ uio_offset (the_uio s1)
  | Crash _ => False
  end.
Proof.
  intros Hv Hlk Hsm Hf Hrq Hrw Hr Hn Ho1 Ho Ho2 Hr2 Hrw2 Hmp2 Hsp2.
  assert (Hp : wpre n fs sv u vm sp) by (by split).
  pose proof (sfs_io_write no_crash n fs sv u vm sp Hp Hr Hn) as H. unfold wp in H.
  destruct (sfs_io _) as [[] s1|e s1|]; [|by destruct H|done].
  destruct H as (data & Hl & Hw). pose proof (written_ok data fs sv u vm sp s1 Ho1 Hw) as [Hv1 Hf1].
  pose proof Hw as (fs' & sv' & u' & i1 & -> & Hwr & _ & _ & _ & Hh & _). cbn in Hv1, Hf1.
  assert (Hne : data ≠ []) by (intros ->; cbn in Hl; lia).
  destruct (written_frange data fs sv u vm sp _ _ _ Ho1 Hne Hw) as (Hfr & Hsz & Hmax).
  pose proof (wr_frame _ _ _ _ _ _ Hwr) as Hframe.
  assert (Hav : avail (sv_i sv') u2 = n) by (unfold avail; lia).
  assert (Hp2 : rpre (avail (sv_i sv') u2) fs' sv' u2 vm2 sp).
  { apply rpre_avail; auto; [by eapply frame_locked|by rewrite (frame_nblocks _ _ Hframe)| |lia].
    by rewrite Hav. }
  pose proof (sfs_io_read no_crash fs' sv' u2 vm2 sp Hp2 ltac:(lia)) as H2. rewrite Hav in H2.
  unfold wp in H2. cbn [io_st]. destruct (sfs_io _) as [[] s2|e s2|]; [| |done].
  - destruct H2 as (_ & fs2 & u3 & vm3 & -> & _ & _ & Ht & _). exists data. eexists.
    split; [by replace (Z.to_nat n) with (length data) by lia|]. split; [done|].
    cbn. by rewrite Ho2, <-Hl, Hfr in Ht.
  - destruct H2 as (_ & _ & ? & _). lia.
Qed.


(** ** Requests to try things on *)

Lemma kbuf_move_pre data pos rw :
  is_u32 (Z.of_nat (length data)) →
  move_pre (replicate (length data) 0)
    (uio_kinit 0 (Z.of_nat (length data)) pos rw) (kbuf data).
Proof.
  intros Hl. split; rewrite ?addrs_kinit, ?length_replicate.
  - split; [by constructor; [unfold is_u32 in Hl; cbn; lia|]|done|done|done].
  - done.
  - done.
  - rewrite length_seqZ. lia.
  - intros a Ha. apply elem_of_take in Ha as (i & Ha & _).
    apply list_elem_of_lookup_2, elem_of_seqZ in Ha. split; [|done].
    cbn [seg_mem uio_kinit uio_segflg kbuf kmem].
    rewrite write_bytes_lookup, decide_True by lia. apply lookup_lt_is_Some. lia.
Qed.

Lemma kbuf_req_bytes data pos rw :
  is_u32 (Z.of_nat (length data)) → Forall is_u8 data →
  req (Z.of_nat (length data)) (uio_kinit 0 (Z.of_nat (length data)) pos rw) (kbuf data) 0.
Proof.
  intros Hl Hb. split; [lia| |done|].
  - rewrite Nat2Z.id. by apply kbuf_move_pre.
  - intros a x Hx. cbn [seg_mem uio_kinit uio_segflg kbuf kmem] in Hx.
    rewrite write_bytes_lookup in Hx. case_decide; [|by rewrite lookup_empty in Hx].
    by eapply Forall_lookup_1.
Qed.

Definition ten : list Z := [1; 2; 3; 4; 5; 6; 7; 8; 9; 10].

Lemma ten_req pos rw : req 10 (uio_kinit 0 10 pos rw) (kbuf ten) 0.
Proof. apply (kbuf_req_bytes ten); [done|]. repeat constructor; lia. Qed.

Lemma sfs_io_write_correct_witness :
  let s0 := IoSt (SvSt file_fs (small_sv 4))
              (UioSt (uio_kinit 0 10 8185 UIO_WRITE) (kbuf ten) 0) in
  match sfs_io s0 with
  | Ok _ s => (∃ data, Z.of_nat (length data) = 10 ∧
        written data file_fs (small_sv 4) (uio_kinit 0 10 8185 UIO_WRITE) (kbuf ten) 0 s) ∧
      vol_ok (st_fs (io_st s)) ∧ file_ok (st_fs (io_st s)) (sv_i (st_sv (io_st s)))
  | Err e s => (e = ENOSPC ∧ full (st_fs (io_st s)) ∨ e = EFBIG ∧ FILE_MAX ≤ uio_offset (the_uio s)) ∧
      (∃ data, Z.of_nat (length data) ≤ 10 ∧
        written data file_fs (small_sv 4) (uio_kinit 0 10 8185 UIO_WRITE) (kbuf ten) 0 s) ∧
      vol_ok (st_fs (io_st s)) ∧ file_ok (st_fs (io_st s)) (sv_i (st_sv (io_st s)))
  | Crash _ => False
  end.
Proof.
  apply (sfs_io_write_correct 10); [exact file_vol_ok|exact file_locked|done|exact small_file_ok|
    apply ten_req|reflexivity|reflexivity|lia|done|done].
Defined.

Lemma sfs_io_read_correct_witness :
  let u := uio_kinit 0 10 8185 UIO_READ in
  let bytes := frange file_fs (small_inode 4) 8185 7 in
  ∃ fs' u' vm', sfs_io (IoSt (SvSt file_fs (small_sv 4)) (UioSt u (kbuf ten) 0)) =
      Ok tt (IoSt (SvSt fs' (small_sv 4)) (UioSt u' vm' 0)) ∧
    fs_upd (blk file_fs) (used file_fs) file_fs fs' ∧ moved 7 u u' ∧
    transferred u (kbuf ten) bytes bytes vm'.
Proof.
  apply (sfs_io_read_correct file_fs (small_sv 4) (uio_kinit 0 10 8185 UIO_READ));
    [exact file_vol_ok|exact file_locked|done|exact small_file_ok| |done|done|done|done|done].
  apply (move_pre_prefix (replicate 7 0) (replicate 3 0)), (kbuf_move_pre ten). done.
Defined.

Lemma sfs_io_write_read_witness :
  let u := uio_kinit 0 10 8185 UIO_WRITE in
  let u2 := uio_kinit 0 10 8185 UIO_READ in
  match sfs_io (IoSt (SvSt file_fs (small_sv 4)) (UioSt u (kbuf ten) 0)) with
  | Ok _ s1 => ∃ data s2,
      holds (seg_mem (uio_segflg u) (kbuf ten)) (take (Z.to_nat 10) (addrs u)) data ∧
      sfs_io (IoSt (io_st s1) (UioSt u2 (kbuf (replicate 10 0)) 0)) = Ok tt s2 ∧
      transferred u2 (kbuf (replicate 10 0)) data data (us_vm (io_u s2))
  | Err e s1 => e = ENOSPC ∧ full (st_fs (io_st s1)) ∨ e = EFBIG ∧ FILE_MAX ≤ uio_offset (the_uio s1)
  | Crash _ => False
  end.
Proof.
  apply (sfs_io_write_read 10); [exact file_vol_ok|exact file_locked|done|exact small_file_ok|
    apply ten_req|reflexivity|reflexivity|lia|done|done|reflexivity|reflexivity|reflexivity| |done].
  apply (kbuf_move_pre (replicate 10 0)). done.
Defined.
