(* ===== verification/SfsDir.v ===== *)
(** * Directories

    kern/fs/sfs/sfs_dir.c: a directory is a file of fixed-size entries.  The
    theorems say that it implements a finite map from names to inode
    numbers. *)

From S2P Require Import Prelude Bitmap Endian CopyInOut CString Uio Lhd Lock.
From S2P Require Import SfsTypes SfsBlock SfsBmap SfsFile.
Open Scope Z_scope.

Definition DIRENTRY_SIZE : Z := 64.

Section sfs_dir.
Context {HW : Type} `{!DiskHw HW}.

(** [slot * sizeof(struct sfs_direntry)] is computed in 32 bits. *)
Definition dir_pos (slot : Z) : Z := u32 (slot * DIRENTRY_SIZE).

Definition sfs_readdir (slot : Z) : M (svst HW) sfs_direntry :=
  data <- sfs_metaio (dir_pos slot) (replicate 64 0) UIO_READ ;;
  ret (direntry_decode data).

Definition sfs_writedir (slot : Z) (sd : sfs_direntry) : M (svst HW) unit :=
  KASSERT (0 <=? slot) ;;;
  sfs_metaio (dir_pos slot) (direntry_encode sd) UIO_WRITE ;;;
  ret tt.

Definition sfs_dir_nentries : M (svst HW) Z :=
  s <- get ;;
  let i := sv_i (st_sv s) in
  KASSERT (sfi_type i =? SFS_TYPE_DIR) ;;;
  if negb (sfi_size i mod DIRENTRY_SIZE =? 0) then panic
  else ret (sfi_size i / DIRENTRY_SIZE).

(** The loop of [sfs_dir_findname] from slot [i] on: the inode number and the
    slot of the entry found, and the last empty slot seen. *)
Fixpoint sfs_dir_scan (n : nat) (i : Z) (name : list Z) (found : option (Z * Z))
    (emptyslot : option Z) : M (svst HW) (option (Z * Z) * option Z) :=
  match n with
  | O => ret (found, emptyslot)
  | S n' =>
      tsd <- sfs_readdir i ;;
      if sfd_ino tsd =? SFS_NOINO then
        sfs_dir_scan n' (i + 1) name found (Some i)
      else
        r <- deref (strcmp (<[59%nat := 0]> (sfd_name tsd)) name) ;;
        if r =? 0 then
          KASSERT (bool_decide (found = None)) ;;;
          sfs_dir_scan n' (i + 1) name (Some (sfd_ino tsd, i)) emptyslot
        else sfs_dir_scan n' (i + 1) name found emptyslot
  end.

(** [sfs_dir_findname] before its result is turned into an error code. *)
Definition sfs_dir_search (name : list Z) : M (svst HW) (option (Z * Z) * option Z) :=
  nentries <- sfs_dir_nentries ;;
  sfs_dir_scan (Z.to_nat nentries) 0 name None None.

(** The inode number and the slot; ENOENT when there is no such entry. *)
Definition sfs_dir_findname (name : list Z) : M (svst HW) (Z * Z) :=
  r <- sfs_dir_search name ;;
  match r.1 with
  | Some p => ret p
  | None => fail ENOENT
  end.

Definition sfs_dir_link (name : list Z) (ino : Z) : M (svst HW) Z :=
  r <- sfs_dir_search name ;;
  match r.1 with
  | Some _ => fail EEXIST
  | None =>
      len <- deref (strlen name) ;;
      if SFS_NAMELEN <? Z.of_nat len + 1 then fail ENAMETOOLONG
      else
        emptyslot <- match r.2 with
                     | Some slot => ret slot
                     | None => sfs_dir_nentries
                     end ;;
        sfd_name <- deref (strcpy (replicate 60 0) name) ;;
        sfs_writedir emptyslot (SfsDirentry ino sfd_name) ;;;
        ret emptyslot
  end.

Definition sfs_dir_unlink (slot : Z) : M (svst HW) unit :=
  sfs_writedir slot (SfsDirentry SFS_NOINO (replicate 60 0)).

End sfs_dir.

(** ** A directory as a finite map *)

(** The string in a field of fixed size. *)
Fixpoint cstr_of (l : list Z) : list Z :=
  match l with
  | [] => []
  | c :: r => if c =? 0 then [] else c :: cstr_of r
  end.

Definition dname (d : sfs_direntry) : list Z := cstr_of (<[59%nat := 0]> (sfd_name d)).

Section dir.
Context {HW : Type} `{!DiskHw HW, !WorkingDisk HW}.
Implicit Types (fs : sfs_fs HW) (i : sfs_dinode) (n : Z) (s : list Z).

Definition dentry fs i n : sfs_direntry := direntry_decode (frange fs i (n * 64) 64).

(** Slot [n] names the inode [ino] with [s]. *)
Definition dlive fs i n s (ino : Z) : Prop :=
  0 ≤ n < sfi_size i / 64 ∧ sfd_ino (dentry fs i n) = ino ∧ ino ≠ 0 ∧
  dname (dentry fs i n) = s.

(** A well-formed directory: no name occurs twice. *)
Record dir_ok fs i : Prop := DirOk {
  do_file : file_ok fs i;
  do_type : sfi_type i = SFS_TYPE_DIR;
  do_size : sfi_size i mod 64 = 0 ∧ sfi_size i ≤ FILE_MAX;
  do_uniq : ∀ n m s a b, dlive fs i n s a → dlive fs i m s b → n = m;
}.

(** The directory stands for the map [D]. *)
Definition dir_repr (D : gmap (list Z) Z) fs i : Prop :=
  dir_ok fs i ∧ ∀ s ino, D !! s = Some ino ↔ ∃ n, dlive fs i n s ino.

(** ** Entries *)

Lemma cstr_of_spec l : 0 ∈ l → is_cstr l (cstr_of l).
Proof.
  induction l as [|c l IH]; intros H0; [by apply not_elem_of_nil in H0|]. cbn.
  destruct (Z.eqb_spec c 0) as [->|Hc].
  - split; [apply not_elem_of_nil|by exists l].
  - apply elem_of_cons in H0 as [|H0]; [congruence|]. destruct (IH H0) as [Hs (r & Hr)].
    split; [by rewrite not_elem_of_cons|]. exists r. cbn. by f_equal.
Qed.

Lemma cstr_of_eq l s : is_cstr l s → cstr_of l = s.
Proof.
  intros [Hs (r & ->)]. induction s as [|c s IH]; [done|].
  apply not_elem_of_cons in Hs as [Hc Hs]. cbn. rewrite (proj2 (Z.eqb_neq c 0)) by done.
  f_equal. by apply IH.
Qed.

Lemma frange_bytes fs i off (n : Z) :
  vol_ok fs → file_ok fs i → 0 ≤ off → off + n ≤ FILE_MAX → Forall is_u8 (frange fs i off n).
Proof.
  intros Hv Hf Ho Hm. unfold frange. apply Forall_fmap, Forall_forall.
  intros p Hp%list_elem_of_In%elem_of_seqZ. cbn. unfold fbyte.
  pose proof (fdata_bytes fs i (p / 512) Hv Hf (block_of p ltac:(lia))) as Hb.
  destruct (_ !! _) as [x|] eqn:Hx; cbn; [|by split]. by eapply Forall_lookup_1.
Qed.

Lemma dentry_name_length fs i n : length (sfd_name (dentry fs i n)) = 60%nat.
Proof. cbn. apply slice_length. rewrite frange_length by lia. lia. Qed.

Lemma dname_cstr fs i n :
  is_cstr (<[59%nat := 0]> (sfd_name (dentry fs i n))) (dname (dentry fs i n)).
Proof.
  apply cstr_of_spec. apply (list_elem_of_lookup_2 _ 59).
  apply list_lookup_insert_eq. rewrite dentry_name_length. lia.
Qed.

Lemma cstr_of_bytes l : Forall is_u8 l → Forall is_u8 (cstr_of l).
Proof.
  induction 1 as [|c l Hc _ IH]; cbn; [constructor|]. destruct (_ =? _); by constructor.
Qed.

(** An entry within the directory. *)
Lemma dentry_range fs i n :
  dir_ok fs i → 0 ≤ n < sfi_size i / 64 → n * 64 + 64 ≤ sfi_size i.
Proof.
  intros [_ _ [Hm _] _] Hn. pose proof (Z.div_mod (sfi_size i) 64 ltac:(lia)). lia.
Qed.

Lemma meta_entry n : 0 ≤ n → n * 64 + 64 ≤ FILE_MAX → meta_pos (n * 64) 64.
Proof.
  intros Hn Hm. unfold meta_pos, FILE_MAX in *. split; [lia|].
  change 512 with (64 * 8). rewrite Z.mul_comm, Z.mul_mod_distr_l by lia.
  pose proof (Z.mod_pos_bound n 8 ltac:(lia)). lia.
Qed.

Lemma dir_pos_small n : 0 ≤ n → n * 64 ≤ FILE_MAX → dir_pos n = n * 64.
Proof.
  intros Hn Hm. unfold dir_pos, DIRENTRY_SIZE, FILE_MAX in *. apply u32_small.
  unfold is_u32. lia.
Qed.

Lemma sfs_readdir_wp C fs sv n (Q : sfs_direntry → svst HW → Prop) E :
  vol_ok fs → locked fs → dir_ok fs (sv_i sv) → 0 ≤ n < sfi_size (sv_i sv) / 64 →
  (∀ fs', fs_upd (blk fs) (used fs) fs fs' → Q (dentry fs (sv_i sv) n) (SvSt fs' sv)) →
  wp C (sfs_readdir n) Q E (SvSt fs sv).
Proof.
  intros Hv Hl Hd Hn HQ. pose proof (dentry_range _ _ _ Hd Hn) as Hr.
  destruct Hd as [Hf _ [_ Hmax] _]. unfold sfs_readdir. wps.
  rewrite dir_pos_small by lia.
  apply sfs_metaio_read_wp; [done|done|done|rewrite length_replicate; apply meta_entry; lia|].
  rewrite length_replicate. intros fs' Hu. wps. by apply HQ.
Qed.

(** Reading leaves the directory. *)
Lemma dentry_read fs fs' i n : fs_upd (blk fs) (used fs) fs fs' → dentry fs' i n = dentry fs i n.
Proof. intros H. unfold dentry. rewrite (frange_read fs fs' i _ _ H). reflexivity. Qed.

Lemma dname_bytes fs i n :
  vol_ok fs → dir_ok fs i → 0 ≤ n < sfi_size i / 64 → Forall is_u8 (dname (dentry fs i n)).
Proof.
  intros Hv Hd Hn. pose proof (dentry_range _ _ _ Hd Hn). destruct Hd as [Hf _ [_ Hmax] _].
  apply cstr_of_bytes, Forall_insert; [|by split]. apply slice_bytes.
  apply frange_bytes; [done|done|lia|lia].
Qed.

#[local] Opaque dentry.

Lemma dlive_read fs fs' i n s a :
  fs_upd (blk fs) (used fs) fs fs' → dlive fs' i n s a ↔ dlive fs i n s a.
Proof.
  intros H. unfold dlive. pose proof (dentry_read fs fs' i n H) as He.
  rewrite He. reflexivity.
Qed.

Lemma dir_ok_read fs fs' i :
  vol_ok fs → fs_upd (blk fs) (used fs) fs fs' → dir_ok fs i → dir_ok fs' i.
Proof.
  intros Hv H [Hf Ht Hs Hu]. split; [by apply (file_ok_read fs)|exact Ht|exact Hs|].
  intros n m s a b Hn Hm.
  exact (Hu n m s a b (proj1 (dlive_read _ _ _ _ _ _ H) Hn)
    (proj1 (dlive_read _ _ _ _ _ _ H) Hm)).
Qed.

Lemma dir_repr_read D fs fs' i :
  vol_ok fs → fs_upd (blk fs) (used fs) fs fs' → dir_repr D fs i → dir_repr D fs' i.
Proof.
  intros Hv H [Hd HD]. split; [by apply (dir_ok_read fs)|]. intros s ino. rewrite HD.
  split; intros [n Hn]; exists n.
  - exact (proj2 (dlive_read _ _ _ _ _ _ H) Hn).
  - exact (proj1 (dlive_read _ _ _ _ _ _ H) Hn).
Qed.

(** ** Searching *)

(** What is known after the slots below [n]. *)
Definition scanned fs i (n : Z) s (found : option (Z * Z)) (empty : option Z) : Prop :=
  match found with
  | Some (ino, m) => m < n ∧ dlive fs i m s ino
  | None => ∀ m ino, m < n → ¬ dlive fs i m s ino
  end ∧
  match empty with
  | Some m => 0 ≤ m < n ∧ sfd_ino (dentry fs i m) = 0
  | None => ∀ m, 0 ≤ m < n → sfd_ino (dentry fs i m) ≠ 0
  end.

Lemma scanned_ext fs fs' i n s found empty :
  (∀ m a, dlive fs' i m s a ↔ dlive fs i m s a) →
  (∀ m, sfd_ino (dentry fs' i m) = sfd_ino (dentry fs i m)) →
  scanned fs i n s found empty → scanned fs' i n s found empty.
Proof.
  intros Hl He [Ha Hb]. split.
  - destruct found as [[ino m]|].
    + split; [apply Ha|]. exact (proj2 (Hl m ino) (proj2 Ha)).
    + intros m ino Hm Hlv. exact (Ha m ino Hm (proj1 (Hl m ino) Hlv)).
  - destruct empty as [e|].
    + split; [apply Hb|]. exact (eq_trans (He e) (proj2 Hb)).
    + intros m Hm. rewrite (He m). exact (Hb m Hm).
Qed.

Lemma scanned_read fs fs' i n s found empty :
  fs_upd (blk fs) (used fs) fs fs' →
  scanned fs' i n s found empty ↔ scanned fs i n s found empty.
Proof.
  intros H. pose proof (λ m a, dlive_read fs fs' i m s a H) as Hl.
  pose proof (λ m, f_equal sfd_ino (dentry_read fs fs' i m H)) as He.
  split; apply scanned_ext; [..|exact Hl|exact He].
  - intros m a. exact (iff_sym (Hl m a)).
  - intros m. exact (eq_sym (He m)).
Qed.

Lemma scanned_empty fs i n s found empty :
  0 ≤ n → sfd_ino (dentry fs i n) = 0 →
  scanned fs i n s found empty → scanned fs i (n + 1) s found (Some n).
Proof.
  intros Hn Hz [Ha _]. split; [|split; [lia|done]].
  destruct found as [[ino m]|]; [split; [lia|apply Ha]|].
  intros m ino Hm Hlv. destruct (decide (m = n)) as [->|]; [|by apply (Ha m ino); [lia|]].
  destruct Hlv as (_ & Hi & Hi0 & _). congruence.
Qed.

Lemma scanned_other fs i n s found empty :
  0 ≤ n → sfd_ino (dentry fs i n) ≠ 0 → dname (dentry fs i n) ≠ s →
  scanned fs i n s found empty → scanned fs i (n + 1) s found empty.
Proof.
  intros Hn Hz Hd [Ha Hb]. split.
  - destruct found as [[ino m]|]; [split; [lia|apply Ha]|].
    intros m ino Hm Hlv. destruct (decide (m = n)) as [->|]; [|by apply (Ha m ino); [lia|]].
    by destruct Hlv as (_ & _ & _ & ?).
  - destruct empty as [e|]; [split; [lia|apply Hb]|]. intros m Hm.
    destruct (decide (m = n)) as [->|]; [done|apply Hb; lia].
Qed.

(** The name is found once. *)
Lemma scanned_found fs i n found empty :
  dir_ok fs i → 0 ≤ n < sfi_size i / 64 → sfd_ino (dentry fs i n) ≠ 0 →
  scanned fs i n (dname (dentry fs i n)) found empty →
  found = None ∧
  scanned fs i (n + 1) (dname (dentry fs i n)) (Some (sfd_ino (dentry fs i n), n)) empty.
Proof.
  intros Hd Hn Hz [Ha Hb].
  assert (Hlv : dlive fs i n (dname (dentry fs i n)) (sfd_ino (dentry fs i n))) by by repeat split; try lia.
  split.
  - destruct found as [[ino m]|]; [|done]. destruct Ha as [Hm Hlm].
    pose proof (do_uniq _ _ Hd _ _ _ _ _ Hlm Hlv). lia.
  - split; [split; [lia|exact Hlv]|]. destruct empty as [e|]; [split; [lia|apply Hb]|].
    intros m Hm. destruct (decide (m = n)) as [->|]; [done|apply Hb; lia].
Qed.

Lemma sfs_dir_scan_wp C k : ∀ n fs sv name s found empty
    (Q : option (Z * Z) * option Z → svst HW → Prop) E,
  vol_ok fs → locked fs → dir_ok fs (sv_i sv) → is_cstr name s → Forall is_u8 s →
  0 ≤ n → n + Z.of_nat k = sfi_size (sv_i sv) / 64 →
  scanned fs (sv_i sv) n s found empty →
  (∀ r fs', fs_upd (blk fs) (used fs) fs fs' →
     scanned fs (sv_i sv) (sfi_size (sv_i sv) / 64) s r.1 r.2 → Q r (SvSt fs' sv)) →
  wp C (sfs_dir_scan k n name found empty) Q E (SvSt fs sv).
Proof.
  induction k as [|k IH]; intros n fs sv name s found empty Q E Hv Hl Hd Hnm Hs8 Hn Hk Hsc HQ;
    cbn [sfs_dir_scan].
  - wps. apply HQ; [by apply fs_upd_refl|]. by replace (sfi_size (sv_i sv) / 64) with n by lia.
  - wps. apply sfs_readdir_wp; [done..|lia|]. intros fs1 H1. wps.
    assert (Hgo : ∀ found' empty', scanned fs (sv_i sv) (n + 1) s found' empty' →
      wp C (sfs_dir_scan k (n + 1) name found' empty') Q E (SvSt fs1 sv)).
    { intros f' e' Hsc'. apply (IH (n + 1) fs1 sv name s); [apply H1| | |done|done|lia|lia| |].
      - eapply frame_locked; [apply H1|exact Hl].
      - by apply (dir_ok_read fs).
      - exact (proj2 (scanned_read _ _ _ _ _ _ _ H1) Hsc').
      - intros r fs' Hu Hr. apply HQ; [by apply (fs_upd_read_trans fs fs1)|].
        exact (proj1 (scanned_read _ _ _ _ _ _ _ H1) Hr). }
    destruct (Z.eqb_spec (sfd_ino (dentry fs (sv_i sv) n)) SFS_NOINO) as [Hz|Hnz].
    + apply Hgo. by apply (scanned_empty _ _ _ _ _ empty).
    + wps. apply (wp_deref _ _ _ _ _ (lexcmp (dname (dentry fs (sv_i sv) n)) s)).
      { apply strcmp_spec; [apply dname_cstr|done| |done]. apply dname_bytes; [done|done|lia]. }
      destruct (Z.eqb_spec (lexcmp (dname (dentry fs (sv_i sv) n)) s) 0) as [He|He].
      * apply lexcmp_eq in He. subst s.
        destruct (scanned_found fs (sv_i sv) n found empty Hd ltac:(lia) Hnz Hsc) as [-> Hsc'].
        wps. apply wp_KASSERT; [done|]. by apply Hgo.
      * apply Hgo, scanned_other; [done|done| |done]. intros Hs. by apply He, lexcmp_eq.
Qed.

Lemma sfs_dir_nentries_wp C fs sv (Q : Z → svst HW → Prop) E :
  dir_ok fs (sv_i sv) → Q (sfi_size (sv_i sv) / 64) (SvSt fs sv) →
  wp C sfs_dir_nentries Q E (SvSt fs sv).
Proof.
  intros [_ Ht [Hm _] _] HQ. unfold sfs_dir_nentries, DIRENTRY_SIZE. wps. cbn [st_sv].
  apply wp_KASSERT; [by rewrite Ht|]. wps. rewrite Hm. cbn [negb Z.eqb]. by wps.
Qed.

Lemma dir_size_nonneg fs i : file_ok fs i → 0 ≤ sfi_size i / 64.
Proof. intros [[[Hs _] _ _ _ _ _] _ _]. by apply Z.div_pos. Qed.

Lemma sfs_dir_search_wp C fs sv name s (Q : option (Z * Z) * option Z → svst HW → Prop) E :
  vol_ok fs → locked fs → dir_ok fs (sv_i sv) → is_cstr name s → Forall is_u8 s →
  (∀ r fs', fs_upd (blk fs) (used fs) fs fs' →
     scanned fs (sv_i sv) (sfi_size (sv_i sv) / 64) s r.1 r.2 → Q r (SvSt fs' sv)) →
  wp C (sfs_dir_search name) Q E (SvSt fs sv).
Proof.
  intros Hv Hl Hd Hnm Hs HQ. unfold sfs_dir_search. wps.
  apply sfs_dir_nentries_wp; [done|]. wps. pose proof (dir_size_nonneg _ _ (do_file _ _ Hd)).
  apply (sfs_dir_scan_wp C _ 0 fs sv name s None None); [done..|lia|lia| |done].
  split; [|intros m Hm; lia]. intros m ino Hm [Hr _]. lia.
Qed.

(** ** Writing entries *)

Lemma frange_wrote_same off data fs i fs' i' :
  wrote off data fs i fs' i' → 0 ≤ off → off + Z.of_nat (length data) ≤ FILE_MAX →
  frange fs' i' off (Z.of_nat (length data)) = data.
Proof.
  intros Hw Ho Hm. apply list_eq. intros k. unfold frange. rewrite list_lookup_fmap.
  destruct (decide (k < length data)%nat) as [Hk|Hk].
  - rewrite lookup_seqZ_lt by lia. cbn -[fbyte].
    rewrite (wr_bytes _ _ _ _ _ _ Hw), decide_True by lia.
    replace (Z.to_nat (off + Z.of_nat k - off)) with k by lia.
    destruct (lookup_lt_is_Some_2 data k Hk) as [y Hy]. by rewrite Hy.
  - rewrite lookup_seqZ_ge by lia. symmetry. apply lookup_ge_None_2. lia.
Qed.

Lemma frange_wrote_other off data fs i fs' i' p n :
  wrote off data fs i fs' i' → 0 ≤ p → p + n ≤ FILE_MAX →
  p + n ≤ off ∨ off + Z.of_nat (length data) ≤ p ∨ data = [] →
  frange fs' i' p n = frange fs i p n.
Proof.
  intros Hw Hp Hm Hd. unfold frange. apply list_fmap_ext. intros k x [-> Hk]%lookup_seqZ.
  rewrite (wr_bytes _ _ _ _ _ _ Hw) by lia. apply decide_False.
  intros Hx. destruct Hd as [?|[?| ->]]; cbn in *; lia.
Qed.

Lemma frange_size fs i m off n : frange fs (set_size m i) off n = frange fs i off n.
Proof. reflexivity. Qed.

#[local] Transparent dentry.
(** The entries after slot [n] got [d]. *)
Lemma dentry_wrote n d fs i fs' i1 m :
  direntry_ok d → wrote (n * 64) (direntry_encode d) fs i fs' i1 →
  0 ≤ n → n * 64 + 64 ≤ FILE_MAX → 0 ≤ m → m * 64 + 64 ≤ FILE_MAX →
  dentry fs' (grow_size (n * 64) (direntry_encode d) i i1) m =
  if decide (m = n) then d else dentry fs i m.
Proof.
  intros Hd Hw Hn Hnm Hm Hmm. pose proof (direntry_encode_length d Hd) as Hl.
  assert (He : ∀ k, dentry fs' (grow_size (n * 64) (direntry_encode d) i i1) k = dentry fs' i1 k).
  { intros k. unfold grow_size. destruct (_ <? _); [|reflexivity].
    unfold dentry. by rewrite frange_size. }
  rewrite He. unfold dentry. destruct (decide (m = n)) as [->|Hne].
  - pose proof (frange_wrote_same _ _ _ _ _ _ Hw) as Hf. rewrite Hl in Hf.
    change (Z.of_nat 64) with 64 in Hf.
    rewrite Hf by lia. by apply direntry_decode_encode.
  - rewrite (frange_wrote_other _ _ _ _ _ _ _ _ Hw); [done|lia..].
Qed.

(** New blocks do not change the entries. *)
Lemma dentry_grows fs i fs' i' m :
  grows fs i fs' i' → 0 ≤ m → m * 64 + 64 ≤ FILE_MAX → dentry fs' i' m = dentry fs i m.
Proof.
  intros Hg Hm Hmm. unfold dentry.
  rewrite (frange_wrote_other 0 [] fs i fs' i'); [done|by apply grows_wrote|lia|lia|tauto].
Qed.
#[local] Opaque dentry.

(** Slot [n] of the directory holds [d] now. *)
Record dput n d fs i fs' i' : Prop := DPut {
  dp_ok : vol_ok fs';
  dp_frame : frame fs fs';
  dp_file : file_ok fs' i';
  dp_type : sfi_type i' = sfi_type i;
  dp_links : sfi_linkcount i' = sfi_linkcount i;
  dp_size : sfi_size i' = Z.max (sfi_size i) (n * 64 + 64);
  dp_entry : ∀ m, 0 ≤ m → m * 64 + 64 ≤ FILE_MAX →
    dentry fs' i' m = if decide (m = n) then d else dentry fs i m;
  dp_only : only fs i fs' i';
}.

Lemma wrote_dput n d fs i fs' i1 :
  direntry_ok d → wrote (n * 64) (direntry_encode d) fs i fs' i1 →
  0 ≤ n → n * 64 + 64 ≤ FILE_MAX →
  dput n d fs i fs' (grow_size (n * 64) (direntry_encode d) i i1).
Proof.
  intros Hd Hw Hn Hnm. pose proof (λ m, dentry_wrote n d fs i fs' i1 m Hd Hw Hn Hnm) as He.
  pose proof (direntry_encode_length d Hd) as Hl. pose proof (wrote_only _ _ _ _ _ _ Hw) as Ho.
  destruct Hw as [H1 H2 H3 [Hs [Ht [Hlk _]]] _ _ _ _ _].
  assert (Hg : grow_size (n * 64) (direntry_encode d) i i1 = i1 ∧ n * 64 + 64 ≤ sfi_size i ∨
    grow_size (n * 64) (direntry_encode d) i i1 = set_size (n * 64 + 64) i1 ∧
    sfi_size i < n * 64 + 64).
  { unfold grow_size. rewrite Hl. destruct (Z.ltb_spec (sfi_size i) (n * 64 + Z.of_nat 64));
      [right|left]; split; try done; lia. }
  assert (Hu : is_u32 (n * 64 + 64)) by (unfold is_u32, FILE_MAX in *; lia).
  split; [done|done| | | | | |].
  - destruct Hg as [[-> _]|[-> _]]; [done|]. by apply file_ok_size.
  - destruct Hg as [[-> _]|[-> _]]; done.
  - destruct Hg as [[-> _]|[-> _]]; done.
  - destruct Hg as [[-> ?]|[-> ?]]; cbn; lia.
  - exact He.
  - destruct Hg as [[-> _]|[-> _]]; [done|]. by apply only_size.
Qed.

Lemma sfs_metaio_efbig C pos data rw fs sv (Q : list Z → svst HW → Prop) E :
  locked fs → FILE_MAX ≤ pos < 2199023255552 → E EFBIG (SvSt fs sv) →
  wp C (sfs_metaio pos data rw) Q E (SvSt fs sv).
Proof.
  intros Hl Hp HE. unfold sfs_metaio. wps. apply biglock_held_wp; [done|]. wps.
  apply wp_KASSERT; [done|]. unfold SFS_BLOCKSIZE, FILE_MAX in *.
  rewrite file_block by lia. wps.
  wp_call (sfs_bmap_efbig C); [done| |done| |done].
  - apply Z.div_le_lower_bound; lia.
  - by intros e s [-> ->].
Qed.

Lemma sfs_writedir_wp C n d fs sv (Q : unit → svst HW → Prop) (E : errno → svst HW → Prop) :
  vol_ok fs → locked fs → dir_ok fs (sv_i sv) → direntry_ok d → Forall is_u8 (direntry_encode d) →
  0 ≤ n ≤ sfi_size (sv_i sv) / 64 →
  (∀ fs' sv', n * 64 + 64 ≤ FILE_MAX → dput n d fs (sv_i sv) fs' (sv_i sv') →
     same_vn sv sv' → Q tt (SvSt fs' sv')) →
  (∀ fs' sv', full fs' → n * 64 + 64 ≤ FILE_MAX → grows fs (sv_i sv) fs' (sv_i sv') →
     same_vn sv sv' → slot fs (sv_i sv) (n * 64 / 512) = 0 → E ENOSPC (SvSt fs' sv')) →
  (n * 64 = FILE_MAX → E EFBIG (SvSt fs sv)) →
  wp C (sfs_writedir n d) Q E (SvSt fs sv).
Proof.
  intros Hv Hl Hd Hdo Hby Hn HQ HE HB. pose proof (direntry_encode_length d Hdo) as Hlen.
  destruct Hd as [Hf Ht [Hm Hmax] _].
  assert (Hle : n * 64 ≤ sfi_size (sv_i sv)).
  { pose proof (Z.div_mod (sfi_size (sv_i sv)) 64 ltac:(lia)). lia. }
  unfold sfs_writedir. wps. apply wp_KASSERT; [apply Z.leb_le; lia|]. wps.
  rewrite dir_pos_small by lia.
  destruct (decide (n * 64 = FILE_MAX)) as [He|Hne].
  { apply sfs_metaio_efbig; [done|unfold FILE_MAX in *; lia|by apply HB]. }
  assert (Hroom : n * 64 + 64 ≤ FILE_MAX) by (unfold FILE_MAX in *; lia).
  apply sfs_metaio_write_wp; [done|done|done|rewrite Hlen; apply meta_entry; lia|done| |].
  - intros fs' sv' i1 Hw Hi Hsv. wps. apply HQ; [done| |done].
    rewrite Hi. apply wrote_dput; [done|done|lia|done].
  - intros fs' sv' Hfu Hg Hsv Hs0. by apply HE.
Qed.

(** ** The map after a change *)

Lemma dput_count n d fs i fs' i' :
  dput n d fs i fs' i' → sfi_size i mod 64 = 0 → 0 ≤ n ≤ sfi_size i / 64 →
  sfi_size i' / 64 = Z.max (sfi_size i / 64) (n + 1) ∧ sfi_size i' mod 64 = 0.
Proof.
  intros Hp Hm Hn. rewrite (dp_size _ _ _ _ _ _ Hp).
  pose proof (Z.div_mod (sfi_size i) 64 ltac:(lia)) as Hd.
  destruct (Z.max_spec (sfi_size i) (n * 64 + 64)) as [[H1 ->]|[H1 ->]].
  - replace (n * 64 + 64) with ((n + 1) * 64) by lia. rewrite Z.div_mul, Z_mod_mult by lia. lia.
  - lia.
Qed.

Lemma dlive_dput n d fs i fs' i' m s a :
  dput n d fs i fs' i' → dir_ok fs i → 0 ≤ n ≤ sfi_size i / 64 → n * 64 + 64 ≤ FILE_MAX →
  dlive fs' i' m s a ↔
  m = n ∧ sfd_ino d = a ∧ a ≠ 0 ∧ dname d = s ∨ m ≠ n ∧ dlive fs i m s a.
Proof.
  intros Hp Hd Hn Hr. destruct (dput_count n d fs i fs' i' Hp) as [Hc _];
    [apply (do_size _ _ Hd)|done|].
  unfold dlive. rewrite Hc. destruct (decide (m = n)) as [->|Hne].
  - rewrite (dp_entry _ _ _ _ _ _ Hp n) by lia. rewrite decide_True by done. split.
    + intros (_ & H). by left.
    + intros [(_ & H)|(? & _)]; [|done]. split; [lia|done].
  - assert (Hlt : 0 ≤ m < sfi_size i / 64 → dentry fs' i' m = dentry fs i m).
    { intros Hm. pose proof (dentry_range _ _ _ Hd Hm). pose proof (proj2 (do_size _ _ Hd)).
      rewrite (dp_entry _ _ _ _ _ _ Hp m) by lia. by rewrite decide_False. }
    split.
    + intros (Hm & H). right. split; [done|]. assert (Hm' : 0 ≤ m < sfi_size i / 64) by lia.
      rewrite (Hlt Hm') in H. by split.
    + intros [(He & _)|(_ & Hm & H)]; [destruct (Hne He)|]. rewrite (Hlt Hm). split; [lia|exact H].
Qed.

Lemma dir_ok_dput n d fs i fs' i' :
  dput n d fs i fs' i' → dir_ok fs i → 0 ≤ n ≤ sfi_size i / 64 → n * 64 + 64 ≤ FILE_MAX →
  (∀ m a, m ≠ n → sfd_ino d ≠ 0 → ¬ dlive fs i m (dname d) a) → dir_ok fs' i'.
Proof.
  intros Hp Hd Hn Hr Hu. pose proof (do_size _ _ Hd) as [Hm64 Hmax]. split.
  - exact (dp_file _ _ _ _ _ _ Hp).
  - rewrite (dp_type _ _ _ _ _ _ Hp). exact (do_type _ _ Hd).
  - destruct (dput_count n d fs i fs' i' Hp) as [_ Hmod]; [done..|]. split; [done|].
    rewrite (dp_size _ _ _ _ _ _ Hp). lia.
  - intros m1 m2 s a b H1 H2.
    apply (dlive_dput n d fs i fs' i' m1 s a Hp Hd Hn Hr) in H1.
    apply (dlive_dput n d fs i fs' i' m2 s b Hp Hd Hn Hr) in H2.
    destruct H1 as [(-> & <- & Ha & <-)|(Hm1 & H1)], H2 as [(-> & <- & Hb & Hs)|(Hm2 & H2)].
    + done.
    + by destruct (Hu m2 b Hm2 Ha).
    + subst s. by destruct (Hu m1 a Hm1 Hb).
    + exact (do_uniq _ _ Hd _ _ _ _ _ H1 H2).
Qed.

(** An entry written to a slot that was not in use. *)
Lemma dir_repr_insert D n ino nm s fs i fs' i' :
  dir_repr D fs i → dput n (SfsDirentry ino nm) fs i fs' i' →
  0 ≤ n ≤ sfi_size i / 64 → n * 64 + 64 ≤ FILE_MAX → ino ≠ 0 →
  dname (SfsDirentry ino nm) = s → D !! s = None → (∀ t a, ¬ dlive fs i n t a) →
  dir_repr (<[s := ino]> D) fs' i'.
Proof.
  intros [Hd HD] Hp Hn Hr Hi Hs Hnone Hfree.
  assert (Hno : ∀ m a, ¬ dlive fs i m s a).
  { intros m a Hl. assert (D !! s = Some a) by (apply HD; by exists m). congruence. }
  split.
  - eapply dir_ok_dput; [exact Hp|exact Hd|done|done|]. intros m a _ _. rewrite Hs. apply Hno.
  - intros t a. pose proof (λ m, dlive_dput n _ fs i fs' i' m t a Hp Hd Hn Hr) as Hl.
    rewrite lookup_insert_Some, HD. split.
    + intros [[<- <-]|[Hne [m Hm]]].
      * exists n. apply (Hl n). by left.
      * exists m. apply (Hl m). right. split; [|done]. intros ->. by apply (Hfree t a).
    + intros [m Hm]. apply (Hl m) in Hm as [(-> & <- & _ & <-)|[Hmn Hm]]; [left; by split|].
      right. split; [intros <-; by apply (Hno m a)|by exists m].
Qed.

(** A slot in use that was cleared. *)
Lemma dir_repr_delete D n nm s a fs i fs' i' :
  dir_repr D fs i → dlive fs i n s a → dput n (SfsDirentry 0 nm) fs i fs' i' →
  n * 64 + 64 ≤ FILE_MAX → dir_repr (delete s D) fs' i'.
Proof.
  intros [Hd HD] Hlv Hp Hr. assert (Hn : 0 ≤ n ≤ sfi_size i / 64) by (destruct Hlv; lia).
  split; [by eapply dir_ok_dput|].
  intros t b. pose proof (λ m, dlive_dput n _ fs i fs' i' m t b Hp Hd Hn Hr) as Hl.
  rewrite lookup_delete_Some, HD. split.
  - intros [Hne [m Hm]]. exists m. apply (Hl m). right. split; [|done]. intros ->.
    destruct Hlv as (_ & _ & _ & <-), Hm as (_ & _ & _ & <-). done.
  - intros [m Hm]. apply (Hl m) in Hm as [(_ & <- & H0 & _)|[Hmn Hm]]; [done|].
    split; [|by exists m]. intros ->. apply Hmn. exact (do_uniq _ _ Hd _ _ _ _ _ Hm Hlv).
Qed.

Lemma dlive_grows fs i fs' i' n s a :
  dir_ok fs i → grows fs i fs' i' → dlive fs' i' n s a ↔ dlive fs i n s a.
Proof.
  intros Hd Hg. unfold dlive. destruct (gr_meta _ _ _ _ Hg) as [-> _].
  assert (He : 0 ≤ n < sfi_size i / 64 → dentry fs' i' n = dentry fs i n).
  { intros Hn. pose proof (dentry_range _ _ _ Hd Hn). pose proof (proj2 (do_size _ _ Hd)).
    apply (dentry_grows fs i fs' i'); [done|lia|lia]. }
  split; intros [Hn H]; (split; [exact Hn|]); [rewrite (He Hn) in H|rewrite (He Hn)]; exact H.
Qed.

Lemma dir_repr_grows D fs i fs' i' : dir_repr D fs i → grows fs i fs' i' → dir_repr D fs' i'.
Proof.
  intros [Hd HD] Hg. pose proof (λ n s a, dlive_grows fs i fs' i' n s a Hd Hg) as Hl.
  pose proof (gr_meta _ _ _ _ Hg) as (Hs & Ht & _). split.
  - split; [exact (gr_file _ _ _ _ Hg)|rewrite Ht; exact (do_type _ _ Hd)
           |rewrite Hs; exact (do_size _ _ Hd)|].
    intros n m s a b H1 H2. exact (do_uniq _ _ Hd n m s a b (proj1 (Hl _ _ _) H1) (proj1 (Hl _ _ _) H2)).
  - intros s a. rewrite HD. split; intros [n H]; exists n;
      [exact (proj2 (Hl _ _ _) H)|exact (proj1 (Hl _ _ _) H)].
Qed.

(** ** The operations on the map *)

Lemma sfs_dir_findname_wp C D fs sv name s (Q : Z * Z → svst HW → Prop)
    (E : errno → svst HW → Prop) :
  vol_ok fs → locked fs → dir_repr D fs (sv_i sv) → is_cstr name s → Forall is_u8 s →
  (∀ fs' ino n, fs_upd (blk fs) (used fs) fs fs' → D !! s = Some ino →
     dlive fs (sv_i sv) n s ino → Q (ino, n) (SvSt fs' sv)) →
  (∀ fs', fs_upd (blk fs) (used fs) fs fs' → D !! s = None → E ENOENT (SvSt fs' sv)) →
  wp C (sfs_dir_findname name) Q E (SvSt fs sv).
Proof.
  intros Hv Hl [Hd HD] Hnm Hs HQ HE. unfold sfs_dir_findname. wps.
  apply (sfs_dir_search_wp _ _ _ _ s); [done..|]. intros [found empty] fs' Hu [Ha _].
  cbn [fst snd] in *. destruct found as [[ino n]|]; wps.
  - apply HQ; [done|apply HD; exists n; exact (proj2 Ha)|exact (proj2 Ha)].
  - apply HE; [done|]. apply eq_None_not_Some. intros [ino [n Hlv]%HD].
    apply (Ha n ino); [|done]. destruct Hlv; lia.
Qed.

(** The bytes of a name in a field. *)
Lemma dname_field ino s :
  0 ∉ s → (length s < 60)%nat →
  dname (SfsDirentry ino (s ++ 0 :: drop (S (length s)) (replicate 60 0))) = s.
Proof.
  intros H0 Hl. apply cstr_of_eq. split; [done|]. cbn [sfd_name].
  exists (replicate (59 - length s) 0). rewrite drop_replicate.
  replace (60 - S (length s))%nat with (59 - length s)%nat by lia.
  apply list_eq. intros k. destruct (decide (k = 59)%nat) as [->|Hne].
  - rewrite list_lookup_insert_eq by (rewrite length_app; cbn; rewrite length_replicate; lia).
    rewrite lookup_app_r by lia. destruct (59 - length s)%nat as [|j] eqn:Hj; [done|].
    change (Some 0 = replicate (S j) 0 !! j). by rewrite lookup_replicate_2 by lia.
  - by rewrite list_lookup_insert_ne.
Qed.

Lemma entry_ok ino s :
  is_u32 ino → Forall is_u8 s → (length s < 60)%nat →
  let d := SfsDirentry ino (s ++ 0 :: drop (S (length s)) (replicate 60 0)) in
  direntry_ok d ∧ Forall is_u8 (direntry_encode d).
Proof.
  intros Hi Hs Hl d. assert (Hb : Forall is_u8 (sfd_name d)).
  { cbn [sfd_name d]. apply Forall_app. split; [done|]. constructor; [by split|].
    rewrite drop_replicate. apply zeros_bytes. }
  split; [split; [done|split; [|done]]|].
  - cbn [sfd_name d]. rewrite length_app. cbn [length]. rewrite length_drop, length_replicate. lia.
  - unfold direntry_encode. apply Forall_app. split; [apply be_encode_bytes|done].
Qed.

Definition link_done D fs sv s ino n (st : svst HW) : Prop :=
  let i' := sv_i (st_sv st) in
  dir_repr (<[s := ino]> D) (st_fs st) i' ∧ dlive (st_fs st) i' n s ino ∧
  vol_ok (st_fs st) ∧ frame fs (st_fs st) ∧ same_vn sv (st_sv st) ∧
  sfi_linkcount i' = sfi_linkcount (sv_i sv) ∧ only fs (sv_i sv) (st_fs st) i'.

Definition link_failed D fs sv (st : svst HW) : Prop :=
  dir_repr D (st_fs st) (sv_i (st_sv st)) ∧ vol_ok (st_fs st) ∧ frame fs (st_fs st) ∧
  same_vn sv (st_sv st) ∧ only fs (sv_i sv) (st_fs st) (sv_i (st_sv st)).

Lemma link_failed_read D fs sv fs' :
  vol_ok fs → dir_repr D fs (sv_i sv) → fs_upd (blk fs) (used fs) fs fs' →
  link_failed D fs sv (SvSt fs' sv).
Proof.
  intros Hv HD Hu. split; [by eapply (dir_repr_read D fs)|].
  split; [exact (fu_ok _ _ _ _ Hu)|]. split; [exact (fu_frame _ _ _ _ Hu)|].
  split; [apply same_vn_refl|]. by apply grows_only, grows_read; [|apply HD|].
Qed.

(** The slot that [sfs_dir_link] writes is not in use. *)
Lemma scanned_slot fs i s found empty :
  dir_ok fs i → scanned fs i (sfi_size i / 64) s found empty →
  let n := default (sfi_size i / 64) empty in
  0 ≤ n ≤ sfi_size i / 64 ∧ ∀ t a, ¬ dlive fs i n t a.
Proof.
  intros Hd [_ Hb]. pose proof (dir_size_nonneg _ _ (do_file _ _ Hd)).
  destruct empty as [m|]; cbn [default from_option id].
  - destruct Hb as [Hm Hz]. split; [lia|]. intros t a (_ & <- & Hnz & _). exact (Hnz Hz).
  - split; [lia|]. intros t a (Hr & _). lia.
Qed.

Lemma link_write_wp C D fs sv name s ino n :
  vol_ok fs → locked fs → dir_repr D fs (sv_i sv) → is_cstr name s → Forall is_u8 s →
  is_u32 ino → ino ≠ 0 → D !! s = None → (length s < 60)%nat →
  0 ≤ n ≤ sfi_size (sv_i sv) / 64 → (∀ t a, ¬ dlive fs (sv_i sv) n t a) →
  wp C (nm <- deref (strcpy (replicate 60 0) name) ;;
        sfs_writedir n (SfsDirentry ino nm) ;;; ret n)
    (λ n', link_done D fs sv s ino n')
    (λ e st, (e = ENOSPC ∧ full (st_fs st) ∨ e = EFBIG ∧ sfi_size (sv_i sv) = FILE_MAX) ∧
       link_failed D fs sv st)
    (SvSt fs sv).
Proof.
  intros Hv Hl HD Hnm Hs Hi Hi0 Hnone Hlen Hn Hfree. pose proof HD as [Hd _].
  destruct (entry_ok ino s Hi Hs Hlen) as [Hok Hby].
  wps. eapply wp_deref; [apply strcpy_spec; [done|]; by rewrite length_replicate|]. wps.
  apply sfs_writedir_wp; [done|done|done|exact Hok|exact Hby|done| | |].
  - intros fs' sv' Hr Hp Hsv. wps. pose proof (dname_field ino s (proj1 Hnm) Hlen) as Hnam.
    split; [eapply dir_repr_insert; [exact HD|exact Hp|done|done|done|exact Hnam|done|exact Hfree]|].
    split; [apply (proj2 (dlive_dput _ _ _ _ _ _ n s ino Hp Hd Hn Hr)); by left|].
    split; [exact (dp_ok _ _ _ _ _ _ Hp)|]. split; [exact (dp_frame _ _ _ _ _ _ Hp)|].
    split; [exact Hsv|]. split; [exact (dp_links _ _ _ _ _ _ Hp)|exact (dp_only _ _ _ _ _ _ Hp)].
  - intros fs' sv' Hfu Hr Hg Hsv _. split; [left; by split|].
    split; [by eapply dir_repr_grows|]. split; [exact (gr_ok _ _ _ _ Hg)|].
    split; [exact (gr_frame _ _ _ _ Hg)|]. split; [exact Hsv|by apply grows_only].
  - intros Hmax. split; [right; split; [done|]|].
    + pose proof (do_size _ _ Hd) as [Hm Hle].
      pose proof (Z.div_mod (sfi_size (sv_i sv)) 64 ltac:(lia)). lia.
    + apply link_failed_read; [done|done|by apply fs_upd_refl].
Qed.

Lemma sfs_dir_link_wp C D fs sv name s ino :
  vol_ok fs → locked fs → dir_repr D fs (sv_i sv) → is_cstr name s → Forall is_u8 s →
  is_u32 ino → ino ≠ 0 →
  wp C (sfs_dir_link name ino)
    (λ n st, D !! s = None ∧ (length s < 60)%nat ∧ link_done D fs sv s ino n st)
    (λ e st, (if decide (D !! s = None) then
                if decide (60 ≤ length s)%nat then e = ENAMETOOLONG
                else e = ENOSPC ∧ full (st_fs st) ∨ e = EFBIG ∧ sfi_size (sv_i sv) = FILE_MAX
              else e = EEXIST) ∧ link_failed D fs sv st)
    (SvSt fs sv).
Proof.
  intros Hv Hl HD Hnm Hs Hi Hi0. pose proof HD as [Hd HDl]. unfold sfs_dir_link. wps.
  apply (sfs_dir_search_wp _ _ _ _ s); [done..|]. intros [found empty] fs1 Hu Hsc.
  pose proof (scanned_slot _ _ _ _ _ Hd Hsc) as [Hn Hfree]. destruct Hsc as [Ha _].
  cbn [fst snd] in *. destruct found as [[ino' m]|]; wps.
  { rewrite decide_False; [split; [done|by apply link_failed_read]|].
    assert (D !! s = Some ino') as ->; [|done]. apply HDl. exists m. exact (proj2 Ha). }
  assert (Hnone : D !! s = None).
  { apply eq_None_not_Some. intros [a [m Hlv]%HDl]. apply (Ha m a); [|exact Hlv].
    destruct Hlv; lia. }
  eapply wp_deref; [by apply strlen_spec|]. unfold SFS_NAMELEN.
  destruct (Z.ltb_spec 60 (Z.of_nat (length s) + 1)) as [Hge|Hlt].
  { wps. rewrite decide_True by done. rewrite decide_True by lia. split; [done|by apply link_failed_read]. }
  set (n := default (sfi_size (sv_i sv) / 64) empty) in *.
  assert (Hv1 : vol_ok fs1) by exact (fu_ok _ _ _ _ Hu).
  assert (Hl1 : locked fs1) by (eapply frame_locked; [exact (fu_frame _ _ _ _ Hu)|done]).
  assert (HD1 : dir_repr D fs1 (sv_i sv)) by by apply (dir_repr_read D fs).
  assert (Hf1 : ∀ t a, ¬ dlive fs1 (sv_i sv) n t a).
  { intros t a Hlv. exact (Hfree t a (proj1 (dlive_read _ _ _ _ _ _ Hu) Hlv)). }
  assert (Hr1 : only fs (sv_i sv) fs1 (sv_i sv)) by (by apply grows_only, grows_read; [|apply Hd|]).
  pose proof (link_write_wp C D fs1 sv name s ino n Hv1 Hl1 HD1 Hnm Hs Hi Hi0 Hnone
    ltac:(lia) Hn Hf1) as Hw.
  assert (Hemp : wp C match empty with Some slot => ret slot | None => sfs_dir_nentries end
    (λ k st, k = n ∧ st = SvSt fs1 sv) no_err (SvSt fs1 sv)).
  { destruct empty as [k|]; cbn in n; [by wps|]. by apply sfs_dir_nentries_wp; [apply HD1|]. }
  wps. eapply wp_mono; [exact Hemp| |done|done]. intros k st [-> ->].
  eapply wp_mono; [exact Hw| | |done].
  - intros k st (H1 & H2 & H3 & H4 & H5 & H6 & H7). split; [done|]. split; [lia|].
    split; [exact H1|]. split; [exact H2|]. split; [exact H3|].
    split; [eapply frame_trans; [exact (fu_frame _ _ _ _ Hu)|exact H4]|].
    split; [exact H5|]. split; [exact H6|]. eapply only_trans; [exact Hr1|exact H7].
  - intros e st [He (H1 & H2 & H3 & H4 & H5)]. rewrite decide_True by done.
    rewrite decide_False by lia. split; [exact He|]. split; [exact H1|].
    split; [exact H2|].
    split; [eapply frame_trans; [exact (fu_frame _ _ _ _ Hu)|exact H3]|].
    split; [exact H4|]. eapply only_trans; [exact Hr1|exact H5].
Qed.

(** An entry in use lies in a block the directory has. *)
#[local] Transparent dentry.
Lemma dlive_slot fs i n s a :
  dir_ok fs i → dlive fs i n s a → slot fs i (n * 64 / 512) ≠ 0.
Proof.
  intros Hd (Hn & Ha & Ha0 & _) Hs0. pose proof (dentry_range _ _ _ Hd Hn) as Hr.
  pose proof (proj2 (do_size _ _ Hd)) as Hmax. apply Ha0. rewrite <-Ha. unfold dentry.
  replace (frange fs i (n * 64) 64) with (replicate 64 0); [reflexivity|].
  apply (frange_zero fs i (n * 64) 64); [|exact Hs0]. apply meta_entry; lia.
Qed.
#[local] Opaque dentry.

Lemma sfs_dir_unlink_wp C D fs sv n s a (Q : unit → svst HW → Prop) E :
  vol_ok fs → locked fs → dir_repr D fs (sv_i sv) → dlive fs (sv_i sv) n s a →
  (∀ fs' sv', dir_repr (delete s D) fs' (sv_i sv') →
     dput n (SfsDirentry 0 (replicate 60 0)) fs (sv_i sv) fs' (sv_i sv') →
     same_vn sv sv' → Q tt (SvSt fs' sv')) →
  wp C (sfs_dir_unlink n) Q E (SvSt fs sv).
Proof.
  intros Hv Hl HD Hlv HQ. pose proof HD as [Hd _]. unfold sfs_dir_unlink, SFS_NOINO.
  destruct (entry_ok 0 [] ltac:(by split) ltac:(constructor) ltac:(cbn; lia)) as [Hok Hby].
  pose proof (dlive_slot _ _ _ _ _ Hd Hlv) as Hs0. pose proof Hlv as [Hn _].
  pose proof (dentry_range _ _ _ Hd Hn) as Hr. pose proof (proj2 (do_size _ _ Hd)) as Hmax.
  apply sfs_writedir_wp; [done|done|done|exact Hok|exact Hby|lia| | |].
  - intros fs' sv' Hroom Hp Hsv. apply HQ; [|exact Hp|exact Hsv].
    eapply dir_repr_delete; [exact HD|exact Hlv|exact Hp|done].
  - intros fs' sv' _ _ _ _ Hz. destruct (Hs0 Hz).
  - intros He. lia.
Qed.

End dir.

(** ** The theorems about directories *)

(** C14: looking a name up in a directory returns the inode number that the
    directory maps it to, with the slot of its only entry, and ENOENT when the
    name is not there.  The directory is not changed.  The disk is a working one
    (no media errors) and the thread holds the big lock. *)
Theorem sfs_dir_findname_correct {HW} `{!DiskHw HW, !WorkingDisk HW}
    D (fs : sfs_fs HW) sv name s :
  vol_ok fs → locked fs → dir_repr D fs (sv_i sv) → is_cstr name s → Forall is_u8 s →
  match sfs_dir_findname name (SvSt fs sv) with
  | Ok (ino, n) st => D !! s = Some ino ∧ dlive fs (sv_i sv) n s ino ∧
      st_sv st = sv ∧ dir_repr D (st_fs st) (sv_i sv)
  | Err e st => e = ENOENT ∧ D !! s = None ∧ st_sv st = sv ∧ dir_repr D (st_fs st) (sv_i sv)
  | Crash _ => False
  end.
Proof.
  intros Hv Hl HD Hnm Hs.
  cut (wp no_crash (sfs_dir_findname name)
    (λ r st, D !! s = Some r.1 ∧ dlive fs (sv_i sv) r.2 s r.1 ∧ st_sv st = sv ∧
       dir_repr D (st_fs st) (sv_i sv))
    (λ e st, e = ENOENT ∧ D !! s = None ∧ st_sv st = sv ∧ dir_repr D (st_fs st) (sv_i sv))
    (SvSt fs sv)).
  { unfold wp. by destruct (sfs_dir_findname _ _) as [[ino n] ?| |]. }
  apply (sfs_dir_findname_wp _ D _ _ _ s); [done..| |].
  - intros fs' ino n Hu He Hlv. split; [done|]. split; [exact Hlv|]. split; [done|].
    by apply (dir_repr_read D fs).
  - intros fs' Hu He. split; [done|]. split; [done|]. split; [done|].
    by apply (dir_repr_read D fs).
Qed.

(** C3: linking a name adds it to the map that the directory stands for and
    returns the slot of the new entry.  A name that is there already is
    refused with EEXIST, one that does not fit an entry with ENAMETOOLONG; the
    other failures are a full volume and a directory of the largest size.
    After a failure the directory stands for the same map.  The disk is a
    working one and the thread holds the big lock; the media errors of other
    disks, which come back as EIO, are left out. *)
Theorem sfs_dir_link_correct {HW} `{!DiskHw HW, !WorkingDisk HW}
    D (fs : sfs_fs HW) sv name s ino :
  vol_ok fs → locked fs → dir_repr D fs (sv_i sv) → is_cstr name s → Forall is_u8 s →
  is_u32 ino → ino ≠ 0 →
  match sfs_dir_link name ino (SvSt fs sv) with
  | Ok n st => D !! s = None ∧ (length s < 60)%nat ∧ link_done D fs sv s ino n st
  | Err e st =>
      (if decide (D !! s = None) then
         if decide (60 ≤ length s)%nat then e = ENAMETOOLONG
         else e = ENOSPC ∧ full (st_fs st) ∨ e = EFBIG ∧ sfi_size (sv_i sv) = FILE_MAX
       else e = EEXIST) ∧ link_failed D fs sv st
  | Crash _ => False
  end.
Proof.
  intros Hv Hl HD Hnm Hs Hi Hi0.
  pose proof (sfs_dir_link_wp no_crash D fs sv name s ino Hv Hl HD Hnm Hs Hi Hi0) as H.
  unfold wp in H. by destruct (sfs_dir_link _ _ _).
Qed.

(** C15: clearing the slot of a name removes exactly that name from the map that
    the directory stands for, and touches no block that the directory does not
    own; on a working disk (no media errors), with the big lock
    held, it succeeds, also when the volume is full. *)
Theorem sfs_dir_unlink_correct {HW} `{!DiskHw HW, !WorkingDisk HW}
    D (fs : sfs_fs HW) sv n s a :
  vol_ok fs → locked fs → dir_repr D fs (sv_i sv) → dlive fs (sv_i sv) n s a →
  ∃ fs' sv', sfs_dir_unlink n (SvSt fs sv) = Ok tt (SvSt fs' sv') ∧
    dir_repr (delete s D) fs' (sv_i sv') ∧ vol_ok fs' ∧ frame fs fs' ∧ same_vn sv sv' ∧
    only fs (sv_i sv) fs' (sv_i sv').
Proof.
  intros Hv Hl HD Hlv. cut (wp no_crash (sfs_dir_unlink n)
    (λ _ st, dir_repr (delete s D) (st_fs st) (sv_i (st_sv st)) ∧ vol_ok (st_fs st) ∧
       frame fs (st_fs st) ∧ same_vn sv (st_sv st) ∧ only fs (sv_i sv) (st_fs st) (sv_i (st_sv st))) no_err (SvSt fs sv)).
  { intros H. destruct (wp_ok _ _ _ H) as ([] & [fs' sv'] & He & HP). by exists fs', sv'. }
  apply (sfs_dir_unlink_wp _ D _ _ _ s a); [done..|]. intros fs' sv' Hr Hp Hsv.
  split; [exact Hr|]. split; [exact (dp_ok _ _ _ _ _ _ Hp)|].
  split; [exact (dp_frame _ _ _ _ _ _ Hp)|]. split; [exact Hsv|exact (dp_only _ _ _ _ _ _ Hp)].
Qed.

(** ** A small directory

    Block 4 holds its entries: the name "a" for inode 3, and a free slot. *)

Definition dir_block : list Z :=
  direntry_encode (SfsDirentry 3 (97 :: replicate 59 0)) ++ replicate 448 0.

Definition dir_fs : sfs_fs ramdisk :=
  SfsFs small_sb false
    (LhdSoftc zero_sector None 1 0 64 0 LHD_IDLE (RamDisk 64 {[ 4 := dir_block ]}))
    (Bitmap 16 [0x1f; 0]) false (VfsLock 1 (Lock 1 0) 1).

Definition dir_inode : sfs_dinode :=
  SfsDinode 128 SFS_TYPE_DIR 1 (4 :: replicate 14 0) 0 (replicate 110 0).

Definition dir_sv : sfs_vnode := SfsVnode 1 sfs_dirops dir_inode 1 false.

Definition small_dir : gmap (list Z) Z := {[ [97] := 3 ]}.

Lemma dir_block_bytes : Forall is_u8 dir_block.
Proof.
  apply Forall_app. split; [|apply zeros_bytes]. apply Forall_app.
  split; [apply be_encode_bytes|]. constructor; [by split|apply zeros_bytes].
Qed.

Lemma dir_vol_ok : vol_ok dir_fs.
Proof.
  split; [| | | | |done|].
  - split; [done|apply length_replicate|done|done].
  - done.
  - split; [done|done|repeat constructor; lia|cbn; intros i Hi; lia].
  - done.
  - unfold nblocks. cbn. lia.
  - intros b Hb. unfold blk, sector. cbn [sfs_device lh_hw hw_sector ramdisk_hw dir_fs].
    unfold rd_sector. cbn [rd_data]. destruct (decide (b = 4)) as [->|Hne].
    + rewrite lookup_singleton_eq. cbn [default]. rewrite fit_sector_id by done.
      apply dir_block_bytes.
    + rewrite lookup_singleton_ne by done. cbn [default].
      rewrite fit_sector_id by apply length_replicate. apply zeros_bytes.
Qed.

Lemma dir_locked : locked dir_fs.
Proof. exists 1. split; [lia|]. repeat split; cbn; lia. Qed.

Lemma dir_slot k : is_slot k → slot dir_fs dir_inode k = if k =? 0 then 4 else 0.
Proof.
  intros Hk. unfold is_slot in Hk. unfold slot. cbn [dir_inode sfi_indirect sfi_direct].
  destruct (Z.eqb_spec k (-1)) as [->|]; [done|]. destruct (Z.ltb_spec k 15).
  - destruct (Z.eqb_spec k 0) as [->|]; [done|].
    replace (Z.to_nat k) with (S (Z.to_nat (k - 1))) by lia. apply default_replicate.
  - by rewrite (proj2 (Z.eqb_neq k 0)) by lia.
Qed.

Lemma dir_file_ok : file_ok dir_fs dir_inode.
Proof.
  split.
  - split; try done; repeat constructor; try lia; by split.
  - intros k Hk. rewrite (dir_slot k Hk). destruct (k =? 0); [|done]. intros _. by split.
  - intros j k Hj Hk. rewrite (dir_slot j Hj), (dir_slot k Hk).
    destruct (Z.eqb_spec j 0), (Z.eqb_spec k 0); lia.
Qed.

Lemma dir_entry0 : dlive dir_fs dir_inode 0 [97] 3.
Proof. split; [by vm_compute|]. by vm_compute. Qed.

Lemma dir_entries n s a : dlive dir_fs dir_inode n s a → n = 0 ∧ s = [97] ∧ a = 3.
Proof.
  intros (Hn & Ha & Ha0 & Hs). change (0 ≤ n < 2) in Hn.
  destruct (decide (n = 0)) as [->|]; [|assert (n = 1) as -> by lia].
  - split; [done|]. rewrite <-Hs, <-Ha. by vm_compute.
  - exfalso. apply Ha0. rewrite <-Ha. by vm_compute.
Qed.

Lemma small_dir_repr : dir_repr small_dir dir_fs dir_inode.
Proof.
  split; [split; [exact dir_file_ok|done|done|]|].
  - intros n m s a b Hn Hm. apply dir_entries in Hn as [-> _]. by apply dir_entries in Hm as [-> _].
  - intros s a. unfold small_dir. rewrite lookup_singleton_Some. split.
    + intros [<- <-]. exists 0. exact dir_entry0.
    + intros [n Hn]. by apply dir_entries in Hn as (_ & -> & ->).
Qed.

Lemma name_cstr c : c ≠ 0 → is_cstr [c; 0] [c].
Proof. intros Hc. split; [|by exists []]. by rewrite list_elem_of_singleton. Qed.

Lemma sfs_dir_findname_correct_witness :
  match sfs_dir_findname [97; 0] (SvSt dir_fs dir_sv) with
  | Ok (ino, n) st => small_dir !! [97] = Some ino ∧ dlive dir_fs dir_inode n [97] ino ∧
      st_sv st = dir_sv ∧ dir_repr small_dir (st_fs st) dir_inode
  | Err e st => e = ENOENT ∧ small_dir !! [97] = None ∧ st_sv st = dir_sv ∧
      dir_repr small_dir (st_fs st) dir_inode
  | Crash _ => False
  end.
Proof.
  apply (sfs_dir_findname_correct small_dir dir_fs dir_sv);
    [exact dir_vol_ok|exact dir_locked|exact small_dir_repr|by apply name_cstr|].
  constructor; [by split|constructor].
Defined.

Lemma sfs_dir_link_correct_witness :
  match sfs_dir_link [98; 0] 5 (SvSt dir_fs dir_sv) with
  | Ok n st => small_dir !! [98] = None ∧ (length [98] < 60)%nat ∧
      link_done small_dir dir_fs dir_sv [98] 5 n st
  | Err e st =>
      (if decide (small_dir !! [98] = None) then
         if decide (60 ≤ length [98])%nat then e = ENAMETOOLONG
         else e = ENOSPC ∧ full (st_fs st) ∨ e = EFBIG ∧ sfi_size dir_inode = FILE_MAX
       else e = EEXIST) ∧ link_failed small_dir dir_fs dir_sv st
  | Crash _ => False
  end.
Proof.
  apply (sfs_dir_link_correct small_dir dir_fs dir_sv);
    [exact dir_vol_ok|exact dir_locked|exact small_dir_repr|by apply name_cstr| |by split|done].
  constructor; [by split|constructor].
Defined.

Lemma sfs_dir_unlink_correct_witness :
  ∃ fs' sv', sfs_dir_unlink 0 (SvSt dir_fs dir_sv) = Ok tt (SvSt fs' sv') ∧
    dir_repr (delete [97] small_dir) fs' (sv_i sv') ∧ vol_ok fs' ∧ frame dir_fs fs' ∧
    same_vn dir_sv sv' ∧ only dir_fs (sv_i dir_sv) fs' (sv_i sv').
Proof.
  apply (sfs_dir_unlink_correct small_dir dir_fs dir_sv 0 [97] 3);
    [exact dir_vol_ok|exact dir_locked|exact small_dir_repr|exact dir_entry0].
Defined.
